(* ===== verification/_CoqProject ===== *)
-Q . S2P
Prelude.v
Effects.v
GoLib.v
Duration.v
K8s.v
ApiTypes.v
HealthScore.v
Collectors.v
Clients.v
Operator.v
Http.v
LosantClient.v
LosantServer.v
RancherClient.v
GeaClient.v
Interp.v
HealthStore.v
HealthWatcher.v
Provisioner.v
LosantSyncController.v
LosantSyncProofs.v
LosantSyncDevices.v
LosantSyncTheorems.v
LosantSyncExamples.v
Wire.v
Lifecycle.v
LifecycleExamples.v
RancherSession.v
RancherSessionProofs.v
RancherSessionExamples.v
SessionWait.v
Trigger.v
TriggerStart.v
Linearize.v
MockLosant.v
MockGea.v
MockRancher.v
Heap.v
DeepCopy.v
Flags.v
Main.v
