(* ===== verification/Prelude.v ===== *)
(** * Verification of the losant-device operator

    losant-device is a Kubernetes operator written in Go.  It watches the health of the
    cluster it runs in, represents the cluster and its nodes as devices in Losant, feeds
    their state to the in-cluster Losant edge agent (GEA), and on request imports the
    cluster into a Rancher server for a limited time.  This library models its logic
    and proves what makes it correct.

    ** The program and the files that model it

    - [Prelude]: tactics, 64-bit integers, strings, lists; [Effects]: programs that
      call an environment; [GoLib]: errors and time; [Duration]: time.ParseDuration;
      [K8s]: the Kubernetes objects that are used, and the class [K8sLib] of the library
      functions outside the repository with their documented laws ([K8sLibSpec]) and a
      reference instance [RefLib].
    - [ApiTypes]: api/v1alpha1/losantsync_types.go and ranchersession_types.go.
    - [HealthScore], [Collectors]: internal/monitor/health_score.go and the collectors
      pod_collector.go, node_collector.go, event_collector.go, pvc_collector.go,
      coredns_collector.go.
    - [HealthStore]: internal/monitor/store.go as a machine of interleaved threads over
      a heap of maps, one step per statement, with the RWMutex.
    - [HealthWatcher]: internal/controller/healthwatcher_controller.go, which lists the
      cluster, runs the collectors and installs the snapshot in the store.
    - [Clients]: the interfaces, data types and constructors of internal/losant,
      internal/gea and internal/rancher; [Operator]: the signature of every call that
      the operator makes to its environment.
    - [Provisioner]: internal/provisioner/bootstrap.go, the edge agent's credentials.
    - [LosantSyncController]: internal/controller/losantsync_controller.go; its theorems
      are in [LosantSyncTheorems] (stage lemmas in [LosantSyncProofs], the origin of the
      recorded device identifiers in [LosantSyncDevices]) and concrete executions in
      [LosantSyncExamples].
    - [RancherSession]: internal/controller/ranchersession_controller.go; theorems in
      [RancherSessionProofs], executions in [RancherSessionExamples].
    - [Trigger]: the handlers of internal/trigger/server.go, which create and delete
      RancherSession objects.
    - [Http]: requests, answers, JSON and query escaping; on it [LosantClient],
      [RancherClient] and [GeaClient], the HTTP methods of the three client.go files;
      [LosantServer]: the Losant client against an abstract Losant API whose name filter
      is a pattern.
    - [Interp]: programs of one signature run by programs of another; [Wire]: the
      LosantSync reconciler with the HTTP clients it builds in production.
    - [Lifecycle]: one LosantSync object over many reconciles, user edits, deletion and
      recreation, with the devices Losant holds; a simulator and concrete lives are in
      [LifecycleExamples].  [SessionWait]: the polls of a session that waits.
    - [TriggerStart]: Start of internal/trigger/server.go: two goroutines, a channel, and
      the open connections, idle, waiting for their client or handling a request.
    - [Linearize]: method bodies as sequences of Lock, Unlock, reads, writes and a return,
      interleaved statement by statement; on it [MockLosant], [MockGea] and [MockRancher],
      the bodies of the three mock_client.go files with their slices, fresh or shared.
    - [Heap]: memory with pointers, slices and maps, and what a deep copy is; on it
      [DeepCopy], api/v1alpha1/zz_generated.deepcopy.go.
    - [Flags]: the command line of cmd/main.go and package flag; [Main]: init and main of
      cmd/main.go with the SetupWithManager functions of the three controllers.

    Main registers the controllers and the trigger server.  The watcher writes the store;
    the LosantSync reconciler reads it and calls the Losant and edge agent clients and the
    provisioner; the trigger server makes session objects, which the session reconciler
    turns into calls of the Rancher client.

    ** How code is translated

    A handler is a [prog] over a signature of calls: a finite tree that branches on the
    answer of each call, so handlers are total by construction and every early return of
    the source is a leaf.  [exec p tr a] is one execution with its trace; the
    environment is arbitrary, so a theorem about every [exec] holds whatever the API
    server, the remote services and the clock answer.  Claims that something happens are
    stated for executions in which no call fails, with the outcome proved.  [run]
    executes a program against a concrete environment; the witnesses use it.  Ranging
    over a Go map is a call whose answer is any enumeration of the keys.  A method on a
    nil Rancher client panics: the session handlers return [None] then.  The two
    reconcilers are cut where the source has its numbered steps or its helper methods.

    Go int and int64 are [Z] with [wrap64] after each operation that can leave the
    range; float64 is the [spec_float] of the Standard Library at precision 53; times
    are nanoseconds, a metav1.Time is an option.  Strings are byte strings.

    ** What the theorems show

    - Scores and collectors: the 64-bit cluster score is the documented deduction table
      for every map order, monotone, and in 0..100; node scores stay in 55..100; pod
      counts are the numbers of pods with the respective state, except that the cluster's
      own not-ready counter stays 0.
    - Store: snapshots are atomic under every interleaving and isolated from what
      readers do with their copies.
    - Watcher: the installed snapshot holds the counts, scores and conditions of the lists
      that were read, stated on the lists themselves; when a list fails nothing is
      installed and nothing but reads has happened.
    - LosantSync: what Active means in terms of the calls that were made and their order,
      that Degraded keeps the recorded history and identifiers, that a due sync without
      failures becomes Active, the phase machine, the finalizer before remote calls and
      removed only after the devices are gone, exact workflow releases, declared against
      reported attributes.
    - Provisioner: exactly which Secret is written with which credentials, idempotence.
    - RancherSession: what Connected and Disconnected mean, the phase machine with the
      moves that unusable credentials cause, the finalizer, creation only when absent, the
      manifest applied in full, the cleanup of an expired session by the whole Reconcile,
      the time to live with its 64-bit bound; and two defects stated exactly, the panic of
      [reconcile_panics_iff] and the abandoned cleanup of
      [refused_cleanup_is_abandoned].
    - Trigger: what is written and which status is answered.
    - Composition: with the HTTP clients of production the token of the provisioning
      Secret goes only to the Losant API, and the finalizer is removed only after the
      DELETE requests on the wire, which carry that token.
    - Lifecycle: no device outlives its object as long as its application and cluster name
      stay, users leave the finalizer on, a failing Ensure creates nothing and no status
      write is lost ([lost_status_write_leaks] shows that the last is needed); a new object
      becomes Active after three reconciles without failures, a deleted one is gone after
      one; the wait for the Rancher agent ends after at most 25 polls.
    - Processes: once cancelled or without its listener the trigger server ends in boundedly
      many steps of its own, unless a handler waits for its client for ever
      ([stalled_client_blocks_shutdown]); main follows its plan of calls, whatever
      capacity append chooses, which decides whether the two TLS servers keep their
      certificates apart; every accepted spelling of the command line is read back.
    - Deep copies: equal to the original, and sharing nothing with it.
    - Mock clients: their bodies keep the lock discipline and return copies, hence are
      linearizable, without lost calls or deadlock ([unlocked_loses_update] is an object
      that is not).
    - HTTP clients: Ensure calls are idempotent for names without pattern characters
      ([pattern_name_duplicates] shows what other names do), exactly which answers and
      failures count as 404, what a state report sends.

    ** Bounds

    Two definitions take fuel.  [Itoa] prints with 20 digits, enough for every
    64-bit integer.  The loop of ParseDuration takes the length of its input, and
    [parse_loop_fuel] shows that more changes nothing.  Three-digit status codes are the
    range that net/http accepts and a hypothesis of the claim on the 404 answers of
    Rancher.  The bound of 25 polls is the timeout of the agent divided by the poll
    interval, and one.

    ** Not modelled

    api/v1alpha1/groupversion_info.go and internal/version: package variables handed to
    controller-runtime and a constant.  Logging has no effect on any result and is left
    out.  The copy functions and metadata types of apimachinery, the flags of zap and of
    the client configuration, and controller-runtime itself are parameters or calls of
    the environment.  Redirects, timeouts, TLS and the routing of requests to handlers
    belong to net/http; of its server only the states of a connection are modelled.  Invalid UTF-8 and repeated keys in JSON are not treated.  The
    handlers of the mock clients are functions without effects, and what a mock records
    of a map or slice argument is its value at the call.

    ** Plan

    Next: the lifecycle of a RancherSession object over many reconciles with the clusters
    that Rancher holds, the same with the HTTP client of production, and the reconcilers
    run against the mock clients as in the unit tests. *)

From Stdlib Require Import ZArith Lia String Ascii.
From stdpp Require Import base list strings gmap.

(** ** Tactics *)

(** Split conjunctions and existentials of the context, keep equations solved. *)
Ltac break :=
  repeat match goal with
  | H : _ /\ _ |- _ => destruct H
  | H : exists _, _ |- _ => destruct H
  | H : (_, _) = (_, _) |- _ => injection H; clear H; intros; subst
  end; simplify_eq.

(** Case analysis on the outermost [match] or [if] of the goal. *)
Ltac case_goal :=
  match goal with
  | |- context [match ?x with _ => _ end] => destruct x eqn:?
  end.

(** ** Machine integers

    Go's [int] and [int64] on the 64-bit platforms the image is built for.
    A value is a [Z]; every arithmetic operation of the source that can leave
    the range is followed by [wrap64]. *)

Definition two63 : Z := 9223372036854775808.
Definition two64 : Z := 18446744073709551616.
Definition max_int64 : Z := two63 - 1.
Definition min_int64 : Z := - two63.

Definition wrap64 (z : Z) : Z := (z + two63) mod two64 - two63.

Definition in_int64 (z : Z) : Prop := (min_int64 <= z <= max_int64)%Z.

Declare Scope go_scope.
Delimit Scope go_scope with go.
Notation "a +! b" := (wrap64 (a + b)) (at level 50, left associativity) : go_scope.
Notation "a -! b" := (wrap64 (a - b)) (at level 50, left associativity) : go_scope.
Notation "a *! b" := (wrap64 (a * b)) (at level 40, left associativity) : go_scope.

Create HintDb golib.

Lemma wrap64_range z : in_int64 (wrap64 z).
Proof.
  unfold in_int64, wrap64, min_int64, max_int64, two63, two64.
  pose proof (Z.mod_pos_bound (z + 9223372036854775808) 18446744073709551616). lia.
Qed.

Lemma wrap64_id z : in_int64 z -> wrap64 z = z.
Proof.
  unfold in_int64, wrap64, min_int64, max_int64, two63, two64. intros H.
  rewrite Z.mod_small; lia.
Qed.

Lemma wrap64_add_l a b : wrap64 (wrap64 a + b) = wrap64 (a + b).
Proof.
  unfold wrap64. f_equal.
  replace ((a + two63) mod two64 - two63 + b + two63)%Z
    with ((a + two63) mod two64 + b)%Z by lia.
  rewrite Zplus_mod_idemp_l. f_equal. lia.
Qed.

Lemma wrap64_sub_l a b : wrap64 (wrap64 a - b) = wrap64 (a - b).
Proof. apply (wrap64_add_l a (- b)). Qed.

#[export] Hint Resolve wrap64_range : golib.

(** ** Lists *)

(** Number of elements that satisfy a boolean test, as a [Z]. *)
Definition countZ {A} (p : A -> bool) (l : list A) : Z :=
  Z.of_nat (length (List.filter p l)).

Lemma countZ_nil {A} (p : A -> bool) : countZ p [] = 0%Z.
Proof. reflexivity. Qed.

Lemma countZ_cons {A} (p : A -> bool) x l :
  countZ p (x :: l) = ((if p x then 1 else 0) + countZ p l)%Z.
Proof. unfold countZ. simpl. destruct (p x); simpl; lia. Qed.

Lemma countZ_app {A} (p : A -> bool) l1 l2 :
  countZ p (l1 ++ l2) = (countZ p l1 + countZ p l2)%Z.
Proof. unfold countZ. rewrite List.filter_app, length_app. lia. Qed.

Lemma countZ_nonneg {A} (p : A -> bool) l : (0 <= countZ p l)%Z.
Proof. unfold countZ. lia. Qed.

Lemma countZ_le_length {A} (p : A -> bool) l : (countZ p l <= Z.of_nat (length l))%Z.
Proof. unfold countZ. pose proof (List.filter_length_le p l). lia. Qed.

#[export] Instance countZ_perm {A} (p : A -> bool) :
  Proper ((≡ₚ) ==> eq) (countZ p).
Proof.
  intros l1 l2 Hp. induction Hp; rewrite ?countZ_cons; lia.
Qed.

Lemma countZ_split {A} (p : A -> bool) l :
  (countZ p l + countZ (fun x => negb (p x)) l = Z.of_nat (length l))%Z.
Proof.
  induction l as [|x l IH]; [reflexivity|].
  rewrite !countZ_cons. destruct (p x); simpl length; simpl negb; cbn iota; lia.
Qed.

Lemma countZ_ext {A} (p q : A -> bool) l :
  (forall x, x ∈ l -> p x = q x) -> countZ p l = countZ q l.
Proof.
  induction l as [|x l IH]; intros H; [reflexivity|].
  rewrite !countZ_cons, IH, (H x); [reflexivity| set_solver | set_solver].
Qed.

Lemma countZ_pos {A} (p : A -> bool) x l : x ∈ l -> p x = true -> (0 < countZ p l)%Z.
Proof.
  intros Hin Hp. induction l as [|y l IH]; [by apply not_elem_of_nil in Hin|].
  rewrite countZ_cons. pose proof (countZ_nonneg p l).
  apply elem_of_cons in Hin as [->|Hin]; [rewrite Hp; lia|].
  specialize (IH Hin). destruct (p y); lia.
Qed.

(** ** Strings *)

Lemma string_app_cons c (a b : string) : String c a +:+ b = String c (a +:+ b).
Proof. reflexivity. Qed.

Lemma string_app_nil_l (s : string) : "" +:+ s = s.
Proof. reflexivity. Qed.

Lemma string_app_nil_r (s : string) : s +:+ "" = s.
Proof. induction s as [|c s IH]; [done|]. by rewrite string_app_cons, IH. Qed.

Lemma string_app_assoc (a b c : string) : a +:+ (b +:+ c) = (a +:+ b) +:+ c.
Proof.
  induction a as [|x a IH]; [done|]. rewrite !string_app_cons. by rewrite IH.
Qed.

#[export] Instance string_app_inj (s : string) : Inj (=) (=) (String.append s).
Proof.
  intros a b. induction s as [|c s IH]; [done|].
  rewrite !string_app_cons. intros H. injection H; auto.
Qed.

(** [strings.HasPrefix] and [strings.Contains]. *)
Definition HasPrefix (s p : string) : bool := String.prefix p s.

Fixpoint Contains (s sub : string) : bool :=
  if HasPrefix s sub then true
  else match s with
       | EmptyString => false
       | String _ s' => Contains s' sub
       end.

Lemma HasPrefix_app p s : HasPrefix (p +:+ s) p = true.
Proof.
  unfold HasPrefix. induction p as [|c p IH]; [by destruct s|].
  rewrite string_app_cons. cbn. destruct (ascii_dec c c); [exact IH|congruence].
Qed.

Lemma Contains_unfold s sub :
  Contains s sub =
    (if HasPrefix s sub then true
     else match s with EmptyString => false | String _ s' => Contains s' sub end).
Proof. destruct s; reflexivity. Qed.

Lemma Contains_here sub s : Contains (sub +:+ s) sub = true.
Proof. rewrite Contains_unfold, HasPrefix_app. done. Qed.

Lemma Contains_app_r a b sub : Contains b sub = true -> Contains (a +:+ b) sub = true.
Proof.
  intros H. induction a as [|c a IH]; [done|].
  rewrite string_app_cons, Contains_unfold. destruct (HasPrefix _ _); [done|]. exact IH.
Qed.

(** The substring test succeeds on every text with the substring inside. *)
Lemma Contains_mid a sub b : Contains (a +:+ sub +:+ b) sub = true.
Proof. apply Contains_app_r, Contains_here. Qed.

#[export] Hint Resolve Contains_mid Contains_here Contains_app_r : golib.

(** A character that does not occur in the pattern separates the search. *)
Fixpoint free_of (x : ascii) (s : string) : bool :=
  match s with
  | EmptyString => true
  | String c s' => negb (bool_decide (c = x)) && free_of x s'
  end.

Lemma HasPrefix_sep x a b pat :
  free_of x pat = true -> HasPrefix (a +:+ String x b) pat = HasPrefix a pat.
Proof.
  unfold HasPrefix. revert a. induction pat as [|c pat IH]; intros a Hf; [by destruct a, b|].
  simpl in Hf. apply andb_true_iff in Hf as [Hc Hf]. apply negb_true_iff, bool_decide_eq_false in Hc.
  destruct a as [|y a]; rewrite ?string_app_nil_l, ?string_app_cons; cbn;
    [by destruct (ascii_dec c x)|]. destruct (ascii_dec c y); [apply IH, Hf|done].
Qed.

Lemma Contains_sep x a b pat :
  free_of x pat = true -> pat <> "" ->
  Contains (a +:+ String x b) pat = Contains a pat || Contains b pat.
Proof.
  intros Hf Hp. induction a as [|y a IH].
  - rewrite Contains_unfold, (HasPrefix_sep x "" b pat Hf), string_app_nil_l. by destruct pat.
  - rewrite Contains_unfold, (HasPrefix_sep x (String y a) b pat Hf), (Contains_unfold (String y a)).
    destruct (HasPrefix (String y a) pat); [done|]. rewrite string_app_cons. exact IH.
Qed.

(** Decimal printing, the [%d] verb of [fmt]. *)
Definition digit (d : Z) : ascii := ascii_of_nat (48 + Z.to_nat d).

Fixpoint print_digits (fuel : nat) (n : Z) (acc : string) : string :=
  match fuel with
  | O => acc
  | S fuel' =>
      let acc' := String (digit (n mod 10)) acc in
      if (n <? 10)%Z then acc' else print_digits fuel' (n / 10) acc'
  end.

(** Twenty digits are enough for every 64-bit integer. *)
Definition Itoa (n : Z) : string :=
  if (n <? 0)%Z then String "-" (print_digits 20 (- n) "") else print_digits 20 n "".

Example Itoa_zero : Itoa 0 = "0"%string.
Proof. reflexivity. Qed.
Example Itoa_max : Itoa max_int64 = "9223372036854775807"%string.
Proof. reflexivity. Qed.
Example Itoa_min : Itoa min_int64 = "-9223372036854775808"%string.
Proof. reflexivity. Qed.
