(* ===== verification/Effects.v ===== *)
(** * Effects: programs that interact with an environment

    The handlers of the operator call the Kubernetes API, the Losant REST API,
    the edge agent, Rancher and the clock, and branch on every answer.  A handler
    is a [prog]: a finite tree whose nodes are calls and whose branches are the
    possible answers.  Every handler is therefore total by construction.

    [exec p tr a] says that [p] can finish with result [a] after the interactions
    [tr]; the environment is arbitrary, so a theorem about every [exec] holds
    whatever the remote services answer.  [wp] is the matching predicate
    transformer, used to prove such theorems, and [run] executes a program
    against a concrete stateful environment. *)

From stdpp Require Import base list.
From S2P Require Import Prelude.

(** ** Signatures, programs, events *)

Record sig := Sig { op :> Type; ans : op -> Type }.
Arguments ans {_} _.

Inductive prog (Σ : sig) (A : Type) : Type :=
| Ret (a : A)
| Call (c : Σ) (k : ans c -> prog Σ A).
Arguments Ret {_ _} _.
Arguments Call {_ _} _ _.

Fixpoint bind {Σ A B} (p : prog Σ A) (f : A -> prog Σ B) : prog Σ B :=
  match p with
  | Ret a => f a
  | Call c k => Call c (fun r => bind (k r) f)
  end.

Definition call {Σ : sig} (c : Σ) : prog Σ (ans c) := Call c Ret.

Declare Scope prog_scope.
Delimit Scope prog_scope with prog.
Notation "'let*' x ':=' p 'in' q" := (bind p (fun x => q))
  (at level 10, x name, p at level 100, q at level 200) : prog_scope.
Notation "'let*' ' x ':=' p 'in' q" := (bind p (fun x => q))
  (at level 10, x strict pattern, p at level 100, q at level 200) : prog_scope.
Notation "'do*' p 'in' q" := (bind p (fun _ => q))
  (at level 10, p at level 100, q at level 200) : prog_scope.

Record event (Σ : sig) := Ev { ev_op : Σ; ev_ans : ans ev_op }.
Arguments Ev {_} _ _.
Arguments ev_op {_} _.
Arguments ev_ans {_} _.

(** ** Executions *)

Inductive exec {Σ A} : prog Σ A -> list (event Σ) -> A -> Prop :=
| exec_ret a : exec (Ret a) [] a
| exec_call c k r tr a : exec (k r) tr a -> exec (Call c k) (Ev c r :: tr) a.

Lemma exec_inv {Σ A} (p : prog Σ A) tr a :
  exec p tr a ->
  match p with
  | Ret a' => tr = [] /\ a = a'
  | Call c k => exists r tr', tr = Ev c r :: tr' /\ exec (k r) tr' a
  end.
Proof. destruct 1; eauto. Qed.

Lemma exec_bind {Σ A B} (p : prog Σ A) (f : A -> prog Σ B) tr b :
  exec (bind p f) tr b <->
  exists tr1 tr2 a, tr = tr1 ++ tr2 /\ exec p tr1 a /\ exec (f a) tr2 b.
Proof.
  revert tr. induction p as [a|c k IH]; intros tr; simpl; split.
  - intros H. exists [], tr, a. eauto using @exec.
  - intros (tr1 & tr2 & a' & -> & H1 & H2). apply exec_inv in H1 as [-> ->]. done.
  - intros H. apply exec_inv in H as (r & tr' & -> & H). apply IH in H as (tr1 & tr2 & a & -> & H1 & H2).
    exists (Ev c r :: tr1), tr2, a. eauto using @exec.
  - intros (tr1 & tr2 & a & -> & H1 & H2). apply exec_inv in H1 as (r & tr' & -> & H1).
    simpl. constructor. apply IH. eauto 6.
Qed.

(** ** Predicate transformer over histories *)

Fixpoint wp {Σ A} (p : prog Σ A) (h : list (event Σ)) (Q : list (event Σ) -> A -> Prop) : Prop :=
  match p with
  | Ret a => Q h a
  | Call c k => forall r : ans c, wp (k r) (h ++ [Ev c r]) Q
  end.

Lemma wp_exec {Σ A} (p : prog Σ A) h (Q : list (event Σ) -> A -> Prop) :
  wp p h Q <-> forall tr a, exec p tr a -> Q (h ++ tr) a.
Proof.
  revert h. induction p as [a|c k IH]; intros h; simpl; split.
  - intros H tr a' He. apply exec_inv in He as [-> ->]. by rewrite app_nil_r.
  - intros H. specialize (H [] a (exec_ret a)). by rewrite app_nil_r in H.
  - intros H tr a He. apply exec_inv in He as (r & tr' & -> & He).
    specialize (H r). rewrite IH in H. specialize (H _ _ He). by rewrite <- app_assoc in H.
  - intros H r. apply IH. intros tr a He. rewrite <- app_assoc. apply H. by constructor.
Qed.

Lemma wp_mono {Σ A} (p : prog Σ A) h (Q1 Q2 : list (event Σ) -> A -> Prop) :
  wp p h Q1 -> (forall h' a, Q1 h' a -> Q2 h' a) -> wp p h Q2.
Proof. revert h. induction p; simpl; intros; eauto. Qed.

Lemma wp_bind {Σ A B} (p : prog Σ A) (f : A -> prog Σ B) h Q :
  wp (bind p f) h Q <-> wp p h (fun h' a => wp (f a) h' Q).
Proof.
  revert h. induction p as [a|c k IH]; intros h; simpl; [done|].
  split; intros H r; apply IH, H.
Qed.

(** The rule used at the call of a subprogram with a known contract. *)
Lemma wp_bind_spec {Σ A B} (p : prog Σ A) (f : A -> prog Σ B) h (R : list (event Σ) -> A -> Prop) Q :
  wp p h R -> (forall h' a, R h' a -> wp (f a) h' Q) -> wp (bind p f) h Q.
Proof. intros Hp Hf. apply wp_bind. by eapply wp_mono. Qed.

(** A contract proved from the empty history holds after any history. *)
Lemma wp_frame {Σ A} (p : prog Σ A) h (Q : list (event Σ) -> A -> Prop) :
  wp p [] Q -> wp p h (fun h' a => exists tr, h' = h ++ tr /\ Q tr a).
Proof.
  intros H. apply wp_exec. intros tr a He. rewrite wp_exec in H.
  exists tr. split; [done|]. apply (H _ _ He).
Qed.

Lemma exec_wp {Σ A} (p : prog Σ A) tr a (Q : list (event Σ) -> A -> Prop) :
  exec p tr a -> wp p [] Q -> Q tr a.
Proof. intros He Hw. rewrite wp_exec in Hw. apply (Hw _ _ He). Qed.

(** ** Running against a concrete environment *)

Section Run.
Context {Σ : sig} {S : Type} (env : forall c : Σ, S -> ans c * S).

Fixpoint run {A} (p : prog Σ A) (s : S) : A * list (event Σ) * S :=
  match p with
  | Ret a => (a, [], s)
  | Call c k =>
      let '(r, s') := env c s in
      let '(a, tr, s'') := run (k r) s' in
      (a, Ev c r :: tr, s'')
  end.

Lemma run_exec {A} (p : prog Σ A) s : exec p (run p s).1.2 (run p s).1.1.
Proof.
  revert s. induction p as [a|c k IH]; intros s; simpl; [constructor|].
  destruct (env c s) as [r s']. specialize (IH r s').
  destruct (run (k r) s') as [[a tr] s'']. simpl in *. by constructor.
Qed.

Lemma run_exec_eq {A} (p : prog Σ A) s a tr s' : run p s = (a, tr, s') -> exec p tr a.
Proof. intros H. pose proof (run_exec p s) as He. by rewrite H in He. Qed.

Lemma run_bind {A B} (p : prog Σ A) (f : A -> prog Σ B) s a t1 s1 :
  run p s = (a, t1, s1) ->
  run (bind p f) s = ((run (f a) s1).1.1, t1 ++ (run (f a) s1).1.2, (run (f a) s1).2).
Proof.
  revert s t1. induction p as [a'|c k IH]; intros s t1 H; simpl in *.
  - injection H as -> <- ->. by destruct (run (f a) s1) as [[? ?] ?].
  - destruct (env c s) as [r s']. destruct (run (k r) s') as [[a' tr] s''] eqn:E.
    injection H as -> <- ->. by rewrite (IH _ _ _ E).
Qed.

(** The same with the first event shown. *)
Lemma run_exec_head {A} (c : Σ) (k : ans c -> prog Σ A) s :
  exec (Call c k) (Ev c (env c s).1 :: tail (run (Call c k) s).1.2) (run (Call c k) s).1.1.
Proof.
  pose proof (run_exec (Call c k) s) as He. simpl in *. destruct (env c s) as [r s'].
  destruct (run (k r) s') as [[a tr] s'']. exact He.
Qed.

End Run.

(** Every program has an execution when every call has some answer. *)
Lemma exec_total {Σ : sig} (oracle : forall c : Σ, ans c) {A} (p : prog Σ A) :
  exists tr a, exec p tr a.
Proof. exact (ex_intro _ _ (ex_intro _ _ (run_exec (fun c (u : unit) => (oracle c, u)) p tt))). Qed.

(** ** Guards

    [guarded I h p]: after the history [h], every call that [p] makes satisfies the
    precondition [I] on the history at that moment. *)

Fixpoint guarded {Σ A} (I : list (event Σ) -> Σ -> Prop) (h : list (event Σ)) (p : prog Σ A) : Prop :=
  match p with
  | Ret _ => True
  | Call c k => I h c /\ forall r, guarded I (h ++ [Ev c r]) (k r)
  end.

Lemma guarded_exec {Σ A} I (p : prog Σ A) h tr a t1 c r t2 :
  exec p tr a -> guarded I h p -> tr = t1 ++ Ev c r :: t2 -> I (h ++ t1) c.
Proof.
  intros He. revert h t1. induction He as [|c' k r' tr a He IH]; intros h t1 Hg Heq; [by destruct t1|].
  destruct Hg as [HI Hg]. destruct t1 as [|e t1]; simpl in Heq.
  - rewrite app_nil_r.
    assert (c' = c) as <- by exact (f_equal (fun l => default c (ev_op <$> head l)) Heq). exact HI.
  - assert (e = Ev c' r') as -> by (symmetry; exact (f_equal (fun l => default e (head l)) Heq)).
    specialize (IH (h ++ [Ev c' r']) t1 (Hg r')). rewrite <- app_assoc in IH. apply IH.
    exact (f_equal tail Heq).
Qed.

Lemma guarded_bind {Σ A B} I (p : prog Σ A) (f : A -> prog Σ B) h :
  guarded I h p -> (forall tr a, exec p tr a -> guarded I (h ++ tr) (f a)) -> guarded I h (bind p f).
Proof.
  revert h. induction p as [a|c k IH]; intros h Hp Hf; simpl in *.
  - specialize (Hf [] a (exec_ret a)). by rewrite app_nil_r in Hf.
  - destruct Hp as [HI Hk]. split; [done|]. intros r. apply IH; [apply Hk|].
    intros tr a He. rewrite <- app_assoc. apply Hf. by constructor.
Qed.

(** ** Trace predicates *)

(** [before P Q tr]: every event satisfying [Q] has an event satisfying [P] before it. *)
Definition before {E} (P Q : E -> Prop) (tr : list E) : Prop :=
  forall t1 e t2, tr = t1 ++ e :: t2 -> Q e -> Exists P t1.

Lemma before_nil {E} (P Q : E -> Prop) : before P Q [].
Proof. intros t1 e t2 H. by destruct t1. Qed.

(** Events that are not [Q] can be appended freely. *)
Lemma before_app_none {E} (P Q : E -> Prop) tr tr' :
  before P Q tr -> Forall (fun e => ~ Q e) tr' -> before P Q (tr ++ tr').
Proof.
  intros Hb Hn t1 e t2 Heq HQ. apply List.app_eq_app in Heq as (l & [[-> Hl]|[-> Hl]]).
  - destruct l as [|x l]; simpl in Hl.
    + subst tr'. inversion Hn; subst. done.
    + injection Hl as -> ->. by eapply Hb.
  - subst tr'. rewrite Forall_app in Hn. destruct Hn as [_ Hn]. inversion Hn; subst. done.
Qed.

(** Once [P] has happened anything can be appended. *)
Lemma before_app_seen {E} (P Q : E -> Prop) tr tr' :
  before P Q tr -> Exists P tr -> before P Q (tr ++ tr').
Proof.
  intros Hb Hs t1 e t2 Heq HQ. apply List.app_eq_app in Heq as (l & [[-> Hl]|[-> Hl]]).
  - destruct l as [|x l]; simpl in Hl.
    + by rewrite app_nil_r in Hs.
    + injection Hl as -> ->. by eapply Hb.
  - apply Exists_app. by left.
Qed.

(** ** Proof automation *)

(** Follow one execution through calls, returns and branches, up to the next
    subprogram bound by name. *)
Ltac exec_step H :=
  cbn [bind call] in H;
  lazymatch type of H with
  | exec (call _) _ _ => unfold call in H
  | exec (Call _ _) _ _ =>
      let r := fresh "r" in let tr := fresh "tr" in let Htr := fresh in
      apply exec_inv in H; cbn beta iota in H; destruct H as (r & tr & Htr & H); subst; cbn [ans op] in *
  | exec (Ret _) _ _ =>
      let Htr := fresh in
      apply exec_inv in H; cbn beta iota in H; destruct H as (Htr & H); subst; simplify_eq
  | exec (match ?x with _ => _ end) _ _ => destruct x eqn:?; cbn beta iota in H
  | exec (bind (match ?x with _ => _ end) _) _ _ => destruct x eqn:?; cbn beta iota in H
  end.

Ltac exec_steps H := repeat exec_step H.

(** Split an execution of a bound subprogram: [tr1] for it, [tr2] for the rest. *)
Ltac exec_split H :=
  let tr1 := fresh "tr" in let tr2 := fresh "tr" in let a := fresh "a" in
  let H1 := fresh "He" in let Htr := fresh in
  apply exec_bind in H; destruct H as (tr1 & tr2 & a & Htr & H1 & H); subst.

(** The same for a goal about every execution. *)
Ltac wp_step :=
  match goal with
  | |- wp (bind _ _) _ _ => apply wp_bind
  | |- wp (Ret _) _ _ => cbn [wp]
  | |- wp (Call _ _) _ _ => cbn [wp]; intros ?
  | |- wp (match ?x with _ => _ end) _ _ => destruct x eqn:?
  end.
