(* ===== verification/GoLib.v ===== *)
(** * GoLib: what the operator uses of Go's standard library

    Errors with wrapping ([errors.Is], [fmt.Errorf] with the w verb), results of
    fallible calls, instants and durations of package [time], and the quoting
    verb of [fmt]. *)

From Stdlib Require Import ZArith Lia Ascii String.
From stdpp Require Import base list strings.
From S2P Require Import Prelude.

(** ** Errors

    An error is its text together with the identities found by unwrapping it:
    sentinel values of the operator and the status reasons of the Kubernetes API
    that the operator tests for. *)

Inductive err_kind :=
| KNotFound            (* k8serrors.IsNotFound *)
| KAlreadyExists       (* k8serrors.IsAlreadyExists *)
| KWorkflowNotFound    (* losant.ErrWorkflowNotFound *)
| KRancherNotFound     (* rancher.ErrNotFound *)
| KEOF                 (* io.EOF *).

#[export] Instance err_kind_eq_dec : EqDecision err_kind.
Proof. solve_decision. Defined.

Record error := mkError { Error : string; kinds : list err_kind }.

#[export] Instance error_eq_dec : EqDecision error.
Proof. solve_decision. Defined.

(** [fmt.Errorf] without a wrapped operand. *)
Definition Errorf (msg : string) : error := mkError msg [].

(** [fmt.Errorf] with prefix and suffix around a wrapped error. *)
Definition wrapf (pre : string) (e : error) (post : string) : error :=
  mkError (pre +:+ Error e +:+ post) (kinds e).

(** [errors.Is] and the [k8serrors] tests. *)
Definition Is (e : error) (k : err_kind) : bool := bool_decide (k ∈ kinds e).
Definition IsNotFound (e : error) : bool := Is e KNotFound.
Definition IsAlreadyExists (e : error) : bool := Is e KAlreadyExists.

Lemma Is_wrapf pre e post k : Is (wrapf pre e post) k = Is e k.
Proof. reflexivity. Qed.

(** A Go result pair (value, err). *)
Inductive result (A : Type) : Type :=
| Ok (a : A)
| Err (e : error).
Arguments Ok {_} _.
Arguments Err {_} _.

Definition is_ok {A} (r : result A) : bool := match r with Ok _ => true | Err _ => false end.

Lemma is_ok_true {A} (r : result A) : is_ok r = true <-> exists a, r = Ok a.
Proof. destruct r; simpl; naive_solver. Qed.

(** ** Package time

    An instant is the number of nanoseconds since Go's zero time; a duration is
    an [int64] number of nanoseconds. *)

Definition Nanosecond : Z := 1.
Definition Microsecond : Z := 1000.
Definition Millisecond : Z := 1000000.
Definition Second : Z := 1000000000.
Definition Minute : Z := 60 * Second.
Definition Hour : Z := 60 * Minute.

Definition zero_time : Z := 0.

(** [t.Sub(u)] saturates at the ends of the duration range. *)
Definition Sub (t u : Z) : Z := Z.max min_int64 (Z.min max_int64 (t - u)).

(** [time.Until(t)] at instant [now]. *)
Definition Until (t now : Z) : Z := Sub t now.

Definition Before (t u : Z) : bool := (t <? u)%Z.
Definition After (t u : Z) : bool := (u <? t)%Z.

(** [t.Unix()]: seconds since 1970, the zero time being 62135596800 s earlier. *)
Definition Unix (t : Z) : Z := (t / Second - 62135596800)%Z.

(** A [*metav1.Time]: nil, or an instant; [IsZero] accepts both nil and the zero time. *)
Definition mtime := option Z.
Definition IsZero (t : mtime) : bool :=
  match t with None => true | Some t => (t =? zero_time)%Z end.

Lemma Sub_range t u : in_int64 (Sub t u).
Proof. unfold Sub, in_int64, min_int64, max_int64, two63. lia. Qed.

Lemma Sub_exact t u : in_int64 (t - u) -> Sub t u = (t - u)%Z.
Proof. unfold Sub, in_int64. lia. Qed.

Lemma Until_pos_iff t now : (0 < Until t now <-> now < t)%Z.
Proof. unfold Until, Sub, min_int64, max_int64, two63. lia. Qed.

(** ** Quoting: the q verb of [fmt]

    Exact on ASCII text; bytes above 127 are copied, as for printable runes. *)

Definition dquote : ascii := ascii_of_nat 34.
Definition backslash : ascii := ascii_of_nat 92.

Definition hex_digit (n : nat) : ascii :=
  if (n <? 10)%nat then ascii_of_nat (48 + n) else ascii_of_nat (87 + n).

Definition quote_char (c : ascii) : string :=
  let n := nat_of_ascii c in
  let esc x := String backslash (String x EmptyString) in
  if ascii_dec c dquote then esc dquote
  else if ascii_dec c backslash then esc backslash
  else match n with
       | 7 => esc "a"%char | 8 => esc "b"%char | 9 => esc "t"%char | 10 => esc "n"%char
       | 11 => esc "v"%char | 12 => esc "f"%char | 13 => esc "r"%char
       | _ => if (n <? 32)%nat || (n =? 127)%nat
              then String backslash (String "x"%char
                     (String (hex_digit (n / 16)) (String (hex_digit (n mod 16)) EmptyString)))
              else String c EmptyString
       end.

Fixpoint quote_body (s : string) : string :=
  match s with
  | EmptyString => EmptyString
  | String c s' => quote_char c +:+ quote_body s'
  end.

Definition Quote (s : string) : string :=
  String dquote (quote_body s +:+ String dquote EmptyString).

(** [strings.TrimRight(s, "/")]. *)
Fixpoint TrimRightSlash (s : string) : string :=
  match s with
  | EmptyString => EmptyString
  | String c s' =>
      match TrimRightSlash s' with
      | EmptyString => if ascii_dec c "/"%char then EmptyString else String c EmptyString
      | t => String c t
      end
  end.

Example TrimRightSlash_url : TrimRightSlash "https://r.example//" = "https://r.example".
Proof. reflexivity. Qed.
Example Quote_newline : Quote "a" = String dquote (String "a"%char (String dquote EmptyString)).
Proof. reflexivity. Qed.
