(* ===== verification/Duration.v ===== *)
(** * Duration: [time.ParseDuration], the parser behind [spec.interval]

    Translated from Go's package [time]: an optional sign, then a non-empty
    sequence of decimal numbers with a unit.  The loop consumes at least one
    character per turn, so the length of the input bounds the number of turns;
    [parse_loop_fuel] proves that more fuel never changes the result. *)

From Stdlib Require Import ZArith Lia Ascii String SpecFloat.
From stdpp Require Import base list strings option.
From S2P Require Import Prelude GoLib.

Local Open Scope Z_scope.

(** ** Scanning digits *)

Definition is_digit (c : ascii) : bool :=
  let n := nat_of_ascii c in (48 <=? n)%nat && (n <=? 57)%nat.

Definition digit_val (c : ascii) : Z := Z.of_nat (nat_of_ascii c) - 48.

(** [leadingInt]: the value of the leading digits, or an overflow of 2^63. *)
Fixpoint leadingInt (x : Z) (s : string) : option (Z * string) :=
  match s with
  | EmptyString => Some (x, s)
  | String c s' =>
      if is_digit c then
        if two63 / 10 <? x then None
        else let x' := x * 10 + digit_val c in
             if two63 <? x' then None else leadingInt x' s'
      else Some (x, s)
  end.

(** [leadingFraction]: digits beyond the precision of 63 bits are skipped. *)
Fixpoint leadingFraction (x scale : Z) (overflow : bool) (s : string) : Z * Z * string :=
  match s with
  | EmptyString => (x, scale, s)
  | String c s' =>
      if is_digit c then
        if overflow then leadingFraction x scale true s'
        else if max_int64 / 10 <? x then leadingFraction x scale true s'
        else let y := x * 10 + digit_val c in
             if two63 <? y then leadingFraction x scale true s'
             else leadingFraction y (scale * 10) false s'
      else (x, scale, s)
  end.

(** The unit: everything up to the next digit or dot. *)
Fixpoint span_unit (s : string) : string * string :=
  match s with
  | EmptyString => (EmptyString, EmptyString)
  | String c s' =>
      if is_digit c || bool_decide (c = "."%char) then (EmptyString, s)
      else let '(u, r) := span_unit s' in (String c u, r)
  end.

(** The two spellings of the micro sign, U+00B5 and U+03BC, in UTF-8. *)
Definition micro_sign : string := String (ascii_of_nat 194) (String (ascii_of_nat 181) "s").
Definition greek_mu : string := String (ascii_of_nat 206) (String (ascii_of_nat 188) "s").

Definition unitMap (u : string) : option Z :=
  if decide (u = "ns") then Some Nanosecond
  else if decide (u = "us") then Some Microsecond
  else if decide (u = micro_sign) then Some Microsecond
  else if decide (u = greek_mu) then Some Microsecond
  else if decide (u = "ms") then Some Millisecond
  else if decide (u = "s") then Some Second
  else if decide (u = "m") then Some Minute
  else if decide (u = "h") then Some Hour
  else None.

(** ** Fractions are computed in binary64, rounding to nearest *)

Definition float64_of_Z (z : Z) : spec_float := binary_normalize 53 1024 z 0 false.

(** Conversion of a non-negative float to an integer truncates. *)
Definition uint64_of_float (f : spec_float) : Z :=
  match f with
  | S754_finite false m e => if 0 <=? e then Z.pos m * 2 ^ e else Z.pos m / 2 ^ (- e)
  | _ => 0
  end.

Definition fraction_ns (f scale unit : Z) : Z :=
  uint64_of_float
    (SFmul 53 1024 (float64_of_Z f) (SFdiv 53 1024 (float64_of_Z unit) (float64_of_Z scale))).

(** ** The parser *)

(** [time.quote]: like the q verb, with every byte outside printable ASCII escaped. *)
Definition time_quote_char (c : ascii) : string :=
  let n := nat_of_ascii c in
  if (128 <=? n)%nat || (n <? 32)%nat
  then String backslash (String "x"%char
         (String (hex_digit (n / 16)) (String (hex_digit (n mod 16)) EmptyString)))
  else if ascii_dec c dquote then String backslash (String dquote EmptyString)
  else if ascii_dec c backslash then String backslash (String backslash EmptyString)
  else String c EmptyString.

Fixpoint time_quote_body (s : string) : string :=
  match s with
  | EmptyString => EmptyString
  | String c s' => time_quote_char c +:+ time_quote_body s'
  end.

Definition time_quote (s : string) : string :=
  String dquote (time_quote_body s +:+ String dquote EmptyString).

Definition invalid_duration (orig : string) : error :=
  Errorf ("time: invalid duration " +:+ time_quote orig).

(** The part of a term after its integer digits: [.digits], then whether any were read. *)
Definition parse_fraction (s : string) : Z * Z * string * bool :=
  match s with
  | String "."%char s' =>
      let '(f, scale, r) := leadingFraction 0 1 false s' in
      (f, scale, r, negb (String.length s' =? String.length r)%nat)
  | _ => (0, 1, s, false)
  end.

(** The term's value in nanoseconds, added to the running total [d]. *)
Definition add_term (orig : string) (d v f scale unit : Z) : result Z :=
  if two63 / unit <? v then Err (invalid_duration orig)
  else
    let v := v * unit in
    let v' := if 0 <? f then v + fraction_ns f scale unit else v in
    if (0 <? f) && (two63 <? v') then Err (invalid_duration orig)
    else if two63 <? d + v' then Err (invalid_duration orig)
    else Ok (d + v').

(** One turn of the loop on a non-empty rest [s]: the new total and the new rest. *)
Definition parse_term (orig : string) (d : Z) (s : string) : result (Z * string) :=
  match s with
  | EmptyString => Ok (d, s)
  | String c _ =>
      if negb (is_digit c || bool_decide (c = "."%char)) then Err (invalid_duration orig)
      else match leadingInt 0 s with
      | None => Err (invalid_duration orig)
      | Some (v, s1) =>
          let pre := negb (String.length s =? String.length s1)%nat in
          let '(f, scale, s2, post) := parse_fraction s1 in
          if negb pre && negb post then Err (invalid_duration orig)
          else
            let '(u, s3) := span_unit s2 in
            if decide (u = EmptyString)
            then Err (Errorf ("time: missing unit in duration " +:+ time_quote orig))
            else match unitMap u with
            | None => Err (Errorf ("time: unknown unit " +:+ time_quote u +:+ " in duration "
                                   +:+ time_quote orig))
            | Some unit =>
                match add_term orig d v f scale unit with
                | Err e => Err e
                | Ok d' => Ok (d', s3)
                end
            end
      end
  end.

Fixpoint parse_loop (fuel : nat) (orig : string) (d : Z) (s : string) : result Z :=
  match s, fuel with
  | EmptyString, _ => Ok d
  | _, O => Err (invalid_duration orig)
  | _, S fuel' =>
      match parse_term orig d s with
      | Err e => Err e
      | Ok (d', s') => parse_loop fuel' orig d' s'
      end
  end.

Definition strip_sign (s : string) : bool * string :=
  match s with
  | String "-"%char s' => (true, s')
  | String "+"%char s' => (false, s')
  | _ => (false, s)
  end.

Definition ParseDuration (orig : string) : result Z :=
  let '(neg, s) := strip_sign orig in
  if decide (s = "0") then Ok 0
  else if decide (s = EmptyString) then Err (invalid_duration orig)
  else match parse_loop (String.length s) orig 0 s with
  | Err e => Err e
  | Ok d =>
      if neg then Ok (wrap64 (- wrap64 d))
      else if max_int64 <? d then Err (invalid_duration orig)
      else Ok d
  end.

Example parse_5m : ParseDuration "5m" = Ok (300 * Second).
Proof. vm_compute. reflexivity. Qed.
Example parse_1h30 : ParseDuration "1.5h10s" = Ok (5410 * Second).
Proof. vm_compute. reflexivity. Qed.
Example parse_neg : ParseDuration "-0.5s" = Ok (- 500 * Millisecond).
Proof. vm_compute. reflexivity. Qed.
Example parse_empty : is_ok (ParseDuration "") = false.
Proof. vm_compute. reflexivity. Qed.
Example parse_nounit : is_ok (ParseDuration "60") = false.
Proof. vm_compute. reflexivity. Qed.
Example parse_min : ParseDuration "-9223372036854775808ns" = Ok min_int64.
Proof. vm_compute. reflexivity. Qed.

(** ** Ranges *)

Lemma digit_val_range c : is_digit c = true -> 0 <= digit_val c <= 9.
Proof.
  unfold is_digit, digit_val. intros H. apply andb_prop in H as [H1 H2].
  apply Nat.leb_le in H1, H2. lia.
Qed.

Lemma leadingInt_nonneg s x v r : 0 <= x -> leadingInt x s = Some (v, r) -> 0 <= v.
Proof.
  revert x. induction s as [|c s IH]; simpl; intros x Hx H; simplify_eq; [done|].
  destruct (is_digit c) eqn:Hc; simplify_eq; [|done].
  apply digit_val_range in Hc. repeat case_match; simplify_eq. eapply IH; [|exact H]. lia.
Qed.

Lemma uint64_of_float_nonneg f : 0 <= uint64_of_float f.
Proof.
  destruct f as [| | |[] m e]; simpl; try lia. case_match.
  - apply Z.mul_nonneg_nonneg; [lia|]. apply Z.pow_nonneg. lia.
  - apply Z.div_pos; [lia|]. apply Z.pow_pos_nonneg; lia.
Qed.

Lemma unitMap_pos u unit : unitMap u = Some unit -> 0 < unit.
Proof. unfold unitMap. repeat case_decide; intros; simplify_eq; reflexivity. Qed.

Lemma add_term_range orig d v f scale unit d' :
  0 <= d -> 0 <= v -> 0 < unit -> add_term orig d v f scale unit = Ok d' -> d <= d' <= two63.
Proof.
  intros Hd Hv Hu. unfold add_term. pose proof (uint64_of_float_nonneg
    (SFmul 53 1024 (float64_of_Z f) (SFdiv 53 1024 (float64_of_Z unit) (float64_of_Z scale)))).
  fold (fraction_ns f scale unit) in *.
  assert (0 <= v * unit) by nia.
  destruct (two63 / unit <? v); [done|]. destruct (0 <? f); simpl.
  - destruct (two63 <? v * unit + _); [done|].
    destruct (two63 <? d + _) eqn:E; [done|]. intros; simplify_eq. lia.
  - destruct (two63 <? d + _) eqn:E; [done|]. intros; simplify_eq. lia.
Qed.

Lemma parse_term_range orig d s d' s' :
  0 <= d <= two63 -> parse_term orig d s = Ok (d', s') -> 0 <= d' <= two63.
Proof.
  intros Hd. unfold parse_term. destruct s as [|c s]; [intros; simplify_eq; lia|].
  destruct (negb _); [done|].
  destruct (leadingInt 0 _) as [[v s1]|] eqn:Hv; [|done].
  apply leadingInt_nonneg in Hv; [|lia].
  destruct (parse_fraction s1) as [[[f scale] s2] post].
  destruct (_ && _); [done|]. destruct (span_unit s2) as [u s3].
  destruct (decide _); [done|]. destruct (unitMap u) as [unit|] eqn:Hu; [|done].
  apply unitMap_pos in Hu. destruct (add_term _ _ _ _ _ _) eqn:Ha; [|done].
  apply add_term_range in Ha; [|lia..]. intros; simplify_eq. lia.
Qed.

Lemma parse_loop_range fuel orig d s r :
  0 <= d <= two63 -> parse_loop fuel orig d s = Ok r -> 0 <= r <= two63.
Proof.
  revert d s. induction fuel as [|fuel IH]; intros d s Hd; destruct s as [|c s];
    cbn [parse_loop]; try (intros; simplify_eq; lia).
  destruct (parse_term _ _ _) as [[d' s']|] eqn:Ht; [|done].
  apply parse_term_range in Ht; [|done]. by apply IH.
Qed.

(** A duration that parses fits a Go [time.Duration]. *)
Lemma ParseDuration_range s d : ParseDuration s = Ok d -> in_int64 d.
Proof.
  unfold ParseDuration. destruct (strip_sign s) as [neg t].
  destruct (decide _); [intros; simplify_eq; done|]. destruct (decide _); [done|].
  destruct (parse_loop _ _ _ _) as [r|] eqn:Hl; [|done].
  apply parse_loop_range in Hl; [|unfold two63; lia].
  destruct neg; [intros; simplify_eq; apply wrap64_range|].
  destruct (max_int64 <? r) eqn:E; [done|]. intros; simplify_eq.
  unfold in_int64, min_int64, max_int64 in *. lia.
Qed.

(** ** Termination: every turn consumes input *)

Lemma leadingInt_length s x v r : leadingInt x s = Some (v, r) -> (String.length r <= String.length s)%nat.
Proof.
  revert x. induction s as [|c s IH]; simpl; intros x H; simplify_eq; [done|].
  repeat case_match; simplify_eq; try (simpl; lia). apply IH in H. lia.
Qed.

Lemma leadingFraction_length s x scale o f sc r :
  leadingFraction x scale o s = (f, sc, r) -> (String.length r <= String.length s)%nat.
Proof.
  revert x scale o. induction s as [|c s IH]; simpl; intros x scale o H; simplify_eq; [done|].
  repeat case_match; simplify_eq; try (simpl; lia); apply IH in H; lia.
Qed.

Lemma parse_fraction_length s f sc r post :
  parse_fraction s = (f, sc, r, post) -> (String.length r <= String.length s)%nat.
Proof.
  unfold parse_fraction. intros H.
  repeat case_match; simplify_eq; try lia;
    match goal with H : leadingFraction _ _ _ _ = _ |- _ => apply leadingFraction_length in H end;
    simpl; lia.
Qed.

Lemma span_unit_length s u r :
  span_unit s = (u, r) -> (String.length u + String.length r = String.length s)%nat.
Proof.
  revert u r. induction s as [|c s IH]; simpl; intros u r H; simplify_eq; [done|].
  destruct (_ || _); simplify_eq; [done|].
  destruct (span_unit s) as [u' r'] eqn:E. simplify_eq. simpl. by rewrite <- (IH u' r).
Qed.

Lemma parse_term_progress orig d c s d' s' :
  parse_term orig d (String c s) = Ok (d', s') -> (String.length s' < S (String.length s))%nat.
Proof.
  unfold parse_term. destruct (negb _); [done|].
  destruct (leadingInt 0 _) as [[v s1]|] eqn:Hv; [|done]. apply leadingInt_length in Hv.
  destruct (parse_fraction s1) as [[[f scale] s2] post] eqn:Hf. apply parse_fraction_length in Hf.
  destruct (_ && _); [done|]. destruct (span_unit s2) as [u s3] eqn:Hs. apply span_unit_length in Hs.
  destruct (decide (u = EmptyString)) as [|Hu]; [done|]. repeat case_match; try done. intros; simplify_eq.
  destruct u; [done|]. simpl in *. lia.
Qed.

(** Fuel equal to the length of the input is enough. *)
Lemma parse_loop_fuel fuel orig d s :
  (String.length s <= fuel)%nat -> parse_loop fuel orig d s = parse_loop (String.length s) orig d s.
Proof.
  enough (forall n fuel d s, (String.length s <= n)%nat -> (n <= fuel)%nat ->
            parse_loop fuel orig d s = parse_loop n orig d s) as He.
  { intros H. by apply He. }
  clear. induction n as [|n IH]; intros fuel d s Hs Hn; destruct s as [|c s]; simpl in Hs; try lia.
  - by destruct fuel.
  - by destruct fuel.
  - destruct fuel as [|fuel]; [lia|]. cbn [parse_loop].
    destruct (parse_term _ _ _) as [[d' s']|] eqn:Ht; [|done].
    apply parse_term_progress in Ht. apply IH; lia.
Qed.

(** ** Round trip with decimal printing *)

Lemma digit_is_digit n : 0 <= n < 10 -> is_digit (digit n) = true /\ digit_val (digit n) = n.
Proof.
  intros H. assert (Z.to_nat n < 10)%nat as Hk by lia. rewrite <- (Z2Nat.id n) by lia.
  revert Hk. generalize (Z.to_nat n) as k. intros k Hk.
  do 10 (destruct k as [|k]; [split; reflexivity|]). lia.
Qed.

Lemma leadingInt_digit x n s :
  0 <= n < 10 -> x * 10 + n <= two63 -> leadingInt x (String (digit n) s) = leadingInt (x * 10 + n) s.
Proof.
  intros Hn Hb. cbn [leadingInt]. destruct (digit_is_digit n Hn) as [-> ->].
  destruct (two63 / 10 <? x) eqn:E1.
  { unfold two63 in *. change (9223372036854775808 / 10) with 922337203685477580 in E1. lia. }
  destruct (two63 <? x * 10 + n) eqn:E2; [lia|done].
Qed.

(** Printing is left of whatever follows it. *)
Lemma print_digits_app fuel n acc rest :
  print_digits fuel n acc +:+ rest = print_digits fuel n (acc +:+ rest).
Proof.
  revert n acc. induction fuel as [|fuel IH]; intros n acc; [done|]. simpl.
  destruct (n <? 10); [apply string_app_cons|]. by rewrite IH, string_app_cons.
Qed.

Lemma print_digits_read fuel n acc :
  0 <= n < 10 ^ Z.of_nat fuel -> (0 < fuel)%nat ->
  exists k, 0 < k /\ forall x, 0 <= x -> x * 10 ^ k + n <= two63 ->
    leadingInt x (print_digits fuel n acc) = leadingInt (x * 10 ^ k + n) acc.
Proof.
  revert n acc. induction fuel as [|fuel IH]; intros n acc Hn Hf; [lia|].
  simpl. destruct (n <? 10) eqn:E.
  - exists 1. split; [lia|]. intros x Hx Hb. change (10 ^ 1) with 10 in *.
    rewrite Z.mod_small by lia. apply leadingInt_digit; lia.
  - assert (0 < fuel)%nat as Hf' by (destruct fuel; [change (10 ^ Z.of_nat 1) with 10 in Hn; lia|lia]).
    rewrite Nat2Z.inj_succ, Z.pow_succ_r in Hn by lia.
    destruct (IH (n / 10) (String (digit (n mod 10)) acc)) as (k & Hk & Hread); [|done|].
    { split; [apply Z.div_pos; lia|]. apply Z.div_lt_upper_bound; lia. }
    pose proof (Z.div_mod n 10). pose proof (Z.mod_pos_bound n 10).
    assert (forall x, (x * 10 ^ k + n / 10) * 10 + n mod 10 = x * 10 ^ Z.succ k + n) as Heq.
    { intros x. rewrite Z.pow_succ_r by lia. lia. }
    exists (Z.succ k). split; [lia|]. intros x Hx Hb.
    assert (0 <= x * 10 ^ k) by (apply Z.mul_nonneg_nonneg; [lia|apply Z.pow_nonneg; lia]).
    specialize (Heq x). rewrite Hread by lia. rewrite leadingInt_digit by lia. by rewrite Heq.
Qed.

(** The printed number starts with a digit and is not empty. *)
Lemma print_digits_head fuel n acc :
  (0 < fuel)%nat -> 0 <= n ->
  exists c s, print_digits fuel n acc = String c s /\ is_digit c = true
              /\ (String.length acc <= String.length s)%nat.
Proof.
  revert n acc. induction fuel as [|fuel IH]; intros n acc Hf Hn; [lia|]. simpl.
  destruct (n <? 10) eqn:E.
  - eexists _, _. split; [done|]. split; [|done]. apply digit_is_digit.
    pose proof (Z.mod_pos_bound n 10). lia.
  - destruct fuel as [|fuel].
    + eexists _, _. split; [done|]. split; [|done]. apply digit_is_digit.
      pose proof (Z.mod_pos_bound n 10). lia.
    + destruct (IH (n / 10) (String (digit (n mod 10)) acc)) as (c & s & Heq & Hc & Hlen);
        [lia|apply Z.div_pos; lia|].
      exists c, s. split; [done|]. split; [done|]. simpl in Hlen. lia.
Qed.

Definition plain_units : list string := ["ns"; "us"; "ms"; "s"; "m"; "h"].

Lemma plain_unit_facts u :
  u ∈ plain_units ->
  exists unit c u', unitMap u = Some unit /\ u = String c u' /\ leadingInt 0 u = Some (0, u)
    /\ (forall x, leadingInt x u = Some (x, u)) /\ parse_fraction u = (0, 1, u, false)
    /\ span_unit u = (u, EmptyString).
Proof.
  intros Hu. unfold plain_units in Hu. repeat rewrite elem_of_cons in Hu.
  rewrite elem_of_nil in Hu.
  destruct Hu as [->|[->|[->|[->|[->|[->|[]]]]]]]; eexists _, _, _; repeat split; reflexivity.
Qed.

(** Reading back a printed number of units. *)
Lemma parse_term_print orig n u unit :
  0 <= n -> u ∈ plain_units -> unitMap u = Some unit -> n * unit <= max_int64 ->
  parse_term orig 0 (print_digits 20 n "" +:+ u) = Ok (n * unit, EmptyString).
Proof.
  intros Hn Hu Hunit Hb. destruct (plain_unit_facts u Hu) as (unit' & c0 & u0 & Hm & Hcons & _ & Hlead & Hfrac & Hspan).
  assert (unit' = unit) as -> by congruence. pose proof (unitMap_pos _ _ Hunit) as Hpos.
  assert (n <= max_int64) as Hn' by nia. unfold max_int64, two63 in *.
  rewrite print_digits_app, string_app_nil_l.
  destruct (print_digits_head 20 n u) as (c & s & Heq & Hc & Hlen); [lia|done|].
  destruct (print_digits_read 20 n u) as (k & Hk & Hread); [split; [lia|];
    change (10 ^ Z.of_nat 20) with 100000000000000000000; lia|lia|].
  specialize (Hread 0). rewrite Z.mul_0_l, Z.add_0_l in Hread. rewrite Hlead in Hread.
  unfold two63 in Hread. specialize (Hread ltac:(lia) ltac:(lia)).
  rewrite Heq in *. unfold parse_term. rewrite Hc. cbn [negb orb]. rewrite Hread, Hfrac, Hspan.
  assert (String.length (String c s) <> String.length u) as Hne by (simpl; lia).
  apply Nat.eqb_neq in Hne. rewrite Hne. cbn [negb andb].
  destruct (decide (u = EmptyString)) as [->|_]; [done|]. rewrite Hunit.
  unfold add_term, two63. cbn [Z.ltb Z.compare andb].
  destruct (_ <? n) eqn:E.
  { apply Z.ltb_lt in E. pose proof (Z.div_le_lower_bound 9223372036854775808 unit n). lia. }
  destruct (_ <? 0 + n * unit) eqn:E2; [lia|]. done.
Qed.

Lemma ParseDuration_print n u unit :
  0 <= n -> u ∈ plain_units -> unitMap u = Some unit -> n * unit <= max_int64 ->
  ParseDuration (Itoa n +:+ u) = Ok (n * unit).
Proof.
  intros Hn Hu Hunit Hb. pose proof (fun o => parse_term_print o n u unit Hn Hu Hunit Hb) as Hterm.
  destruct (plain_unit_facts u Hu) as (_ & c0 & u0 & _ & Hcons & _).
  unfold Itoa. destruct (n <? 0) eqn:E; [lia|].
  rewrite print_digits_app, string_app_nil_l in *.
  destruct (print_digits_head 20 n u) as (c & s & Heq & Hc & Hlen); [lia|done|].
  rewrite Heq in *. unfold ParseDuration.
  assert (strip_sign (String c s) = (false, String c s)) as ->.
  { destruct c as [[] [] [] [] [] [] [] []]; try done; vm_compute in Hc; done. }
  assert (s <> EmptyString) as Hs by (intros ->; subst u; simpl in Hlen; lia).
  destruct (decide (String c s = "0")) as [He|_]; [by injection He as -> ->|].
  destruct (decide (String c s = EmptyString)) as [He|_]; [done|].
  change (String.length (String c s)) with (S (String.length s)). cbn [parse_loop].
  rewrite Hterm. destruct (String.length s) eqn:?; cbn [parse_loop];
    (destruct (max_int64 <? n * unit) eqn:E2; [lia|done]).
Qed.
