(* ===== verification/K8s.v ===== *)
(** * K8s: the Kubernetes objects and library functions the operator uses

    The object types hold the fields that code under [internal/] reads or writes.
    The functions of [controllerutil], [apimeta], [resource.Quantity] and the cron
    library are not part of the repository: they are the operations of the class
    [K8sLib], and [K8sLibSpec] states what their documentation promises.
    [RefLib] is a concrete instance, which shows that the promises can be met. *)

From Stdlib Require Import ZArith Lia SpecFloat.
From stdpp Require Import base list strings gmap.
From S2P Require Import Prelude GoLib.

(** ** Objects *)

Record NamespacedName := mkNN { nn_Namespace : string; nn_Name : string }.

#[export] Instance NamespacedName_eq_dec : EqDecision NamespacedName.
Proof. solve_decision. Defined.

Record ObjectMeta := mkMeta {
  om_Name : string;
  om_Namespace : string;
  om_Generation : Z;
  om_DeletionTimestamp : mtime;
  om_Finalizers : list string;
}.

#[export] Instance ObjectMeta_eq_dec : EqDecision ObjectMeta.
Proof. solve_decision. Defined.

Definition set_Finalizers (m : ObjectMeta) (f : list string) : ObjectMeta :=
  mkMeta (om_Name m) (om_Namespace m) (om_Generation m) (om_DeletionTimestamp m) f.

(** [metav1.Condition]; the library-maintained transition time is not kept. *)
Record Condition := mkCond {
  c_Type : string;
  c_Status : string;
  c_ObservedGeneration : Z;
  c_Reason : string;
  c_Message : string;
}.

#[export] Instance Condition_eq_dec : EqDecision Condition.
Proof. solve_decision. Defined.

Definition ConditionTrue : string := "True".
Definition ConditionFalse : string := "False".

Record Secret := mkSecret {
  sec_Name : string;
  sec_Namespace : string;
  sec_Data : gmap string string;
}.

#[export] Instance Secret_eq_dec : EqDecision Secret.
Proof. solve_decision. Defined.

(** A [resource.Quantity] is opaque to the operator, which only converts it. *)
Record Quantity := mkQuantity { q_text : string }.

Record NodeCondition := mkNodeCond { nc_Type : string; nc_Status : string }.

Record Node := mkNode {
  node_Name : string;
  node_Conditions : list NodeCondition;
  node_Allocatable : gmap string Quantity;
  node_Capacity : gmap string Quantity;
}.

(** [Waiting] is the reason of the waiting state, when the container waits. *)
Record ContainerStatus := mkCS { cs_Waiting : option string }.
Record PodCondition := mkPodCond { pc_Type : string; pc_Status : string }.

Record Pod := mkPod {
  pod_NodeName : string;
  pod_Phase : string;
  pod_ContainerStatuses : list ContainerStatus;
  pod_Conditions : list PodCondition;
}.

Record PersistentVolumeClaim := mkPVC { pvc_Phase : string }.

(** [LastTimestamp] and [EventTime] are values, not pointers: zero when unset. *)
Record Event := mkEvent { ev_Type : string; ev_LastTimestamp : Z; ev_EventTime : Z }.

Record Deployment := mkDeployment {
  dep_Name : string;
  dep_Namespace : string;
  dep_TemplateAnnotations : option (gmap string string);
  dep_AvailableReplicas : Z;
}.

#[export] Instance Deployment_eq_dec : EqDecision Deployment.
Proof. solve_decision. Defined.

(** [ctrl.Request] names the object; [ctrl.Result] says when to come back. *)
Record Result := mkResult { Requeue : bool; RequeueAfter : Z }.

Definition done_result : Result := mkResult false 0.
Definition requeue_now : Result := mkResult true 0.
Definition requeue_after (d : Z) : Result := mkResult false d.

(** What controller-runtime does with a reconcile outcome without error: the key
    is queued again when a positive delay or an explicit requeue was asked for. *)
Definition queued_again (r : Result) : bool := (0 <? RequeueAfter r)%Z || Requeue r.

(** ** Library operations *)

Class K8sLib := {
  AddFinalizer : list string -> string -> list string * bool;
  RemoveFinalizer : list string -> string -> list string;
  ContainsFinalizer : list string -> string -> bool;
  SetStatusCondition : list Condition -> Condition -> list Condition;
  IsStatusConditionTrue : list Condition -> string -> bool;
  AsApproximateFloat64 : Quantity -> spec_float;
  zero_quantity : Quantity;
  (* robfig/cron: a parsed five-field schedule and its next activation *)
  CronSchedule : Type;
  cron_parse : string -> result CronSchedule;
  cron_next : CronSchedule -> Z -> Z;
  (* time.Format(RFC3339) in the process's local time zone *)
  format_RFC3339 : Z -> string;
}.

(** The condition of a type, as [apimeta.FindStatusCondition] documents it. *)
Definition find_cond (cs : list Condition) (t : string) : option Condition :=
  List.find (fun c => bool_decide (c_Type c = t)) cs.

Definition cond_status (cs : list Condition) (t : string) : option string :=
  c_Status <$> find_cond cs t.

(** Documented behaviour of the library operations. *)
Class K8sLibSpec (L : K8sLib) : Prop := {
  AddFinalizer_spec fs f :
    AddFinalizer fs f = if ContainsFinalizer fs f then (fs, false) else (fs ++ [f], true);
  ContainsFinalizer_spec fs f : ContainsFinalizer fs f = bool_decide (f ∈ fs);
  RemoveFinalizer_spec fs f : RemoveFinalizer fs f = List.filter (fun g => negb (bool_decide (g = f))) fs;
  SetStatusCondition_same cs c : find_cond (SetStatusCondition cs c) (c_Type c) = Some c;
  SetStatusCondition_other cs c t :
    t <> c_Type c -> find_cond (SetStatusCondition cs c) t = find_cond cs t;
  IsStatusConditionTrue_spec cs t :
    IsStatusConditionTrue cs t = bool_decide (cond_status cs t = Some ConditionTrue);
  (* the next activation is after the instant, or the zero time when there is none *)
  cron_next_after s t : cron_next s t = zero_time \/ (t < cron_next s t)%Z;
}.

Lemma cond_status_same `{K8sLibSpec} cs c :
  cond_status (SetStatusCondition cs c) (c_Type c) = Some (c_Status c).
Proof. unfold cond_status. by rewrite SetStatusCondition_same. Qed.

Lemma cond_status_other `{K8sLibSpec} cs c t :
  t <> c_Type c -> cond_status (SetStatusCondition cs c) t = cond_status cs t.
Proof. intros Hne. unfold cond_status. by rewrite SetStatusCondition_other. Qed.

(** ** A reference instance *)

Definition ref_set_condition (cs : list Condition) (c : Condition) : list Condition :=
  if existsb (fun x => bool_decide (c_Type x = c_Type c)) cs
  then List.map (fun x => if bool_decide (c_Type x = c_Type c) then c else x) cs
  else cs ++ [c].

Lemma find_cond_cons x cs t :
  find_cond (x :: cs) t = if bool_decide (c_Type x = t) then Some x else find_cond cs t.
Proof. reflexivity. Qed.

Lemma find_cond_app_none cs cs' t :
  find_cond cs t = None -> find_cond (cs ++ cs') t = find_cond cs' t.
Proof. induction cs as [|x cs IH]; simpl; [done|]. case_match; naive_solver. Qed.

Lemma find_cond_app_some cs cs' t c :
  find_cond cs t = Some c -> find_cond (cs ++ cs') t = Some c.
Proof. induction cs as [|x cs IH]; simpl; [done|]. case_match; naive_solver. Qed.

Lemma existsb_find_cond cs t :
  existsb (fun x => bool_decide (c_Type x = t)) cs = bool_decide (is_Some (find_cond cs t)).
Proof.
  induction cs as [|x cs IH]; simpl; [done|]. destruct (bool_decide (c_Type x = t)); simpl; [done|exact IH].
Qed.

Lemma find_cond_map_same cs c :
  is_Some (find_cond cs (c_Type c)) ->
  find_cond (List.map (fun x => if bool_decide (c_Type x = c_Type c) then c else x) cs) (c_Type c)
  = Some c.
Proof.
  induction cs as [|x cs IH]; intros [y Hy]; [done|].
  cbn [List.map]. rewrite find_cond_cons in *. destruct (bool_decide (c_Type x = c_Type c)) eqn:E.
  - by rewrite bool_decide_eq_true_2.
  - rewrite E. apply IH. eauto.
Qed.

Lemma find_cond_map_other cs c t :
  t <> c_Type c ->
  find_cond (List.map (fun x => if bool_decide (c_Type x = c_Type c) then c else x) cs) t = find_cond cs t.
Proof.
  intros Hne. induction cs as [|x cs IH]; [done|]. cbn [List.map]. rewrite !find_cond_cons, IH.
  destruct (bool_decide (c_Type x = c_Type c)) eqn:E; [|done].
  apply bool_decide_eq_true in E. rewrite !bool_decide_eq_false_2 by congruence. done.
Qed.

(** The cron part of the instance fires at every full minute, or never for the
    schedule of a date that does not exist. *)
Definition RefLib : K8sLib := {|
  AddFinalizer fs f := if bool_decide (f ∈ fs) then (fs, false) else (fs ++ [f], true);
  RemoveFinalizer fs f := List.filter (fun g => negb (bool_decide (g = f))) fs;
  ContainsFinalizer fs f := bool_decide (f ∈ fs);
  SetStatusCondition := ref_set_condition;
  IsStatusConditionTrue cs t := bool_decide (cond_status cs t = Some ConditionTrue);
  AsApproximateFloat64 q := S754_zero false;
  zero_quantity := mkQuantity "0";
  CronSchedule := bool;
  cron_parse s :=
    if decide (s = "* * * * *") then Ok true
    else if decide (s = "0 0 30 2 *") then Ok false
    else Err (Errorf "expected exactly 5 fields");
  cron_next b t := if b then ((t / Minute + 1) * Minute)%Z else zero_time;
  format_RFC3339 t := Itoa t;
|}.

Lemma RefLibSpec : K8sLibSpec RefLib.
Proof.
  split; try done.
  - intros cs c. simpl. unfold ref_set_condition. rewrite existsb_find_cond.
    destruct (decide (is_Some (find_cond cs (c_Type c)))) as [Hs|Hn].
    + rewrite bool_decide_eq_true_2 by done. by apply find_cond_map_same.
    + rewrite bool_decide_eq_false_2 by done. apply eq_None_not_Some in Hn.
      rewrite find_cond_app_none by done. simpl. by rewrite bool_decide_eq_true_2.
  - intros cs c t Hne. simpl. unfold ref_set_condition. destruct (existsb _ _).
    + by apply find_cond_map_other.
    + destruct (find_cond cs t) eqn:E; [by apply find_cond_app_some|].
      rewrite find_cond_app_none by done. simpl. by rewrite bool_decide_eq_false_2.
  - intros [] t; [right|by left]. simpl.
    pose proof (Z.div_mod t Minute). pose proof (Z.mod_pos_bound t Minute).
    unfold Minute, Second in *. lia.
Qed.
