(* ===== verification/ApiTypes.v ===== *)
(** * ApiTypes: the custom resources of api/v1alpha1

    The records follow losantsync_types.go and ranchersession_types.go field by
    field; the [with_] functions are the assignments the reconcilers make to one
    field of an object. *)

From Stdlib Require Import ZArith.
From stdpp Require Import base list strings gmap.
From S2P Require Import Prelude GoLib K8s.

(** ** LosantSync *)

(** [LosantSyncPhase] is a string type; a new object has the empty phase. *)
Definition PhaseProvisioning : string := "Provisioning".
Definition PhaseActive : string := "Active".
Definition PhaseDegraded : string := "Degraded".
Definition PhaseSuspended : string := "Suspended".

Definition ConditionWorkflowDeployed : string := "WorkflowDeployed".

Record WorkflowDeployment := mkWD { wd_FlowID : string; wd_Version : string }.

Record ClusterTags := mkTags { ct_Manager : string; ct_UID : string; ct_GPS : string }.

Record SecretRef := mkSecretRef { sr_Name : string; sr_Namespace : string }.

Record GEASpec := mkGEASpec {
  gea_ServiceRef : string;
  gea_Port : Z;
  gea_DeploymentRef : string;
}.

Record LosantSyncSpec := mkLSSpec {
  ApplicationID : string;
  ProvisioningSecretRef : SecretRef;
  ClusterName : string;
  Region : string;
  RancherURL : string;
  spec_CronSchedule : string;
  Interval : string;
  GEA : GEASpec;
  DeviceRecipeID : string;
  WorkflowDeployments : list WorkflowDeployment;
  Tags : ClusterTags;
  Suspend : bool;
}.

Record LosantSyncStatus := mkLSStatus {
  Phase : string;
  Conditions : list Condition;
  ClusterDeviceID : string;
  NodeDevices : option (gmap string string);
  LastSyncTime : mtime;
  NextScheduledTime : mtime;
}.

Record LosantSync := mkLosantSync {
  ls_Meta : ObjectMeta;
  ls_Spec : LosantSyncSpec;
  ls_Status : LosantSyncStatus;
}.

#[export] Instance WorkflowDeployment_eq_dec : EqDecision WorkflowDeployment.
Proof. solve_decision. Defined.

#[export] Instance ClusterTags_eq_dec : EqDecision ClusterTags.
Proof. solve_decision. Defined.

#[export] Instance SecretRef_eq_dec : EqDecision SecretRef.
Proof. solve_decision. Defined.

#[export] Instance GEASpec_eq_dec : EqDecision GEASpec.
Proof. solve_decision. Defined.

#[export] Instance LosantSyncSpec_eq_dec : EqDecision LosantSyncSpec.
Proof. solve_decision. Defined.

#[export] Instance LosantSyncStatus_eq_dec : EqDecision LosantSyncStatus.
Proof. solve_decision. Defined.

#[export] Instance LosantSync_eq_dec : EqDecision LosantSync.
Proof. solve_decision. Defined.

Definition with_status (ls : LosantSync) (st : LosantSyncStatus) : LosantSync :=
  mkLosantSync (ls_Meta ls) (ls_Spec ls) st.
Definition with_finalizers (ls : LosantSync) (f : list string) : LosantSync :=
  mkLosantSync (set_Finalizers (ls_Meta ls) f) (ls_Spec ls) (ls_Status ls).

Definition with_Phase (ls : LosantSync) (p : string) : LosantSync :=
  let s := ls_Status ls in
  with_status ls (mkLSStatus p (Conditions s) (ClusterDeviceID s) (NodeDevices s)
                    (LastSyncTime s) (NextScheduledTime s)).
Definition with_Conditions (ls : LosantSync) (c : list Condition) : LosantSync :=
  let s := ls_Status ls in
  with_status ls (mkLSStatus (Phase s) c (ClusterDeviceID s) (NodeDevices s)
                    (LastSyncTime s) (NextScheduledTime s)).
Definition with_ClusterDeviceID (ls : LosantSync) (d : string) : LosantSync :=
  let s := ls_Status ls in
  with_status ls (mkLSStatus (Phase s) (Conditions s) d (NodeDevices s)
                    (LastSyncTime s) (NextScheduledTime s)).
Definition with_NodeDevices (ls : LosantSync) (m : option (gmap string string)) : LosantSync :=
  let s := ls_Status ls in
  with_status ls (mkLSStatus (Phase s) (Conditions s) (ClusterDeviceID s) m
                    (LastSyncTime s) (NextScheduledTime s)).
Definition with_LastSyncTime (ls : LosantSync) (t : mtime) : LosantSync :=
  let s := ls_Status ls in
  with_status ls (mkLSStatus (Phase s) (Conditions s) (ClusterDeviceID s) (NodeDevices s)
                    t (NextScheduledTime s)).
Definition with_NextScheduledTime (ls : LosantSync) (t : mtime) : LosantSync :=
  let s := ls_Status ls in
  with_status ls (mkLSStatus (Phase s) (Conditions s) (ClusterDeviceID s) (NodeDevices s)
                    (LastSyncTime s) t).

(** Reading a Go map that may be nil. *)
Definition node_devices (ls : LosantSync) : gmap string string :=
  default ∅ (NodeDevices (ls_Status ls)).

(** Whether the object is being deleted: [!DeletionTimestamp.IsZero()]. *)
Definition deleting (m : ObjectMeta) : bool := negb (IsZero (om_DeletionTimestamp m)).

(** ** RancherSession *)

Definition PhaseConnecting : string := "Connecting".
Definition PhaseConnected : string := "Connected".
Definition PhaseDisconnecting : string := "Disconnecting".
Definition PhaseDisconnected : string := "Disconnected".
Definition PhaseFailed : string := "Failed".

Record RancherSessionSpec := mkRSSpec {
  CredentialsSecretRef : SecretRef;
  ClusterDisplayName : string;
  TTLSeconds : Z;
  rs_Suspend : bool;
}.

Record RancherSessionStatus := mkRSStatus {
  rs_Phase : string;
  RancherClusterID : string;
  ManifestApplied : bool;
  ConnectedAt : mtime;
  ExpiresAt : mtime;
  rs_Conditions : list Condition;
  LastTransitionMessage : string;
}.

Record RancherSession := mkRancherSession {
  rs_Meta : ObjectMeta;
  rs_Spec : RancherSessionSpec;
  rs_Status : RancherSessionStatus;
}.

#[export] Instance RancherSessionSpec_eq_dec : EqDecision RancherSessionSpec.
Proof. solve_decision. Defined.

#[export] Instance RancherSessionStatus_eq_dec : EqDecision RancherSessionStatus.
Proof. solve_decision. Defined.

#[export] Instance RancherSession_eq_dec : EqDecision RancherSession.
Proof. solve_decision. Defined.

Definition rs_with_status (rs : RancherSession) (st : RancherSessionStatus) : RancherSession :=
  mkRancherSession (rs_Meta rs) (rs_Spec rs) st.
Definition rs_with_finalizers (rs : RancherSession) (f : list string) : RancherSession :=
  mkRancherSession (set_Finalizers (rs_Meta rs) f) (rs_Spec rs) (rs_Status rs).

Definition rs_with_Phase (rs : RancherSession) (p : string) : RancherSession :=
  let s := rs_Status rs in
  rs_with_status rs (mkRSStatus p (RancherClusterID s) (ManifestApplied s) (ConnectedAt s)
                       (ExpiresAt s) (rs_Conditions s) (LastTransitionMessage s)).
Definition rs_with_ClusterID (rs : RancherSession) (i : string) : RancherSession :=
  let s := rs_Status rs in
  rs_with_status rs (mkRSStatus (rs_Phase s) i (ManifestApplied s) (ConnectedAt s)
                       (ExpiresAt s) (rs_Conditions s) (LastTransitionMessage s)).
Definition rs_with_ManifestApplied (rs : RancherSession) (b : bool) : RancherSession :=
  let s := rs_Status rs in
  rs_with_status rs (mkRSStatus (rs_Phase s) (RancherClusterID s) b (ConnectedAt s)
                       (ExpiresAt s) (rs_Conditions s) (LastTransitionMessage s)).
Definition rs_with_times (rs : RancherSession) (connected expires : mtime) : RancherSession :=
  let s := rs_Status rs in
  rs_with_status rs (mkRSStatus (rs_Phase s) (RancherClusterID s) (ManifestApplied s) connected
                       expires (rs_Conditions s) (LastTransitionMessage s)).
Definition rs_with_Conditions (rs : RancherSession) (c : list Condition) : RancherSession :=
  let s := rs_Status rs in
  rs_with_status rs (mkRSStatus (rs_Phase s) (RancherClusterID s) (ManifestApplied s) (ConnectedAt s)
                       (ExpiresAt s) c (LastTransitionMessage s)).
Definition rs_with_Message (rs : RancherSession) (m : string) : RancherSession :=
  let s := rs_Status rs in
  rs_with_status rs (mkRSStatus (rs_Phase s) (RancherClusterID s) (ManifestApplied s) (ConnectedAt s)
                       (ExpiresAt s) (rs_Conditions s) m).
