(* ===== verification/HealthScore.v ===== *)
(** * HealthScore: the snapshot types of store.go and the scores of health_score.go

    Counters are Go [int]s, so every addition, subtraction and multiplication of
    the source wraps at 64 bits; [score_spec] is the deduction table of the
    documentation over plain integers, and the two agree on every snapshot whose
    counters are possible for a real cluster. *)

From Stdlib Require Import ZArith Lia SpecFloat Permutation.
From stdpp Require Import base list strings gmap.
From S2P Require Import Prelude GoLib.

Local Open Scope Z_scope.
Local Open Scope go_scope.

(** ** Snapshot types (store.go) *)

Record NodeHealth := mkNodeHealth {
  nh_Name : string;
  Ready : bool;
  MemoryPressure : bool;
  DiskPressure : bool;
  PIDPressure : bool;
  CPURequestPct : spec_float;
  MemRequestPct : spec_float;
  PodCount : Z;
  NotReadyPods : Z;
  nh_CrashLoopPods : Z;
  nh_HealthScore : Z;
  nh_HealthStatus : string;
}.

Record ClusterHealth := mkClusterHealth {
  TotalNodes : Z;
  ReadyNodes : Z;
  UnhealthyNodes : Z;
  TotalPods : Z;
  RunningPods : Z;
  FailedPods : Z;
  PendingPods : Z;
  CrashLoopPods : Z;
  DegradedPVCs : Z;
  CoreDNSHealthy : bool;
  EventWarnings : Z;
  ch_HealthScore : Z;
  ch_HealthStatus : string;
}.

#[export] Instance spec_float_eq_dec : EqDecision spec_float.
Proof. solve_decision. Defined.

#[export] Instance NodeHealth_eq_dec : EqDecision NodeHealth.
Proof. solve_decision. Defined.

#[export] Instance ClusterHealth_eq_dec : EqDecision ClusterHealth.
Proof. solve_decision. Defined.

(** Go's zero values. *)
Definition zero_NodeHealth : NodeHealth :=
  mkNodeHealth "" false false false false (S754_zero false) (S754_zero false) 0 0 0 0 "".
Definition zero_ClusterHealth : ClusterHealth :=
  mkClusterHealth 0 0 0 0 0 0 0 0 0 false 0 0 "".

(** ** Scores (health_score.go) *)

Definition HealthStatusFromScore (score : Z) : string :=
  if 80 <=? score then "healthy"
  else if 50 <=? score then "degraded"
  else "critical".

Definition clamp (v min max : Z) : Z :=
  if v <? min then min else if max <? v then max else v.

Definition ComputeNodeHealthScore (n : NodeHealth) : Z :=
  let score := 100 in
  let score := if negb (Ready n) then score -! 20 else score in
  let score := if MemoryPressure n then score -! 10 else score in
  let score := if DiskPressure n then score -! 10 else score in
  let score := if PIDPressure n then score -! 5 else score in
  clamp score 0 100.

(** The body of the loop over the nodes. *)
Definition node_deduction (n : NodeHealth) : Z :=
  let d := 0 in
  let d := if negb (Ready n) then d +! 20 else d in
  let d := if MemoryPressure n then d +! 10 else d in
  let d := if DiskPressure n then d +! 10 else d in
  if PIDPressure n then d +! 5 else d.

Definition totalNodeDeductions (nodes : list NodeHealth) : Z :=
  fold_left (fun total n => total +! node_deduction n) nodes 0.

(** The loop of the source runs over a Go map, in an order the runtime chooses:
    [ns] lists the values of the map in that order. *)
Definition ClusterScoreOver (cluster : ClusterHealth) (ns : list NodeHealth) : Z :=
  let score := 100 in
  let score :=
    if (0 <? length ns)%nat
    then score -! Z.quot (totalNodeDeductions ns) (Z.of_nat (length ns)) else score in
  let crash := CrashLoopPods cluster *! 2 in
  let crash := if 20 <? crash then 20 else crash in
  let score := score -! crash in
  let failed := if 10 <? FailedPods cluster then 10 else FailedPods cluster in
  let score := score -! failed in
  let warn := if 10 <? EventWarnings cluster then 10 else EventWarnings cluster in
  let score := score -! warn in
  let score := if negb (CoreDNSHealthy cluster) then score -! 15 else score in
  let pvc := if 10 <? DegradedPVCs cluster then 10 else DegradedPVCs cluster in
  let score := score -! pvc in
  clamp score 0 100.

Definition ComputeClusterHealthScore (cluster : ClusterHealth) (nodes : gmap string NodeHealth) : Z :=
  ClusterScoreOver cluster (map_to_list nodes).*2.

(** ** Reference: the documented deduction table over integers *)

Definition deduction_spec (n : NodeHealth) : Z :=
  (if Ready n then 0 else 20) + (if MemoryPressure n then 10 else 0)
  + (if DiskPressure n then 10 else 0) + (if PIDPressure n then 5 else 0).

Definition sumZ (l : list Z) : Z := foldr Z.add 0 l.

Definition average_deduction (ns : list NodeHealth) : Z :=
  sumZ (deduction_spec <$> ns) / Z.of_nat (length ns).

Definition score_spec (cluster : ClusterHealth) (ns : list NodeHealth) : Z :=
  Z.max 0 (100
    - average_deduction ns
    - Z.min 20 (2 * CrashLoopPods cluster)
    - Z.min 10 (FailedPods cluster)
    - Z.min 10 (EventWarnings cluster)
    - (if CoreDNSHealthy cluster then 0 else 15)
    - Z.min 10 (DegradedPVCs cluster)).

(** Counters a cluster can have: not negative, and far from the end of the range. *)
Definition counter_ok (z : Z) : Prop := 0 <= z < 2 ^ 61.

Record counters_ok (cluster : ClusterHealth) : Prop := {
  ok_crash : counter_ok (CrashLoopPods cluster);
  ok_failed : counter_ok (FailedPods cluster);
  ok_warn : counter_ok (EventWarnings cluster);
  ok_pvc : counter_ok (DegradedPVCs cluster);
}.

(** ** Lemmas *)

(** Remove [wrap64] where the operands are known to be small. *)
Ltac unwrap :=
  repeat match goal with
  | |- context [wrap64 ?z] =>
      rewrite (wrap64_id z) by (unfold in_int64, min_int64, max_int64, two63; lia)
  end.

Lemma clamp_range v lo hi : lo <= hi -> lo <= clamp v lo hi <= hi.
Proof. unfold clamp. intros. destruct (v <? lo) eqn:?, (hi <? v) eqn:?; lia. Qed.

Lemma clamp_0_100 v : clamp v 0 100 = Z.max 0 (Z.min 100 v).
Proof. unfold clamp. destruct (v <? 0) eqn:?, (100 <? v) eqn:?; lia. Qed.

Lemma node_deduction_eq n : node_deduction n = deduction_spec n.
Proof.
  unfold node_deduction, deduction_spec.
  destruct (Ready n), (MemoryPressure n), (DiskPressure n), (PIDPressure n); reflexivity.
Qed.

Lemma deduction_range n : 0 <= deduction_spec n <= 45.
Proof. unfold deduction_spec. repeat case_match; lia. Qed.

Lemma node_score_eq n : ComputeNodeHealthScore n = 100 - deduction_spec n.
Proof.
  unfold ComputeNodeHealthScore, deduction_spec.
  destruct (Ready n), (MemoryPressure n), (DiskPressure n), (PIDPressure n); reflexivity.
Qed.

Lemma sum_deduction_cons n ns :
  sumZ (deduction_spec <$> n :: ns) = deduction_spec n + sumZ (deduction_spec <$> ns).
Proof. reflexivity. Qed.

Lemma sum_deduction_range ns : 0 <= sumZ (deduction_spec <$> ns) <= 45 * Z.of_nat (length ns).
Proof.
  induction ns as [|n ns IH]; [done|]. rewrite sum_deduction_cons.
  pose proof (deduction_range n). simpl length. lia.
Qed.

Lemma fold_deductions ns acc :
  0 <= acc -> acc + 45 * Z.of_nat (length ns) < 2 ^ 62 ->
  fold_left (fun total n => total +! node_deduction n) ns acc = acc + sumZ (deduction_spec <$> ns).
Proof.
  revert acc. induction ns as [|n ns IH]; intros acc H0 Hb; [simpl; lia|].
  rewrite sum_deduction_cons. cbn [fold_left].
  pose proof (deduction_range n). simpl length in Hb. rewrite Nat2Z.inj_succ in Hb.
  rewrite node_deduction_eq. unwrap. rewrite IH; lia.
Qed.

(** The order of the additions does not matter, even when they wrap. *)
Lemma fold_deductions_perm ns ns' acc :
  ns ≡ₚ ns' ->
  fold_left (fun total n => total +! node_deduction n) ns acc
  = fold_left (fun total n => total +! node_deduction n) ns' acc.
Proof.
  intros Hp. revert acc. induction Hp as [|n l l' _ IH|n m l|l1 l2 l3 _ IH1 _ IH2]; intros acc; simpl.
  - done.
  - apply IH.
  - f_equal. rewrite !wrap64_add_l. f_equal. lia.
  - by rewrite IH1.
Qed.

#[export] Instance ClusterScoreOver_perm cluster : Proper ((≡ₚ) ==> eq) (ClusterScoreOver cluster).
Proof.
  intros ns ns' Hp. unfold ClusterScoreOver, totalNodeDeductions.
  rewrite (fold_deductions_perm ns ns' 0 Hp). by rewrite (Permutation_length Hp).
Qed.

Lemma average_range ns : 0 <= average_deduction ns <= 45.
Proof.
  unfold average_deduction. pose proof (sum_deduction_range ns) as Hs.
  destruct ns as [|n ns]; [done|]. split; [apply Z.div_pos; simpl length in *; lia|].
  apply Z.div_le_upper_bound; simpl length in *; lia.
Qed.

Lemma ClusterScoreOver_spec cluster ns :
  counters_ok cluster -> Z.of_nat (length ns) < 2 ^ 56 ->
  ClusterScoreOver cluster ns = score_spec cluster ns.
Proof.
  intros [Hc Hf Hw Hp] Hl. unfold counter_ok in *.
  assert (totalNodeDeductions ns = sumZ (deduction_spec <$> ns)) as Htot.
  { unfold totalNodeDeductions. rewrite fold_deductions; [lia|lia|]. lia. }
  pose proof (average_range ns) as Havg. pose proof (sum_deduction_range ns) as Hsum.
  assert ((if (0 <? length ns)%nat
           then 100 -! Z.quot (totalNodeDeductions ns) (Z.of_nat (length ns)) else 100)
          = 100 - average_deduction ns) as Hn.
  { rewrite Htot. unfold average_deduction in *. destruct ns as [|n ns]; [done|]. cbn [Nat.ltb Nat.leb length].
    rewrite Z.quot_div_nonneg by (simpl length in *; lia). simpl length in *. unwrap. done. }
  unfold ClusterScoreOver. rewrite Hn. clear Hn Htot. unfold score_spec.
  rewrite clamp_0_100. unwrap.
  repeat match goal with |- context [if ?b then _ else _] => destruct b eqn:? end;
    repeat match goal with H : negb _ = _ |- _ => simpl in H; try discriminate H end;
    unwrap; lia.
Qed.

(** ** Theorems *)

(** The cluster score lies between 0 and 100 for every snapshot and node map, also when
    the counters are so large that the intermediate arithmetic wraps around. *)
Theorem cluster_score_bounds cluster nodes :
  0 <= ComputeClusterHealthScore cluster nodes <= 100.
Proof. unfold ComputeClusterHealthScore, ClusterScoreOver. apply clamp_range. lia. Qed.

(** C5: on every snapshot whose counters are possible, the wrapping implementation computes
    the documented deduction table, whatever order the runtime ranges over the node map in. *)
Theorem cluster_score_refines_table cluster nodes order :
  counters_ok cluster -> Z.of_nat (size nodes) < 2 ^ 56 -> order ≡ₚ (map_to_list nodes).*2 ->
  ComputeClusterHealthScore cluster nodes = ClusterScoreOver cluster order
  /\ ClusterScoreOver cluster order = score_spec cluster order.
Proof.
  intros Hc Hn Hp. split.
  - unfold ComputeClusterHealthScore. by rewrite Hp.
  - apply ClusterScoreOver_spec; [done|].
    by rewrite Hp, length_fmap, length_map_to_list.
Qed.

(** The cluster score is monotone: a cluster with at least as many crash-looping and failed
    pods, warnings and degraded claims, no healthier DNS and the same nodes never scores higher. *)
Theorem cluster_score_monotone c1 c2 nodes :
  counters_ok c1 -> counters_ok c2 -> Z.of_nat (size nodes) < 2 ^ 56 ->
  CrashLoopPods c1 <= CrashLoopPods c2 -> FailedPods c1 <= FailedPods c2 ->
  EventWarnings c1 <= EventWarnings c2 -> DegradedPVCs c1 <= DegradedPVCs c2 ->
  (CoreDNSHealthy c2 = true -> CoreDNSHealthy c1 = true) ->
  ComputeClusterHealthScore c2 nodes <= ComputeClusterHealthScore c1 nodes.
Proof.
  intros H1 H2 Hn ? ? ? ? Hdns.
  assert (Z.of_nat (length (map_to_list nodes).*2) < 2 ^ 56)
    by (by rewrite length_fmap, length_map_to_list).
  unfold ComputeClusterHealthScore. rewrite !ClusterScoreOver_spec by done.
  unfold score_spec. destruct (CoreDNSHealthy c1), (CoreDNSHealthy c2); try lia;
    by specialize (Hdns eq_refl).
Qed.

(** A node's score is 100 minus its deductions, so it is at least 55 and a node is
    reported healthy or degraded but never critical. *)
Theorem node_score_never_critical n :
  ComputeNodeHealthScore n = 100 - deduction_spec n
  /\ 55 <= ComputeNodeHealthScore n <= 100
  /\ HealthStatusFromScore (ComputeNodeHealthScore n) <> "critical".
Proof.
  pose proof (deduction_range n). rewrite node_score_eq.
  split; [done|]. split; [lia|]. unfold HealthStatusFromScore.
  repeat case_match; try done. lia.
Qed.

(** The status tag partitions the scores exactly at 80 and 50. *)
Theorem status_thresholds score :
  (HealthStatusFromScore score = "healthy" <-> 80 <= score)
  /\ (HealthStatusFromScore score = "degraded" <-> 50 <= score < 80)
  /\ (HealthStatusFromScore score = "critical" <-> score < 50).
Proof.
  unfold HealthStatusFromScore.
  destruct (80 <=? score) eqn:E1, (50 <=? score) eqn:E2; repeat split; intros; try done; try lia.
Qed.

(** Witnesses: a two-node cluster with one node under memory pressure. *)
Definition ready_node : NodeHealth :=
  mkNodeHealth "a" true false false false (S754_zero false) (S754_zero false) 3 0 0 100 "healthy".
Definition pressured_node : NodeHealth :=
  mkNodeHealth "b" false true false false (S754_zero false) (S754_zero false) 3 0 0 70 "degraded".
Definition two_nodes : gmap string NodeHealth := <["a":=ready_node]> (<["b":=pressured_node]> ∅).
Definition sick_cluster : ClusterHealth :=
  mkClusterHealth 2 1 1 6 4 1 1 2 1 true 3 0 "".

Lemma counters_ok_sick : counters_ok sick_cluster.
Proof. split; split; vm_compute; congruence. Qed.

Lemma cluster_score_refines_table_witness :
  ComputeClusterHealthScore sick_cluster two_nodes = 76
  /\ ClusterScoreOver sick_cluster (map_to_list two_nodes).*2
     = score_spec sick_cluster (map_to_list two_nodes).*2.
Proof.
  pose proof (cluster_score_refines_table sick_cluster two_nodes (map_to_list two_nodes).*2
    counters_ok_sick ltac:(vm_compute; reflexivity) ltac:(reflexivity)) as [H1 H2].
  split; [vm_compute; reflexivity|exact H2].
Defined.

Lemma cluster_score_monotone_witness :
  ComputeClusterHealthScore sick_cluster two_nodes
  <= ComputeClusterHealthScore (mkClusterHealth 2 1 1 6 4 0 1 1 1 true 3 0 "") two_nodes.
Proof.
  apply (cluster_score_monotone (mkClusterHealth 2 1 1 6 4 0 1 1 1 true 3 0 "") sick_cluster two_nodes);
    try (split; split; vm_compute; congruence); try (vm_compute; congruence).
Defined.
