(* ===== verification/Collectors.v ===== *)
(** * Collectors: node, pod, event, claim and CoreDNS collectors of internal/monitor

    Each collector is the loop of the source over the listed objects, with Go
    [int] counters that wrap.  The specifications count with [countZ]. *)

From Stdlib Require Import ZArith Lia SpecFloat.
From stdpp Require Import base list strings gmap.
From S2P Require Import Prelude GoLib K8s HealthScore.

Local Open Scope Z_scope.
Local Open Scope go_scope.

(** [x++] on a Go int. *)
Definition inc (z : Z) : Z := z +! 1.

(** ** Nodes (node_collector.go) *)

Definition float64_zero : spec_float := S754_zero false.
Definition float64_one : spec_float := binary_normalize 53 1024 1 0 false.
Definition float64_hundred : spec_float := binary_normalize 53 1024 100 0 false.

Definition requestPct `{K8sLib} (allocatable capacity : Quantity) : spec_float :=
  let cap := AsApproximateFloat64 capacity in
  if SFeqb cap float64_zero then float64_zero
  else
    let alloc := AsApproximateFloat64 allocatable in
    let pct := SFmul 53 1024 (SFsub 53 1024 float64_one (SFdiv 53 1024 alloc cap)) float64_hundred in
    if SFltb pct float64_zero then float64_zero else pct.

Definition NodeReady : string := "Ready".
Definition NodeMemoryPressure : string := "MemoryPressure".
Definition NodeDiskPressure : string := "DiskPressure".
Definition NodePIDPressure : string := "PIDPressure".

(** The body of the loop over the node's conditions: a later condition of the same
    type overwrites an earlier one. *)
Definition apply_condition (h : NodeHealth) (c : NodeCondition) : NodeHealth :=
  let v := bool_decide (nc_Status c = ConditionTrue) in
  let upd r m d p := mkNodeHealth (nh_Name h) r m d p (CPURequestPct h) (MemRequestPct h)
                       (PodCount h) (NotReadyPods h) (nh_CrashLoopPods h)
                       (nh_HealthScore h) (nh_HealthStatus h) in
  if decide (nc_Type c = NodeReady) then
    upd v (MemoryPressure h) (DiskPressure h) (PIDPressure h)
  else if decide (nc_Type c = NodeMemoryPressure) then
    upd (Ready h) v (DiskPressure h) (PIDPressure h)
  else if decide (nc_Type c = NodeDiskPressure) then
    upd (Ready h) (MemoryPressure h) v (PIDPressure h)
  else if decide (nc_Type c = NodePIDPressure) then
    upd (Ready h) (MemoryPressure h) (DiskPressure h) v
  else h.

Definition with_pcts (h : NodeHealth) (cpu mem : spec_float) : NodeHealth :=
  mkNodeHealth (nh_Name h) (Ready h) (MemoryPressure h) (DiskPressure h) (PIDPressure h) cpu mem
    (PodCount h) (NotReadyPods h) (nh_CrashLoopPods h) (nh_HealthScore h) (nh_HealthStatus h).

Definition with_score (h : NodeHealth) (score : Z) (status : string) : NodeHealth :=
  mkNodeHealth (nh_Name h) (Ready h) (MemoryPressure h) (DiskPressure h) (PIDPressure h)
    (CPURequestPct h) (MemRequestPct h) (PodCount h) (NotReadyPods h) (nh_CrashLoopPods h) score status.

Definition with_pods (h : NodeHealth) (total notReady crash : Z) : NodeHealth :=
  mkNodeHealth (nh_Name h) (Ready h) (MemoryPressure h) (DiskPressure h) (PIDPressure h)
    (CPURequestPct h) (MemRequestPct h) total notReady crash (nh_HealthScore h) (nh_HealthStatus h).

(** Indexing a Go map with a missing key yields the zero quantity. *)
Definition quantity_at `{K8sLib} (m : gmap string Quantity) (k : string) : Quantity :=
  default zero_quantity (m !! k).

Definition CollectNodeHealth `{K8sLib} (node : Node) : NodeHealth :=
  let h := mkNodeHealth (node_Name node) false false false false float64_zero float64_zero 0 0 0 0 "" in
  let h := fold_left apply_condition (node_Conditions node) h in
  let h := with_pcts h
    (requestPct (quantity_at (node_Allocatable node) "cpu") (quantity_at (node_Capacity node) "cpu"))
    (requestPct (quantity_at (node_Allocatable node) "memory") (quantity_at (node_Capacity node) "memory")) in
  let score := ComputeNodeHealthScore h in
  with_score h score (HealthStatusFromScore score).

(** ** Pods (pod_collector.go) *)

Record PodCounts := mkPodCounts {
  Total : Z;
  Running : Z;
  Failed : Z;
  Pending : Z;
  CrashLoop : Z;
  NotReady : Z;
}.

Definition zero_PodCounts : PodCounts := mkPodCounts 0 0 0 0 0 0.

Definition PodRunning : string := "Running".
Definition PodFailed : string := "Failed".
Definition PodPending : string := "Pending".
Definition PodReady : string := "Ready".

Fixpoint crash_looping (css : list ContainerStatus) : bool :=
  match css with
  | [] => false
  | cs :: css' =>
      if bool_decide (cs_Waiting cs = Some "CrashLoopBackOff") then true else crash_looping css'
  end.

Definition isCrashLooping (p : Pod) : bool := crash_looping (pod_ContainerStatuses p).

Fixpoint pod_ready (cs : list PodCondition) : bool :=
  match cs with
  | [] => false
  | c :: cs' =>
      if decide (pc_Type c = PodReady) then bool_decide (pc_Status c = ConditionTrue)
      else pod_ready cs'
  end.

Definition isPodReady (p : Pod) : bool := pod_ready (pod_Conditions p).

(** One pod added to a counter; [ready] says whether NotReady is maintained, which
    the source does for the node and not for the cluster. *)
Definition count_pod (ready : bool) (p : Pod) (nc : PodCounts) : PodCounts :=
  let '(mkPodCounts t r f pe cl nr) := nc in
  let t := inc t in
  let '(r, f, pe) :=
    if decide (pod_Phase p = PodRunning) then (inc r, f, pe)
    else if decide (pod_Phase p = PodFailed) then (r, inc f, pe)
    else if decide (pod_Phase p = PodPending) then (r, f, inc pe)
    else (r, f, pe) in
  let cl := if isCrashLooping p then inc cl else cl in
  let nr := if ready && negb (isPodReady p) && bool_decide (pod_Phase p = PodRunning) then inc nr else nr in
  mkPodCounts t r f pe cl nr.

Definition collect_pod (acc : gmap string PodCounts * PodCounts) (p : Pod)
  : gmap string PodCounts * PodCounts :=
  let '(perNode, cluster) := acc in
  let nodeName := pod_NodeName p in
  let nc := default zero_PodCounts (perNode !! nodeName) in
  (<[nodeName := count_pod true p nc]> perNode, count_pod false p cluster).

Definition CollectPodCounts (pods : list Pod) : gmap string PodCounts * PodCounts :=
  fold_left collect_pod pods (∅, zero_PodCounts).

(** ** Events, claims, CoreDNS *)

Definition warningWindow : Z := Hour.
Definition EventTypeWarning : string := "Warning".

Definition is_recent_warning (now : Z) (ev : Event) : bool :=
  let cutoff := now - warningWindow in
  if decide (ev_Type ev <> EventTypeWarning) then false
  else
    let ts := ev_LastTimestamp ev in
    let ts := if ts =? zero_time then ev_EventTime ev else ts in
    After ts cutoff.

(** [now] is the reading of [time.Now()] at the start of the count. *)
Definition CountRecentWarnings (now : Z) (events : list Event) : Z :=
  fold_left (fun count ev => if is_recent_warning now ev then inc count else count) events 0.

Definition ClaimBound : string := "Bound".

Definition pvc_degraded (pvc : PersistentVolumeClaim) : bool :=
  negb (bool_decide (pvc_Phase pvc = ClaimBound)).

Definition CountDegradedPVCs (pvcs : list PersistentVolumeClaim) : Z :=
  fold_left (fun count pvc => if pvc_degraded pvc then inc count else count) pvcs 0.

(** A nil pointer is [None]. *)
Definition IsCoreDNSHealthy (deploy : option Deployment) : bool :=
  match deploy with
  | None => false
  | Some d => 0 <? dep_AvailableReplicas d
  end.

(** ** Specifications *)

Definition phase_is (ph : string) (p : Pod) : bool := bool_decide (pod_Phase p = ph).
Definition on_node (n : string) (p : Pod) : bool := bool_decide (pod_NodeName p = n).
Definition not_ready (p : Pod) : bool := negb (isPodReady p) && phase_is PodRunning p.

(** The counters of a set of pods; [ready] as in [count_pod]. *)
Definition counts_of (ready : bool) (ps : list Pod) : PodCounts :=
  mkPodCounts (Z.of_nat (length ps)) (countZ (phase_is PodRunning) ps) (countZ (phase_is PodFailed) ps)
    (countZ (phase_is PodPending) ps) (countZ isCrashLooping ps)
    (if ready then countZ not_ready ps else 0).

(** What the per-node map holds for node [n]. *)
Definition node_counts (ps : list Pod) (n : string) : option PodCounts :=
  match List.filter (on_node n) ps with
  | [] => None
  | l => Some (counts_of true l)
  end.

(** The status of the last condition of a type decides the flag. *)
Fixpoint last_status (t : string) (cs : list NodeCondition) : option string :=
  match cs with
  | [] => None
  | c :: cs' =>
      match last_status t cs' with
      | Some s => Some s
      | None => if decide (nc_Type c = t) then Some (nc_Status c) else None
      end
  end.

Definition flag (t : string) (cs : list NodeCondition) : bool :=
  bool_decide (last_status t cs = Some ConditionTrue).

(** ** Lemmas *)

Lemma inc_exact z : 0 <= z < max_int64 -> inc z = z + 1.
Proof. intros. unfold inc. apply wrap64_id. unfold in_int64, min_int64, max_int64, two63 in *. lia. Qed.

(** A counting loop computes [countZ] as long as the list fits an [int]. *)
Lemma fold_count {A} (p : A -> bool) l acc :
  0 <= acc -> acc + Z.of_nat (length l) <= max_int64 ->
  fold_left (fun n x => if p x then inc n else n) l acc = acc + countZ p l.
Proof.
  revert acc. induction l as [|x l IH]; intros acc H0 Hb; [rewrite countZ_nil; simpl; lia|].
  cbn [fold_left]. rewrite countZ_cons. simpl length in Hb. destruct (p x).
  - rewrite inc_exact by lia. rewrite IH; lia.
  - rewrite IH; lia.
Qed.

Lemma countZ_snoc {A} (p : A -> bool) l x : countZ p (l ++ [x]) = countZ p l + (if p x then 1 else 0).
Proof. rewrite countZ_app, countZ_cons, countZ_nil. lia. Qed.

Lemma inc_if (b : bool) z : 0 <= z < max_int64 -> (if b then inc z else z) = z + (if b then 1 else 0).
Proof. intros Hz. destruct b; [by apply inc_exact|lia]. Qed.

(** The switch on the phase touches exactly the counter of that phase. *)
Lemma count_pod_fields ready p nc :
  count_pod ready p nc =
    mkPodCounts (inc (Total nc))
      (if phase_is PodRunning p then inc (Running nc) else Running nc)
      (if phase_is PodFailed p then inc (Failed nc) else Failed nc)
      (if phase_is PodPending p then inc (Pending nc) else Pending nc)
      (if isCrashLooping p then inc (CrashLoop nc) else CrashLoop nc)
      (if ready && not_ready p then inc (NotReady nc) else NotReady nc).
Proof.
  destruct nc as [t r f pe cl nr]. unfold count_pod, not_ready, phase_is. simpl.
  rewrite andb_assoc. unfold PodRunning, PodFailed, PodPending in *.
  repeat case_decide; repeat case_bool_decide; try done; congruence.
Qed.

Lemma count_pod_snoc ready p ps :
  Z.of_nat (length ps) < max_int64 ->
  count_pod ready p (counts_of ready ps) = counts_of ready (ps ++ [p]).
Proof.
  intros Hb. rewrite count_pod_fields. unfold counts_of. rewrite length_app, !countZ_snoc. simpl length.
  assert (forall q : Pod -> bool, 0 <= countZ q ps < max_int64) as Hq.
  { intros q. pose proof (countZ_nonneg q ps). pose proof (countZ_le_length q ps). lia. }
  simpl. rewrite inc_exact by lia. rewrite !inc_if by (destruct ready; try apply Hq; done).
  f_equal; [lia|]. destruct ready; simpl; lia.
Qed.

Lemma counts_of_nil ready : counts_of ready [] = zero_PodCounts.
Proof. by destruct ready. Qed.

Lemma node_counts_default ps n :
  default zero_PodCounts (node_counts ps n) = counts_of true (List.filter (on_node n) ps).
Proof. unfold node_counts. by destruct (List.filter _ _). Qed.

Lemma node_counts_snoc_same ps p :
  node_counts (ps ++ [p]) (pod_NodeName p)
  = Some (counts_of true (List.filter (on_node (pod_NodeName p)) ps ++ [p])).
Proof.
  unfold node_counts. rewrite List.filter_app. cbn [List.filter].
  unfold on_node at 2. rewrite bool_decide_eq_true_2 by done. by destruct (List.filter _ _).
Qed.

Lemma node_counts_snoc_other ps p n :
  n <> pod_NodeName p -> node_counts (ps ++ [p]) n = node_counts ps n.
Proof.
  intros Hne. unfold node_counts. rewrite List.filter_app. cbn [List.filter].
  unfold on_node at 2. rewrite bool_decide_eq_false_2 by congruence. by rewrite app_nil_r.
Qed.

(** The loop invariant: after any prefix, both results are the counters of that prefix. *)
Lemma collect_pods_inv ps :
  Z.of_nat (length ps) <= max_int64 ->
  (forall n, (CollectPodCounts ps).1 !! n = node_counts ps n)
  /\ (CollectPodCounts ps).2 = counts_of false ps.
Proof.
  unfold CollectPodCounts. induction ps as [|p ps IH] using rev_ind; intros Hb.
  { split; [|done]. intros n. apply lookup_empty. }
  rewrite length_app in Hb. simpl length in Hb. destruct IH as [IHn IHc]; [lia|].
  rewrite fold_left_app. cbn [fold_left].
  destruct (fold_left collect_pod ps (∅, zero_PodCounts)) as [perNode cluster]. simpl in *. subst cluster.
  rewrite count_pod_snoc by lia. split; [|done]. intros n.
  rewrite IHn, node_counts_default, count_pod_snoc.
  - destruct (decide (n = pod_NodeName p)) as [->|Hne].
    + by rewrite lookup_insert_eq, node_counts_snoc_same.
    + rewrite lookup_insert_ne by done. by rewrite IHn, node_counts_snoc_other.
  - pose proof (List.filter_length_le (on_node (pod_NodeName p)) ps). lia.
Qed.

(** *** Sums over the per-node map *)

Definition map_sum {V} (f : V -> Z) (m : gmap string V) : Z := sumZ (f <$> (map_to_list m).*2).

Lemma sumZ_perm l l' : l ≡ₚ l' -> sumZ l = sumZ l'.
Proof. unfold sumZ. induction 1; simpl; lia. Qed.

Lemma map_sum_insert_new {V} (f : V -> Z) m k v :
  m !! k = None -> map_sum f (<[k:=v]> m) = f v + map_sum f m.
Proof.
  intros Hk. unfold map_sum.
  rewrite (sumZ_perm _ (f <$> (((k, v) :: map_to_list m).*2))); [done|].
  by rewrite map_to_list_insert.
Qed.

Lemma map_sum_insert {V} (f : V -> Z) m k v :
  map_sum f (<[k:=v]> m) = map_sum f m + f v - from_option f 0 (m !! k).
Proof.
  destruct (m !! k) as [w|] eqn:E; simpl.
  - rewrite <- (insert_id m k w E) at 2. rewrite <- (insert_delete_eq m k v), <- (insert_delete_eq m k w).
    rewrite !map_sum_insert_new by apply lookup_delete_eq. lia.
  - rewrite map_sum_insert_new by done. lia.
Qed.

(** A counter that is zero on the empty record and grows with the cluster's counter
    adds up to it over the nodes. *)
Lemma pods_conserved (f : PodCounts -> Z) (p : Pod -> bool) ps :
  (forall ready l, f (counts_of ready l) = countZ p l) ->
  Z.of_nat (length ps) <= max_int64 ->
  map_sum f (CollectPodCounts ps).1 = f (CollectPodCounts ps).2.
Proof.
  intros Hf. induction ps as [|q ps IH] using rev_ind; intros Hb.
  { cbn. change zero_PodCounts with (counts_of false []). by rewrite Hf. }
  rewrite length_app in Hb. simpl length in Hb.
  destruct (collect_pods_inv ps) as [Hn Hc]; [lia|]. rewrite Hc, Hf in IH.
  destruct (collect_pods_inv (ps ++ [q])) as [_ ->]; [rewrite length_app; simpl; lia|].
  unfold CollectPodCounts in *. rewrite fold_left_app. cbn [fold_left].
  destruct (fold_left collect_pod ps (∅, zero_PodCounts)) as [perNode cluster]. simpl in *. subst cluster.
  rewrite map_sum_insert, Hn, node_counts_default, IH by lia.
  pose proof (List.filter_length_le (on_node (pod_NodeName q)) ps).
  rewrite count_pod_snoc by lia. rewrite !Hf, !countZ_snoc.
  assert (from_option f 0 (node_counts ps (pod_NodeName q))
          = countZ p (List.filter (on_node (pod_NodeName q)) ps)) as ->; [|lia].
  unfold node_counts. destruct (List.filter _ _); simpl; [done|apply Hf].
Qed.

(** *** Node conditions *)

Definition flag_from (t : string) (cs : list NodeCondition) (old : bool) : bool :=
  match last_status t cs with Some s => bool_decide (s = ConditionTrue) | None => old end.

Lemma flag_from_cons t c cs old :
  flag_from t (c :: cs) old
  = flag_from t cs (if decide (nc_Type c = t) then bool_decide (nc_Status c = ConditionTrue) else old).
Proof. unfold flag_from. simpl. destruct (last_status t cs); [done|]. by case_decide. Qed.

Lemma flag_from_false t cs : flag_from t cs false = flag t cs.
Proof.
  unfold flag_from, flag. destruct (last_status t cs); [|done].
  apply bool_decide_ext. naive_solver.
Qed.

Lemma fold_conditions cs h :
  fold_left apply_condition cs h =
    mkNodeHealth (nh_Name h) (flag_from NodeReady cs (Ready h))
      (flag_from NodeMemoryPressure cs (MemoryPressure h))
      (flag_from NodeDiskPressure cs (DiskPressure h))
      (flag_from NodePIDPressure cs (PIDPressure h))
      (CPURequestPct h) (MemRequestPct h) (PodCount h) (NotReadyPods h) (nh_CrashLoopPods h)
      (nh_HealthScore h) (nh_HealthStatus h).
Proof.
  revert h. induction cs as [|c cs IH]; intros h; [by destruct h|].
  cbn [fold_left]. rewrite IH, !flag_from_cons. unfold apply_condition.
  unfold NodeReady, NodeMemoryPressure, NodeDiskPressure, NodePIDPressure in *.
  repeat case_decide; simpl; try done; congruence.
Qed.

Lemma degraded_counted pvcs :
  Z.of_nat (length pvcs) <= max_int64 -> CountDegradedPVCs pvcs = countZ pvc_degraded pvcs.
Proof. intros Hb. unfold CountDegradedPVCs. rewrite fold_count; lia. Qed.

Lemma warnings_spec now events :
  Z.of_nat (length events) <= max_int64 ->
  CountRecentWarnings now events =
    countZ (fun ev => bool_decide (ev_Type ev = EventTypeWarning)
      && (now - Hour <? (if ev_LastTimestamp ev =? 0 then ev_EventTime ev else ev_LastTimestamp ev)))
      events.
Proof.
  intros Hb. unfold CountRecentWarnings. rewrite fold_count by lia. simpl. apply countZ_ext.
  intros ev _. unfold is_recent_warning, After, warningWindow, zero_time. case_decide as Hd.
  - by rewrite bool_decide_eq_false_2.
  - rewrite bool_decide_eq_true_2; [done|]. by destruct (decide (ev_Type ev = EventTypeWarning)).
Qed.

(** *** Float comparisons *)

Lemma requestPct_not_negative `{K8sLib} a c : SFltb (requestPct a c) float64_zero = false.
Proof. unfold requestPct. repeat case_match; done. Qed.

(** ** Theorems *)

(** C21: the pod collector returns, for every node name that some pod carries and for no other,
    the counters of exactly the pods on that node, and for the cluster the counters of all pods;
    the cluster's own not-ready counter stays zero. *)
Theorem pod_counts_correct pods :
  Z.of_nat (length pods) <= max_int64 ->
  (forall n, (CollectPodCounts pods).1 !! n = node_counts pods n)
  /\ (CollectPodCounts pods).2 = counts_of false pods.
Proof. apply collect_pods_inv. Qed.

(** No pod is lost or counted twice: total, running, failed, pending and crash-looping
    counters of the nodes add up to the cluster's counters. *)
Theorem pod_counts_conserved pods :
  Z.of_nat (length pods) <= max_int64 ->
  let '(perNode, cluster) := CollectPodCounts pods in
  map_sum Total perNode = Total cluster
  /\ map_sum Running perNode = Running cluster
  /\ map_sum Failed perNode = Failed cluster
  /\ map_sum Pending perNode = Pending cluster
  /\ map_sum CrashLoop perNode = CrashLoop cluster.
Proof.
  intros Hb. rewrite (surjective_pairing (CollectPodCounts pods)).
  repeat split;
    [eapply (pods_conserved Total (fun _ => true))|eapply pods_conserved|eapply pods_conserved
    |eapply pods_conserved|eapply pods_conserved]; try done; intros ready l; try done.
  simpl. clear. induction l as [|x l IH]; [done|]. rewrite countZ_cons. simpl length. lia.
Qed.

(** A node's snapshot has its name and for each flag the status of the last condition
    of that type (false when there is none), no pod data, percentages that are never negative,
    and the score and status computed from those flags. *)
Theorem node_health_collected `{L : K8sLib} node :
  let h := CollectNodeHealth node in
  let cs := node_Conditions node in
  nh_Name h = node_Name node
  /\ Ready h = flag NodeReady cs /\ MemoryPressure h = flag NodeMemoryPressure cs
  /\ DiskPressure h = flag NodeDiskPressure cs /\ PIDPressure h = flag NodePIDPressure cs
  /\ PodCount h = 0 /\ NotReadyPods h = 0 /\ nh_CrashLoopPods h = 0
  /\ SFltb (CPURequestPct h) float64_zero = false /\ SFltb (MemRequestPct h) float64_zero = false
  /\ nh_HealthScore h = 100 - deduction_spec h
  /\ nh_HealthStatus h = HealthStatusFromScore (nh_HealthScore h).
Proof.
  unfold CollectNodeHealth. rewrite fold_conditions. simpl. rewrite !flag_from_false.
  repeat split; try apply requestPct_not_negative. by rewrite node_score_eq.
Qed.

(** The warning counter counts exactly the Warning events of the last hour, by last
    timestamp or, when that is unset, by event time. *)
Theorem warnings_counted now events :
  Z.of_nat (length events) <= max_int64 ->
  CountRecentWarnings now events =
    countZ (fun ev => bool_decide (ev_Type ev = EventTypeWarning)
      && (now - Hour <? (if ev_LastTimestamp ev =? 0 then ev_EventTime ev else ev_LastTimestamp ev)))
      events.
Proof. apply warnings_spec. Qed.

(** Witnesses. *)
Definition crash_pod : Pod := mkPod "a" PodRunning [mkCS None; mkCS (Some "CrashLoopBackOff")] [].
Definition ready_pod : Pod := mkPod "b" PodRunning [mkCS None] [mkPodCond PodReady ConditionTrue].
Definition pending_pod : Pod := mkPod "" PodPending [] [].
Definition some_pods : list Pod := [crash_pod; ready_pod; pending_pod; crash_pod].

Lemma pod_counts_correct_witness :
  (CollectPodCounts some_pods).1 !! "a" = Some (mkPodCounts 2 2 0 0 2 2)
  /\ (CollectPodCounts some_pods).2 = mkPodCounts 4 3 0 1 2 0.
Proof.
  destruct (pod_counts_correct some_pods) as [Hn Hc]; [vm_compute; congruence|].
  split; [rewrite Hn; reflexivity|rewrite Hc; reflexivity].
Defined.

Lemma pod_counts_conserved_witness :
  map_sum Total (CollectPodCounts some_pods).1 = 4.
Proof.
  pose proof (pod_counts_conserved some_pods ltac:(vm_compute; congruence)) as H.
  destruct (CollectPodCounts some_pods) as [m c] eqn:E. destruct H as [H _]. simpl.
  rewrite H. injection E as _ <-. reflexivity.
Defined.

Lemma warnings_counted_witness :
  CountRecentWarnings (2 * Hour) [mkEvent "Warning" (Hour + 1) 0; mkEvent "Warning" Hour 0;
    mkEvent "Warning" 0 (2 * Hour); mkEvent "Normal" (2 * Hour) 0] = 2.
Proof. rewrite warnings_counted; [reflexivity|vm_compute; congruence]. Defined.
