(* ===== verification/Clients.v ===== *)
(** * Clients: what the reconcilers know of the three remote services

    The interfaces LosantClient (internal/losant/client.go), GEAClient
    (internal/gea/client.go) and RancherClient (internal/rancher/client.go) as
    signatures: one constructor per method with its arguments, and the type of its
    answer.  Also the pure parts of the clients: their data types, constructors
    from a Secret, device names, tags and attribute tables. *)

From Stdlib Require Import ZArith Lia SpecFloat.
From stdpp Require Import base list strings gmap.
From S2P Require Import Prelude Effects GoLib K8s ApiTypes HealthScore.

(** ** Losant *)

Definition ErrWorkflowNotFound : error := mkError "workflow not found" [KWorkflowNotFound].

Record EdgeDeploymentStatus := mkEDS {
  eds_FlowID : string;
  eds_CurrentVersion : string;
  eds_DesiredVersion : string;
}.

Record Tag := mkTag { tag_Key : string; tag_Value : string }.
Record Device := mkDevice { dev_DeviceID : string; dev_Name : string; dev_Tags : list Tag }.
Record DeviceAttribute := mkAttr { attr_Name : string; attr_DataType : string }.

#[export] Instance DeviceAttribute_eq_dec : EqDecision DeviceAttribute.
Proof. solve_decision. Defined.

#[export] Instance Tag_eq_dec : EqDecision Tag.
Proof. solve_decision. Defined.

Inductive losant_op :=
| Ping
| EnsureClusterDevice (spec : LosantSyncSpec)
| EnsureNodeDevice (spec : LosantSyncSpec) (nodeName gatewayID : string)
| UpdateDeviceTags (applicationID deviceID : string) (tags : gmap string string)
| GetDevice (applicationID deviceID : string)
| CreateDeviceAccessKey (applicationID deviceID name : string)
| PatchDeviceAttributes (applicationID deviceID : string) (attrs : list DeviceAttribute)
| DeleteDevice (applicationID deviceID : string)
| ReleaseWorkflow (applicationID deviceID flowID version : string)
| GetEdgeDeployments (applicationID deviceID : string).

#[export] Instance losant_op_eq_dec : EqDecision losant_op.
Proof. solve_decision. Defined.

(** An error-only method answers [None] for nil. *)
Definition losant_ans (o : losant_op) : Type :=
  match o with
  | Ping | UpdateDeviceTags _ _ _ | PatchDeviceAttributes _ _ _
  | DeleteDevice _ _ | ReleaseWorkflow _ _ _ _ => option error
  | EnsureClusterDevice _ | EnsureNodeDevice _ _ _ => result string
  | GetDevice _ _ => result Device
  | CreateDeviceAccessKey _ _ _ => result (string * string * string)
  | GetEdgeDeployments _ _ => result (list EdgeDeploymentStatus)
  end.

(** losant.HTTPClient without its transport. *)
Record LosantHTTPClient := mkLosantHTTP { lh_token : string; lh_applicationID : string }.

(** Which implementation stands behind the interface value: the one injected into
    the reconciler, or an HTTP client built from the provisioning Secret. *)
Inductive losant_impl := LInjected | LHTTP (c : LosantHTTPClient).

#[export] Instance LosantHTTPClient_eq_dec : EqDecision LosantHTTPClient.
Proof. solve_decision. Defined.

#[export] Instance losant_impl_eq_dec : EqDecision losant_impl.
Proof. solve_decision. Defined.

(** losant.NewHTTPClient *)
Definition NewLosantHTTPClient (secret : Secret) (applicationID : string) : result LosantHTTPClient :=
  match sec_Data secret !! "api-token" with
  | None => Err (Errorf ("provisioning secret " +:+ sec_Namespace secret +:+ "/" +:+ sec_Name secret
                         +:+ " missing key " +:+ Quote "api-token"))
  | Some token => Ok (mkLosantHTTP token applicationID)
  end.

Definition clusterDeviceName (clusterName : string) : string := "k8s-cluster-" +:+ clusterName.
Definition nodeDeviceName (clusterName nodeName : string) : string :=
  "k8s-node-" +:+ clusterName +:+ "-" +:+ nodeName.

(** The base tags, each optional one only when its field is not empty. *)
Definition tagsFromSpec (spec : LosantSyncSpec) : list Tag :=
  let tags := [mkTag "clusterName" (ClusterName spec); mkTag "region" (Region spec)] in
  let opt k v tags := if decide (v <> "") then tags ++ [mkTag k v] else tags in
  let tags := opt "rancherURL" (RancherURL spec) tags in
  let tags := opt "manager" (ct_Manager (Tags spec)) tags in
  let tags := opt "uid" (ct_UID (Tags spec)) tags in
  opt "gps" (ct_GPS (Tags spec)) tags.

Definition clusterDeviceAttributes : list DeviceAttribute := [
  mkAttr "health_score" "number"; mkAttr "health_status" "string";
  mkAttr "total_nodes" "number"; mkAttr "ready_nodes" "number"; mkAttr "unhealthy_nodes" "number";
  mkAttr "total_pods" "number"; mkAttr "running_pods" "number"; mkAttr "failed_pods" "number";
  mkAttr "pending_pods" "number"; mkAttr "crashloop_pods" "number"; mkAttr "degraded_pvcs" "number";
  mkAttr "coredns_healthy" "boolean"; mkAttr "event_warnings" "number"].

Definition nodeDeviceAttributes : list DeviceAttribute := [
  mkAttr "health_score" "number"; mkAttr "health_status" "string"; mkAttr "ready" "boolean";
  mkAttr "memory_pressure" "boolean"; mkAttr "disk_pressure" "boolean"; mkAttr "pid_pressure" "boolean";
  mkAttr "pod_count" "number"; mkAttr "not_ready_pods" "number"; mkAttr "crashloop_pods" "number";
  mkAttr "cpu_request_pct" "number"; mkAttr "mem_request_pct" "number"].

(** ** Gateway Edge Agent *)

(** A dynamically typed attribute value of the payload. *)
Inductive attr_value :=
| VInt (z : Z)
| VBool (b : bool)
| VString (s : string)
| VFloat (f : spec_float).

Record StatePayload := mkPayload {
  sp_DeviceID : string;
  sp_Attributes : gmap string attr_value;
  sp_Timestamp : option Z;
}.

#[export] Instance attr_value_eq_dec : EqDecision attr_value.
Proof. solve_decision. Defined.

#[export] Instance StatePayload_eq_dec : EqDecision StatePayload.
Proof. solve_decision. Defined.

Record GEAHTTPClient := mkGEAHTTP { gh_endpoint : string }.
Inductive gea_impl := GInjected | GHTTP (c : GEAHTTPClient).

#[export] Instance GEAHTTPClient_eq_dec : EqDecision GEAHTTPClient.
Proof. solve_decision. Defined.

#[export] Instance gea_impl_eq_dec : EqDecision gea_impl.
Proof. solve_decision. Defined.

(** gea.NewHTTPClient *)
Definition NewGEAHTTPClient (spec : GEASpec) : GEAHTTPClient :=
  mkGEAHTTP ("http://" +:+ gea_ServiceRef spec +:+ ":" +:+ Itoa (gea_Port spec) +:+ "/state").

(** ** Rancher *)

Definition RancherErrNotFound : error := mkError "rancher resource not found" [KRancherNotFound].

Inductive rancher_op :=
| FindCluster (name : string)
| CreateCluster (name : string)
| GetRegistrationToken (clusterID : string)
| GetCluster (clusterID : string)
| DeleteCluster (clusterID : string).

#[export] Instance rancher_op_eq_dec : EqDecision rancher_op.
Proof. solve_decision. Defined.

Definition rancher_ans (o : rancher_op) : Type :=
  match o with
  | FindCluster _ => result (string * bool)
  | CreateCluster _ | GetRegistrationToken _ => result string
  | GetCluster _ | DeleteCluster _ => option error
  end.

Record RancherHTTPClient := mkRancherHTTP { rh_baseURL : string; rh_token : string; rh_ca : string }.

(** What stands behind the interface value: the injected client, an HTTP client, or
    a nil pointer to one, which is not the nil interface and panics when called. *)
Inductive rancher_impl := RInjected | RHTTP (c : RancherHTTPClient) | RNilHTTP.


#[export] Instance RancherHTTPClient_eq_dec : EqDecision RancherHTTPClient.
Proof. solve_decision. Defined.

#[export] Instance rancher_impl_eq_dec : EqDecision rancher_impl.
Proof. solve_decision. Defined.

(** rancher.NewHTTPClient; [pem_ok] is x509.CertPool.AppendCertsFromPEM. *)
Definition NewRancherHTTPClient (pem_ok : string -> bool) (secret : Secret) : result RancherHTTPClient :=
  let where_ := "credentials secret " +:+ sec_Namespace secret +:+ "/" +:+ sec_Name secret in
  match sec_Data secret !! "RANCHER_URL" with
  | None => Err (Errorf (where_ +:+ " missing key " +:+ Quote "RANCHER_URL"))
  | Some rawURL =>
      match sec_Data secret !! "RANCHER_TOKEN" with
      | None => Err (Errorf (where_ +:+ " missing key " +:+ Quote "RANCHER_TOKEN"))
      | Some token =>
          match sec_Data secret !! "RANCHER_CA" with
          | None => Err (Errorf (where_ +:+ " missing key " +:+ Quote "RANCHER_CA"))
          | Some caData =>
              if pem_ok caData
              then Ok (mkRancherHTTP (TrimRightSlash rawURL) token caData)
              else Err (Errorf (where_ +:+ ": RANCHER_CA contains no valid PEM certificates"))
          end
      end
  end.
