(* ===== verification/Operator.v ===== *)
(** * Operator: the calls the operator makes to its environment

    One signature for the whole process.  Kubernetes calls are those made through
    the controller-runtime client; calls to Losant, the edge agent and Rancher go
    through the interface values of [Clients]; the health store is called through
    its two methods, whose atomicity is the subject of [HealthStore].

    A successful [Update] or [Status().Update] leaves the caller's object as it was
    written: the API server refuses an object that changed since it was read, so
    only the resource version (not kept here) differs.

    [RangeKeys] is the start of a [for ... range] over a Go map: the runtime picks
    an order, so the answer is any enumeration of the keys. *)

From Stdlib Require Import ZArith Permutation.
From stdpp Require Import base list strings gmap.
From S2P Require Import Prelude Effects GoLib K8s ApiTypes HealthScore Clients.

(** An object of the Rancher import manifest, as the decoder delivers it. *)
Record Unstructured := mkUnstructured {
  u_APIVersion : string;
  u_Kind : string;
  u_Namespace : string;
  u_Name : string;
}.

#[export] Instance Unstructured_eq_dec : EqDecision Unstructured.
Proof. solve_decision. Defined.

(** An HTTP GET of the manifest with its CA pool, and what can come back: the
    request cannot be built or sent, or a status and a body that may fail to read.
    A body that was read is given with the documents the YAML decoder finds in it;
    the stream ends, or stops at a document that does not decode. *)
Inductive manifest_stream :=
| DocEOF
| DocError (e : error)
| DocObj (o : Unstructured) (rest : manifest_stream).

Inductive fetch_answer :=
| FetchBadRequest (e : error)
| FetchFailed (e : error)
| FetchStatus (code : Z) (body : result manifest_stream).

Inductive op_call :=
| Now
| RangeKeys (keys : gset string)
(* custom resources *)
| GetLosantSync (key : NamespacedName)
| ListLosantSyncs
| UpdateLosantSync (ls : LosantSync)
| StatusUpdateLosantSync (ls : LosantSync)
| GetRancherSession (key : NamespacedName)
| CreateRancherSession (rs : RancherSession)
| DeleteRancherSession (rs : RancherSession)
| UpdateRancherSession (rs : RancherSession)
| StatusUpdateRancherSession (rs : RancherSession)
(* core objects *)
| GetSecret (key : NamespacedName)
| CreateSecret (s : Secret)
| UpdateSecret (s : Secret)
| GetDeployment (key : NamespacedName)
| PatchDeployment (patched original : Deployment)
| DeleteNamespace (name : string)
| ApplyObject (o : Unstructured)
| ListNodes
| ListPods
| ListPVCs
| ListEvents
(* remote services *)
| CallLosant (i : losant_impl) (o : losant_op)
| ReportState (i : gea_impl) (p : StatePayload)
| CallRancher (i : rancher_impl) (o : rancher_op)
| FetchManifest (caData : string) (url : string)
(* shared health store *)
| StoreUpdate (cluster : ClusterHealth) (nodes : gmap string NodeHealth)
| StoreSnapshot.

#[export] Instance op_call_eq_dec : EqDecision op_call.
Proof. solve_decision. Defined.

Definition op_ans (c : op_call) : Type :=
  match c with
  | Now => Z
  | RangeKeys keys => { l : list string | l ≡ₚ elements keys }
  | GetLosantSync _ => result LosantSync
  | ListLosantSyncs => result (list LosantSync)
  | GetRancherSession _ => result RancherSession
  | UpdateLosantSync _ | StatusUpdateLosantSync _
  | CreateRancherSession _ | DeleteRancherSession _
  | UpdateRancherSession _ | StatusUpdateRancherSession _
  | CreateSecret _ | UpdateSecret _ | PatchDeployment _ _
  | DeleteNamespace _ | ApplyObject _ | ReportState _ _ => option error
  | GetSecret _ => result Secret
  | GetDeployment _ => result Deployment
  | ListNodes => result (list Node)
  | ListPods => result (list Pod)
  | ListPVCs => result (list PersistentVolumeClaim)
  | ListEvents => result (list Event)
  | CallLosant _ o => losant_ans o
  | CallRancher _ o => rancher_ans o
  | FetchManifest _ _ => fetch_answer
  | StoreUpdate _ _ => unit
  | StoreSnapshot => ClusterHealth * gmap string NodeHealth
  end.

Definition OpΣ : sig := Sig op_call op_ans.

Abbreviation oprog := (prog OpΣ).
Abbreviation trace := (list (event OpΣ)).

Definition do_call (c : op_call) : oprog (op_ans c) := @call OpΣ c.
Arguments do_call !c /.

(** An event of the operator. *)
Definition E (c : op_call) (r : op_ans c) : event OpΣ := @Ev OpΣ c r.

Lemma E_inj c (r r' : op_ans c) : E c r = E c r' -> r = r'.
Proof.
  intros H. assert (existT c r = existT c r' :> sigT op_ans) as He.
  { exact (f_equal (fun e : event OpΣ => existT (ev_op e) (ev_ans e)) H). }
  apply (Eqdep_dec.inj_pair2_eq_dec _ (decide_rel (=))) in He. exact He.
Qed.

(** Following an execution whose first event is known. *)
Lemma exec_head {A} (c : op_call) (k : op_ans c -> oprog A) r tr a :
  exec (@Call OpΣ A c k) (E c r :: tr) a -> exec (k r) tr a.
Proof.
  intros H. apply exec_inv in H as (r' & tr' & Heq & H).
  assert (E c r = E c r') as Hr by exact (f_equal (fun l => default (E c r) (head l)) Heq).
  assert (tr = tr') as -> by exact (f_equal tail Heq).
  by rewrite (E_inj _ _ _ Hr).
Qed.

(** Outcome of a reconcile: a result, and an error that makes the queue retry with
    back-off. *)
Definition outcome : Type := Result * option error.

(** ** Classification of events *)

Definition is_losant (e : event OpΣ) : bool :=
  match ev_op e with CallLosant _ _ => true | _ => false end.
Definition is_gea (e : event OpΣ) : bool :=
  match ev_op e with ReportState _ _ => true | _ => false end.
Definition is_rancher (e : event OpΣ) : bool :=
  match ev_op e with CallRancher _ _ | FetchManifest _ _ => true | _ => false end.

(** A call that leaves the cluster's API server. *)
Definition is_remote (e : event OpΣ) : bool := is_losant e || is_gea e || is_rancher e.

(** A call that changes an object stored by the API server. *)
Definition is_k8s_write (e : event OpΣ) : bool :=
  match ev_op e with
  | UpdateLosantSync _ | StatusUpdateLosantSync _ | CreateRancherSession _ | DeleteRancherSession _
  | UpdateRancherSession _ | StatusUpdateRancherSession _ | CreateSecret _ | UpdateSecret _
  | PatchDeployment _ _ | DeleteNamespace _ | ApplyObject _ => true
  | _ => false
  end.

(** No event of the trace is in the class. *)
Definition none (p : event OpΣ -> bool) (tr : trace) : Prop := forallb (fun e => negb (p e)) tr = true.

Lemma none_nil p : none p [].
Proof. reflexivity. Qed.

Lemma none_app p tr1 tr2 : none p (tr1 ++ tr2) <-> none p tr1 /\ none p tr2.
Proof. unfold none. rewrite forallb_app. apply andb_true_iff. Qed.

Lemma none_cons p e tr : none p (e :: tr) <-> p e = false /\ none p tr.
Proof. unfold none. simpl. rewrite andb_true_iff. destruct (p e); simpl; naive_solver. Qed.

Lemma none_elem p e tr : none p tr -> e ∈ tr -> p e = false.
Proof.
  unfold none. rewrite forallb_forall. intros H He. apply list_elem_of_In in He.
  specialize (H e He). by destruct (p e).
Qed.

#[export] Hint Resolve none_nil : golib.
Create Rewrite HintDb traces.
#[export] Hint Rewrite none_app none_cons : traces.

(** A program that makes no call of the class, whatever it is answered. *)
Fixpoint avoids {A} (p : event OpΣ -> bool) (q : oprog A) : Prop :=
  match q with
  | Ret _ => True
  | Call c k => forall r, p (@Ev OpΣ c r) = false /\ avoids p (k r)
  end.

Lemma avoids_exec {A} p (q : oprog A) tr a : exec q tr a -> avoids p q -> none p tr.
Proof.
  induction 1 as [|c k r tr a He IH]; simpl; [done|]. intros Hq. destruct (Hq r) as [Hp Hk].
  apply none_cons. auto.
Qed.

Lemma avoids_bind {A B} p (q : oprog A) (f : A -> oprog B) :
  avoids p q -> (forall a, avoids p (f a)) -> avoids p (bind q f).
Proof. intros Hq Hf. induction q as [a|c k IH]; simpl in *; [done|]. firstorder. Qed.

(** Walks a program whose subprograms are in the hint database. *)
Ltac avoid :=
  repeat match goal with
  | |- avoids _ (do_call _) => by split
  | |- avoids _ (bind _ _) => apply avoids_bind; [|intros ?]
  | |- avoids _ (match ?x with _ => _ end) => destruct x
  | |- avoids _ (Ret _) => exact I
  | |- avoids _ (Call _ _) => intros ?; split; [done|]
  | |- _ => solve [auto with avoid]
  end.

Create HintDb avoid.

(** ** An environment in which every call fails

    The base of the concrete environments that execute the handlers: the clock
    stands at [now], maps are ranged in the order of [elements], and every service
    answers with an error that is not one the code tests for. *)

Definition unavailable : error := Errorf "unavailable".

Definition fail_losant (o : losant_op) : losant_ans o :=
  match o with
  | Ping | UpdateDeviceTags _ _ _ | PatchDeviceAttributes _ _ _ | DeleteDevice _ _
  | ReleaseWorkflow _ _ _ _ => Some unavailable
  | _ => Err unavailable
  end.

Definition fail_rancher (o : rancher_op) : rancher_ans o :=
  match o with
  | GetCluster _ | DeleteCluster _ => Some unavailable
  | _ => Err unavailable
  end.

Definition all_fail (now : Z) (c : op_call) : op_ans c :=
  match c with
  | Now => now
  | RangeKeys ks => exist _ (elements ks) (Permutation_refl _)
  | GetLosantSync _ | ListLosantSyncs | GetRancherSession _ | GetSecret _ | GetDeployment _
  | ListNodes | ListPods | ListPVCs | ListEvents => Err unavailable
  | CallLosant _ o => fail_losant o
  | CallRancher _ o => fail_rancher o
  | FetchManifest _ _ => FetchFailed unavailable
  | StoreUpdate _ _ => tt
  | StoreSnapshot => (zero_ClusterHealth, ∅)
  | _ => Some unavailable
  end.
