(* ===== verification/Http.v ===== *)
(** * Http: requests, responses and JSON as the REST clients use them

    A request goes out with its method, URL, headers and JSON body; what comes back
    is an error of building or sending it, or a status code and a body, of which reading
    may fail half-way.  A body that was read is its text together with its JSON value, or the
    syntax error that json.Unmarshal reports for it.

    Decoding follows encoding/json: a key matches a field whatever its ASCII case,
    unknown keys are skipped, null leaves the zero value, a value of the wrong type
    is an error.  The services never repeat a key in an object; [field] takes the last
    of repeated ones. *)

From Stdlib Require Import ZArith Lia Ascii String SpecFloat.
From stdpp Require Import base list strings gmap.
From S2P Require Import Prelude Effects GoLib.

Local Open Scope Z_scope.
Local Open Scope prog_scope.

(** ** JSON *)

Inductive json :=
| JNull
| JBool (b : bool)
| JNum (z : Z)
| JFloat (f : spec_float)
| JStr (s : string)
| JArr (l : list json)
| JObj (l : list (string * json)).

Definition lower (c : ascii) : ascii :=
  let n := nat_of_ascii c in
  if (65 <=? n)%nat && (n <=? 90)%nat then ascii_of_nat (n + 32) else c.

Fixpoint fold_case (s : string) : string :=
  match s with
  | EmptyString => EmptyString
  | String c s' => String (lower c) (fold_case s')
  end.

(** The value of a field of an object. *)
Definition field (k : string) (l : list (string * json)) : option json :=
  fold_left (fun acc kv => if decide (fold_case (fst kv) = fold_case k) then Some (snd kv) else acc) l None.

(** Decoding into a string, a slice and a struct; [None] is a type mismatch. *)
Definition decode_string (v : option json) : option string :=
  match v with
  | None | Some JNull => Some ""
  | Some (JStr s) => Some s
  | _ => None
  end.

Definition decode_slice {A} (decode : json -> option A) (v : option json) : option (list A) :=
  match v with
  | None | Some JNull => Some []
  | Some (JArr l) => mapM decode l
  | _ => None
  end.

Definition decode_struct {A} (decode : list (string * json) -> option A) (v : json) : option A :=
  match v with
  | JNull => decode []
  | JObj l => decode l
  | _ => None
  end.

(** ** Requests and responses *)

Record Request := mkReq {
  rq_Method : string;
  rq_URL : string;
  rq_Header : list (string * string);
  rq_Body : option json;
}.

Record body := mkBody { b_text : string; b_json : result json }.

Inductive http_answer :=
| BuildError (e : error)
| SendError (e : error)
| Truncated (code : Z) (partial : string) (e : error)
| Response (code : Z) (b : body).

(** The status code, when there is one. *)
Definition StatusCode (a : http_answer) : option Z :=
  match a with
  | BuildError _ | SendError _ => None
  | Truncated code _ _ | Response code _ => Some code
  end.

(** Sending a request, and ranging over the keys of a map. *)
Inductive http_op :=
| Send (r : Request)
| RangeOver (keys : gset string).

Definition http_ans (o : http_op) : Type :=
  match o with
  | Send _ => http_answer
  | RangeOver keys => { l : list string | l ≡ₚ elements keys }
  end.

Definition HttpΣ : sig := Sig http_op http_ans.
Abbreviation hprog := (prog HttpΣ).

Definition send (r : Request) : hprog http_answer := @call HttpΣ (Send r).

(** The answer an event carries. *)
Definition answer_of (e : event HttpΣ) : option http_answer :=
  match e with
  | Ev (Send _) a => Some a
  | Ev (RangeOver _) _ => None
  end.

(** An execution whose first event is a given answer. *)
Lemma exec_answered {A} rq (k : http_answer -> hprog A) rq' a tr r :
  exec (@Call HttpΣ A (Send rq) k) (Ev (Send rq' : HttpΣ) a :: tr) r -> exec (k a) tr r.
Proof.
  intros He. apply exec_inv in He as (a' & tr' & Heq & He).
  pose proof (f_equal (fun l => head l ≫= answer_of) Heq) as H. simpl in H. injection H as ->.
  assert (tr' = tr) as -> by (symmetry; exact (f_equal tail Heq)). done.
Qed.

(** The headers of an authenticated JSON request. *)
Definition auth_headers (token : string) : list (string * string) :=
  [("Authorization", "Bearer " +:+ token); ("Content-Type", "application/json"); ("Accept", "application/json")].

(** [json.Unmarshal] with the error text it has for a document of the wrong shape. *)
Definition Unmarshal {A} (mismatch : json -> error) (decode : json -> option A) (b : body) : result A :=
  match b_json b with
  | Err e => Err e
  | Ok j => match decode j with Some a => Ok a | None => Err (mismatch j) end
  end.

(** Returning a Go result pair. *)
Definition hbind {A B} (p : hprog (result A)) (f : A -> hprog (result B)) : hprog (result B) :=
  let* r := p in
  match r with Err e => Ret (Err e) | Ok a => f a end.

(** ** Escaping: url.QueryEscape *)

Definition unreserved (c : ascii) : bool :=
  let n := nat_of_ascii c in
  ((48 <=? n)%nat && (n <=? 57)%nat) || ((65 <=? n)%nat && (n <=? 90)%nat) || ((97 <=? n)%nat && (n <=? 122)%nat)
  || bool_decide (c ∈ ["-"; "_"; "."; "~"]%char).

(** An upper-case hexadecimal digit. *)
Definition hex_upper (n : nat) : ascii :=
  if (n <? 10)%nat then ascii_of_nat (48 + n) else ascii_of_nat (55 + n).

Definition escape_char (c : ascii) : string :=
  let n := nat_of_ascii c in
  if ascii_dec c " "%char then "+"
  else if unreserved c then String c EmptyString
  else String "%"%char (String (hex_upper (n / 16)) (String (hex_upper (n mod 16)) EmptyString)).

Fixpoint QueryEscape (s : string) : string :=
  match s with
  | EmptyString => EmptyString
  | String c s' => escape_char c +:+ QueryEscape s'
  end.

(** What a server does with a query parameter. *)
Definition hex_value (c : ascii) : option nat :=
  let n := nat_of_ascii c in
  if ((48 <=? n)%nat && (n <=? 57)%nat)%bool then Some (n - 48)%nat
  else if ((65 <=? n)%nat && (n <=? 70)%nat)%bool then Some (n - 55)%nat
  else if ((97 <=? n)%nat && (n <=? 102)%nat)%bool then Some (n - 87)%nat
  else None.

Fixpoint QueryUnescape (s : string) : option string :=
  match s with
  | EmptyString => Some EmptyString
  | String c s' =>
      if ascii_dec c "+"%char then String " "%char <$> QueryUnescape s'
      else if ascii_dec c "%"%char then
        match s' with
        | String h (String l s'') =>
            match hex_value h, hex_value l with
            | Some a, Some b => String (ascii_of_nat (16 * a + b)) <$> QueryUnescape s''
            | _, _ => None
            end
        | _ => None
        end
      else String c <$> QueryUnescape s'
  end.

(** One character, checked on all 256. *)
Definition all_ascii : list ascii := ascii_of_nat <$> seq 0 256.

Lemma all_ascii_complete c : c ∈ all_ascii.
Proof.
  unfold all_ascii. apply list_elem_of_fmap. exists (nat_of_ascii c). rewrite ascii_nat_embedding. split; [done|].
  apply elem_of_seq. pose proof (nat_ascii_bounded c). lia.
Qed.

Definition starts_with (c : ascii) (e : string) : bool :=
  match e with
  | String x EmptyString =>
      if ascii_dec x "+"%char then bool_decide (c = " "%char) else
      negb (bool_decide (x = "%"%char)) && bool_decide (x = c)
  | String p (String h (String l EmptyString)) =>
      bool_decide (p = "%"%char) &&
      match hex_value h, hex_value l with
      | Some a, Some b => bool_decide (ascii_of_nat (16 * a + b) = c)
      | _, _ => false
      end
  | _ => false
  end.

Lemma escape_char_starts c : starts_with c (escape_char c) = true.
Proof.
  assert (forallb (fun c => starts_with c (escape_char c)) all_ascii = true) as H by (vm_compute; reflexivity).
  rewrite forallb_forall in H. apply H, list_elem_of_In, all_ascii_complete.
Qed.

Lemma unescape_step c e s :
  starts_with c e = true -> QueryUnescape (e +:+ s) = String c <$> QueryUnescape s.
Proof.
  destruct e as [|x [|h [|l [|]]]]; try done; intros H; rewrite ?string_app_cons, ?string_app_nil_l; simpl in *.
  - destruct (ascii_dec x "+"%char); [apply bool_decide_eq_true in H as ->; done|].
    apply andb_true_iff in H as [Hx Hc]. apply bool_decide_eq_true in Hc as <-.
    destruct (ascii_dec x "%"%char); [by rewrite bool_decide_eq_true_2 in Hx|done].
  - apply andb_true_iff in H as [Hp H]. apply bool_decide_eq_true in Hp as ->. simpl.
    destruct (hex_value h), (hex_value l); try done. by apply bool_decide_eq_true in H as ->.
Qed.

(** Escaping and unescaping give the name back. *)
Lemma QueryUnescape_escape s : QueryUnescape (QueryEscape s) = Some s.
Proof.
  induction s as [|c s IH]; [done|]. simpl. rewrite (unescape_step c _ _ (escape_char_starts c)).
  by rewrite IH.
Qed.

#[export] Instance QueryEscape_inj : Inj (=) (=) QueryEscape.
Proof. intros a b H. apply (f_equal QueryUnescape) in H. rewrite !QueryUnescape_escape in H. congruence. Qed.
