(* ===== verification/LosantClient.v ===== *)
(** * LosantClient: the HTTP methods of internal/losant/client.go

    Each method as a program over HTTP requests, and two theorems: where the token goes
    and how 404 answers are recognised.  The Ensure methods are taken up in the file
    LosantServer. *)

From Stdlib Require Import ZArith Lia Ascii String.
From stdpp Require Import base list strings gmap.
From S2P Require Import Prelude Effects GoLib K8s ApiTypes HealthScore Clients Http.

Local Open Scope Z_scope.
Local Open Scope prog_scope.

Definition apiBase : string := "https://api.losant.com".
Definition deviceClassEdge : string := "edgeCompute".
Definition deviceClassNode : string := "peripheral".

(** ** Wire formats *)

Definition json_Tag (t : Tag) : json := JObj [("key", JStr (tag_Key t)); ("value", JStr (tag_Value t))].
Definition json_attr (a : DeviceAttribute) : json :=
  JObj [("name", JStr (attr_Name a)); ("dataType", JStr (attr_DataType a))].

Definition decode_Tag : json -> option Tag := decode_struct (fun l =>
  key ← decode_string (field "key" l); value ← decode_string (field "value" l); Some (mkTag key value)).

Definition decode_Device : json -> option Device := decode_struct (fun l =>
  id ← decode_string (field "deviceId" l); name ← decode_string (field "name" l);
  tags ← decode_slice decode_Tag (field "tags" l); Some (mkDevice id name tags)).

(** The anonymous structs of findDeviceByName, CreateDeviceAccessKey and GetEdgeDeployments. *)
Definition decode_items : json -> option (list Device) := decode_struct (fun l =>
  decode_slice decode_Device (field "items" l)).

Definition decode_key : json -> option (string * string * string) := decode_struct (fun l =>
  id ← decode_string (field "keyId" l); key ← decode_string (field "key" l);
  secret ← decode_string (field "secret" l); Some (id, key, secret)).

Definition decode_deployment : json -> option EdgeDeploymentStatus := decode_struct (fun l =>
  flow ← decode_string (field "flowId" l); cur ← decode_string (field "currentVersion" l);
  des ← decode_string (field "desiredVersion" l); Some (mkEDS flow cur des)).

Definition decode_deployments : json -> option (list EdgeDeploymentStatus) := decode_struct (fun l =>
  decode_slice decode_deployment (field "items" l)).

Section Client.
(** [mismatch T j]: the text json.Unmarshal has for a document [j] that is not a [T]. *)
Context (mismatch : string -> json -> error) (c : LosantHTTPClient).

Definition losant_doRequest (method path : string) (payload : option json) : hprog (result body) :=
  let* resp := send (mkReq method path (auth_headers (lh_token c)) payload) in
  match resp with
  | BuildError e => Ret (Err (wrapf "build request: " e ""))
  | SendError e => Ret (Err (wrapf ("losant api " +:+ method +:+ " " +:+ path +:+ ": ") e ""))
  | Truncated code _ e => Ret (Err (wrapf "read response body: " e ""))
  | Response code b =>
      if 400 <=? code
      then Ret (Err (Errorf ("losant api " +:+ method +:+ " " +:+ path +:+ ": status " +:+ Itoa code +:+ ": " +:+ b_text b)))
      else Ret (Ok b)
  end.

(** The error of a call whose body is not used. *)
Definition err_of {A} (r : result A) : option error := match r with Ok _ => None | Err e => Some e end.

Definition losant_Ping : hprog (option error) :=
  let* r := losant_doRequest "GET" (apiBase +:+ "/applications/" +:+ lh_applicationID c) None in
  Ret (err_of r).

Definition device_path (applicationID deviceID : string) : string :=
  apiBase +:+ "/applications/" +:+ applicationID +:+ "/devices/" +:+ deviceID.

Definition losant_UpdateDeviceTags (applicationID deviceID : string) (tags : gmap string string) : hprog (option error) :=
  let* order := @call HttpΣ (RangeOver (dom tags)) in
  let tagList := map (fun k => mkTag k (default "" (tags !! k))) (proj1_sig order) in
  let* r := losant_doRequest "PATCH" (device_path applicationID deviceID)
              (Some (JObj [("tags", JArr (map json_Tag tagList))])) in
  Ret (err_of r).

Definition losant_GetDevice (applicationID deviceID : string) : hprog (result Device) :=
  hbind (losant_doRequest "GET" (device_path applicationID deviceID) None) (fun b =>
  match Unmarshal (mismatch "Device") decode_Device b with
  | Err e => Ret (Err (wrapf "decode device response: " e ""))
  | Ok dev => Ret (Ok dev)
  end).

Definition losant_CreateDeviceAccessKey (applicationID deviceID name : string)
  : hprog (result (string * string * string)) :=
  let payload := JObj [("description", JStr name); ("filterType", JStr "all")] in
  hbind (losant_doRequest "POST" (apiBase +:+ "/applications/" +:+ applicationID +:+ "/keys") (Some payload)) (fun b =>
  match Unmarshal (mismatch "access key") decode_key b with
  | Err e => Ret (Err (wrapf "decode access key response: " e ""))
  | Ok (keyID, key, secret) =>
      if bool_decide (key = "") || bool_decide (secret = "")
      then Ret (Err (Errorf "create device access key: empty key or secret in response"))
      else Ret (Ok (keyID, key, secret))
  end).

Definition find_path (applicationID name : string) : string :=
  apiBase +:+ "/applications/" +:+ applicationID +:+ "/devices?filterField=name&filter=" +:+ QueryEscape name.

Definition findDeviceByName (applicationID name : string) : hprog (result (option Device)) :=
  hbind (losant_doRequest "GET" (find_path applicationID name) None) (fun b =>
  match Unmarshal (mismatch "device list") decode_items b with
  | Err e => Ret (Err (wrapf "decode device list response: " e ""))
  | Ok [] => Ret (Ok None)
  | Ok (d :: _) => Ret (Ok (Some d))
  end).

(** The payload as json.Marshal writes a map: by key. *)
Definition create_payload (name class recipeID gatewayID : string) (tags : list Tag) (attrs : list DeviceAttribute) : json :=
  JObj ((if decide (0 < length attrs)%nat then [("attributes", JArr (map json_attr attrs))] else [])
        ++ [("deviceClass", JStr class)]
        ++ (if decide (recipeID <> "") then [("deviceRecipeId", JStr recipeID)] else [])
        ++ (if decide (gatewayID <> "") then [("gatewayId", JStr gatewayID)] else [])
        ++ [("name", JStr name); ("tags", JArr (map json_Tag tags))]).

Definition createDevice (applicationID name class recipeID gatewayID : string) (tags : list Tag)
    (attrs : list DeviceAttribute) : hprog (result string) :=
  hbind (losant_doRequest "POST" (apiBase +:+ "/applications/" +:+ applicationID +:+ "/devices")
           (Some (create_payload name class recipeID gatewayID tags attrs))) (fun b =>
  match Unmarshal (mismatch "Device") decode_Device b with
  | Err e => Ret (Err (wrapf "decode create device response: " e ""))
  | Ok dev =>
      if decide (dev_DeviceID dev = "") then Ret (Err (Errorf "create device: empty deviceId in response"))
      else Ret (Ok (dev_DeviceID dev))
  end).

Definition losant_PatchDeviceAttributes (applicationID deviceID : string) (attrs : list DeviceAttribute)
  : hprog (option error) :=
  let* r := losant_doRequest "PATCH" (device_path applicationID deviceID)
              (Some (JObj [("attributes", JArr (map json_attr attrs))])) in
  Ret (err_of r).

(** The shape the two Ensure methods share. *)
Definition ensure_device (applicationID name : string) (attrs : list DeviceAttribute)
    (create : hprog (result string)) : hprog (result string) :=
  hbind (findDeviceByName applicationID name) (fun existing =>
  match existing with
  | Some d =>
      let* err := losant_PatchDeviceAttributes applicationID (dev_DeviceID d) attrs in
      match err with
      | Some e => Ret (Err e)
      | None => Ret (Ok (dev_DeviceID d))
      end
  | None => create
  end).

Definition losant_EnsureClusterDevice (spec : LosantSyncSpec) : hprog (result string) :=
  let name := clusterDeviceName (ClusterName spec) in
  ensure_device (ApplicationID spec) name clusterDeviceAttributes
    (createDevice (ApplicationID spec) name deviceClassEdge (DeviceRecipeID spec) "" (tagsFromSpec spec)
       clusterDeviceAttributes).

Definition losant_EnsureNodeDevice (spec : LosantSyncSpec) (nodeName gatewayID : string) : hprog (result string) :=
  let name := nodeDeviceName (ClusterName spec) nodeName in
  ensure_device (ApplicationID spec) name nodeDeviceAttributes
    (createDevice (ApplicationID spec) name deviceClassNode (DeviceRecipeID spec) gatewayID
       (tagsFromSpec spec ++ [mkTag "nodeName" nodeName]) nodeDeviceAttributes).

Definition losant_DeleteDevice (applicationID deviceID : string) : hprog (option error) :=
  let* r := losant_doRequest "DELETE" (device_path applicationID deviceID) None in
  match r with
  | Err e => if Contains (Error e) "status 404" then Ret None else Ret (Some e)
  | Ok _ => Ret None
  end.

Definition losant_ReleaseWorkflow (applicationID deviceID flowID version : string) : hprog (option error) :=
  let payload := JObj [("deviceIds", JArr [JStr deviceID]); ("flowId", JStr flowID); ("version", JStr version)] in
  let* r := losant_doRequest "POST" (apiBase +:+ "/applications/" +:+ applicationID +:+ "/edge/deployments/release")
              (Some payload) in
  match r with
  | Err e => if Contains (Error e) "status 404"
             then Ret (Some (wrapf "" ErrWorkflowNotFound (": " +:+ Error e))) else Ret (Some e)
  | Ok _ => Ret None
  end.

Definition losant_GetEdgeDeployments (applicationID deviceID : string) : hprog (result (list EdgeDeploymentStatus)) :=
  hbind (losant_doRequest "GET" (apiBase +:+ "/applications/" +:+ applicationID +:+ "/edge/deployments?deviceId="
           +:+ QueryEscape deviceID) None) (fun b =>
  match Unmarshal (mismatch "deployment list") decode_deployments b with
  | Err e => Ret (Err (wrapf "decode edge deployments response: " e ""))
  | Ok ds => Ret (Ok ds)
  end).

(** The HTTP client as an implementation of the interface. *)
Definition losant_http (o : losant_op) : hprog (losant_ans o) :=
  match o with
  | Ping => losant_Ping
  | EnsureClusterDevice spec => losant_EnsureClusterDevice spec
  | EnsureNodeDevice spec n g => losant_EnsureNodeDevice spec n g
  | UpdateDeviceTags a d tags => losant_UpdateDeviceTags a d tags
  | GetDevice a d => losant_GetDevice a d
  | CreateDeviceAccessKey a d n => losant_CreateDeviceAccessKey a d n
  | PatchDeviceAttributes a d attrs => losant_PatchDeviceAttributes a d attrs
  | DeleteDevice a d => losant_DeleteDevice a d
  | ReleaseWorkflow a d f v => losant_ReleaseWorkflow a d f v
  | GetEdgeDeployments a d => losant_GetEdgeDeployments a d
  end.

End Client.

(** ** Where the token goes *)

(** A request of this client: to an application of the Losant API, with the token. *)
Definition losant_request (c : LosantHTTPClient) (o : http_op) : Prop :=
  match o with
  | Send r => HasPrefix (rq_URL r) "https://api.losant.com/applications/" = true /\ rq_Header r = auth_headers (lh_token c)
  | RangeOver _ => True
  end.

Section Requests.
Context (mismatch : string -> json -> error) (c : LosantHTTPClient).
Abbreviation confined := (@guarded HttpΣ _ (fun _ (o : http_op) => losant_request c o)).

Lemma doRequest_confined h method rest payload :
  confined h (losant_doRequest c method (apiBase +:+ "/applications/" +:+ rest) payload).
Proof.
  cbn [losant_doRequest bind send call guarded]. split; [split; [exact (HasPrefix_app _ rest)|done]|].
  intros [e|e|code t e|code b]; try done. cbn [guarded]. by destruct (400 <=? code).
Qed.

Lemma hbind_confined {A B} h (p : hprog (result A)) (f : A -> hprog (result B)) :
  confined h p -> (forall a h', confined h' (f a)) -> confined h (hbind p f).
Proof. intros Hp Hf. apply guarded_bind; [done|]. intros tr [a|e] _; [apply Hf|done]. Qed.

Lemma bind_confined {A B} h (p : hprog A) (f : A -> hprog B) :
  confined h p -> (forall a h', confined h' (f a)) -> confined h (bind p f).
Proof. intros Hp Hf. apply guarded_bind; [done|]. intros tr a _. apply Hf. Qed.

Ltac confine :=
  repeat (intros; lazymatch goal with
    | |- guarded _ _ (losant_doRequest _ _ _ _) => apply doRequest_confined
    | |- guarded _ _ (hbind _ _) => apply hbind_confined
    | |- guarded _ _ (bind _ _) => apply bind_confined
    | |- guarded _ _ (Ret _) => exact I
    | |- guarded _ _ (call _) => by split
    | |- guarded _ _ (match ?x with _ => _ end) => destruct x
    end).

Lemma ensure_confined h app name attrs create :
  (forall h', confined h' create) -> confined h (ensure_device mismatch c app name attrs create).
Proof.
  intros Hc. unfold ensure_device, findDeviceByName, find_path, losant_PatchDeviceAttributes, device_path.
  repeat (confine; try apply Hc).
Qed.

Lemma losant_http_confined (o : losant_op) h : confined h (losant_http mismatch c o).
Proof.
  destruct o; cbn [losant_http];
    lazymatch goal with
    | |- guarded _ _ (losant_EnsureClusterDevice _ _ _) => apply ensure_confined; intros h'; unfold createDevice
    | |- guarded _ _ (losant_EnsureNodeDevice _ _ _ _ _) => apply ensure_confined; intros h'; unfold createDevice
    | |- _ => unfold losant_Ping, losant_UpdateDeviceTags, losant_GetDevice, losant_CreateDeviceAccessKey,
        losant_PatchDeviceAttributes, losant_DeleteDevice, losant_ReleaseWorkflow, losant_GetEdgeDeployments
    end; unfold device_path; confine.
Qed.

End Requests.

(** Whatever the server answers, every request of every method of the Losant HTTP
    client goes to the applications path of api.losant.com over HTTPS and carries the
    client's own token as bearer credential: the token is sent nowhere else and no
    request is sent without it. *)
Theorem token_confined mismatch c (o : losant_op) tr a :
  exec (losant_http mismatch c o) tr a -> Forall (fun e : event HttpΣ => losant_request c (ev_op e)) tr.
Proof.
  intros He. apply Forall_forall. intros [op r] Hin.
  apply list_elem_of_split in Hin as (t1 & t2 & ->).
  exact (guarded_exec _ _ [] _ _ t1 op r t2 He (losant_http_confined mismatch c o []) eq_refl).
Qed.

(** ** 404 answers *)

(** What [doRequest] reports for a status of 400 or more. *)
Definition status_text (method path : string) (code : Z) (text : string) : string :=
  "losant api " +:+ method +:+ " " +:+ path +:+ ": status " +:+ Itoa code +:+ ": " +:+ text.

Definition mentions_404 (s : string) : bool := Contains s "status 404".

Lemma mentions_split x a b :
  free_of x "status 404" = true -> mentions_404 (a +:+ String x b) = mentions_404 a || mentions_404 b.
Proof. intros H. by apply Contains_sep. Qed.

(** Decimals hold no letter, so the text can only match at their start. *)
Lemma print_digits_free fuel n acc : free_of "s" acc = true -> free_of "s" (print_digits fuel n acc) = true.
Proof.
  assert (forall m acc', free_of "s" acc' = true -> free_of "s" (String (digit (m mod 10)) acc') = true) as Hd.
  { intros m acc' Ha. cbn [free_of]. rewrite Ha, andb_true_r, negb_true_iff. apply bool_decide_eq_false.
    assert (0 <= m mod 10 < 10) as Hm by (apply Z.mod_pos_bound; lia).
    assert (forallb (fun z => negb (bool_decide (digit z = "s"%char))) (Z.of_nat <$> seq 0 10) = true) as Hall
      by (vm_compute; reflexivity).
    rewrite forallb_forall in Hall. apply (proj1 (bool_decide_eq_false _)), negb_true_iff, Hall, list_elem_of_In, list_elem_of_fmap.
    exists (Z.to_nat (m mod 10)). split; [lia|]. apply elem_of_seq. lia. }
  revert n acc. induction fuel as [|fuel IH]; intros n acc Ha; [done|]. cbn [print_digits].
  destruct (n <? 10); [by apply Hd|]. apply IH. by apply Hd.
Qed.

Lemma Itoa_free n : free_of "s" (Itoa n) = true.
Proof. unfold Itoa. destruct (n <? 0); cbn [free_of]; by rewrite print_digits_free. Qed.

Lemma mentions_free s : free_of "s" s = true -> mentions_404 s = false.
Proof.
  unfold mentions_404. induction s as [|x s IH]; [done|]. cbn [free_of]. intros [Hx Hs]%andb_true_iff.
  apply negb_true_iff, bool_decide_eq_false in Hx. rewrite Contains_unfold. unfold HasPrefix. cbn [String.prefix].
  destruct (ascii_dec "s" x) as [<-|]; [done|]. by apply IH.
Qed.

Lemma mentions_code code : mentions_404 (" status " +:+ Itoa code) = HasPrefix (Itoa code) "404".
Proof.
  pose proof (mentions_free _ (Itoa_free code)) as Hf. unfold mentions_404 in *. set (s := Itoa code) in *.
  change (" status " +:+ s) with (String " " (String "s" (String "t" (String "a" (String "t" (String "u"
    (String "s" (String " " s)))))))).
  cbn [Contains HasPrefix String.prefix ascii_dec]. unfold HasPrefix. cbn. rewrite Hf.
  by destruct (String.prefix "404" s).
Qed.

Lemma mentions_status method path code text :
  mentions_404 (status_text method path code text)
  = mentions_404 ("losant api " +:+ method +:+ " " +:+ path) || HasPrefix (Itoa code) "404" || mentions_404 text.
Proof.
  rewrite <- mentions_code.
  replace (status_text method path code text)
    with (("losant api " +:+ method +:+ " " +:+ path) +:+ String ":" ((" status " +:+ Itoa code) +:+ String ":" (String " " text)))
    by (unfold status_text; rewrite <- !string_app_assoc; reflexivity).
  rewrite !mentions_split by reflexivity. by rewrite orb_assoc.
Qed.

(** The client's own part of the text: the two identifiers of the path. *)
Lemma mentions_device_path app dev :
  mentions_404 ("losant api " +:+ "DELETE" +:+ " " +:+ device_path app dev) = mentions_404 app || mentions_404 dev.
Proof.
  change ("losant api " +:+ "DELETE" +:+ " " +:+ device_path app dev)
    with ("losant api DELETE https://api.losant.com/applications" +:+ String "/" (app +:+ String "/" ("devices" +:+ String "/" dev))).
  by rewrite !mentions_split by reflexivity.
Qed.

Lemma mentions_release_path app :
  mentions_404 ("losant api " +:+ "POST" +:+ " " +:+ apiBase +:+ "/applications/" +:+ app +:+ "/edge/deployments/release")
  = mentions_404 app.
Proof.
  change ("losant api " +:+ "POST" +:+ " " +:+ apiBase +:+ "/applications/" +:+ app +:+ "/edge/deployments/release")
    with ("losant api POST https://api.losant.com/applications" +:+ String "/" (app +:+ String "/" "edge/deployments/release")).
  rewrite !mentions_split by reflexivity. by rewrite orb_false_r.
Qed.

(** An error wrapped under a prefix that ends in a colon. *)
Lemma mentions_wrapped pre text :
  mentions_404 ((pre +:+ ": ") +:+ text +:+ "") = mentions_404 pre || mentions_404 text.
Proof.
  replace ((pre +:+ ": ") +:+ text +:+ "") with (pre +:+ String ":" (String " " text))
    by (rewrite string_app_nil_r, <- string_app_assoc; reflexivity).
  by rewrite mentions_split by reflexivity.
Qed.

(** The error that [doRequest] makes of an answer, if it makes one. *)
Definition failure (method path : string) (a : http_answer) : option error :=
  match a with
  | BuildError e => Some (wrapf "build request: " e "")
  | SendError e => Some (wrapf ("losant api " +:+ method +:+ " " +:+ path +:+ ": ") e "")
  | Truncated _ _ e => Some (wrapf "read response body: " e "")
  | Response code b => if 400 <=? code then Some (Errorf (status_text method path code (b_text b))) else None
  end.

(** A status below 400 with a readable body. *)
Definition answered_ok (a : http_answer) : bool :=
  match a with Response code _ => code <? 400 | _ => false end.

(** Where "status 404" can come from: the status itself, the body, the text of a transport error,
    or the identifiers in the path ([ids]) when the text repeats the path. *)
Definition says_404 (ids : bool) (a : http_answer) : bool :=
  match a with
  | BuildError e | Truncated _ _ e => mentions_404 (Error e)
  | SendError e => ids || mentions_404 (Error e)
  | Response code b => ids || HasPrefix (Itoa code) "404" || mentions_404 (b_text b)
  end.

(** A transport error that is the package's own sentinel. *)
Definition transports (k : err_kind) (a : http_answer) : bool :=
  match a with
  | BuildError e | SendError e | Truncated _ _ e => Is e k
  | Response _ _ => false
  end.

Lemma failure_None method path a : failure method path a = None <-> answered_ok a = true.
Proof.
  destruct a as [e|e|code t e|code b]; simpl; try done.
  destruct (Z.leb_spec 400 code), (Z.ltb_spec code 400); (done || lia).
Qed.

Lemma failure_404 method path a err :
  failure method path a = Some err ->
  mentions_404 (Error err) = says_404 (mentions_404 ("losant api " +:+ method +:+ " " +:+ path)) a
  /\ Is err KWorkflowNotFound = transports KWorkflowNotFound a.
Proof.
  destruct a as [e|e|code t e|code b]; cbn [failure says_404 transports].
  1-3: intros [= <-]; split; [|by rewrite Is_wrapf].
  - exact (mentions_wrapped "build request" (Error e)).
  - rewrite <- mentions_wrapped. cbn [Error wrapf]. f_equal. by rewrite <- !string_app_assoc.
  - exact (mentions_wrapped "read response body" (Error e)).
  - destruct (400 <=? code); [|done]. intros [= <-]. split; [apply mentions_status|done].
Qed.

(** A call answered by [a] goes on with its failure, or with some body. *)
Lemma doRequest_answer {A} c method path payload (f : result body -> hprog A) rq a tr r :
  exec (bind (losant_doRequest c method path payload) f) (Ev (Send rq : HttpΣ) a :: tr) r ->
  match failure method path a with Some e => exec (f (Err e)) tr r | None => exists b, exec (f (Ok b)) tr r end.
Proof.
  unfold losant_doRequest. cbn [bind send call]. intros He. apply exec_answered in He.
  destruct a as [e|e|code t e|code b]; cbn [failure]; try done. destruct (400 <=? code); eauto.
Qed.

(** C27: for every answer to the one request of each call: DeleteDevice succeeds exactly when the
    status is below 400 or its error text mentions "status 404", which it does exactly when the status
    begins with 404, or the body, the transport error or an identifier in the quoted path contains those words;
    ReleaseWorkflow succeeds exactly for a status below 400, and reports the missing workflow exactly
    in the other cases (or when a transport error already is that sentinel).  So a 404 is always
    recognised, and an answer that quotes one masks any other failure. *)
Theorem not_found_recognised c app dev flow version a :
  (forall rq tr r, exec (losant_DeleteDevice c app dev) (Ev (Send rq : HttpΣ) a :: tr) r ->
     r = None <-> answered_ok a = true \/ says_404 (mentions_404 app || mentions_404 dev) a = true)
  /\ (forall rq tr r, exec (losant_ReleaseWorkflow c app dev flow version) (Ev (Send rq : HttpΣ) a :: tr) r ->
     (r = None <-> answered_ok a = true)
     /\ ((exists e, r = Some e /\ Is e KWorkflowNotFound = true)
         <-> answered_ok a = false /\ says_404 (mentions_404 app) a || transports KWorkflowNotFound a = true)).
Proof.
  split; intros rq tr r He; apply doRequest_answer in He.
  - pose proof (failure_None "DELETE" (device_path app dev) a) as Hn.
    destruct (failure "DELETE" (device_path app dev) a) as [err|] eqn:Hf; cbn beta iota in He.
    + apply failure_404 in Hf as [Hf _]. rewrite mentions_device_path in Hf. rewrite <- Hf.
      change (Contains (Error err) "status 404") with (mentions_404 (Error err)) in He.
      destruct (mentions_404 (Error err)); apply exec_inv in He as [-> ->]; destruct (answered_ok a); naive_solver.
    + destruct He as [b He]. apply exec_inv in He as [-> ->]. naive_solver.
  - set (path := apiBase +:+ "/applications/" +:+ app +:+ "/edge/deployments/release") in *.
    pose proof (failure_None "POST" path a) as Hn.
    destruct (failure "POST" path a) as [err|] eqn:Hf; cbn beta iota in He.
    + apply failure_404 in Hf as [Hf Hk]. unfold path in Hf. rewrite mentions_release_path in Hf. rewrite <- Hf, <- Hk.
      change (Contains (Error err) "status 404") with (mentions_404 (Error err)) in He.
      assert (answered_ok a = false) as -> by (destruct (answered_ok a); naive_solver).
      destruct (mentions_404 (Error err)); apply exec_inv in He as [-> ->]; split; try done;
        (split; [naive_solver|]); intros [_ Hor]; eexists; (split; [done|]); [reflexivity|exact Hor].
    + destruct He as [b He]. apply exec_inv in He as [-> ->]. rewrite (proj1 Hn eq_refl). naive_solver.
Qed.
