(* ===== verification/LosantServer.v ===== *)
(** * LosantServer: the Ensure methods against the Losant REST API

    The API is not part of the repository: it is an interface with the documented
    behaviour of the three requests that the Ensure methods make, on a state of which
    only the devices of the application are visible.  A request may fail at any time,
    and a device may have been created although the answer was lost.  A token belongs to
    one application.  Against every such server the Ensure methods never make two devices
    of one name. *)

From Stdlib Require Import ZArith Lia Ascii String.
From stdpp Require Import base list strings gmap.
From S2P Require Import Prelude Effects GoLib K8s ApiTypes HealthScore Clients Http LosantClient.

Local Open Scope Z_scope.
Local Open Scope prog_scope.

(** ** The interface *)

Class LosantServer (S : Type) := {
  serve : forall o : http_op, S -> http_ans o * S;
  (* the application that the token belongs to, and its devices *)
  application : string;
  devices : S -> list Device;
  (* the filter of the device list is a pattern: whether it matches a name *)
  matches : string -> string -> bool;
}.

(** A body that json.Unmarshal decodes to [a], and an answer that [doRequest] accepts. *)
Definition decodes {A} (decode : json -> option A) (b : body) (a : A) : Prop :=
  exists j, b_json b = Ok j /\ decode j = Some a.

Definition accepted (a : http_answer) (b : body) : Prop :=
  exists code, a = Response code b /\ code < 400.

(** Names without characters that the filter of the API could take for a pattern. *)
Definition plain (name : string) : bool :=
  forallb (fun x => free_of x name) ["*"; "?"; "["; "]"; "{"; "}"; "!"; "("; ")"; "\"]%char.

(** A page of the devices whose name the filter matches: not empty when there is one. *)
Definition page_of {S : Type} `{LosantServer S} (filter : string) (all page : list Device) : Prop :=
  (forall d, d ∈ page -> d ∈ all /\ matches filter (dev_Name d) = true)
  /\ (page = [] -> Forall (fun d => matches filter (dev_Name d) = false) all).

Class LosantServerSpec (S : Type) `{LosantServer S} : Prop := {
  (* without a pattern character the filter matches that name only *)
  matches_plain name other : plain name = true -> matches name other = bool_decide (other = name);
  serve_find name hs s :
    exists a, serve (Send (mkReq "GET" (find_path application name) hs None)) s = (a, s)
      /\ (forall b, accepted a b -> exists page, decodes decode_items b page /\ page_of name (devices s) page);
  serve_create name hs l s : field "name" l = Some (JStr name) ->
    exists a s', serve (Send (mkReq "POST" (apiBase +:+ "/applications/" +:+ application +:+ "/devices") hs (Some (JObj l)))) s = (a, s')
      /\ ((devices s' = devices s /\ forall b, ~ accepted a b)
          \/ exists d, devices s' = devices s ++ [d] /\ dev_Name d = name
               /\ (forall b, accepted a b -> exists d', decodes decode_Device b d' /\ dev_DeviceID d' = dev_DeviceID d));
  serve_patch id hs attrs s :
    exists a s', serve (Send (mkReq "PATCH" (device_path application id) hs (Some (JObj [("attributes", JArr (map json_attr attrs))])))) s = (a, s')
      /\ devices s' = devices s;
}.

Section Ensure.
Context (mismatch : string -> json -> error) (c : LosantHTTPClient).
Context {S : Type} `{HS : LosantServerSpec S}.

Abbreviation served p s := (run (Σ:=HttpΣ) serve p s).

(** The Ensure calls for the application, with the name of the device. *)
Inductive ensure_call : string -> hprog (result string) -> Prop :=
| ensure_cluster spec : ApplicationID spec = application ->
    ensure_call (clusterDeviceName (ClusterName spec)) (losant_EnsureClusterDevice mismatch c spec)
| ensure_node spec n gw : ApplicationID spec = application ->
    ensure_call (nodeDeviceName (ClusterName spec) n) (losant_EnsureNodeDevice mismatch c spec n gw).

Definition one_per_name (l : list Device) : Prop := NoDup (dev_Name <$> l).

(** What one Ensure call does to the devices of its application. *)
Definition ensured (name : string) (before after : list Device) (r : result string) : Prop :=
  (after = before \/ exists d, after = before ++ [d] /\ dev_Name d = name /\ Forall (fun d => dev_Name d <> name) before)
  /\ (forall id, r = Ok id -> exists d, d ∈ after /\ dev_Name d = name /\ dev_DeviceID d = id).

(** *** The three requests *)

Lemma doRequest_served method path payload s a s' :
  serve (Send (mkReq method path (auth_headers (lh_token c)) payload)) s = (a, s') ->
  exists r tr, served (losant_doRequest c method path payload) s = (r, tr, s') /\ forall b, r = Ok b -> accepted a b.
Proof.
  intros E. unfold losant_doRequest. cbn [bind send call run]. rewrite E.
  destruct a as [e|e|code t e|code b]; simpl; try (eexists _, _; split; [reflexivity|]; intros; discriminate).
  destruct (Z.leb_spec 400 code); simpl; eexists _, _; (split; [reflexivity|]); intros b' Hb; [discriminate|].
  injection Hb as <-. by exists code.
Qed.

Lemma Unmarshal_decodes {A} m (decode : json -> option A) b a :
  decodes decode b a -> Unmarshal m decode b = Ok a.
Proof. intros (j & Hj & Hd). unfold Unmarshal. by rewrite Hj, Hd. Qed.

Lemma find_served name s :
  plain name = true ->
  exists r tr, served (findDeviceByName mismatch c application name) s = (r, tr, s)
    /\ match r with
       | Ok (Some d) => d ∈ devices s /\ dev_Name d = name
       | Ok None => Forall (fun d => dev_Name d <> name) (devices s)
       | Err _ => True
       end.
Proof.
  intros Hp. destruct (serve_find name (auth_headers (lh_token c)) s) as (a & E & Ha).
  destruct (doRequest_served _ _ _ _ _ _ E) as (r & tr & Er & Hr).
  unfold findDeviceByName, hbind. rewrite (run_bind _ _ _ _ _ _ _ Er).
  destruct r as [b|e]; [|by eexists _, _].
  destruct (Ha b (Hr b eq_refl)) as (page & Hd & Hin & Hempty). rewrite (Unmarshal_decodes _ _ _ _ Hd).
  destruct page as [|d page]; simpl; eexists _, _; (split; [reflexivity|]).
  - eapply Forall_impl; [by apply Hempty|]. intros d Hm. cbn beta in Hm. rewrite matches_plain in Hm by done.
    by apply bool_decide_eq_false in Hm.
  - destruct (Hin d) as [Hd0 Hm]; [left|]. rewrite matches_plain in Hm by done. by apply bool_decide_eq_true in Hm.
Qed.

Lemma patch_served id attrs s :
  exists r tr s', served (losant_PatchDeviceAttributes c application id attrs) s = (r, tr, s') /\ devices s' = devices s.
Proof.
  destruct (serve_patch id (auth_headers (lh_token c)) attrs s) as (a & s' & E & Hd).
  destruct (doRequest_served _ _ _ _ _ _ E) as (r & tr & Er & _).
  unfold losant_PatchDeviceAttributes. rewrite (run_bind _ _ _ _ _ _ _ Er). simpl. by eexists _, _, _.
Qed.

Lemma payload_name name class recipe gw tags attrs :
  exists l, create_payload name class recipe gw tags attrs = JObj l /\ field "name" l = Some (JStr name).
Proof.
  eexists; split; [reflexivity|]. rewrite !app_assoc. unfold field. rewrite fold_left_app. reflexivity.
Qed.

Lemma create_served name class recipe gw tags attrs s :
  Forall (fun d => dev_Name d <> name) (devices s) ->
  exists r tr s', served (createDevice mismatch c application name class recipe gw tags attrs) s = (r, tr, s')
    /\ ensured name (devices s) (devices s') r.
Proof.
  intros Hn. destruct (payload_name name class recipe gw tags attrs) as (l & Hl & Hname).
  destruct (serve_create name (auth_headers (lh_token c)) l s Hname) as (a & s' & E & Ha).
  destruct (doRequest_served _ _ _ _ _ _ E) as (r & tr & Er & Hr).
  unfold createDevice, hbind. rewrite Hl, (run_bind _ _ _ _ _ _ _ Er).
  destruct Ha as [[Hd Hna]|(d & Hd & Hdn & Hok)].
  - destruct r as [b|e]; [by destruct (Hna b (Hr b eq_refl))|].
    eexists _, _, _. split; [reflexivity|]. split; [by left|intros id Hid; discriminate].
  - assert (d ∈ devices s') as Hin by (rewrite Hd, elem_of_app, list_elem_of_singleton; by right).
    assert (forall r, (forall id, r = Ok id -> id = dev_DeviceID d) -> ensured name (devices s) (devices s') r) as Hens.
    { intros r' Hr'. split; [right; eauto|]. intros id Hid. apply Hr' in Hid as ->. eauto. }
    destruct r as [b|e]; [|eexists _, _, _; split; [reflexivity|]; apply Hens; intros ? [=]].
    destruct (Hok b (Hr b eq_refl)) as (d' & Hdec & Hid). rewrite (Unmarshal_decodes _ _ _ _ Hdec).
    destruct (decide (dev_DeviceID d' = "")); eexists _, _, _; (split; [reflexivity|]); apply Hens;
      intros ? [=]; congruence.
Qed.

Lemma ensure_device_served name attrs class recipe gw tags s :
  plain name = true ->
  exists r tr s',
    served (ensure_device mismatch c application name attrs (createDevice mismatch c application name class recipe gw tags attrs)) s = (r, tr, s')
    /\ ensured name (devices s) (devices s') r
    /\ (Exists (fun d => dev_Name d = name) (devices s) -> devices s' = devices s).
Proof.
  intros Hp. destruct (find_served name s Hp) as (r & tr & E & Hr).
  unfold ensure_device, hbind at 1. rewrite (run_bind _ _ _ _ _ _ _ E). destruct r as [[d|]|e]; cbn beta iota.
  - destruct Hr as [Hin Hname]. destruct (patch_served (dev_DeviceID d) attrs s) as (r & tr' & s' & E' & Hd).
    rewrite (run_bind _ _ _ _ _ _ _ E'). destruct r; simpl; eexists _, _, _; (split; [reflexivity|]); rewrite Hd;
      (split; [split; [by left|]|done]); intros id [= <-]. eauto.
  - destruct (create_served name class recipe gw tags attrs s Hr) as (r & tr' & s' & E' & He).
    rewrite E'. eexists _, _, _. split; [reflexivity|]. split; [done|].
    rewrite Exists_exists, Forall_forall in *. naive_solver.
  - eexists _, _, _. split; [reflexivity|]. split; [split; [by left|intros ? [=]]|done].
Qed.

Lemma ensure_call_served name p s :
  ensure_call name p -> plain name = true ->
  exists r tr s', served p s = (r, tr, s') /\ ensured name (devices s) (devices s') r
    /\ (Exists (fun d => dev_Name d = name) (devices s) -> devices s' = devices s).
Proof.
  destruct 1 as [spec Ha|spec n gw Ha]; intros Hp;
    unfold losant_EnsureClusterDevice, losant_EnsureNodeDevice; rewrite Ha; by apply ensure_device_served.
Qed.

Lemma ensured_one_per_name name l l' r : ensured name l l' r -> one_per_name l -> one_per_name l'.
Proof.
  intros [[->|(d & -> & Hd & Hf)] _] Hl; [done|]. unfold one_per_name in *. rewrite fmap_app. apply NoDup_app.
  split; [done|]. split; [|apply NoDup_singleton]. intros x Hx Hin. simpl in Hin. apply list_elem_of_singleton in Hin as ->.
  apply list_elem_of_fmap in Hx as (d' & Hx & Hd'). rewrite Forall_forall in Hf. apply (Hf d'); congruence.
Qed.

Lemma same_device l d d' : one_per_name l -> d ∈ l -> d' ∈ l -> dev_Name d = dev_Name d' -> d = d'.
Proof.
  intros Hn Hd Hd' He. apply list_elem_of_lookup in Hd as [i Hi], Hd' as [j Hj].
  assert (i = j) as ->; [|congruence].
  apply (NoDup_lookup _ i j (dev_Name d) Hn); rewrite list_lookup_fmap; [by rewrite Hi|by rewrite Hj, He].
Qed.

(** C19: for a device name without pattern characters ([plain]), and against any server with the
    documented behaviour, which may refuse requests or lose answers, an Ensure call repeated
    for the same device keeps at most one device per name and adds at most one; once a call returned an identifier, it is that of
    the device of the name, the repetition creates nothing, and it returns the same
    identifier or an error. *)
Theorem ensure_idempotent name p s r1 t1 s1 r2 t2 s2 :
  ensure_call name p -> plain name = true -> one_per_name (devices s) ->
  served p s = (r1, t1, s1) -> served p s1 = (r2, t2, s2) ->
  one_per_name (devices s2)
  /\ (length (devices s2) <= length (devices s) + 1)%nat
  /\ forall id, r1 = Ok id ->
       devices s2 = devices s1
       /\ (exists d, d ∈ devices s1 /\ dev_Name d = name /\ dev_DeviceID d = id)
       /\ forall id', r2 = Ok id' -> id' = id.
Proof.
  intros Hc Hp Hu E1 E2.
  destruct (ensure_call_served name p s Hc Hp) as (r & t & s' & E & He1 & _). rewrite E1 in E. injection E as <- <- <-.
  destruct (ensure_call_served name p s1 Hc Hp) as (r & t & s' & E & He2 & Hk). rewrite E2 in E. injection E as <- <- <-.
  pose proof (ensured_one_per_name _ _ _ _ He1 Hu) as Hu1. pose proof (ensured_one_per_name _ _ _ _ He2 Hu1) as Hu2.
  split; [done|]. split.
  - destruct He1 as [[Hs|(d & Hs & Hd & _)] _].
    + destruct He2 as [[->|(d & -> & _)] _]; rewrite ?length_app, Hs; simpl; lia.
    + rewrite Hk, Hs, length_app; [simpl; lia|]. rewrite Hs. apply Exists_app. right. by constructor.
  - intros id ->. destruct He1 as [_ Hid]. destruct (Hid id eq_refl) as (d & Hin & Hn & Hi).
    assert (devices s2 = devices s1) as Hs by (apply Hk, Exists_exists; eauto).
    split; [done|]. split; [eauto|]. intros id' ->. destruct He2 as [_ Hid']. destruct (Hid' id' eq_refl) as (d' & Hin' & Hn' & <-).
    rewrite Hs in Hin'. rewrite (same_device _ d d' Hu1 Hin Hin') in Hi; congruence.
Qed.

End Ensure.

(** ** A server

    One application with an arbitrary list of devices, numbered in order of creation. *)

Module Sample.

Fixpoint strip (p s : string) : option string :=
  match p, s with
  | EmptyString, _ => Some s
  | String x p', String y s' => if ascii_dec x y then strip p' s' else None
  | _, _ => None
  end.

Lemma strip_app p s : strip p (p +:+ s) = Some s.
Proof.
  induction p as [|x p IH]; [by destruct s|]. rewrite string_app_cons. cbn. by destruct (ascii_dec x x).
Qed.

Definition json_Device (d : Device) : json :=
  JObj [("deviceId", JStr (dev_DeviceID d)); ("name", JStr (dev_Name d)); ("tags", JArr (map json_Tag (dev_Tags d)))].

Lemma decode_json_list {A} (enc : A -> json) dec (Hd : forall a, dec (enc a) = Some a) l : mapM dec (map enc l) = Some l.
Proof. induction l as [|a l IH]; [done|]. cbn. rewrite Hd. cbn. by rewrite IH. Qed.

Lemma decode_json_Tag t : decode_Tag (json_Tag t) = Some t.
Proof. by destruct t. Qed.

Lemma decode_json_Device d : decode_Device (json_Device d) = Some d.
Proof.
  unfold decode_Device, json_Device, decode_struct.
  change (field "deviceId" _) with (Some (JStr (dev_DeviceID d))). change (field "name" _) with (Some (JStr (dev_Name d))).
  change (field "tags" _) with (Some (JArr (map json_Tag (dev_Tags d)))).
  cbn [decode_string decode_slice mbind option_bind]. rewrite (decode_json_list _ _ decode_json_Tag). by destruct d.
Qed.

(** Patterns: a star, a question mark, and a set of characters in brackets. *)
Fixpoint glob (set : option (list ascii)) (p s : string) : bool :=
  match p with
  | EmptyString => match s with EmptyString => true | _ => false end
  | String x p' =>
      match set with
      | Some l =>
          if decide (x = "]"%char)
          then match s with EmptyString => false | String y s' => bool_decide (y ∈ l) && glob None p' s' end
          else glob (Some (x :: l)) p' s
      | None =>
          if decide (x = "*"%char)
          then (fix star (s : string) : bool :=
                  glob None p' s || match s with EmptyString => false | String _ s' => star s' end) s
          else if decide (x = "["%char) then glob (Some []) p' s
          else match s with
               | EmptyString => false
               | String y s' => bool_decide (x = "?"%char \/ y = x) && glob None p' s'
               end
      end
  end.

Lemma glob_plain p : plain p = true -> forall s, glob None p s = bool_decide (s = p).
Proof.
  unfold plain. induction p as [|x p IH]; intros Hp s; [by destruct s|].
  assert (x <> "*"%char /\ x <> "?"%char /\ x <> "["%char /\ plain p = true) as (H1 & H2 & H3 & Hp').
  { cbn [forallb free_of] in Hp. rewrite !andb_true_iff, !negb_true_iff in Hp.
    unfold plain. cbn [forallb]. rewrite !andb_true_iff.
    repeat match goal with H : _ /\ _ |- _ => destruct H end.
    repeat match goal with H : bool_decide _ = false |- _ => apply bool_decide_eq_false in H end. repeat split; done. }
  cbn [glob]. rewrite !decide_False by done. destruct s as [|y s]; [done|]. rewrite (IH Hp').
  destruct (decide (y = x)) as [->|Hne].
  - rewrite bool_decide_eq_true_2 by auto. apply bool_decide_ext. split; [by intros ->|by intros [= ->]].
  - rewrite bool_decide_eq_false_2 by (intros [?|?]; congruence). symmetry. apply bool_decide_eq_false_2. congruence.
Qed.

Definition text_of (j : json) : body := mkBody "..." (Ok j).

Definition filter_prefix : string := "https://api.losant.com/applications/app-1/devices?filterField=name&filter=".

Definition create (l : list (string * json)) (s : list Device) : http_answer * list Device :=
  match field "name" l with
  | Some (JStr n) =>
      let d := mkDevice ("dev-" +:+ Itoa (Z.of_nat (length s))) n [] in
      (Response 201 (text_of (json_Device d)), s ++ [d])
  | _ => (Response 400 (text_of JNull), s)
  end.

Definition respond (r : Request) (s : list Device) : http_answer * list Device :=
  match rq_Body r with
  | Some (JObj l) =>
      if decide (rq_Method r = "POST" /\ rq_URL r = "https://api.losant.com/applications/app-1/devices") then create l s
      else (Response 200 (text_of JNull), s)
  | _ =>
      match strip filter_prefix (rq_URL r) ≫= QueryUnescape with
      | Some n => (Response 200 (text_of (JObj [("items", JArr (map json_Device (filter (fun d => glob None n (dev_Name d) = true) s)))])), s)
      | None => (Response 404 (text_of JNull), s)
      end
  end.

#[export] Instance sample_server : LosantServer (list Device) := {
  serve o := match o return list Device -> http_ans o * list Device with
             | Send r => respond r
             | RangeOver keys => fun s => (exist _ (elements keys) (Permutation_refl _), s)
             end;
  application := "app-1";
  devices s := s;
  matches := glob None;
}.

Lemma decode_json_items l : decode_items (JObj [("items", JArr (map json_Device l))]) = Some l.
Proof. unfold decode_items, decode_struct. change (field "items" _) with (Some (JArr (map json_Device l))).
  cbn [decode_slice]. apply decode_json_list, decode_json_Device. Qed.

#[export] Instance sample_server_spec : LosantServerSpec (list Device).
Proof.
  split; cbn [serve application devices matches sample_server].
  - intros name other Hp. by apply glob_plain.
  - intros name hs s. unfold respond. cbn [rq_Body rq_URL].
    change (find_path "app-1" name) with (filter_prefix +:+ QueryEscape name). rewrite strip_app. cbn [mbind option_bind].
    rewrite QueryUnescape_escape. eexists. split; [reflexivity|]. intros b (code & [= <- <-] & _).
    eexists. split; [eexists; split; [reflexivity|apply decode_json_items]|]. split.
    + intros d Hd. apply list_elem_of_filter in Hd. tauto.
    + intros He. apply Forall_forall. intros d Hd. apply not_true_is_false. intros Hn.
      assert (d ∈ filter (fun d => glob None name (dev_Name d) = true) s) as Hin by (by apply list_elem_of_filter).
      rewrite He in Hin. by apply not_elem_of_nil in Hin.
  - intros name hs l s Hn. unfold respond. cbn [rq_Body rq_URL rq_Method]. rewrite decide_True by done.
    unfold create. rewrite Hn. eexists _, _. split; [reflexivity|]. right. eexists. split; [reflexivity|]. split; [done|].
    intros b (code & [= <- <-] & _). eexists. split; [eexists; split; [reflexivity|apply decode_json_Device]|done].
  - intros id hs attrs s. unfold respond. cbn [rq_Body rq_Method]. rewrite decide_False by (by intros [? _]).
    by eexists _, _.
Qed.

Definition client : LosantHTTPClient := mkLosantHTTP "token-1" "app-1".
Definition mismatch (T : string) (_ : json) : error := Errorf ("json: cannot unmarshal into " +:+ T).

Definition spec : LosantSyncSpec :=
  mkLSSpec "app-1" (mkSecretRef "losant" "edge") "west 1" "eu" "" "" "5m" (mkGEASpec "gea" 8080 "gea") "" []
    (mkTags "" "" "") false.

Definition ensure_it : hprog (result string) := losant_EnsureNodeDevice mismatch client spec "n1" "dev-gw".

Abbreviation first := (run (Σ:=HttpΣ) serve ensure_it []).
Abbreviation second := (run (Σ:=HttpΣ) serve ensure_it (run (Σ:=HttpΣ) serve ensure_it []).2).

Lemma ensure_idempotent_witness :
  first.1.1 = Ok "dev-0" /\ second.2 = first.2 /\ forall id, second.1.1 = Ok id -> id = "dev-0".
Proof.
  assert (H : one_per_name second.2 /\ (length second.2 <= length ([] : list Device) + 1)%nat
    /\ forall id, first.1.1 = Ok id -> second.2 = first.2
         /\ (exists d, d ∈ first.2 /\ dev_Name d = nodeDeviceName "west 1" "n1" /\ dev_DeviceID d = id)
         /\ forall id', second.1.1 = Ok id' -> id' = id).
  { refine (ensure_idempotent mismatch client (nodeDeviceName "west 1" "n1") ensure_it []
      first.1.1 first.1.2 first.2 second.1.1 second.1.2 second.2
      (ensure_node mismatch client spec "n1" "dev-gw" _) _ _ _ _);
      [reflexivity|vm_compute; reflexivity|apply NoDup_nil_2|vm_compute; reflexivity|vm_compute; reflexivity]. }
  destruct H as (_ & _ & H). assert (first.1.1 = Ok "dev-0") as E by (vm_compute; reflexivity).
  split; [exact E|]. destruct (H _ E) as (Hs & _ & Hid). split; [exact Hs|exact Hid].
Defined.

(** Why the name must be plain: the name is sent as the filter as it is, so a cluster called
    "prod [1]" is not found under its own name, and every Ensure call makes another device of it. *)
Definition bracket_spec : LosantSyncSpec :=
  mkLSSpec "app-1" (mkSecretRef "losant" "edge") "prod [1]" "eu" "" "" "5m" (mkGEASpec "gea" 8080 "gea") "" []
    (mkTags "" "" "") false.

Definition ensure_bracket : hprog (result string) := losant_EnsureClusterDevice mismatch client bracket_spec.

Example pattern_name_duplicates :
  plain (clusterDeviceName (ClusterName bracket_spec)) = false
  /\ map dev_Name (run (Σ:=HttpΣ) serve ensure_bracket (run (Σ:=HttpΣ) serve ensure_bracket []).2).2
     = [clusterDeviceName "prod [1]"; clusterDeviceName "prod [1]"].
Proof. vm_compute. split; reflexivity. Qed.

Lemma token_confined_witness :
  Forall (fun e : event HttpΣ => losant_request client (ev_op e)) first.1.2 /\ length first.1.2 = 2%nat.
Proof.
  split; [|vm_compute; reflexivity].
  exact (token_confined mismatch client (EnsureNodeDevice spec "n1" "dev-gw") _ _ (run_exec (Σ:=HttpΣ) serve ensure_it [])).
Defined.

(** A 500 whose body quotes a 404 of another service. *)
Definition quoting : body := mkBody "upstream: status 404" (Err (Errorf "invalid character 'u'")).

Definition quoting_server (o : HttpΣ) (u : unit) : ans o * unit :=
  match o return http_ans o * unit with
  | Send _ => (Response 500 quoting, u)
  | RangeOver k => (exist _ (elements k) (Permutation_refl _), u)
  end.

Definition delete_it : hprog (option error) := losant_DeleteDevice client "app-1" "dev-0".

Lemma not_found_recognised_witness :
  (run quoting_server delete_it tt).1.1 = None
  /\ map answer_of (run quoting_server delete_it tt).1.2 = [Some (Response 500 quoting)].
Proof.
  destruct (not_found_recognised client "app-1" "dev-0" "" "" (Response 500 quoting)) as [H _].
  split; [|vm_compute; reflexivity].
  apply (proj2 (H (mkReq "DELETE" (device_path "app-1" "dev-0") (auth_headers "token-1") None) [] _
                  (run_exec quoting_server delete_it tt))).
  right. vm_compute. reflexivity.
Defined.

End Sample.
