(* ===== verification/RancherClient.v ===== *)
(** * RancherClient: the HTTP methods of internal/rancher/client.go

    Each method as a program over HTTP requests, and how a 404 answer reaches the
    session reconciler: as the sentinel error from GetCluster and as success from
    DeleteCluster. *)

From Stdlib Require Import ZArith Lia Ascii String.
From stdpp Require Import base list strings gmap.
From S2P Require Import Prelude Effects GoLib K8s ApiTypes HealthScore Clients Http.

Local Open Scope Z_scope.
Local Open Scope prog_scope.

Record cluster := mkCluster { cl_ID : string; cl_Name : string }.

Definition decode_cluster : json -> option cluster := decode_struct (fun l =>
  id ← decode_string (field "id" l); name ← decode_string (field "name" l); Some (mkCluster id name)).

(** The anonymous structs of FindCluster and GetRegistrationToken. *)
Definition decode_clusters : json -> option (list cluster) := decode_struct (fun l =>
  decode_slice decode_cluster (field "data" l)).

Definition decode_tokens : json -> option (list string) := decode_struct (fun l =>
  decode_slice (decode_struct (fun t => decode_string (field "manifestUrl" t))) (field "data" l)).

(** [isNotFound] goes by the text of the error. *)
Definition isNotFound (e : error) : bool := Contains (Error e) (Error RancherErrNotFound).

Section Client.
Context (mismatch : string -> json -> error) (c : RancherHTTPClient).

Definition rancher_doRequest (method path : string) (payload : option json) : hprog (result body) :=
  let* resp := send (mkReq method path (auth_headers (rh_token c)) payload) in
  match resp with
  | BuildError e => Ret (Err (wrapf "build request: " e ""))
  | SendError e => Ret (Err (wrapf ("rancher api " +:+ method +:+ " " +:+ path +:+ ": ") e ""))
  | Truncated code _ e => Ret (Err (wrapf "read response body: " e ""))
  | Response code b =>
      if code =? 404 then Ret (Err (wrapf "" RancherErrNotFound (": " +:+ method +:+ " " +:+ path)))
      else if 400 <=? code
      then Ret (Err (Errorf ("rancher api " +:+ method +:+ " " +:+ path +:+ ": status " +:+ Itoa code +:+ ": " +:+ b_text b)))
      else Ret (Ok b)
  end.

Definition rancher_FindCluster (name : string) : hprog (result (string * bool)) :=
  hbind (rancher_doRequest "GET" (rh_baseURL c +:+ "/v3/clusters?name=" +:+ name) None) (fun b =>
  match Unmarshal (mismatch "cluster list") decode_clusters b with
  | Err e => Ret (Err (wrapf "decode cluster list response: " e ""))
  | Ok [] => Ret (Ok ("", false))
  | Ok (cl :: _) => Ret (Ok (cl_ID cl, true))
  end).

Definition rancher_CreateCluster (name : string) : hprog (result string) :=
  let payload := JObj [("import", JBool true); ("name", JStr name)] in
  hbind (rancher_doRequest "POST" (rh_baseURL c +:+ "/v3/clusters") (Some payload)) (fun b =>
  match Unmarshal (mismatch "cluster") decode_cluster b with
  | Err e => Ret (Err (wrapf "decode create cluster response: " e ""))
  | Ok cl =>
      if decide (cl_ID cl = "") then Ret (Err (Errorf "create cluster: empty id in response"))
      else Ret (Ok (cl_ID cl))
  end).

Definition rancher_GetRegistrationToken (clusterID : string) : hprog (result string) :=
  hbind (rancher_doRequest "GET" (rh_baseURL c +:+ "/v3/clusterregistrationtokens?clusterId=" +:+ clusterID) None) (fun b =>
  match Unmarshal (mismatch "token list") decode_tokens b with
  | Err e => Ret (Err (wrapf "decode registration token response: " e ""))
  | Ok [] => Ret (Err (Errorf ("no registration token found for cluster " +:+ clusterID)))
  | Ok (manifestURL :: _) =>
      if decide (manifestURL = "") then Ret (Err (Errorf ("no registration token found for cluster " +:+ clusterID)))
      else Ret (Ok manifestURL)
  end).

Definition cluster_path (clusterID : string) : string := rh_baseURL c +:+ "/v3/clusters/" +:+ clusterID.

Definition rancher_GetCluster (clusterID : string) : hprog (option error) :=
  let* r := rancher_doRequest "GET" (cluster_path clusterID) None in
  match r with
  | Ok _ => Ret None
  | Err e => Ret (Some e)
  end.

Definition rancher_DeleteCluster (clusterID : string) : hprog (option error) :=
  let* r := rancher_doRequest "DELETE" (cluster_path clusterID) None in
  match r with
  | Ok _ => Ret None
  | Err e => if isNotFound e then Ret None else Ret (Some e)
  end.

(** The HTTP client as an implementation of the interface. *)
Definition rancher_http (o : rancher_op) : hprog (rancher_ans o) :=
  match o with
  | FindCluster name => rancher_FindCluster name
  | CreateCluster name => rancher_CreateCluster name
  | GetRegistrationToken id => rancher_GetRegistrationToken id
  | GetCluster id => rancher_GetCluster id
  | DeleteCluster id => rancher_DeleteCluster id
  end.

End Client.

(** ** 404 answers *)

Definition says_not_found (s : string) : bool := Contains s "rancher resource not found".

Lemma says_split x a b :
  free_of x "rancher resource not found" = true -> says_not_found (a +:+ String x b) = says_not_found a || says_not_found b.
Proof. intros H. by apply Contains_sep. Qed.

(** The codes net/http accepts have three digits. *)
Lemma says_code code : 400 <= code <= 999 -> says_not_found (" status " +:+ Itoa code) = false.
Proof.
  intros H.
  assert (forallb (fun z => negb (says_not_found (" status " +:+ Itoa z))) (Z.add 400 ∘ Z.of_nat <$> seq 0 600) = true)
    as Hall by (vm_compute; reflexivity).
  rewrite forallb_forall in Hall. apply negb_true_iff, Hall, list_elem_of_In, list_elem_of_fmap.
  exists (Z.to_nat (code - 400)). split; [simpl; lia|]. apply elem_of_seq. lia.
Qed.

(** What [doRequest] reports for a status of 400 or more that is not 404. *)
Definition delete_text (c : RancherHTTPClient) (id : string) (code : Z) (text : string) : string :=
  "rancher api " +:+ "DELETE" +:+ " " +:+ cluster_path c id +:+ ": status " +:+ Itoa code +:+ ": " +:+ text.

Lemma says_delete_text c id code text :
  400 <= code <= 999 ->
  says_not_found (delete_text c id code text) = says_not_found (rh_baseURL c) || says_not_found id || says_not_found text.
Proof.
  intros H.
  replace (delete_text c id code text)
    with ("rancher api DELET" +:+ String "E" ((String " " (rh_baseURL c)) +:+ String "/" ("v3" +:+ String "/" ("clusters" +:+
            String "/" (id +:+ String ":" ((" status " +:+ Itoa code) +:+ String ":" (String " " text)))))))
    by (unfold delete_text, cluster_path; rewrite <- !string_app_assoc; reflexivity).
  rewrite !says_split, says_code by done. simpl. by rewrite orb_assoc.
Qed.

(** A request that was answered with a status and a readable body. *)
Lemma rancher_answered {A} c method path payload (f : result body -> hprog A) rq code b tr r :
  exec (bind (rancher_doRequest c method path payload) f) (Ev (Send rq : HttpΣ) (Response code b) :: tr) r ->
  exec (f (if code =? 404 then Err (wrapf "" RancherErrNotFound (": " +:+ method +:+ " " +:+ path))
           else if 400 <=? code
           then Err (Errorf ("rancher api " +:+ method +:+ " " +:+ path +:+ ": status " +:+ Itoa code +:+ ": " +:+ b_text b))
           else Ok b)) tr r.
Proof.
  unfold rancher_doRequest. cbn [bind send call]. intros He. apply exec_answered in He.
  destruct (code =? 404); [done|]. by destruct (400 <=? code).
Qed.

(** C28: for an answer with a three-digit status and a readable body, GetCluster returns
    nil exactly below 400 and the sentinel ErrNotFound exactly for a 404; DeleteCluster
    returns nil exactly below 400, for a 404, and when the base URL, the cluster ID or
    the body of another error contains the text of the sentinel. *)
Theorem rancher_not_found_recognised c id code b :
  code <= 999 ->
  (forall rq tr r, exec (rancher_GetCluster c id) (Ev (Send rq : HttpΣ) (Response code b) :: tr) r ->
     (r = None <-> code < 400) /\ ((exists e, r = Some e /\ Is e KRancherNotFound = true) <-> code = 404))
  /\ (forall rq tr r, exec (rancher_DeleteCluster c id) (Ev (Send rq : HttpΣ) (Response code b) :: tr) r ->
     r = None <-> code < 400 \/ code = 404
                  \/ says_not_found (rh_baseURL c) || says_not_found id || says_not_found (b_text b) = true).
Proof.
  intros Hc. split; intros *; intros He; apply rancher_answered in He;
    destruct (Z.eqb_spec code 404) as [->|Hne].
  - apply exec_inv in He as [-> ->]. repeat split; naive_solver lia.
  - destruct (Z.leb_spec 400 code); apply exec_inv in He as [-> ->]; repeat split; naive_solver lia.
  - cbn beta iota in He. replace (isNotFound _) with true in He
      by (symmetry; exact (Contains_here "rancher resource not found" _)).
    apply exec_inv in He as [-> ->]. naive_solver.
  - destruct (Z.leb_spec 400 code); cbn beta iota in He; [|apply exec_inv in He as [-> ->]; naive_solver lia].
    change (isNotFound _) with (says_not_found (delete_text c id code (b_text b))) in He.
    rewrite says_delete_text in He by lia.
    destruct (_ || _); apply exec_inv in He as [-> ->]; naive_solver lia.
Qed.

(** A cluster that is already gone. *)
Definition gone_server (o : HttpΣ) (u : unit) : ans o * unit :=
  match o return http_ans o * unit with
  | Send _ => (Response 404 (mkBody "{}" (Ok (JObj []))), u)
  | RangeOver k => (exist _ (elements k) (Permutation_refl _), u)
  end.

Definition demo_client : RancherHTTPClient := mkRancherHTTP "https://rancher.example.com" "token-1" "pem".

Lemma rancher_not_found_recognised_witness :
  (run gone_server (rancher_DeleteCluster demo_client "c-1") tt).1.1 = None
  /\ exists e, (run gone_server (rancher_GetCluster demo_client "c-1") tt).1.1 = Some e /\ Is e KRancherNotFound = true.
Proof.
  destruct (rancher_not_found_recognised demo_client "c-1" 404 (mkBody "{}" (Ok (JObj []))) ltac:(lia)) as [Hg Hd].
  split.
  - apply (proj2 (Hd (mkReq "DELETE" (cluster_path demo_client "c-1") (auth_headers "token-1") None) [] _
      (run_exec gone_server (rancher_DeleteCluster demo_client "c-1") tt))). right. left. reflexivity.
  - apply (proj2 (proj2 (Hg (mkReq "GET" (cluster_path demo_client "c-1") (auth_headers "token-1") None) [] _
      (run_exec gone_server (rancher_GetCluster demo_client "c-1") tt)))). reflexivity.
Defined.
