(* ===== verification/GeaClient.v ===== *)
(** * GeaClient: ReportState over HTTP (internal/gea/client.go)

    The payload is marshalled first, so a value that JSON cannot carry stops the report
    before any request; the body of an answer is read only for the error text. *)

From Stdlib Require Import ZArith Lia Ascii String SpecFloat.
From stdpp Require Import base list strings gmap sorting.
From S2P Require Import Prelude Effects GoLib K8s ApiTypes HealthScore Clients Http.

Local Open Scope Z_scope.
Local Open Scope prog_scope.

(** ** Marshalling *)

(** encoding/json refuses the floats that are not numbers. *)
Definition marshal_value (v : attr_value) : result json :=
  match v with
  | VInt z => Ok (JNum z)
  | VBool b => Ok (JBool b)
  | VString s => Ok (JStr s)
  | VFloat S754_nan => Err (Errorf "json: unsupported value: NaN")
  | VFloat (S754_infinity true) => Err (Errorf "json: unsupported value: -Inf")
  | VFloat (S754_infinity false) => Err (Errorf "json: unsupported value: +Inf")
  | VFloat f => Ok (JFloat f)
  end.

(** The members of an object in order, up to the first value that fails. *)
Fixpoint marshal_members (l : list (string * attr_value)) : result (list (string * json)) :=
  match l with
  | [] => Ok []
  | (k, v) :: l' =>
      match marshal_value v with
      | Err e => Err e
      | Ok j => match marshal_members l' with Err e => Err e | Ok js => Ok ((k, j) :: js) end
      end
  end.

(** A map is written in the order of its keys. *)
Definition key_le (a b : string * attr_value) : Prop := String.leb (fst a) (fst b) = true.

#[export] Instance key_le_dec : RelDecision key_le.
Proof. intros a b. unfold key_le. apply _. Defined.

Definition marshal_map (m : gmap string attr_value) : result (list (string * json)) :=
  marshal_members (merge_sort key_le (map_to_list m)).

Section Client.
(** [MarshalTime] is time.Time.MarshalJSON. *)
Context (MarshalTime : Z -> result json) (c : GEAHTTPClient).

(** json.Marshal of geaStateBody: "time" is left out for a nil pointer. *)
Definition marshal_state (p : StatePayload) : result json :=
  let finish time :=
    match marshal_map (sp_Attributes p) with
    | Err e => Err e
    | Ok data => Ok (JObj ((("deviceId", JStr (sp_DeviceID p)) :: time) ++ [("data", JObj data)]))
    end in
  match sp_Timestamp p with
  | None => finish []
  | Some t => match MarshalTime t with Err e => Err e | Ok j => finish [("time", j)] end
  end.

Definition post_error (code : Z) (text : string) : error :=
  Errorf ("gea post " +:+ gh_endpoint c +:+ ": status " +:+ Itoa code +:+ ": " +:+ text).

Definition gea_ReportState (p : StatePayload) : hprog (option error) :=
  match marshal_state p with
  | Err e => Ret (Some (wrapf "marshal state payload: " e ""))
  | Ok j =>
      let* resp := send (mkReq "POST" (gh_endpoint c) [("Content-Type", "application/json")] (Some j)) in
      match resp with
      | BuildError e => Ret (Some (wrapf "build gea request: " e ""))
      | SendError e => Ret (Some (wrapf ("gea post " +:+ gh_endpoint c +:+ ": ") e ""))
      | Truncated code partial _ => if 400 <=? code then Ret (Some (post_error code partial)) else Ret None
      | Response code b => if 400 <=? code then Ret (Some (post_error code (b_text b))) else Ret None
      end
  end.

End Client.

(** ** What is sent *)

Definition encodable (v : attr_value) : bool :=
  match v with
  | VFloat S754_nan | VFloat (S754_infinity _) => false
  | _ => true
  end.

Lemma marshal_value_ok v : encodable v = true <-> exists j, marshal_value v = Ok j.
Proof. destruct v as [z|b|s|[| | |]]; simpl; try naive_solver. destruct s; naive_solver. Qed.

Lemma marshal_members_ok l :
  Forall (fun kv => encodable kv.2 = true) l <-> exists js, marshal_members l = Ok js.
Proof.
  induction l as [|[k v] l IH]; [split; [by exists []|constructor]|]. rewrite Forall_cons, marshal_value_ok, IH. simpl.
  destruct (marshal_value v) as [j|e]; [|naive_solver]. destruct (marshal_members l); naive_solver.
Qed.

Lemma marshal_members_in l js k j :
  marshal_members l = Ok js -> (k, j) ∈ js <-> exists v, (k, v) ∈ l /\ marshal_value v = Ok j.
Proof.
  revert js. induction l as [|[k' v'] l IH]; intros js H; simpl in H.
  - injection H as <-. split; [intros Hn; by apply not_elem_of_nil in Hn|intros (v & Hn & _); by apply not_elem_of_nil in Hn].
  - destruct (marshal_value v') as [j'|] eqn:Ev; [|discriminate]. destruct (marshal_members l) as [js'|]; [|discriminate].
    injection H as <-. rewrite elem_of_cons, (IH js' eq_refl). split.
    + intros [[= -> ->]|(v & Hin & Hv)]; [exists v'|exists v]; rewrite elem_of_cons; auto.
    + intros (v & Hin & Hv). rewrite elem_of_cons in Hin. destruct Hin as [[= -> ->]|Hin]; [left; congruence|right; eauto].
Qed.

(** The members of the data object are the attributes, whatever the order of writing. *)
Lemma marshal_map_in m js k j :
  marshal_map m = Ok js -> (k, j) ∈ js <-> exists v, m !! k = Some v /\ marshal_value v = Ok j.
Proof.
  intros H. rewrite (marshal_members_in _ _ _ _ H).
  assert (forall v, (k, v) ∈ merge_sort key_le (map_to_list m) <-> m !! k = Some v) as Hin; [|by setoid_rewrite Hin].
  intros v. rewrite <- elem_of_map_to_list. by rewrite merge_sort_Permutation.
Qed.

Lemma marshal_map_ok m :
  map_Forall (fun _ v => encodable v = true) m <-> exists js, marshal_map m = Ok js.
Proof.
  unfold marshal_map. rewrite <- marshal_members_ok, merge_sort_Permutation, map_Forall_to_list.
  apply Forall_iff. by intros [].
Qed.

Lemma not_encodable_fails m :
  ~ map_Forall (fun _ v => encodable v = true) m -> exists e, marshal_map m = Err e.
Proof. rewrite marshal_map_ok. destruct (marshal_map m); naive_solver. Qed.

(** C29: a report without timestamp whose attributes JSON can carry is one POST to the
    agent's endpoint with the device identifier and exactly the attributes, and succeeds
    exactly when the answer has a status below 400, read in full or not; with an
    attribute that JSON cannot carry nothing is sent and an error is returned. *)
Theorem report_delivery MarshalTime c p tr r :
  sp_Timestamp p = None -> exec (gea_ReportState MarshalTime c p) tr r ->
  (map_Forall (fun _ v => encodable v = true) (sp_Attributes p) ->
     exists a data,
       tr = [Ev (Send (mkReq "POST" (gh_endpoint c) [("Content-Type", "application/json")]
                         (Some (JObj [("deviceId", JStr (sp_DeviceID p)); ("data", JObj data)]))) : HttpΣ) a]
       /\ (forall k j, (k, j) ∈ data <-> exists v, sp_Attributes p !! k = Some v /\ marshal_value v = Ok j)
       /\ (r = None <-> exists code, StatusCode a = Some code /\ code < 400))
  /\ (~ map_Forall (fun _ v => encodable v = true) (sp_Attributes p) -> tr = [] /\ r <> None).
Proof.
  unfold gea_ReportState, marshal_state. intros ->. split.
  - intros Hall. apply marshal_map_ok in Hall as [data Hdata]. rewrite Hdata in H.
    cbn [bind send call] in H. apply exec_inv in H as (a & tr' & -> & H).
    assert (tr' = [] /\ (r = None <-> exists code, StatusCode a = Some code /\ code < 400)) as [-> Hr].
    { destruct a as [e|e|code t e|code b]; cbn beta iota in H; try destruct (Z.leb_spec 400 code);
        apply exec_inv in H as [-> ->]; (split; [done|]); naive_solver lia. }
    exists a, data. split; [done|]. split; [|done]. intros k j. by apply marshal_map_in.
  - intros Hno. destruct (not_encodable_fails _ Hno) as [e He]. rewrite He in H.
    apply exec_inv in H as [-> ->]. done.
Qed.

(** A report accepted with 200. *)
Definition agent (o : HttpΣ) (u : unit) : ans o * unit :=
  match o return http_ans o * unit with
  | Send _ => (Response 200 (mkBody "" (Err (Errorf "unexpected end of JSON input"))), u)
  | RangeOver k => (exist _ (elements k) (Permutation_refl _), u)
  end.

Definition demo_report : StatePayload :=
  mkPayload "dev-1" (<["ready" := VBool true]> (<["pod_count" := VInt 3]> ∅)) None.

Definition demo_run := run agent (gea_ReportState (fun z => Ok (JNum z)) (mkGEAHTTP "http://gea:8080/state") demo_report) tt.

Lemma report_delivery_witness : demo_run.1.1 = None /\ length demo_run.1.2 = 1%nat.
Proof.
  destruct (report_delivery (fun z => Ok (JNum z)) (mkGEAHTTP "http://gea:8080/state") demo_report demo_run.1.2 demo_run.1.1
              eq_refl (run_exec agent _ tt)) as [H _].
  destruct H as (a & data & Htr & _ & Hr).
  - intros k v Hk. unfold demo_report in Hk. cbn [sp_Attributes] in Hk.
    apply lookup_insert_Some in Hk as [[_ <-]|[_ Hk]]; [reflexivity|].
    apply lookup_insert_Some in Hk as [[_ <-]|[_ Hk]]; [reflexivity|]. by rewrite lookup_empty in Hk.
  - split; [|by rewrite Htr]. apply (proj2 Hr). exists 200. split; [|lia].
    pose proof (f_equal (fun l => head l ≫= answer_of) Htr) as Ha. vm_compute in Ha. injection Ha as <-. reflexivity.
Defined.
