(* ===== verification/Interp.v ===== *)
(** * Interp: programs of one signature run by programs of another

    A handler gives for every call of a signature a program over a second signature;
    [interp] replaces the calls of a program by their handlers.  [exec_interp] relates
    the executions: those of the interpreted program are the executions of the program
    in which every event is carried out by an execution of its handler, so a theorem
    about all executions of a program holds for every implementation of its calls. *)

From stdpp Require Import base list sets.
From S2P Require Import Prelude Effects.

Section Interp.
Context {Σ Σ' : sig} (h : forall c : Σ, prog Σ' (ans c)).

Fixpoint interp {A} (p : prog Σ A) : prog Σ' A :=
  match p with
  | Ret a => Ret a
  | Call c k => bind (h c) (fun r => interp (k r))
  end.

(** Each event of the first trace is carried out by a part of the second. *)
Inductive implements : list (event Σ) -> list (event Σ') -> Prop :=
| implements_nil : implements [] []
| implements_cons e t tr tr' :
    exec (h (ev_op e)) t (ev_ans e) -> implements tr tr' -> implements (e :: tr) (t ++ tr').

Lemma exec_interp {A} (p : prog Σ A) tr' a :
  exec (interp p) tr' a <-> exists tr, exec p tr a /\ implements tr tr'.
Proof.
  split.
  - revert tr'. induction p as [b|c k IH]; intros tr' He; simpl in He.
    + apply exec_inv in He as [-> ->]. exists []. split; constructor.
    + apply exec_bind in He as (t & tr1 & r & -> & Hr & He). apply IH in He as (tr & He & Him).
      exists (Ev c r :: tr). split; [by constructor|]. by apply (implements_cons (Ev c r)).
  - intros (tr & He & Him). revert tr' Him. induction He as [b|c k r tr b He IH]; intros tr' Him.
    + inversion Him; subst. constructor.
    + inversion Him as [|e t tr0 tr1 Hh Him' Heq]; subst. simpl in Hh |- *. apply exec_bind.
      exists t, tr1, r. split; [done|]. split; [done|]. by apply IH.
Qed.

Lemma implements_app_inv tr1 tr2 tr' :
  implements (tr1 ++ tr2) tr' -> exists t1 t2, tr' = t1 ++ t2 /\ implements tr1 t1 /\ implements tr2 t2.
Proof.
  revert tr'. induction tr1 as [|e tr1 IH]; intros tr' H; [exists [], tr'; by repeat constructor|].
  inversion H as [|e' t tr tr'' Hh Hi Heq]; subst. apply IH in Hi as (t1 & t2 & -> & H1 & H2).
  exists (t ++ t1), t2. split; [by rewrite app_assoc|]. split; [by constructor|done].
Qed.

(** The part that carries out an event. *)
Lemma implements_elem e tr tr' :
  implements tr tr' -> e ∈ tr -> exists t, t ⊆ tr' /\ exec (h (ev_op e)) t (ev_ans e).
Proof.
  induction 1 as [|e' t tr tr' Hh Hi IH]; intros Hin; [by apply not_elem_of_nil in Hin|].
  apply elem_of_cons in Hin as [->|Hin]; [exists t; split; [set_solver|done]|].
  destruct (IH Hin) as (t' & Ht & He). exists t'. split; [set_solver|done].
Qed.

(** The event that an implementing event belongs to. *)
Lemma implements_source x tr tr' :
  implements tr tr' -> x ∈ tr' -> exists e t, e ∈ tr /\ exec (h (ev_op e)) t (ev_ans e) /\ x ∈ t.
Proof.
  induction 1 as [|e' t tr tr' Hh Hi IH]; intros Hin; [by apply not_elem_of_nil in Hin|].
  apply elem_of_app in Hin as [Hin|Hin]; [exists e', t; split; [left|done]|].
  destruct (IH Hin) as (e & t' & He & ? & ?). exists e, t'. split; [by right|done].
Qed.

End Interp.

(** Interpretation by single calls renames the events of an execution. *)
Lemma implements_single {Σ Σ' : sig} (h : forall c : Σ, prog Σ' (ans c)) (f : event Σ -> event Σ') tr tr' :
  (forall e t, exec (h (ev_op e)) t (ev_ans e) -> t = [f e]) -> implements h tr tr' -> tr' = map f tr.
Proof. intros Hf. induction 1 as [|e t tr tr' Hh Hi IH]; [done|]. simpl. by rewrite (Hf _ _ Hh), IH. Qed.
