(* ===== verification/HealthStore.v ===== *)
(** * HealthStore: internal/monitor/store.go

    The snapshot shared by the health watcher (writer) and the LosantSync reconciler
    (reader), as a machine of interleaved threads.  Go maps are references, so the
    maps live in a heap: Update stores the reference it is given, Snapshot copies the
    map entry by entry into a new one.  Each source statement of the two methods is
    one step; the RWMutex admits any number of readers or one writer.

    The caller of Update builds its map before the call and does not touch it
    afterwards, as HealthWatcher_Reconcile does; the caller of Snapshot may do what it
    likes with the map it gets. *)

From Stdlib Require Import ZArith Lia.
From stdpp Require Import base list strings gmap sets functions.
From S2P Require Import Prelude Effects GoLib K8s HealthScore.

Abbreviation loc := nat.
Abbreviation tid := nat.
Abbreviation node_map := (gmap string NodeHealth).
Definition snapshot : Type := ClusterHealth * node_map.

(** Where a thread is.  An Update carries its arguments: the cluster, the reference
    and the contents the map had at the call. *)
Inductive pc :=
| Idle
| UpdLock (c : ClusterHealth) (m : loc) (M : node_map)
| UpdCluster (c : ClusterHealth) (m : loc) (M : node_map)
| UpdNodes (c : ClusterHealth) (m : loc) (M : node_map)
| UpdUnlock (c : ClusterHealth) (m : loc) (M : node_map)
| SnapLock
| SnapMake
| SnapLoop (dst : loc) (todo : list string)
| SnapReturn (dst : loc)
| SnapUnlock (c : ClusterHealth) (dst : loc)
| Returned (c : ClusterHealth) (dst : loc).

(** The memory: the heap, the mutex, the two fields of the store, and the arguments
    of the last completed Update, which only the specification reads. *)
Record memory := mkMemory {
  heap : gmap loc node_map;
  writer : option tid;
  readers : gset tid;
  s_cluster : ClusterHealth;
  s_nodes : loc;
  published : snapshot;
}.

Definition set_heap (s : memory) (h : gmap loc node_map) : memory :=
  mkMemory h (writer s) (readers s) (s_cluster s) (s_nodes s) (published s).
Definition set_writer (s : memory) (w : option tid) : memory :=
  mkMemory (heap s) w (readers s) (s_cluster s) (s_nodes s) (published s).
Definition set_readers (s : memory) (r : gset tid) : memory :=
  mkMemory (heap s) (writer s) r (s_cluster s) (s_nodes s) (published s).
Definition set_cluster (s : memory) (c : ClusterHealth) : memory :=
  mkMemory (heap s) (writer s) (readers s) c (s_nodes s) (published s).
Definition set_nodes (s : memory) (m : loc) : memory :=
  mkMemory (heap s) (writer s) (readers s) (s_cluster s) m (published s).
Definition publish (s : memory) (p : snapshot) : memory :=
  mkMemory (heap s) (writer s) (readers s) (s_cluster s) (s_nodes s) p.

(** ** Steps of one thread *)

Inductive Update_step (t : tid) : pc -> memory -> pc -> memory -> Prop :=
| upd_call s c m M : heap s !! m = None ->
    Update_step t Idle s (UpdLock c m M) (set_heap s (<[m := M]> (heap s)))
| upd_lock s c m M : writer s = None -> readers s = ∅ ->
    Update_step t (UpdLock c m M) s (UpdCluster c m M) (set_writer s (Some t))
| upd_cluster s c m M :
    Update_step t (UpdCluster c m M) s (UpdNodes c m M) (set_cluster s c)
| upd_nodes s c m M :
    Update_step t (UpdNodes c m M) s (UpdUnlock c m M) (set_nodes s m)
| upd_unlock s c m M :
    Update_step t (UpdUnlock c m M) s Idle (publish (set_writer s None) (c, M)).

Inductive Snapshot_step (t : tid) : pc -> memory -> pc -> memory -> Prop :=
| snap_call s : Snapshot_step t Idle s SnapLock s
| snap_lock s : writer s = None ->
    Snapshot_step t SnapLock s SnapMake (set_readers s ({[t]} ∪ readers s))
| snap_make s d M todo : heap s !! d = None -> heap s !! s_nodes s = Some M -> todo ≡ₚ elements (dom M) ->
    Snapshot_step t SnapMake s (SnapLoop d todo) (set_heap s (<[d := ∅]> (heap s)))
| snap_copy s d M D k v todo :
    heap s !! s_nodes s = Some M -> M !! k = Some v -> heap s !! d = Some D ->
    Snapshot_step t (SnapLoop d (k :: todo)) s (SnapLoop d todo) (set_heap s (<[d := <[k := v]> D]> (heap s)))
| snap_done s d : Snapshot_step t (SnapLoop d []) s (SnapReturn d) s
| snap_return s d : Snapshot_step t (SnapReturn d) s (SnapUnlock (s_cluster s) d) s
| snap_unlock s c d :
    Snapshot_step t (SnapUnlock c d) s (Returned c d) (set_readers s (readers s ∖ {[t]})).

(** The caller of Snapshot changes its map, or is done with it. *)
Inductive client_step (t : tid) : pc -> memory -> pc -> memory -> Prop :=
| client_write s c d D : client_step t (Returned c d) s (Returned c d) (set_heap s (<[d := D]> (heap s)))
| client_drop s c d : client_step t (Returned c d) s Idle s.

(** ** The machine *)

Record state := mkState { mem : memory; threads : tid -> pc }.

Inductive step : state -> state -> Prop :=
| step_thread t s p' s' f :
    Update_step t (f t) s p' s' \/ Snapshot_step t (f t) s p' s' \/ client_step t (f t) s p' s' ->
    step (mkState s f) (mkState s' (<[t := p']> f)).

(** NewHealthStore: the zero cluster and an empty map, no thread in a method. *)
Definition NewHealthStore : state :=
  mkState (mkMemory {[0%nat := ∅]} None ∅ zero_ClusterHealth 0%nat (zero_ClusterHealth, ∅)) (fun _ => Idle).

Definition reachable (s : state) : Prop := rtc step NewHealthStore s.

(** ** Invariant *)

Definition writing (p : pc) : bool :=
  match p with UpdCluster _ _ _ | UpdNodes _ _ _ | UpdUnlock _ _ _ => true | _ => false end.
Definition reading (p : pc) : bool :=
  match p with SnapMake | SnapLoop _ _ | SnapReturn _ | SnapUnlock _ _ => true | _ => false end.

(** The map a thread writes to, and the map it has handed or will hand to the store. *)
Definition private (p : pc) : option loc :=
  match p with SnapLoop d _ | SnapReturn d | SnapUnlock _ d | Returned _ d => Some d | _ => None end.
Definition handed (p : pc) : option (loc * node_map) :=
  match p with
  | UpdLock _ m M | UpdCluster _ m M | UpdNodes _ m M | UpdUnlock _ m M => Some (m, M)
  | _ => None
  end.

(** The store's fields as the lock holder has left them. *)
Definition fields_ok (s : memory) (p : pc) : Prop :=
  match p with
  | UpdNodes c _ _ => s_cluster s = c /\ heap s !! s_nodes s = Some (published s).2
  | UpdUnlock c m _ => s_cluster s = c /\ s_nodes s = m
  | _ => s_cluster s = (published s).1 /\ heap s !! s_nodes s = Some (published s).2
  end.

(** How far a copy has come. *)
Definition copy_ok (s : memory) (p : pc) : Prop :=
  match p with
  | SnapLoop d todo => NoDup todo /\ exists D, heap s !! d = Some D
      /\ forall k, D !! k = if decide (k ∈ todo) then None else (published s).2 !! k
  | SnapReturn d => heap s !! d = Some (published s).2
  | SnapUnlock c d => heap s !! d = Some (published s).2 /\ c = (published s).1
  | _ => True
  end.

(** Who may write to a map: one thread, or nobody once it belongs to the store. *)
Abbreviation owners := (gmap loc (option tid)).

(** What holds of a thread, whatever the others do. *)
Record thread_ok (own : owners) (s : memory) (t : tid) (p : pc) : Prop := {
  o_writer : writer s = Some t <-> writing p = true;
  o_readers : t ∈ readers s <-> reading p = true;
  o_handed m M : handed p = Some (m, M) -> own !! m = Some None /\ heap s !! m = Some M;
  o_private d : private p = Some d -> own !! d = Some (Some t);
  o_copy : copy_ok s p;
}.

Record inv (own : owners) (st : state) : Prop := {
  i_thread t : thread_ok own (mem st) t (threads st t);
  i_nodes : own !! s_nodes (mem st) = Some None;
  i_exclusive t : writer (mem st) = Some t -> readers (mem st) = ∅;
  i_dom l : heap (mem st) !! l = None -> own !! l = None;
  i_fields : fields_ok (mem st) (default Idle (threads st <$> writer (mem st)));
}.

Lemma inv_init : inv {[0%nat := None]} NewHealthStore.
Proof.
  split; simpl; [|done|done| |done].
  - intros t. split; simpl; try done; set_solver.
  - intros l Hl. apply lookup_singleton_None in Hl. by apply lookup_singleton_None.
Qed.

(** What a step of thread [t] may change for the others. *)
Record others_kept (t : tid) (own own' : owners) (s s' : memory) : Prop := {
  k_own l o : own !! l = Some o -> own' !! l = Some o;
  k_heap l o : own !! l = Some o -> o <> Some t -> heap s' !! l = heap s !! l;
  k_published : published s' = published s \/ readers s = ∅;
  k_writer t' : t' <> t -> writer s' = Some t' <-> writer s = Some t';
  k_readers t' : t' <> t -> t' ∈ readers s' <-> t' ∈ readers s;
}.

Lemma thread_frame t t' own own' s s' p :
  others_kept t own own' s s' -> t' <> t -> thread_ok own s t' p -> thread_ok own' s' t' p.
Proof.
  intros [Ko Kh Kp Kw Kr] Hne [Tw Tr Th Tp Tc]. split.
  - by rewrite Kw.
  - by rewrite Kr.
  - intros m M Hm. destruct (Th _ _ Hm) as [H1 H2]. split; [by eapply Ko|]. by rewrite (Kh _ _ H1).
  - intros d Hd. by eapply Ko, Tp.
  - assert (reading p = true -> published s' = published s) as Hpub.
    { intros Hrd. destruct Kp as [?|He]; [done|]. apply Tr in Hrd. set_solver. }
    assert (forall d, private p = Some d -> heap s' !! d = heap s !! d) as Hheap.
    { intros d Hd. apply (Kh _ _ (Tp _ Hd)). congruence. }
    destruct p; simpl in *; try done; rewrite Hpub, Hheap by done; done.
Qed.

(** A step of [t] preserves the invariant when it does so for its own thread and for
    the store's fields. *)
Lemma inv_move t own own' s s' f p' :
  inv own (mkState s f) -> others_kept t own own' s s' -> thread_ok own' s' t p' ->
  own' !! s_nodes s' = Some None -> (forall t, writer s' = Some t -> readers s' = ∅) ->
  (forall l, heap s' !! l = None -> own' !! l = None) ->
  fields_ok s' (default Idle (<[t := p']> f <$> writer s')) -> inv own' (mkState s' (<[t := p']> f)).
Proof.
  intros [It _ _ _ _] Ho Ht Hn He Hd Hf. split; simpl; try done. intros t'.
  destruct (decide (t = t')) as [<-|Hne]; [by rewrite fn_lookup_insert|].
  rewrite fn_lookup_insert_ne by done. eapply thread_frame; [done|done|]. apply It.
Qed.

Lemma fields_writer own s f t :
  inv own (mkState s f) -> writing (f t) = true -> writer s = Some t /\ fields_ok s (f t).
Proof.
  intros [It _ _ _ If] Hw. simpl in *. apply (o_writer _ _ _ _ (It t)) in Hw. by rewrite Hw in If.
Qed.

(** When nobody writes, or the writer has not begun, the fields are the published ones. *)
Lemma fields_idle own s f :
  inv own (mkState s f) -> writer s = None -> s_cluster s = (published s).1 /\ heap s !! s_nodes s = Some (published s).2.
Proof. intros [_ _ _ _ If] Hw. simpl in *. by rewrite Hw in If. Qed.

(** Allocation, and a write to one's own map, are invisible to the others. *)
Lemma others_alloc t own s l o M :
  own !! l = None -> others_kept t own (<[l := o]> own) s (set_heap s (<[l := M]> (heap s))).
Proof.
  intros Hl. split; simpl; [| |by left|done|done].
  - intros l' o' Hl'. by rewrite lookup_insert_ne by congruence.
  - intros l' o' Hl' _. by rewrite lookup_insert_ne by congruence.
Qed.

Lemma others_write t own s d D :
  own !! d = Some (Some t) -> others_kept t own own s (set_heap s (<[d := D]> (heap s))).
Proof.
  intros Hd. split; simpl; [done| |by left|done|done].
  intros l o Hl Ho. apply lookup_insert_ne. congruence.
Qed.

(** A step that changes neither the heap nor what is published. *)
Lemma others_flags t own s s' :
  heap s' = heap s -> published s' = published s \/ readers s = ∅ ->
  (forall t', t' <> t -> writer s' = Some t' <-> writer s = Some t') ->
  (forall t', t' <> t -> t' ∈ readers s' <-> t' ∈ readers s) -> others_kept t own own s s'.
Proof. intros Hh Hp Hw Hr. split; try done. intros. by rewrite Hh. Qed.

(** Where the store's fields are looked at after a step of [t]. *)
Lemma fields_kept own s s' f t p' :
  inv own (mkState s f) -> writer s' = writer s -> s_cluster s' = s_cluster s -> s_nodes s' = s_nodes s ->
  published s' = published s -> heap s' !! s_nodes s = heap s !! s_nodes s ->
  writing (f t) = false ->
  fields_ok s' (default Idle (<[t := p']> f <$> writer s')).
Proof.
  intros Hinv Hw Hc Hn Hp Hh Hnw. pose proof (i_fields _ _ Hinv) as Hf. simpl in Hf. rewrite Hw.
  assert (forall q, fields_ok s q -> fields_ok s' q) as Himp.
  { intros q Hq. destruct q; simpl in *; rewrite ?Hc, ?Hn, ?Hp, ?Hh; done. }
  destruct (writer s) as [tw|] eqn:Ew; simpl in *; [|by apply (Himp Idle)].
  assert (t <> tw) as Hne.
  { intros <-. apply (o_writer _ _ _ _ (i_thread _ _ Hinv t)) in Ew. simpl in Ew. congruence. }
  rewrite fn_lookup_insert_ne by done. by apply Himp.
Qed.

(** A map of the heap has an owner. *)
Lemma nodes_alloc own s f l : inv own (mkState s f) -> heap s !! l = None -> s_nodes s <> l.
Proof. intros Hinv Hl <-. pose proof (i_dom _ _ Hinv _ Hl) as Hd. pose proof (i_nodes _ _ Hinv). simpl in *. congruence. Qed.

Lemma dom_insert_kept (own : owners) (s : memory) l o M :
  (forall l', heap s !! l' = None -> own !! l' = None) ->
  forall l', <[l := M]> (heap s) !! l' = None -> <[l := o]> own !! l' = None.
Proof. intros H l' [Hl Hne]%lookup_insert_None. by rewrite lookup_insert_ne, H. Qed.

Lemma inv_update_call t s c m M f own :
  heap s !! m = None -> f t = Idle -> inv own (mkState s f) ->
  inv (<[m := None]> own) (mkState (set_heap s (<[m := M]> (heap s))) (<[t := UpdLock c m M]> f)).
Proof.
  intros Hm Hft Hinv. pose proof (i_thread _ _ Hinv t) as [Tw Tr Th Tp Tc]. simpl in *. rewrite Hft in *.
  pose proof (i_dom _ _ Hinv m Hm) as Hom. pose proof (nodes_alloc _ _ _ _ Hinv Hm) as Hne. simpl in *.
  apply (inv_move _ _ _ _ _ _ _ Hinv).
  - by apply others_alloc.
  - split; simpl; try done. intros m0 M0 [= <- <-]. by rewrite !lookup_insert_eq.
  - simpl. rewrite lookup_insert_ne by done. apply (i_nodes _ _ Hinv).
  - exact (i_exclusive _ _ Hinv).
  - apply dom_insert_kept, (i_dom _ _ Hinv).
  - eapply fields_kept; try done; [simpl; by rewrite lookup_insert_ne|by rewrite Hft].
Qed.

Lemma inv_update t p s p' s' f own :
  Update_step t p s p' s' -> f t = p -> inv own (mkState s f) -> exists own', inv own' (mkState s' (<[t := p']> f)).
Proof.
  intros Hst Hft Hinv. pose proof Hinv as [It In Ie Id If]. pose proof (It t) as [Tw Tr Th Tp Tc]. simpl in *.
  destruct Hst as [s c m M Hm|s c m M Hw Hr|s c m M|s c m M|s c m M]; rewrite Hft in *; simpl in *.
  - eexists. by apply inv_update_call.
  - exists own. apply (inv_move _ _ _ _ _ _ _ Hinv); simpl.
    + apply others_flags; simpl; try done; [by left|]. intros t' Hne. rewrite Hw. naive_solver.
    + by split.
    + done.
    + by intros.
    + done.
    + rewrite fn_lookup_insert. rewrite Hw in If. exact If.
  - assert (writer s = Some t) as Hwt by by apply Tw. rewrite Hwt in If. simpl in If. rewrite Hft in If.
    exists own. apply (inv_move _ _ _ _ _ _ _ Hinv); simpl; [|by split|done|done|done|].
    + apply others_flags; simpl; try done. by left.
    + rewrite Hwt. simpl. rewrite fn_lookup_insert. split; [done|apply If].
  - assert (writer s = Some t) as Hwt by by apply Tw. rewrite Hwt in If. simpl in If. rewrite Hft in If.
    destruct (Th m M eq_refl) as [Hom Hhm].
    exists own. apply (inv_move _ _ _ _ _ _ _ Hinv); simpl; [|by split|done|done|done|].
    + apply others_flags; simpl; try done. by left.
    + rewrite Hwt. simpl. rewrite fn_lookup_insert. split; [apply If|done].
  - assert (writer s = Some t) as Hwt by by apply Tw. rewrite Hwt in If. simpl in If. rewrite Hft in If.
    destruct If as [Hc Hnm]. destruct (Th m M eq_refl) as [Hom Hhm]. pose proof (Ie _ Hwt) as Hre.
    exists own. apply (inv_move _ _ _ _ _ _ _ Hinv); simpl; [| |done|done|done|by rewrite Hnm].
    + apply others_flags; simpl; try done; [by right|]. intros t' Hne. rewrite Hwt. naive_solver.
    + split; simpl; try done.
Qed.

Lemma inv_snap_make t s d M todo f own :
  heap s !! d = None -> heap s !! s_nodes s = Some M -> todo ≡ₚ elements (dom M) ->
  f t = SnapMake -> inv own (mkState s f) ->
  inv (<[d := Some t]> own) (mkState (set_heap s (<[d := ∅]> (heap s))) (<[t := SnapLoop d todo]> f)).
Proof.
  intros Hd HM Hperm Hft Hinv. pose proof (i_thread _ _ Hinv t) as [Tw Tr Th Tp Tc]. simpl in *. rewrite Hft in *.
  pose proof (i_dom _ _ Hinv d Hd) as Hod. pose proof (nodes_alloc _ _ _ _ Hinv Hd) as Hne.
  assert (writer s = None) as Hw.
  { destruct (writer s) as [tw|] eqn:Ew; [|done]. pose proof (i_exclusive _ _ Hinv tw Ew) as He. simpl in *.
    assert (t ∈ readers s) by by apply Tr. set_solver. }
  destruct (fields_idle _ _ _ Hinv Hw) as [_ Hpub]. rewrite HM in Hpub. injection Hpub as Hpub. simpl in *.
  apply (inv_move _ _ _ _ _ _ _ Hinv).
  - by apply others_alloc.
  - split; simpl; try done.
    + intros d0 [= <-]. by rewrite lookup_insert_eq.
    + split; [rewrite Hperm; apply NoDup_elements|]. exists ∅. rewrite lookup_insert_eq. split; [done|].
      intros k. rewrite lookup_empty. destruct (decide (k ∈ todo)) as [|Hk]; [done|].
      symmetry. rewrite <- Hpub. apply not_elem_of_dom. by rewrite Hperm, elem_of_elements in Hk.
  - simpl. rewrite lookup_insert_ne by done. apply (i_nodes _ _ Hinv).
  - exact (i_exclusive _ _ Hinv).
  - apply dom_insert_kept, (i_dom _ _ Hinv).
  - eapply fields_kept; try done; [simpl; by rewrite lookup_insert_ne|by rewrite Hft].
Qed.

(** A reader sees the published fields. *)
Lemma reader_fields own s f t :
  inv own (mkState s f) -> reading (f t) = true ->
  writer s = None /\ s_cluster s = (published s).1 /\ heap s !! s_nodes s = Some (published s).2.
Proof.
  intros Hinv Hr. apply (o_readers _ _ _ _ (i_thread _ _ Hinv t)) in Hr. simpl in Hr.
  assert (writer s = None) as Hw; [|split; [done|by eapply fields_idle]].
  destruct (writer s) as [tw|] eqn:Ew; [|done]. pose proof (i_exclusive _ _ Hinv tw Ew). simpl in *. set_solver.
Qed.

(** A write to a thread's own map. *)
Lemma inv_own_write t p' s d D f own :
  private (f t) = Some d -> inv own (mkState s f) -> writing (f t) = false ->
  thread_ok own (set_heap s (<[d := D]> (heap s))) t p' ->
  inv own (mkState (set_heap s (<[d := D]> (heap s))) (<[t := p']> f)).
Proof.
  intros Hd Hinv Hnw Ht. pose proof (o_private _ _ _ _ (i_thread _ _ Hinv t) d Hd) as Hod.
  pose proof (i_nodes _ _ Hinv) as Hn. simpl in *. assert (s_nodes s <> d) as Hne by congruence.
  apply (inv_move _ _ _ _ _ _ _ Hinv).
  - by apply others_write.
  - done.
  - done.
  - exact (i_exclusive _ _ Hinv).
  - simpl. intros l [Hl _]%lookup_insert_None. by apply (i_dom _ _ Hinv).
  - eapply fields_kept; try done. simpl. by rewrite lookup_insert_ne.
Qed.

(** A step that only moves the thread on. *)
Lemma inv_pc t p' s f own :
  inv own (mkState s f) -> writing (f t) = false -> thread_ok own s t p' -> inv own (mkState s (<[t := p']> f)).
Proof.
  intros Hinv Hnw Ht. apply (inv_move _ _ _ _ _ _ _ Hinv); try apply Hinv; [|done|].
  - apply others_flags; try done. by left.
  - by eapply fields_kept.
Qed.

Lemma inv_snapshot t p s p' s' f own :
  Snapshot_step t p s p' s' -> f t = p -> inv own (mkState s f) -> exists own', inv own' (mkState s' (<[t := p']> f)).
Proof.
  intros Hst Hft Hinv. pose proof Hinv as [It In Ie Id If]. pose proof (It t) as Ht. simpl in *.
  pose proof (reader_fields _ _ _ t Hinv) as Hrd. destruct Hst as
    [s|s Hw|s d M todo Hd HM Hperm|s d M D k v todo HM Hk HD|s d|s d|s c d]; rewrite Hft in *; simpl in *.
  - exists own. apply inv_pc; [done|by rewrite Hft|]. destruct Ht. by split.
  - destruct Ht as [Tw Tr Th Tp Tc]. exists own. apply (inv_move _ _ _ _ _ _ _ Hinv); simpl; try done.
    + apply others_flags; simpl; try done; [by left|]. set_solver.
    + split; simpl; try done. set_solver.
    + rewrite Hw. done.
    + rewrite Hw in *. exact If.
  - eexists. by eapply inv_snap_make.
  - exists own. destruct (Hrd eq_refl) as (Hw & _ & Hpub). rewrite HM in Hpub. injection Hpub as ->.
    apply inv_own_write; [by rewrite Hft|done|by rewrite Hft|].
    destruct Ht as [Tw Tr Th Tp [Hnd (D' & HD' & Hall)]]. simpl in *. rewrite HD in HD'. injection HD' as <-.
    apply list.NoDup_cons in Hnd as [Hk1 Hnd]. split; simpl; try done. split; [done|].
    exists (<[k := v]> D). rewrite lookup_insert_eq. split; [done|]. intros k'.
    destruct (decide (k = k')) as [<-|Hne].
    + rewrite lookup_insert_eq, decide_False by done. done.
    + rewrite lookup_insert_ne, Hall by done. destruct (decide (k' ∈ k :: todo)), (decide (k' ∈ todo)); set_solver.
  - exists own. apply inv_pc; [done|by rewrite Hft|]. destruct Ht as [Tw Tr Th Tp [_ (D & HD & Hall)]].
    split; simpl; try done. rewrite HD. f_equal. apply map_eq. intros k. rewrite Hall. by rewrite decide_False by set_solver.
  - exists own. apply inv_pc; [done|by rewrite Hft|]. destruct Ht as [Tw Tr Th Tp Tc]. simpl in *.
    destruct (Hrd eq_refl) as (_ & Hc & _). by split.
  - destruct Ht as [Tw Tr Th Tp Tc]. destruct (Hrd eq_refl) as (Hw & _). exists own.
    apply (inv_move _ _ _ _ _ _ _ Hinv); simpl; try done.
    + apply others_flags; simpl; try done; [by left|]. set_solver.
    + split; simpl; try done. set_solver.
    + by rewrite Hw.
    + rewrite Hw in *. exact If.
Qed.

Lemma inv_client t p s p' s' f own :
  client_step t p s p' s' -> f t = p -> inv own (mkState s f) -> inv own (mkState s' (<[t := p']> f)).
Proof.
  intros Hst Hft Hinv. pose proof (i_thread _ _ Hinv t) as Ht. simpl in *.
  destruct Hst as [s c d D|s c d]; rewrite Hft in *; simpl in *; destruct Ht as [Tw Tr Th Tp Tc].
  - apply inv_own_write; [by rewrite Hft|done|by rewrite Hft|]. by split.
  - apply inv_pc; [done|by rewrite Hft|]. by split.
Qed.

Lemma reachable_inv st : reachable st -> exists own, inv own st.
Proof.
  intros Hr. unfold reachable in Hr.
  assert (forall s1 s2, rtc step s1 s2 -> (exists own, inv own s1) -> exists own, inv own s2) as Hind.
  { induction 1 as [|s1 s2 s3 Hs _ IH]; [done|]. intros [own Hinv]. apply IH.
    destruct Hs as [t s p' s' f [H|[H|H]]].
    - by eapply inv_update.
    - by eapply inv_snapshot.
    - exists own. by eapply inv_client. }
  eapply Hind; [done|]. eexists. apply inv_init.
Qed.

(** ** Theorems *)

(** C17: snapshots are atomic: whatever the interleaving, a Snapshot about to release the lock holds the
    cluster and exactly the node map of one Update, the last one completed at that moment, never
    a mixture. *)
Theorem snapshot_atomic st t c d :
  reachable st -> threads st t = SnapUnlock c d ->
  c = (published (mem st)).1 /\ heap (mem st) !! d = Some (published (mem st)).2.
Proof.
  intros (own & Hinv)%reachable_inv Ht. pose proof (o_copy _ _ _ _ (i_thread _ _ Hinv t)) as Hc.
  rewrite Ht in Hc. destruct Hc. done.
Qed.

(** C18: the store is isolated from its readers: whenever no Update holds the lock, the store holds what
    the last Update was given, no matter what callers of Snapshot did to the maps they received. *)
Theorem store_isolated st :
  reachable st -> writer (mem st) = None ->
  s_cluster (mem st) = (published (mem st)).1
  /\ heap (mem st) !! s_nodes (mem st) = Some (published (mem st)).2.
Proof. intros (own & Hinv)%reachable_inv Hw. destruct st. by eapply fields_idle. Qed.

(** An Update excludes everybody: while a thread is between Lock and Unlock of an Update, no other
    thread is inside Update's or Snapshot's critical section. *)
Theorem update_exclusive st t t' :
  reachable st -> writing (threads st t) = true -> t' <> t ->
  writing (threads st t') = false /\ reading (threads st t') = false.
Proof.
  intros (own & Hinv)%reachable_inv Hw Hne.
  destruct (i_thread _ _ Hinv t) as [Tw _ _ _ _], (i_thread _ _ Hinv t') as [Tw' Tr' _ _ _].
  apply Tw in Hw. pose proof (i_exclusive _ _ Hinv _ Hw) as He. split.
  - destruct (writing (threads st t')); [|done]. rewrite (proj2 Tw' eq_refl) in Hw. congruence.
  - destruct (reading (threads st t')); [|done]. pose proof (proj2 Tr' eq_refl). set_solver.
Qed.

(** ** A concrete interleaving

    Thread 1 updates the store, thread 2 then takes a snapshot of it. *)

Definition one_node : node_map := {["a" := zero_NodeHealth]}.
Definition some_cluster : ClusterHealth := mkClusterHealth 1 1 0 0 0 0 0 0 0 true 0 100 "healthy".

Lemma snapshot_reachable :
  exists st, reachable st /\ threads st 2 = SnapUnlock some_cluster 2 /\ published (mem st) = (some_cluster, one_node).
Proof.
  eexists. split; [|split].
  - unfold reachable, NewHealthStore.
    eapply rtc_l. { apply (step_thread 1). left. by apply (upd_call 1 _ some_cluster 1 one_node). }
    eapply rtc_l. { apply (step_thread 1). left. by apply upd_lock. }
    eapply rtc_l. { apply (step_thread 1). left. apply upd_cluster. }
    eapply rtc_l. { apply (step_thread 1). left. apply upd_nodes. }
    eapply rtc_l. { apply (step_thread 1). left. apply upd_unlock. }
    eapply rtc_l. { apply (step_thread 2). right. left. apply snap_call. }
    eapply rtc_l. { apply (step_thread 2). right. left. by apply snap_lock. }
    eapply rtc_l. { apply (step_thread 2). right. left. by apply (snap_make 2 _ 2 one_node ["a"]). }
    eapply rtc_l. { apply (step_thread 2). right. left. by eapply (snap_copy 2 _ 2 one_node ∅ "a" zero_NodeHealth []). }
    eapply rtc_l. { apply (step_thread 2). right. left. apply snap_done. }
    eapply rtc_l. { apply (step_thread 2). right. left. apply snap_return. }
    apply rtc_refl.
  - reflexivity.
  - reflexivity.
Qed.

Lemma snapshot_atomic_witness :
  exists st, threads st 2 = SnapUnlock some_cluster 2 /\ heap (mem st) !! 2 = Some one_node.
Proof.
  destruct snapshot_reachable as (st & Hr & Ht & Hp). exists st. split; [exact Ht|].
  destruct (snapshot_atomic st 2 some_cluster 2 Hr Ht) as [_ H]. rewrite Hp in H. exact H.
Defined.

(** Thread 2 goes on: it returns its copy, and its caller empties the map it got. *)
Lemma reader_writes_reachable :
  exists st, reachable st /\ writer (mem st) = None /\ threads st 2 = Returned some_cluster 2
    /\ heap (mem st) !! 2 = Some ∅ /\ published (mem st) = (some_cluster, one_node).
Proof.
  destruct snapshot_reachable as (st & Hr & Ht & Hp).
  pose proof (reachable_inv _ Hr) as [own Hinv]. destruct st as [s f]. simpl in *.
  assert (reading (f 2) = true) as Hrd by (by rewrite Ht).
  destruct (reader_fields _ _ _ 2 Hinv Hrd) as (Hw & _ & _).
  eexists. split; [|split; [|split; [|split]]].
  - eapply rtc_r; [eapply rtc_r; [exact Hr|]|].
    + apply (step_thread 2). right. left. rewrite Ht. apply snap_unlock.
    + apply (step_thread 2). right. right. rewrite fn_lookup_insert. apply (client_write 2 _ some_cluster 2 ∅).
  - exact Hw.
  - apply fn_lookup_insert.
  - apply lookup_insert_eq.
  - exact Hp.
Qed.

Lemma store_isolated_witness :
  exists st, heap (mem st) !! 2 = Some ∅
    /\ s_cluster (mem st) = some_cluster /\ heap (mem st) !! s_nodes (mem st) = Some one_node.
Proof.
  destruct reader_writes_reachable as (st & Hr & Hw & _ & Hd & Hp). exists st. split; [exact Hd|].
  destruct (store_isolated st Hr Hw) as [Hc Hm]. rewrite Hp in Hc, Hm. split; [exact Hc|exact Hm].
Defined.
