(* ===== verification/HealthWatcher.v ===== *)
(** * HealthWatcher: internal/controller/healthwatcher_controller.go

    Reconcile lists nodes, pods, claims and events, reads the CoreDNS Deployment,
    computes the snapshot with the collectors and installs it in the health store.
    The mapper of SetupWithManager turns any watched change into one request per
    node. *)

From Stdlib Require Import ZArith Lia SpecFloat.
From stdpp Require Import base list strings gmap.
From S2P Require Import Prelude Effects GoLib K8s ApiTypes HealthScore Collectors Clients Operator.

Local Open Scope Z_scope.
Local Open Scope go_scope.
Local Open Scope prog_scope.

Definition coreDNSNamespace : string := "kube-system".
Definition coreDNSDeployment : string := "coredns".

Section Watcher.
Context `{L : K8sLib}.

(** The body of the loop over the nodes. *)
Definition watch_node (perNodePods : gmap string PodCounts) (node : Node) : NodeHealth :=
  let nh := CollectNodeHealth node in
  match perNodePods !! node_Name node with
  | Some pc =>
      let nh := with_pods nh (Total pc) (NotReady pc) (CrashLoop pc) in
      let score := ComputeNodeHealthScore nh in
      with_score nh score (HealthStatusFromScore score)
  | None => nh
  end.

Definition build_nodes (perNodePods : gmap string PodCounts) (nodes : list Node) : gmap string NodeHealth :=
  fold_left (fun m node => <[node_Name node := watch_node perNodePods node]> m) nodes ∅.

Definition count_ready (m : gmap string NodeHealth) : Z :=
  fold_left (fun n nh => if Ready nh then inc n else n) (map_to_list m).*2 0.

(** The cluster record: the composite literal, then its score and status. *)
Definition build_cluster (nodes : list Node) (clusterPods : PodCounts) (m : gmap string NodeHealth)
    (pvcs : list PersistentVolumeClaim) (dns : option Deployment) (warnings : Z) : ClusterHealth :=
  let readyNodes := count_ready m in
  let n := Z.of_nat (length nodes) in
  let mk := mkClusterHealth n readyNodes (n -! readyNodes) (Total clusterPods) (Running clusterPods)
    (Failed clusterPods) (Pending clusterPods) (CrashLoop clusterPods) (CountDegradedPVCs pvcs)
    (IsCoreDNSHealthy dns) warnings in
  let score := ComputeClusterHealthScore (mk 0 "") m in
  mk score (HealthStatusFromScore score).

Definition HealthWatcher_Reconcile : oprog outcome :=
  let* nodeList := do_call ListNodes in
  match nodeList with
  | Err e => Ret (done_result, Some e)
  | Ok nodes =>
  let* podList := do_call ListPods in
  match podList with
  | Err e => Ret (done_result, Some e)
  | Ok pods =>
  let* pvcList := do_call ListPVCs in
  match pvcList with
  | Err e => Ret (done_result, Some e)
  | Ok pvcs =>
  let* eventList := do_call ListEvents in
  match eventList with
  | Err e => Ret (done_result, Some e)
  | Ok events =>
  let* dns := do_call (GetDeployment (mkNN coreDNSNamespace coreDNSDeployment)) in
  let coreDNSPtr := match dns with Ok d => Some d | Err _ => None end in
  let '(perNodePods, clusterPods) := CollectPodCounts pods in
  let nodeHealthMap := build_nodes perNodePods nodes in
  let* now := do_call Now in
  let cluster := build_cluster nodes clusterPods nodeHealthMap pvcs coreDNSPtr
                   (CountRecentWarnings now events) in
  do* do_call (StoreUpdate cluster nodeHealthMap) in
  Ret (done_result, None)
  end end end end.

(** The mapper registered for pods, claims, events and deployments; a failing list
    enqueues nothing. *)
Definition allNodesMapper : oprog (list NamespacedName) :=
  let* nodeList := do_call ListNodes in
  match nodeList with
  | Err _ => Ret []
  | Ok nodes => Ret (List.map (fun n => mkNN "" (node_Name n)) nodes)
  end.

(** ** Lemmas *)

Lemma build_nodes_snoc pp nodes n :
  build_nodes pp (nodes ++ [n]) = <[node_Name n := watch_node pp n]> (build_nodes pp nodes).
Proof. unfold build_nodes. by rewrite fold_left_app. Qed.

Lemma build_nodes_dom pp nodes : dom (build_nodes pp nodes) = list_to_set (node_Name <$> nodes).
Proof.
  induction nodes as [|n nodes IH] using rev_ind; [apply dom_empty_L|].
  rewrite build_nodes_snoc, dom_insert_L, IH, fmap_app, list_to_set_app_L. simpl. set_solver.
Qed.

(** With distinct names every node keeps its own entry. *)
Lemma build_nodes_lookup pp nodes n :
  NoDup (node_Name <$> nodes) -> n ∈ nodes -> build_nodes pp nodes !! node_Name n = Some (watch_node pp n).
Proof.
  induction nodes as [|m nodes IH] using rev_ind; intros Hd Hn; [by apply not_elem_of_nil in Hn|].
  rewrite fmap_app in Hd. apply NoDup_app in Hd as (Hd & Hdis & _).
  rewrite build_nodes_snoc. apply elem_of_app in Hn as [Hn|Hn].
  - rewrite lookup_insert_ne; [by apply IH|]. intros Heq.
    apply (Hdis (node_Name n)); [by apply list_elem_of_fmap_2|]. simpl. set_solver.
  - apply list_elem_of_singleton in Hn as ->. apply lookup_insert_eq.
Qed.

Lemma build_nodes_values pp nodes :
  NoDup (node_Name <$> nodes) -> (map_to_list (build_nodes pp nodes)).*2 ≡ₚ watch_node pp <$> nodes.
Proof.
  induction nodes as [|m nodes IH] using rev_ind; intros Hd; [done|].
  rewrite fmap_app in Hd. apply NoDup_app in Hd as (Hd & Hdis & _).
  rewrite build_nodes_snoc, map_to_list_insert.
  - simpl. rewrite IH, fmap_app by done. simpl. by rewrite (Permutation_cons_append _ (watch_node pp m)).
  - apply not_elem_of_dom. rewrite build_nodes_dom, elem_of_list_to_set. intros Hin.
    apply (Hdis _ Hin). simpl. set_solver.
Qed.

Lemma watch_node_ready pp n : Ready (watch_node pp n) = Ready (CollectNodeHealth n).
Proof. unfold watch_node. by destruct (pp !! node_Name n). Qed.

Lemma count_ready_exact m :
  Z.of_nat (size m) <= max_int64 -> count_ready m = countZ Ready (map_to_list m).*2.
Proof.
  intros Hb. unfold count_ready. rewrite fold_count; [lia|lia|].
  rewrite length_fmap, length_map_to_list. lia.
Qed.

Lemma countZ_filter {A} (p q : A -> bool) l :
  countZ q (List.filter p l) = countZ (fun x => p x && q x) l.
Proof.
  induction l as [|x l IH]; [done|]. rewrite countZ_cons. simpl.
  destruct (p x); simpl; rewrite ?countZ_cons, IH; lia.
Qed.

Lemma countZ_length {A} (p : A -> bool) l : Z.of_nat (length (List.filter p l)) = countZ p l.
Proof. done. Qed.

(** ** What a snapshot should say

    Stated from the lists alone, without the functions that compute it. *)

(** Some container waits in CrashLoopBackOff; the first Ready condition is True. *)
Definition pod_crashing (p : Pod) : bool :=
  existsb (fun cs => bool_decide (cs_Waiting cs = Some "CrashLoopBackOff")) (pod_ContainerStatuses p).
Definition pod_is_ready (p : Pod) : bool :=
  match List.find (fun c => bool_decide (pc_Type c = PodReady)) (pod_Conditions p) with
  | Some c => bool_decide (pc_Status c = ConditionTrue)
  | None => false
  end.

(** The status tag of a score. *)
Definition tagged (score : Z) (status : string) : Prop :=
  (80 <= score /\ status = "healthy") \/ (50 <= score < 80 /\ status = "degraded") \/ (score < 50 /\ status = "critical").

(** The entry of a node, given all pods. *)
Record entry_of (pods : list Pod) (n : Node) (h : NodeHealth) : Prop := {
  en_name : nh_Name h = node_Name n;
  en_ready : Ready h = flag NodeReady (node_Conditions n);
  en_memory : MemoryPressure h = flag NodeMemoryPressure (node_Conditions n);
  en_disk : DiskPressure h = flag NodeDiskPressure (node_Conditions n);
  en_pid : PIDPressure h = flag NodePIDPressure (node_Conditions n);
  en_cpu : CPURequestPct h = requestPct (quantity_at (node_Allocatable n) "cpu") (quantity_at (node_Capacity n) "cpu");
  en_mem : MemRequestPct h = requestPct (quantity_at (node_Allocatable n) "memory") (quantity_at (node_Capacity n) "memory");
  en_pods : PodCount h = countZ (on_node (node_Name n)) pods;
  en_not_ready : NotReadyPods h =
    countZ (fun p => on_node (node_Name n) p && (negb (pod_is_ready p) && phase_is PodRunning p)) pods;
  en_crash : nh_CrashLoopPods h = countZ (fun p => on_node (node_Name n) p && pod_crashing p) pods;
  en_score : nh_HealthScore h = 100 - deduction_spec h;
  en_status : tagged (nh_HealthScore h) (nh_HealthStatus h);
}.

Record snapshot_of (nodes : list Node) (pods : list Pod) (pvcs : list PersistentVolumeClaim) (events : list Event)
    (dns : result Deployment) (now : Z) (c : ClusterHealth) (m : gmap string NodeHealth) : Prop := {
  sn_names : dom m = list_to_set (node_Name <$> nodes);
  sn_entry n : n ∈ nodes -> exists h, m !! node_Name n = Some h /\ entry_of pods n h;
  sn_nodes : TotalNodes c = Z.of_nat (length nodes);
  sn_ready : ReadyNodes c = countZ (fun n => flag NodeReady (node_Conditions n)) nodes;
  sn_unhealthy : UnhealthyNodes c = countZ (fun n => negb (flag NodeReady (node_Conditions n))) nodes;
  sn_pods : TotalPods c = Z.of_nat (length pods);
  sn_running : RunningPods c = countZ (phase_is PodRunning) pods;
  sn_failed : FailedPods c = countZ (phase_is PodFailed) pods;
  sn_pending : PendingPods c = countZ (phase_is PodPending) pods;
  sn_crash : CrashLoopPods c = countZ pod_crashing pods;
  sn_pvcs : DegradedPVCs c = countZ (fun v => negb (bool_decide (pvc_Phase v = ClaimBound))) pvcs;
  sn_dns : CoreDNSHealthy c = match dns with Ok d => 0 <? dep_AvailableReplicas d | Err _ => false end;
  sn_warnings : EventWarnings c = countZ (fun ev => bool_decide (ev_Type ev = EventTypeWarning)
      && (now - Hour <? (if ev_LastTimestamp ev =? 0 then ev_EventTime ev else ev_LastTimestamp ev))) events;
  sn_score : ch_HealthScore c = score_spec c (omap (fun n => m !! node_Name n) nodes);
  sn_status : tagged (ch_HealthScore c) (ch_HealthStatus c);
}.

(** Lists an API server can return: node names are unique, and lengths far from 2^63. *)
Record listed (nodes : list Node) (pods : list Pod) (pvcs : list PersistentVolumeClaim) (events : list Event) : Prop := {
  li_names : NoDup (node_Name <$> nodes);
  li_nodes : Z.of_nat (length nodes) < 2 ^ 56;
  li_pods : Z.of_nat (length pods) < 2 ^ 61;
  li_pvcs : Z.of_nat (length pvcs) < 2 ^ 61;
  li_events : Z.of_nat (length events) < 2 ^ 61;
}.

Lemma crashing_spec p : isCrashLooping p = pod_crashing p.
Proof.
  unfold isCrashLooping, pod_crashing. induction (pod_ContainerStatuses p) as [|cs l IH]; [done|]. simpl. rewrite IH.
  by destruct (bool_decide _).
Qed.

Lemma ready_spec p : isPodReady p = pod_is_ready p.
Proof.
  unfold isPodReady, pod_is_ready. induction (pod_Conditions p) as [|c l IH]; [done|]. simpl. rewrite IH.
  destruct (decide (pc_Type c = PodReady)) as [H|H].
  - by rewrite (bool_decide_eq_true_2 (pc_Type c = PodReady)).
  - by rewrite (bool_decide_eq_false_2 (pc_Type c = PodReady)).
Qed.

Lemma status_tagged score : tagged score (HealthStatusFromScore score).
Proof.
  unfold HealthStatusFromScore, tagged. destruct (Z.leb_spec 80 score); [auto|].
  destruct (Z.leb_spec 50 score); right; [left|right]; (split; [lia|done]).
Qed.

(** The entry the loop computes for a node. *)
Lemma watch_node_entry pods n :
  Z.of_nat (length pods) <= max_int64 -> entry_of pods n (watch_node (CollectPodCounts pods).1 n).
Proof.
  intros Hp. destruct (collect_pods_inv pods Hp) as [Hnode _].
  pose proof (node_counts_default pods (node_Name n)) as Hdef.
  unfold watch_node, CollectNodeHealth. rewrite Hnode, fold_conditions. simpl. rewrite !flag_from_false.
  assert (counts_of true (List.filter (on_node (node_Name n)) pods)
    = mkPodCounts (countZ (on_node (node_Name n)) pods)
        (countZ (fun p => on_node (node_Name n) p && phase_is PodRunning p) pods)
        (countZ (fun p => on_node (node_Name n) p && phase_is PodFailed p) pods)
        (countZ (fun p => on_node (node_Name n) p && phase_is PodPending p) pods)
        (countZ (fun p => on_node (node_Name n) p && pod_crashing p) pods)
        (countZ (fun p => on_node (node_Name n) p && (negb (pod_is_ready p) && phase_is PodRunning p)) pods)) as Hc.
  { unfold counts_of. rewrite !countZ_filter, countZ_length. f_equal; apply countZ_ext; intros p _;
      unfold not_ready; by rewrite ?crashing_spec, ?ready_spec. }
  rewrite Hc in Hdef. destruct (node_counts pods (node_Name n)) as [pc|]; simpl in Hdef; [rewrite Hdef|];
    split; simpl; try done; try apply status_tagged; try (by rewrite node_score_eq).
  all: by injection Hdef.
Qed.

Lemma omap_Some {A B} (f : A -> option B) (g : A -> B) (l : list A) :
  (forall x, x ∈ l -> f x = Some (g x)) -> omap f l = g <$> l.
Proof.
  induction l as [|x l IH]; intros Hf; [done|]. simpl. rewrite Hf by left. f_equal. apply IH.
  intros y Hy. apply Hf. by right.
Qed.

Lemma snapshot_described nodes pods pvcs events dns now :
  listed nodes pods pvcs events ->
  let m := build_nodes (CollectPodCounts pods).1 nodes in
  snapshot_of nodes pods pvcs events dns now
    (build_cluster nodes (CollectPodCounts pods).2 m pvcs (match dns with Ok d => Some d | Err _ => None end)
       (CountRecentWarnings now events)) m.
Proof.
  intros [Hd Hn Hp Hv Hev] m. unfold max_int64, two63 in *.
  pose proof (build_nodes_values (CollectPodCounts pods).1 nodes Hd) as Hvals. fold m in Hvals.
  assert (size m = length nodes) as Hsize.
  { rewrite <- length_map_to_list, <- (length_fmap snd), Hvals. by rewrite length_fmap. }
  assert (count_ready m = countZ (fun n => flag NodeReady (node_Conditions n)) nodes) as Hready.
  { rewrite count_ready_exact, Hvals by (unfold max_int64, two63; lia). clear -L.
    induction nodes as [|n nodes IH]; [done|]. rewrite fmap_cons, !countZ_cons, IH.
    by rewrite watch_node_ready, (proj1 (proj2 (node_health_collected n))). }
  assert (omap (fun n => m !! node_Name n) nodes = watch_node (CollectPodCounts pods).1 <$> nodes) as Homap
    by (apply omap_Some; intros; by apply build_nodes_lookup).
  destruct (collect_pods_inv pods) as [_ Hpods]; [unfold max_int64, two63; lia|].
  assert (forall A (q : A -> bool) l, Z.of_nat (length l) < 2 ^ 61 -> counter_ok (countZ q l)) as Hq.
  { intros A q l Hl. unfold counter_ok. pose proof (countZ_nonneg q l). pose proof (countZ_le_length q l). lia. }
  pose proof (countZ_split (fun n => flag NodeReady (node_Conditions n)) nodes) as Hsplit.
  pose proof (countZ_nonneg (fun n => flag NodeReady (node_Conditions n)) nodes).
  pose proof (countZ_le_length (fun n => flag NodeReady (node_Conditions n)) nodes).
  assert (countZ isCrashLooping pods = countZ pod_crashing pods) as Hcr by (apply countZ_ext; intros; apply crashing_spec).
  assert (CountRecentWarnings now events = countZ (fun ev => bool_decide (ev_Type ev = EventTypeWarning)
    && (now - Hour <? (if ev_LastTimestamp ev =? 0 then ev_EventTime ev else ev_LastTimestamp ev))) events) as Hwarn
    by (apply warnings_spec; unfold max_int64, two63; lia).
  unfold build_cluster. rewrite Hpods, Hready, Hwarn, degraded_counted by (unfold max_int64, two63; lia).
  split; simpl; try done; try apply status_tagged.
  - apply build_nodes_dom.
  - intros n Hin. eexists. split; [by apply build_nodes_lookup|]. apply watch_node_entry. unfold max_int64, two63. lia.
  - unwrap; lia.
  - by destruct dns.
  - rewrite Homap. unfold ComputeClusterHealthScore. rewrite Hvals.
    rewrite ClusterScoreOver_spec; [done| |rewrite length_fmap; lia]. split; simpl; by apply Hq.
Qed.

(** The calls that read, and the list call that an error comes from. *)
Definition is_read (e : event OpΣ) : bool :=
  match ev_op e with
  | ListNodes | ListPods | ListPVCs | ListEvents | GetDeployment _ | Now => true
  | _ => false
  end.

Definition list_error (e : event OpΣ) : option error :=
  match e with
  | Ev ListNodes (Err err) | Ev ListPods (Err err) | Ev ListPVCs (Err err) | Ev ListEvents (Err err) => Some err
  | _ => None
  end.

(** ** Theorem *)

(** C22: a reconcile of the health watcher either fails on a list call, returns that call's error and
    has made nothing but reads, or reads the four lists, the CoreDNS Deployment and the clock and then
    installs exactly one snapshot, which says of those lists what it should: every counter is the
    number of the nodes, pods, claims and events it stands for, every node has its own entry, scores
    are those of the documented table, and CoreDNS is unhealthy whenever its Deployment could not be
    read.  (Node names are unique; lists are shorter than 2^56.) *)
Theorem watcher_installs_snapshot tr res err :
  exec HealthWatcher_Reconcile tr (res, err) ->
  res = done_result
  /\ match err with
     | Some e => none (fun ev => negb (is_read ev)) tr
                 /\ exists tr0 ev, tr = tr0 ++ [ev] /\ list_error ev = Some e /\ Forall (fun ev => list_error ev = None) tr0
     | None => exists nodes pods pvcs events dns now c m,
         tr = [E ListNodes (Ok nodes); E ListPods (Ok pods); E ListPVCs (Ok pvcs);
               E ListEvents (Ok events);
               E (GetDeployment (mkNN coreDNSNamespace coreDNSDeployment)) dns; E Now now;
               E (StoreUpdate c m) tt]
         /\ (listed nodes pods pvcs events -> snapshot_of nodes pods pvcs events dns now c m)
     end.
Proof.
  intros He. unfold HealthWatcher_Reconcile, do_call in He. exec_steps He.
  all: split; [done|].
  1: { destruct r1. eexists _, _, _, _, _, _, _, _. split; [reflexivity|]. intros Hl.
    pose proof (snapshot_described _ _ _ _ r r0 Hl) as Hs. rewrite Heqp in Hs. exact Hs. }
  all: split; [done|].
  1: eexists [_; _; _], _.
  2: eexists [_; _], _.
  3: eexists [_], _.
  4: eexists [], _.
  all: split; [reflexivity|]; split; [reflexivity|]; repeat constructor.
Qed.

End Watcher.

(** Witnesses: one ready node with one crash-looping pod, against a recorded environment. *)
Definition node_a : Node := mkNode "a" [mkNodeCond NodeReady ConditionTrue] ∅ ∅.

(** An API server with one node and one pod and no CoreDNS Deployment. *)
Definition watch_env (c : OpΣ) (u : unit) : ans c * unit :=
  (match c as c return op_ans c with
   | ListNodes => Ok [node_a]
   | ListPods => Ok [crash_pod]
   | ListPVCs => Ok []
   | ListEvents => Ok []
   | c => all_fail Hour c
   end, u).

Definition watched : outcome * trace * unit := run watch_env (HealthWatcher_Reconcile (L := RefLib)) tt.

Lemma watched_listed : listed [node_a] [crash_pod] [] [].
Proof. split; try (vm_compute; reflexivity). apply NoDup_singleton. Qed.

Lemma watcher_installs_snapshot_witness :
  watched.1.1 = (done_result, None)
  /\ exists c m, E (StoreUpdate c m) tt ∈ watched.1.2 /\ CrashLoopPods c = 1 /\ CoreDNSHealthy c = false
       /\ exists h, m !! "a" = Some h /\ NotReadyPods h = 1.
Proof.
  split; [reflexivity|].
  destruct (watcher_installs_snapshot (L := RefLib) watched.1.2 done_result None)
    as (_ & nodes & pods & pvcs & events & dns & now & c & m & Heq & Hs).
  - apply (run_exec watch_env (HealthWatcher_Reconcile (L := RefLib)) tt).
  - exists c, m. split; [rewrite Heq; do 6 right; left|].
    assert (nodes = [node_a] /\ pods = [crash_pod] /\ pvcs = [] /\ events = [] /\ exists e, dns = Err e) as Hl.
    { pose proof (fun i => f_equal (fun l => l !! i) Heq) as Hi.
      pose proof (E_inj _ _ _ (inj Some _ _ (Hi 0%nat))) as H0. pose proof (E_inj _ _ _ (inj Some _ _ (Hi 1%nat))) as H1.
      pose proof (E_inj _ _ _ (inj Some _ _ (Hi 2%nat))) as H2. pose proof (E_inj _ _ _ (inj Some _ _ (Hi 3%nat))) as H3.
      pose proof (E_inj _ _ _ (inj Some _ _ (Hi 4%nat))) as H4.
      injection H0 as <-. injection H1 as <-. injection H2 as <-. injection H3 as <-. repeat split. by eexists. }
    destruct Hl as (-> & -> & -> & -> & e & ->). destruct (Hs watched_listed) as [_ He _ _ _ _ _ _ _ Hc _ Hd _ _ _].
    split; [exact Hc|]. split; [exact Hd|]. destruct (He node_a) as (h & Hh & Hen); [left|].
    exists h. split; [exact Hh|]. exact (en_not_ready _ _ _ Hen).
Defined.
