(* ===== verification/Provisioner.v ===== *)
(** * Provisioner: internal/provisioner/bootstrap.go

    Creation of the empty credential Secret, the one-time bootstrap of the edge
    agent's credentials, and the restart of its Deployment. *)

From Stdlib Require Import ZArith Lia.
From stdpp Require Import base list strings gmap.
From S2P Require Import Prelude Effects GoLib K8s ApiTypes Clients Operator.

Local Open Scope prog_scope.

Definition geaCredentialsSecretName : string := "losant-gea-credentials".

Definition placeholder_data : gmap string string :=
  <["DEVICE_ID":=""]> (<["ACCESS_KEY":=""]> (<["ACCESS_SECRET":=""]> ∅)).

Definition credential_data (deviceID key secret : string) : gmap string string :=
  <["DEVICE_ID":=deviceID]> (<["ACCESS_KEY":=key]> (<["ACCESS_SECRET":=secret]> ∅)).

Definition gea_secret_key (ns : string) : NamespacedName := mkNN ns geaCredentialsSecretName.

(** A call [c.Get(...)] with an error other than not-found, wrapped. *)
Definition secret_error (verb ns : string) (e : error) : error :=
  wrapf (verb +:+ " " +:+ ns +:+ "/" +:+ geaCredentialsSecretName +:+ ": ") e "".

Definition EnsureCredentialPlaceholder (ns : string) : oprog (option error) :=
  let* existing := do_call (GetSecret (gea_secret_key ns)) in
  match existing with
  | Ok _ => Ret None
  | Err err =>
      if negb (IsNotFound err) then Ret (Some (secret_error "read" ns err))
      else
        let* createErr := do_call (CreateSecret (mkSecret geaCredentialsSecretName ns placeholder_data)) in
        match createErr with
        | Some ce =>
            if IsAlreadyExists ce then Ret None
            else Ret (Some (secret_error "create placeholder" ns ce))
        | None => Ret None
        end
  end.

(** The credentials of a Secret are usable for the device. *)
Definition credentials_current (d : gmap string string) (clusterDeviceID : string) : bool :=
  let val k := default "" (d !! k) in
  bool_decide (val "DEVICE_ID" <> "") && bool_decide (val "ACCESS_KEY" <> "")
  && bool_decide (val "ACCESS_SECRET" <> "") && bool_decide (val "DEVICE_ID" = clusterDeviceID).

Section Bootstrapper.
Context `{L : K8sLib}.

(** GEABootstrapper holds a client and a Losant client; the former is the environment. *)
Context (lc : losant_impl).

Definition restart_annotation : string := "kubectl.kubernetes.io/restartedAt".

Definition restartDeployment (ns name : string) : oprog (option error) :=
  let* dep := do_call (GetDeployment (mkNN ns name)) in
  match dep with
  | Err e => Ret (Some (wrapf ("get GEA Deployment " +:+ ns +:+ "/" +:+ name +:+ ": ") e ""))
  | Ok dep =>
      let* now := do_call Now in
      let annotations := <[restart_annotation := format_RFC3339 now]> (default ∅ (dep_TemplateAnnotations dep)) in
      let patched := mkDeployment (dep_Name dep) (dep_Namespace dep) (Some annotations)
                       (dep_AvailableReplicas dep) in
      let* err := do_call (PatchDeployment patched dep) in
      match err with
      | Some e => Ret (Some (wrapf ("patch GEA Deployment " +:+ ns +:+ "/" +:+ name +:+ ": ") e ""))
      | None => Ret None
      end
  end.

(** The last step of Bootstrap. *)
Definition restart_if_configured (ls : LosantSync) (ns : string) : oprog (option error) :=
  let ref := gea_DeploymentRef (GEA (ls_Spec ls)) in
  if decide (ref <> "") then restartDeployment ns ref else Ret None.

(** The block under [if needsCredential]; [existing] is the Secret that was read, if any. *)
Definition write_credentials (ls : LosantSync) (ns clusterDeviceID : string) (existing : option Secret)
  : oprog (option error) :=
  let* now := do_call Now in
  let keyName := "losant-device-controller-" +:+ ClusterName (ls_Spec ls) +:+ "-" +:+ Itoa (Unix now) in
  let* key := do_call (CallLosant lc
                (CreateDeviceAccessKey (ApplicationID (ls_Spec ls)) clusterDeviceID keyName)) in
  match key with
  | Err e => Ret (Some (wrapf "create device access key: " e ""))
  | Ok (_, key, secret) =>
      let data := credential_data clusterDeviceID key secret in
      match existing with
      | None =>
          let* err := do_call (CreateSecret (mkSecret geaCredentialsSecretName ns data)) in
          match err with
          | Some e => Ret (Some (secret_error "create" ns e))
          | None => Ret None
          end
      | Some s =>
          let* err := do_call (UpdateSecret (mkSecret (sec_Name s) (sec_Namespace s) data)) in
          match err with
          | Some e => Ret (Some (secret_error "update" ns e))
          | None => Ret None
          end
      end
  end.

Definition Bootstrap (ls : LosantSync) (clusterDeviceID : string) : oprog (option error) :=
  let ns := sr_Namespace (ProvisioningSecretRef (ls_Spec ls)) in
  let* existing := do_call (GetSecret (gea_secret_key ns)) in
  match existing with
  | Err getErr =>
      if IsNotFound getErr then
        let* err := write_credentials ls ns clusterDeviceID None in
        match err with
        | Some e => Ret (Some e)
        | None => restart_if_configured ls ns
        end
      else Ret (Some (secret_error "read" ns getErr))
  | Ok s =>
      if credentials_current (sec_Data s) clusterDeviceID then restart_if_configured ls ns
      else
        let* err := write_credentials ls ns clusterDeviceID (Some s) in
        match err with
        | Some e => Ret (Some e)
        | None => restart_if_configured ls ns
        end
  end.

(** ** Contracts of the parts *)

Definition is_secret_write (e : event OpΣ) : bool :=
  match ev_op e with CreateSecret _ | UpdateSecret _ => true | _ => false end.

(** The Deployment was patched, with nothing but the restart annotation changed. *)
Definition restarted (ns name : string) (tr : trace) : Prop :=
  exists dep now, E (GetDeployment (mkNN ns name)) (Ok dep) ∈ tr
    /\ E (PatchDeployment
           (mkDeployment (dep_Name dep) (dep_Namespace dep)
              (Some (<[restart_annotation := format_RFC3339 now]> (default ∅ (dep_TemplateAnnotations dep))))
              (dep_AvailableReplicas dep)) dep) None ∈ tr.

Lemma restart_spec ls ns tr out :
  exec (restart_if_configured ls ns) tr out ->
  none is_losant tr /\ none is_secret_write tr
  /\ (out = None -> gea_DeploymentRef (GEA (ls_Spec ls)) <> "" ->
       restarted ns (gea_DeploymentRef (GEA (ls_Spec ls))) tr).
Proof.
  unfold restart_if_configured, restartDeployment, do_call. intros He. exec_steps He;
    (split; [done|]; split; [done|]); try done.
  intros _ _. eexists _, _. split; [left|]. right. right. left.
Qed.

(** What a fresh key for the device costs, with the Secret it is stored in: one clock reading, one
    call of Losant, one write of the Secret that was read or of a new one with the name it was looked
    up under, holding exactly the key pair that Losant answered, and no Losant call or Secret write
    after that. *)
Definition credentials_written (ls : LosantSync) (ns clusterDeviceID : string) (existing : option Secret)
    (tr : trace) : Prop :=
  exists now kid key secret tr',
    let keyName := "losant-device-controller-" +:+ ClusterName (ls_Spec ls) +:+ "-" +:+ Itoa (Unix now) in
    let data := credential_data clusterDeviceID key secret in
    let store := match existing with
                 | None => E (CreateSecret (mkSecret geaCredentialsSecretName ns data)) None
                 | Some s => E (UpdateSecret (mkSecret (sec_Name s) (sec_Namespace s) data)) None
                 end in
    tr = [E Now now;
          E (CallLosant lc (CreateDeviceAccessKey (ApplicationID (ls_Spec ls)) clusterDeviceID keyName))
            (Ok (kid, key, secret)); store] ++ tr'
    /\ none is_losant tr' /\ none is_secret_write tr'.

Lemma write_credentials_spec ls ns id existing tr tr' :
  exec (write_credentials ls ns id existing) tr None -> none is_losant tr' -> none is_secret_write tr' ->
  credentials_written ls ns id existing (tr ++ tr').
Proof.
  unfold write_credentials, do_call. intros He Hl Hw. exec_steps He.
  all: eexists _, _, _, _, tr'; cbn zeta; split; [simpl; reflexivity|by split].
Qed.

Lemma restarted_mono ns name tr tr' : tr ⊆ tr' -> restarted ns name tr -> restarted ns name tr'.
Proof. intros Hs (dep & now & H1 & H2). exists dep, now. eauto. Qed.

(** The tail shared by the two branches that write credentials. *)
Lemma write_then_restart ls ns id ex tr :
  exec (let* err := write_credentials ls ns id ex in
        match err with Some e => Ret (Some e) | None => restart_if_configured ls ns end) tr None ->
  credentials_written ls ns id ex tr
  /\ (gea_DeploymentRef (GEA (ls_Spec ls)) <> "" -> restarted ns (gea_DeploymentRef (GEA (ls_Spec ls))) tr).
Proof.
  intros He. exec_split He. destruct a as [e|]; [exec_steps He|].
  destruct (restart_spec _ _ _ _ He) as (Hl & Hw & Hr). split; [by apply write_credentials_spec|].
  intros Href. eapply restarted_mono; [|by apply Hr]. set_solver.
Qed.

(** ** Theorems *)

(** C24: a bootstrap that finds current credentials creates no access key and writes no Secret. *)
Theorem bootstrap_idempotent ls id s tr out :
  let key := gea_secret_key (sr_Namespace (ProvisioningSecretRef (ls_Spec ls))) in
  exec (Bootstrap ls id) (E (GetSecret key) (Ok s) :: tr) out ->
  credentials_current (sec_Data s) id = true ->
  none is_losant tr /\ none is_secret_write tr.
Proof.
  intros key He Hc. unfold Bootstrap, do_call in He. cbn [bind call] in He.
  apply exec_head in He. cbn beta iota in He. rewrite Hc in He.
  destruct (restart_spec _ _ _ _ He) as (H1 & H2 & _). done.
Qed.

(** C23: a bootstrap that returns no error has read the edge agent's Secret first: when that holds
    current credentials for the device nothing is created or written; when it holds others, the Secret
    that was read is updated, and when there is none it is created, with the key pair Losant answered
    for a key of this device; and a configured edge agent Deployment was restarted in every case. *)
Theorem bootstrap_success ls id tr :
  exec (Bootstrap ls id) tr None ->
  let ns := sr_Namespace (ProvisioningSecretRef (ls_Spec ls)) in
  let ref := gea_DeploymentRef (GEA (ls_Spec ls)) in
  exists got tr', tr = E (GetSecret (gea_secret_key ns)) got :: tr'
  /\ match got with
     | Ok s => if credentials_current (sec_Data s) id then none is_losant tr' /\ none is_secret_write tr'
               else credentials_written ls ns id (Some s) tr'
     | Err e => IsNotFound e = true /\ credentials_written ls ns id None tr'
     end
  /\ (ref <> "" -> restarted ns ref tr').
Proof.
  intros He ns ref. unfold Bootstrap, do_call in He. fold ns in He. exec_step He. eexists _, _. split; [done|].
  destruct r as [s|e]; cbn beta iota in He |- *.
  - destruct (credentials_current (sec_Data s) id); [|by apply write_then_restart].
    destruct (restart_spec _ _ _ _ He) as (Hl & Hw & Hr). by split; [|apply Hr].
  - destruct (IsNotFound e); [|exec_steps He]. apply write_then_restart in He as [Hw Hr]. done.
Qed.

End Bootstrapper.

(** The placeholder never overwrites: a Secret is created only after the API server answered
    that there is none, with the three keys empty, and an existing one ends the call at once. *)
Theorem placeholder_only_when_absent ns tr out :
  exec (EnsureCredentialPlaceholder ns) tr out ->
  (exists s, tr = [E (GetSecret (gea_secret_key ns)) (Ok s)] /\ out = None)
  \/ (exists e, tr = [E (GetSecret (gea_secret_key ns)) (Err e)] /\ IsNotFound e = false
       /\ out = Some (secret_error "read" ns e))
  \/ (exists e r, IsNotFound e = true
       /\ tr = [E (GetSecret (gea_secret_key ns)) (Err e);
                E (CreateSecret (mkSecret geaCredentialsSecretName ns placeholder_data)) r]
       /\ out = match r with
                | Some ce => if IsAlreadyExists ce then None else Some (secret_error "create placeholder" ns ce)
                | None => None
                end).
Proof.
  unfold EnsureCredentialPlaceholder, do_call. intros He. exec_steps He.
  - left. by eexists.
  - right. left. destruct (IsNotFound e) eqn:?; [done|]. by exists e.
  - right. right. exists e, (Some e0). destruct (IsNotFound e); [|done]. by rewrite Heqb0.
  - right. right. exists e, (Some e0). destruct (IsNotFound e); [|done]. by rewrite Heqb0.
  - right. right. exists e, None. destruct (IsNotFound e); [|done]. done.
Qed.
