(* ===== verification/LosantSyncController.v ===== *)
(** * LosantSyncController: internal/controller/losantsync_controller.go

    The reconciler of LosantSync objects: finalizer, deletion, suspension, first
    reconcile, schedule check, and the sync proper, which provisions devices in
    Losant, bootstraps and feeds the edge agent and records the outcome in the
    object's status.  [sync] is the part of Reconcile from the schedule check on,
    split where the source has its numbered steps. *)

From Stdlib Require Import ZArith Lia SpecFloat.
From stdpp Require Import base list strings gmap.
From S2P Require Import Prelude Effects GoLib Duration K8s ApiTypes HealthScore Clients Operator Provisioner.

Local Open Scope Z_scope.
Local Open Scope prog_scope.

Definition requeueOnDegradedFallback : Z := Minute.
Definition cleanupFinalizer : string := "losant.io/device-cleanup".

(** The reconciler: injected clients are nil in production; the health store may be nil. *)
Record LosantSyncReconciler := mkLSR {
  r_LosantClient : option losant_impl;
  r_GEAClient : option gea_impl;
  r_HealthStore : bool;
}.

(** ** Payloads *)

Definition clusterAttributes (h : ClusterHealth) : gmap string attr_value :=
  list_to_map [
    ("health_score", VInt (ch_HealthScore h)); ("health_status", VString (ch_HealthStatus h));
    ("total_nodes", VInt (TotalNodes h)); ("ready_nodes", VInt (ReadyNodes h));
    ("unhealthy_nodes", VInt (UnhealthyNodes h)); ("total_pods", VInt (TotalPods h));
    ("running_pods", VInt (RunningPods h)); ("failed_pods", VInt (FailedPods h));
    ("pending_pods", VInt (PendingPods h)); ("crashloop_pods", VInt (CrashLoopPods h));
    ("degraded_pvcs", VInt (DegradedPVCs h)); ("coredns_healthy", VBool (CoreDNSHealthy h));
    ("event_warnings", VInt (EventWarnings h))].

Definition nodeAttributes (h : NodeHealth) : gmap string attr_value :=
  list_to_map [
    ("health_score", VInt (nh_HealthScore h)); ("health_status", VString (nh_HealthStatus h));
    ("ready", VBool (Ready h)); ("memory_pressure", VBool (MemoryPressure h));
    ("disk_pressure", VBool (DiskPressure h)); ("pid_pressure", VBool (PIDPressure h));
    ("pod_count", VInt (PodCount h)); ("not_ready_pods", VInt (NotReadyPods h));
    ("crashloop_pods", VInt (nh_CrashLoopPods h)); ("cpu_request_pct", VFloat (CPURequestPct h));
    ("mem_request_pct", VFloat (MemRequestPct h))].

Section Controller.
Context `{L : K8sLib}.

Definition setCondition (ls : LosantSync) (condType status reason message : string) : LosantSync :=
  with_Conditions ls (SetStatusCondition (Conditions (ls_Status ls))
    (mkCond condType status (om_Generation (ls_Meta ls)) reason message)).

(** ** Scheduling *)

Definition nextScheduleAndDuration (spec : LosantSyncSpec) : oprog (result (Z * Z)) :=
  if decide (spec_CronSchedule spec <> "") then
    match cron_parse (spec_CronSchedule spec) with
    | Err e => Ret (Err (wrapf ("invalid cron expression " +:+ Quote (spec_CronSchedule spec) +:+ ": ") e ""))
    | Ok schedule =>
        let* now := do_call Now in
        let next := cron_next schedule now in
        let* now' := do_call Now in
        Ret (Ok (next, Until next now'))
    end
  else
    match ParseDuration (Interval spec) with
    | Err e => Ret (Err (wrapf ("invalid interval " +:+ Quote (Interval spec) +:+ ": ") e ""))
    | Ok d =>
        let* now := do_call Now in
        Ret (Ok (now + d, d))
    end.

Definition setDegraded (ls : LosantSync) (condType reason message : string) : oprog outcome :=
  let ls := with_Phase ls PhaseDegraded in
  let ls := setCondition ls condType ConditionFalse reason message in
  let ls := setCondition ls "LastSyncSucceeded" ConditionFalse reason message in
  let* sched := nextScheduleAndDuration (ls_Spec ls) in
  let '(ls, requeueAfter) :=
    match sched with
    | Ok (next, d) => (with_NextScheduledTime ls (Some next), d)
    | Err _ => (ls, requeueOnDegradedFallback)
    end in
  let* err := do_call (StatusUpdateLosantSync ls) in
  match err with
  | Some e => Ret (done_result, Some e)
  | None => Ret (requeue_after requeueAfter, None)
  end.

Definition healthSnapshot (r : LosantSyncReconciler) : oprog (ClusterHealth * gmap string NodeHealth) :=
  if r_HealthStore r then do_call StoreSnapshot else Ret (zero_ClusterHealth, ∅).

(** ** Edge Workflow deployments *)

Definition zero_EDS : EdgeDeploymentStatus := mkEDS "" "" "".

Definition index_deployments (ds : list EdgeDeploymentStatus) : gmap string EdgeDeploymentStatus :=
  fold_left (fun m d => <[eds_FlowID d := d]> m) ds ∅.

(** The loop over spec.WorkflowDeployments and the returns after it. *)
Fixpoint release_loop (lc : losant_impl) (appID deviceID : string)
    (byFlowID : gmap string EdgeDeploymentStatus) (wds : list WorkflowDeployment) (allConfirmed : bool)
  : oprog (string * string * option error) :=
  match wds with
  | [] =>
      if allConfirmed then Ret ("Deployed", "all workflow versions confirmed deployed", None)
      else Ret ("DeploymentPending", "release queued, awaiting GEA confirmation", None)
  | wd :: wds' =>
      let current := default zero_EDS (byFlowID !! wd_FlowID wd) in
      if decide (eds_DesiredVersion current <> wd_Version wd) then
        let* releaseErr := do_call (CallLosant lc
                             (ReleaseWorkflow appID deviceID (wd_FlowID wd) (wd_Version wd))) in
        match releaseErr with
        | Some e =>
            if Is e KWorkflowNotFound then
              Ret ("WorkflowNotFound", "flowId " +:+ wd_FlowID wd +:+ " version " +:+ wd_Version wd
                                       +:+ " not found in Losant", Some e)
            else Ret ("ReleaseFailed", Error e, Some e)
        | None => release_loop lc appID deviceID byFlowID wds' false
        end
      else if decide (eds_CurrentVersion current <> wd_Version wd) then
        release_loop lc appID deviceID byFlowID wds' false
      else release_loop lc appID deviceID byFlowID wds' allConfirmed
  end.

Definition ensureWorkflowDeployments (lc : losant_impl) (ls : LosantSync)
  : oprog (string * string * option error) :=
  match WorkflowDeployments (ls_Spec ls) with
  | [] => Ret ("", "", None)
  | wds =>
      let appID := ApplicationID (ls_Spec ls) in
      let deviceID := ClusterDeviceID (ls_Status ls) in
      let* deployments := do_call (CallLosant lc (GetEdgeDeployments appID deviceID)) in
      match deployments with
      | Err e => Ret ("ReleaseFailed", Error e, Some e)
      | Ok ds => release_loop lc appID deviceID (index_deployments ds) wds true
      end
  end.

(** ** Loops over the nodes *)

(** Step 5: the object with the node devices recorded so far, and the first failure. *)
Fixpoint ensure_nodes (lc : losant_impl) (clusterDeviceID : string) (names : list string) (ls : LosantSync)
  : oprog (LosantSync * option (string * error)) :=
  match names with
  | [] => Ret (ls, None)
  | nodeName :: names' =>
      let* r := do_call (CallLosant lc (EnsureNodeDevice (ls_Spec ls) nodeName clusterDeviceID)) in
      match r with
      | Err e => Ret (ls, Some (nodeName, e))
      | Ok nodeDeviceID =>
          ensure_nodes lc clusterDeviceID names'
            (with_NodeDevices ls (Some (<[nodeName := nodeDeviceID]> (node_devices ls))))
      end
  end.

(** Step 7: best effort, failures are only logged. *)
Fixpoint report_nodes (gc : gea_impl) (ls : LosantSync) (nodes : gmap string NodeHealth) (names : list string)
  : oprog unit :=
  match names with
  | [] => Ret tt
  | nodeName :: names' =>
      let nodeDeviceID := default "" (node_devices ls !! nodeName) in
      if decide (nodeDeviceID = "") then report_nodes gc ls nodes names'
      else
        let nh := default zero_NodeHealth (nodes !! nodeName) in
        do* do_call (ReportState gc (mkPayload nodeDeviceID (nodeAttributes nh) None)) in
        report_nodes gc ls nodes names'
  end.

(** ** The sync *)

(** Steps 8 and 9. *)
Definition sync_finish (ls : LosantSync) : oprog outcome :=
  let* sched := nextScheduleAndDuration (ls_Spec ls) in
  match sched with
  | Err e => setDegraded ls "LastSyncSucceeded" "ScheduleError" (Error e)
  | Ok (next, _) =>
      let* now := do_call Now in
      let ls := with_LastSyncTime ls (Some now) in
      let ls := with_NextScheduledTime ls (Some next) in
      let ls := with_Phase ls PhaseActive in
      let ls := setCondition ls "LastSyncSucceeded" ConditionTrue "SyncComplete" "sync completed successfully" in
      let* err := do_call (StatusUpdateLosantSync ls) in
      match err with
      | Some e => Ret (done_result, Some e)
      | None =>
          let* now' := do_call Now in
          Ret (requeue_after (Until next now'), None)
      end
  end.

(** Steps 6 and 7. *)
Definition sync_report (gc : gea_impl) (ls : LosantSync) (clusterDeviceID : string)
    (clusterSnapshot : ClusterHealth) (nodeSnapshot : gmap string NodeHealth) : oprog outcome :=
  let* err := do_call (ReportState gc (mkPayload clusterDeviceID (clusterAttributes clusterSnapshot) None)) in
  match err with
  | Some e => setDegraded ls "GEAReachable" "GEAUnreachable" (Error e)
  | None =>
      let ls := setCondition ls "GEAReachable" ConditionTrue "Reachable" "GEA accepted cluster state" in
      let* order := do_call (RangeKeys (dom nodeSnapshot)) in
      do* report_nodes gc ls nodeSnapshot (proj1_sig order) in
      sync_finish ls
  end.

(** Step 5b. *)
Definition sync_workflows (lc : losant_impl) (gc : gea_impl) (ls : LosantSync) (clusterDeviceID : string)
    (clusterSnapshot : ClusterHealth) (nodeSnapshot : gmap string NodeHealth) : oprog outcome :=
  let* wf := ensureWorkflowDeployments lc ls in
  match wf with
  | (wfReason, wfMsg, Some _) => setDegraded ls ConditionWorkflowDeployed wfReason wfMsg
  | (wfReason, wfMsg, None) =>
      let ls := if decide (wfReason <> "")
                then setCondition ls ConditionWorkflowDeployed ConditionTrue wfReason wfMsg else ls in
      sync_report gc ls clusterDeviceID clusterSnapshot nodeSnapshot
  end.

(** Step 5. *)
Definition sync_nodes (r : LosantSyncReconciler) (lc : losant_impl) (gc : gea_impl) (ls : LosantSync)
    (clusterDeviceID : string) : oprog outcome :=
  let* snapshot := healthSnapshot r in
  let '(clusterSnapshot, nodeSnapshot) := snapshot in
  let ls := match NodeDevices (ls_Status ls) with
            | None => with_NodeDevices ls (Some ∅)
            | Some _ => ls
            end in
  let* order := do_call (RangeKeys (dom nodeSnapshot)) in
  let* nodesDone := ensure_nodes lc clusterDeviceID (proj1_sig order) ls in
  match nodesDone with
  | (ls, Some (nodeName, nodeErr)) =>
      setDegraded ls "DevicesProvisioned" "NodeDeviceError" ("node " +:+ nodeName +:+ ": " +:+ Error nodeErr)
  | (ls, None) =>
      let ls := setCondition ls "DevicesProvisioned" ConditionTrue "Provisioned" "all devices confirmed in Losant" in
      sync_workflows lc gc ls clusterDeviceID clusterSnapshot nodeSnapshot
  end.

(** Steps 3, 4 and 4.5. *)
Definition sync_cluster (r : LosantSyncReconciler) (lc : losant_impl) (gc : gea_impl) (ls : LosantSync)
  : oprog outcome :=
  let* pingErr := do_call (CallLosant lc Ping) in
  match pingErr with
  | Some e => setDegraded ls "LastSyncSucceeded" "LosantUnreachable" (Error e)
  | None =>
      let* ensured := do_call (CallLosant lc (EnsureClusterDevice (ls_Spec ls))) in
      match ensured with
      | Err e => setDegraded ls "DevicesProvisioned" "ClusterDeviceError" (Error e)
      | Ok clusterDeviceID =>
          let ls := with_ClusterDeviceID ls clusterDeviceID in
          if IsStatusConditionTrue (Conditions (ls_Status ls)) "GEABootstrapped" then
            sync_nodes r lc gc ls clusterDeviceID
          else
            let* bootErr := Bootstrap lc ls clusterDeviceID in
            match bootErr with
            | Some e => setDegraded ls "GEABootstrapped" "BootstrapFailed" (Error e)
            | None =>
                let ls := setCondition ls "GEABootstrapped" ConditionTrue "BootstrapComplete"
                            "GEA credentials provisioned" in
                sync_nodes r lc gc ls clusterDeviceID
            end
      end
  end.

(** Steps 1 and 2. *)
Definition sync (r : LosantSyncReconciler) (ls : LosantSync) : oprog outcome :=
  let ref := ProvisioningSecretRef (ls_Spec ls) in
  let* got := do_call (GetSecret (mkNN (sr_Namespace ref) (sr_Name ref))) in
  match got with
  | Err e => setDegraded ls "LastSyncSucceeded" "SecretNotFound" (Error e)
  | Ok secret =>
      let gc := match r_GEAClient r with
                | Some gc => gc
                | None => GHTTP (NewGEAHTTPClient (GEA (ls_Spec ls)))
                end in
      match r_LosantClient r with
      | Some lc => sync_cluster r lc gc ls
      | None =>
          match NewLosantHTTPClient secret (ApplicationID (ls_Spec ls)) with
          | Err e => setDegraded ls "LastSyncSucceeded" "InvalidSecret" (Error e)
          | Ok c => sync_cluster r (LHTTP c) gc ls
          end
      end
  end.

(** ** Deletion *)

Fixpoint delete_nodes (lc : losant_impl) (appID : string) (devices : gmap string string) (names : list string)
  : oprog (option error) :=
  match names with
  | [] => Ret None
  | nodeName :: names' =>
      let* err := do_call (CallLosant lc (DeleteDevice appID (default "" (devices !! nodeName)))) in
      match err with
      | Some e => Ret (Some e)
      | None => delete_nodes lc appID devices names'
      end
  end.

(** From the loop over the node devices on. *)
Definition delete_devices (lc : losant_impl) (ls : LosantSync) : oprog outcome :=
  let appID := ApplicationID (ls_Spec ls) in
  let* order := do_call (RangeKeys (dom (node_devices ls))) in
  let* nodesErr := delete_nodes lc appID (node_devices ls) (proj1_sig order) in
  match nodesErr with
  | Some e => Ret (done_result, Some e)
  | None =>
      let* clusterErr :=
        (if decide (ClusterDeviceID (ls_Status ls) <> "")
         then do_call (CallLosant lc (DeleteDevice appID (ClusterDeviceID (ls_Status ls))))
         else Ret None) in
      match clusterErr with
      | Some e => Ret (done_result, Some e)
      | None =>
          let ls := with_finalizers ls (RemoveFinalizer (om_Finalizers (ls_Meta ls)) cleanupFinalizer) in
          let* err := do_call (UpdateLosantSync ls) in
          Ret (done_result, err)
      end
  end.

Definition handleDeletion (r : LosantSyncReconciler) (ls : LosantSync) : oprog outcome :=
  if negb (ContainsFinalizer (om_Finalizers (ls_Meta ls)) cleanupFinalizer) then Ret (done_result, None)
  else
    let ref := ProvisioningSecretRef (ls_Spec ls) in
    let* got := do_call (GetSecret (mkNN (sr_Namespace ref) (sr_Name ref))) in
    match got with
    | Err e => Ret (done_result, Some (wrapf "deletion: read provisioning secret: " e ""))
    | Ok secret =>
        match r_LosantClient r with
        | Some lc => delete_devices lc ls
        | None =>
            match NewLosantHTTPClient secret (ApplicationID (ls_Spec ls)) with
            | Err e => Ret (done_result, Some (wrapf "deletion: construct losant client: " e ""))
            | Ok c => delete_devices (LHTTP c) ls
            end
        end
    end.

(** ** Reconcile *)

(** The first reconcile of an object with the empty phase. *)
Definition first_reconcile (ls : LosantSync) : oprog outcome :=
  let ls := with_Phase ls PhaseProvisioning in
  let* now := do_call Now in
  let ls := with_NextScheduledTime ls (Some now) in
  let* err := do_call (StatusUpdateLosantSync ls) in
  match err with
  | Some e => Ret (done_result, Some e)
  | None =>
      do* EnsureCredentialPlaceholder (sr_Namespace (ProvisioningSecretRef (ls_Spec ls))) in
      Ret (requeue_after Second, None)
  end.

(** The suspended branch. *)
Definition suspend (ls : LosantSync) : oprog outcome :=
  if decide (Phase (ls_Status ls) <> PhaseSuspended) then
    let ls := with_Phase ls PhaseSuspended in
    let* err := do_call (StatusUpdateLosantSync ls) in
    match err with
    | Some e => Ret (done_result, Some e)
    | None => Ret (done_result, None)
    end
  else Ret (done_result, None).

(** The schedule check: an Active object whose next sync is in the future waits. *)
Definition schedule_check (r : LosantSyncReconciler) (ls : LosantSync) : oprog outcome :=
  match Phase (ls_Status ls), NextScheduledTime (ls_Status ls) with
  | phase, Some next =>
      if decide (phase = PhaseActive) then
        let* now := do_call Now in
        if Before now next then
          let* now' := do_call Now in
          Ret (requeue_after (Until next now'), None)
        else sync r ls
      else sync r ls
  | _, None => sync r ls
  end.

Definition LosantSync_Reconcile (r : LosantSyncReconciler) (key : NamespacedName) : oprog outcome :=
  let* got := do_call (GetLosantSync key) in
  match got with
  | Err e => if IsNotFound e then Ret (done_result, None) else Ret (done_result, Some e)
  | Ok ls =>
      if negb (IsZero (om_DeletionTimestamp (ls_Meta ls))) then handleDeletion r ls
      else
        let '(finalizers, added) := AddFinalizer (om_Finalizers (ls_Meta ls)) cleanupFinalizer in
        if added then
          let* err := do_call (UpdateLosantSync (with_finalizers ls finalizers)) in
          match err with
          | Some e => Ret (done_result, Some e)
          | None => Ret (requeue_now, None)
          end
        else if Suspend (ls_Spec ls) then suspend ls
        else if decide (Phase (ls_Status ls) = "") then first_reconcile ls
        else schedule_check r ls
  end.

End Controller.
