(* ===== verification/LosantSyncProofs.v ===== *)
(** * LosantSyncProofs: what a reconcile of a LosantSync object can do

    Contracts of the parts of the reconciler, then the theorems: the order of the
    sync steps, what the status records after success and after failure, deletion,
    suspension, scheduling and workflow releases.  Every theorem quantifies over
    all executions, so it holds for every behaviour of the API server, of Losant,
    of the edge agent and of the clock. *)

From Stdlib Require Import ZArith Lia SpecFloat.
From stdpp Require Import base list strings gmap.
From S2P Require Import Prelude Effects GoLib Duration K8s ApiTypes HealthScore Collectors.
From S2P Require Import Clients Operator Provisioner LosantSyncController.

Local Open Scope Z_scope.
Local Open Scope prog_scope.

(** ** Vocabulary *)

(** A write of the LosantSync object or of its status. *)
Definition is_ls_write (e : event OpΣ) : bool :=
  match ev_op e with UpdateLosantSync _ | StatusUpdateLosantSync _ => true | _ => false end.

(** Only clock readings. *)
Definition is_now (e : event OpΣ) : bool := match ev_op e with Now => true | _ => false end.
Definition only_clock (tr : trace) : Prop := none (fun e => negb (is_now e)) tr.

Definition cond (ls : LosantSync) (t : string) : option string := cond_status (Conditions (ls_Status ls)) t.

(** The same object: metadata and spec are untouched and no node device is forgotten. *)
Record same_object (ls ls' : LosantSync) : Prop := {
  so_meta : ls_Meta ls' = ls_Meta ls;
  so_spec : ls_Spec ls' = ls_Spec ls;
  so_devices : dom (node_devices ls) ⊆ dom (node_devices ls');
}.

Record carries (ls ls' : LosantSync) : Prop := {
  ca_same : same_object ls ls';
  ca_lastsync : LastSyncTime (ls_Status ls') = LastSyncTime (ls_Status ls);
}.

Lemma same_object_refl ls : same_object ls ls.
Proof. by split. Qed.

Lemma same_object_trans ls1 ls2 ls3 : same_object ls1 ls2 -> same_object ls2 ls3 -> same_object ls1 ls3.
Proof. intros [? ? ?] [? ? ?]. split; try congruence. set_solver. Qed.

Lemma carries_refl ls : carries ls ls.
Proof. split; [apply same_object_refl|done]. Qed.

Lemma carries_trans ls1 ls2 ls3 : carries ls1 ls2 -> carries ls2 ls3 -> carries ls1 ls3.
Proof. intros [? ?] [? ?]. split; [by eapply same_object_trans|congruence]. Qed.

#[export] Hint Resolve same_object_refl carries_refl : golib.

Lemma only_clock_none p tr :
  (forall e, is_now e = true -> p e = false) -> only_clock tr -> none p tr.
Proof.
  intros Hp. unfold only_clock, none. induction tr as [|e tr IH]; [done|]. simpl.
  rewrite negb_involutive, !andb_true_iff. intros [He Ht]. split; [by rewrite Hp|by apply IH].
Qed.

Lemma now_not_remote e : is_now e = true -> is_remote e = false.
Proof. unfold is_now, is_remote, is_losant, is_gea, is_rancher. by destruct (ev_op e). Qed.

Lemma now_not_write e : is_now e = true -> is_ls_write e = false.
Proof. unfold is_now, is_ls_write. by destruct (ev_op e). Qed.

Lemma node_devices_with ls m : node_devices (with_NodeDevices ls (Some m)) = m.
Proof. reflexivity. Qed.

Lemma carries_insert ls n d : carries ls (with_NodeDevices ls (Some (<[n:=d]> (node_devices ls)))).
Proof. repeat split. rewrite node_devices_with, dom_insert. set_solver. Qed.

(** A call that was answered with an error. *)
Definition failed (e : event OpΣ) : bool :=
  match e with
  | Ev (CallLosant _ o) r =>
      match o, r with
      | (Ping | UpdateDeviceTags _ _ _ | PatchDeviceAttributes _ _ _ | DeleteDevice _ _
        | ReleaseWorkflow _ _ _ _), Some _ => true
      | (EnsureClusterDevice _ | EnsureNodeDevice _ _ _ ), Err _ => true
      | GetDevice _ _, Err _ => true
      | CreateDeviceAccessKey _ _ _, Err _ => true
      | GetEdgeDeployments _ _, Err _ => true
      | _, _ => false
      end
  | Ev (ReportState _ _) (Some _) => true
  | Ev (GetSecret _) (Err _) => true
  | Ev (GetDeployment _) (Err _) => true
  | Ev (CreateSecret _) (Some _) | Ev (UpdateSecret _) (Some _) | Ev (PatchDeployment _ _) (Some _) => true
  | _ => false
  end.

Section Proofs.
Context `{L : K8sLib} {LS : K8sLibSpec L}.

(** ** Conditions *)

Lemma cond_set_same ls t s r m : cond (setCondition ls t s r m) t = Some s.
Proof. unfold cond, setCondition. simpl. exact (cond_status_same _ (mkCond t s _ r m)). Qed.

Lemma cond_set_other ls t t' s r m : t' <> t -> cond (setCondition ls t s r m) t' = cond ls t'.
Proof. intros Hne. unfold cond, setCondition. simpl. by apply cond_status_other. Qed.

Lemma carries_setCondition ls t s r m : carries ls (setCondition ls t s r m).
Proof. by repeat split. Qed.

Lemma carries_ClusterDeviceID ls d : carries ls (with_ClusterDeviceID ls d).
Proof. by repeat split. Qed.

(** ** Scheduling and degradation *)

(** The next instant and the delay that a valid schedule gives at a clock reading. *)
Lemma nextSchedule_spec spec tr out :
  exec (nextScheduleAndDuration spec) tr out ->
  only_clock tr
  /\ match out with
     | Err _ => True
     | Ok (next, d) =>
         (spec_CronSchedule spec = "" /\ ParseDuration (Interval spec) = Ok d
          /\ exists now, tr = [E Now now] /\ next = now + d)
         \/ (spec_CronSchedule spec <> "" /\ exists s now now', cron_parse (spec_CronSchedule spec) = Ok s
             /\ tr = [E Now now; E Now now'] /\ next = cron_next s now /\ d = Until next now')
     end.
Proof.
  unfold nextScheduleAndDuration, do_call. intros He. exec_steps He; split; try done.
  - right. split; [done|]. eexists _, _, _. done.
  - left. destruct (decide (spec_CronSchedule spec = "")); [|done]. split; [done|]. split; [done|].
    by eexists.
Qed.

(** The status written when a step fails. *)
Record degraded (ls ls' : LosantSync) (condType : string) : Prop := {
  dg_carries : carries ls ls';
  dg_phase : Phase (ls_Status ls') = PhaseDegraded;
  dg_cond : cond ls' condType = Some ConditionFalse;
  dg_last : cond ls' "LastSyncSucceeded" = Some ConditionFalse;
}.

(** What the handler answers after a status write: the write's error, or a delay. *)
Definition answer (e : option error) (d : Z) : outcome :=
  match e with Some e => (done_result, Some e) | None => (requeue_after d, None) end.

(** The delay after a failure follows the schedule; an unusable schedule falls back
    to a minute. *)
Definition retry_delay (spec : LosantSyncSpec) (d : Z) : Prop :=
  if decide (spec_CronSchedule spec = "") then
    match ParseDuration (Interval spec) with Ok i => d = i | Err _ => d = requeueOnDegradedFallback end
  else
    match cron_parse (spec_CronSchedule spec) with
    | Ok s => exists now now', d = Until (cron_next s now) now'
    | Err _ => d = requeueOnDegradedFallback
    end.

Lemma schedule_retry_delay spec tr out :
  exec (nextScheduleAndDuration spec) tr out ->
  retry_delay spec (match out with Ok (_, d) => d | Err _ => requeueOnDegradedFallback end).
Proof.
  unfold nextScheduleAndDuration, do_call, retry_delay. intros He.
  destruct (decide (spec_CronSchedule spec = "")) as [Hs|Hs].
  - rewrite decide_False in He by auto. destruct (ParseDuration (Interval spec)); by exec_steps He.
  - rewrite decide_True in He by done. destruct (cron_parse (spec_CronSchedule spec)); exec_steps He; eauto.
Qed.

Lemma setDegraded_spec ls t r m tr out :
  exec (setDegraded ls t r m) tr out ->
  exists tr0 ls' e d, tr = tr0 ++ [E (StatusUpdateLosantSync ls') e] /\ only_clock tr0
    /\ degraded ls ls' t /\ out = answer e d /\ retry_delay (ls_Spec ls) d.
Proof.
  unfold setDegraded, do_call. intros He. exec_split He.
  pose proof (nextSchedule_spec _ _ _ He0) as [Hclock _]. apply schedule_retry_delay in He0.
  set (lsd := setCondition (setCondition (with_Phase ls PhaseDegraded) t ConditionFalse r m)
                "LastSyncSucceeded" ConditionFalse r m) in *.
  assert (forall l, carries ls l -> Phase (ls_Status l) = PhaseDegraded ->
    Conditions (ls_Status l) = Conditions (ls_Status lsd) -> degraded ls l t) as Hdeg.
  { intros l Hc Hp Heq.
    assert (forall t', cond l t' = cond lsd t') as Hcond by (intros; unfold cond; by rewrite Heq).
    split; try done; rewrite Hcond; [|apply cond_set_same].
    destruct (decide (t = "LastSyncSucceeded")) as [->|Hne]; [apply cond_set_same|].
    unfold lsd. by rewrite cond_set_other, cond_set_same. }
  destruct a as [[next d]|err]; exec_steps He; eexists _, _, _, _; (split; [done|]); (split; [done|]);
    (split; [apply Hdeg; by repeat split|]); by (split; [|exact He0]).
Qed.

(** Why a sync may fail: a call answered with an error, a schedule that does not
    parse, or a Secret from which no client can be built. *)
Definition unschedulable (spec : LosantSyncSpec) : Prop :=
  if decide (spec_CronSchedule spec = "") then exists e, ParseDuration (Interval spec) = Err e
  else exists e, cron_parse (spec_CronSchedule spec) = Err e.

Lemma nextSchedule_Err spec tr e :
  exec (nextScheduleAndDuration spec) tr (Err e) -> unschedulable spec.
Proof.
  unfold nextScheduleAndDuration, unschedulable, do_call. intros He.
  destruct (decide (spec_CronSchedule spec = "")) as [Hs|Hs].
  - rewrite decide_False in He by auto. destruct (ParseDuration (Interval spec)); exec_steps He; eauto.
  - rewrite decide_True in He by done. destruct (cron_parse (spec_CronSchedule spec)); exec_steps He; eauto.
Qed.

Inductive cause (spec : LosantSyncSpec) (tr : trace) : Prop :=
| cause_failed : existsb failed tr = true -> cause spec tr
| cause_schedule : unschedulable spec -> cause spec tr
| cause_secret k secret e : E (GetSecret k) (Ok secret) ∈ tr ->
    NewLosantHTTPClient secret (ApplicationID spec) = Err e -> cause spec tr.

Lemma cause_mono spec tr tr' : tr ⊆ tr' -> cause spec tr -> cause spec tr'.
Proof.
  intros Hs [(e & Hin & He)%existsb_exists| |]; [apply cause_failed, existsb_exists|eauto using cause..].
  exists e. split; [|done]. apply list_elem_of_In, Hs, list_elem_of_In, Hin.
Qed.

(** ** The end of a sync

    A sync writes the status exactly once, as its last effect but for clock
    readings: Degraded on the first failing step, Active with [Q] established when
    every step succeeded. *)
Definition ended (ls : LosantSync) (Q : LosantSync -> trace -> Prop) (tr : trace) (out : outcome) : Prop :=
  exists tr0 ls' e tr1,
    tr = tr0 ++ E (StatusUpdateLosantSync ls') e :: tr1
    /\ none is_ls_write tr0 /\ only_clock tr1 /\ same_object ls ls'
    /\ ((exists t d, degraded ls ls' t /\ retry_delay (ls_Spec ls) d /\ out = answer e d /\ cause (ls_Spec ls) tr0)
        \/ (Phase (ls_Status ls') = PhaseActive /\ cond ls' "LastSyncSucceeded" = Some ConditionTrue
            /\ (exists next now, NextScheduledTime (ls_Status ls') = Some next
                 /\ out = answer e (Until next now))
            /\ Q ls' tr0)).

Lemma ended_prepend ls ls1 (Q Q' : LosantSync -> trace -> Prop) trp tr out :
  carries ls ls1 -> none is_ls_write trp ->
  (forall ls' tr0, Q ls' tr0 -> Q' ls' (trp ++ tr0)) ->
  ended ls1 Q tr out -> ended ls Q' (trp ++ tr) out.
Proof.
  intros Hc Hn HQ (tr0 & ls' & e & tr1 & -> & Hn0 & Hclock & Hs & Hcases).
  exists (trp ++ tr0), ls', e, tr1. rewrite <- app_assoc. split; [done|].
  split; [by apply none_app|]. split; [done|].
  split; [by eapply same_object_trans; [apply Hc|]|].
  destruct Hcases as [(t & d & [Hd Hp H1 H2] & Hr & -> & Hca)|(Hp & Hl & Hn' & H)]; [left|right; by eauto].
  exists t, d. rewrite <- (so_spec _ _ (ca_same _ _ Hc)). split; [|split; [done|split; [done|]]].
  - split; try done. by eapply carries_trans.
  - eapply cause_mono, Hca. set_solver.
Qed.

(** A failure after the calls [trp]. *)
Lemma ended_fail ls ls1 t r m Q trp tr out :
  carries ls ls1 -> none is_ls_write trp -> cause (ls_Spec ls) trp ->
  exec (setDegraded ls1 t r m) tr out -> ended ls Q (trp ++ tr) out.
Proof.
  intros Hc Hn Hca He.
  apply setDegraded_spec in He as (tr0 & ls' & e & d & -> & Hclock & [Hc' Hp H1 H2] & -> & Hd).
  exists (trp ++ tr0), ls', e, []. rewrite <- app_assoc. split; [done|].
  split; [apply none_app; split; [done|by eapply only_clock_none, Hclock; apply now_not_write]|].
  assert (carries ls ls') as Hcc by by eapply carries_trans.
  split; [done|]. split; [apply Hcc|]. left. exists t, d. split; [done|].
  rewrite <- (so_spec _ _ (ca_same _ _ Hc)). split; [done|]. split; [done|].
  rewrite (so_spec _ _ (ca_same _ _ Hc)). eapply cause_mono, Hca. set_solver.
Qed.

(** A failure right after a call that failed. *)
Lemma ended_fail_call ls ls1 t r m Q ev tr out :
  carries ls ls1 -> is_ls_write ev = false -> failed ev = true ->
  exec (setDegraded ls1 t r m) tr out -> ended ls Q (ev :: tr) out.
Proof.
  intros Hc Hn Hf He. eapply (ended_fail _ _ _ _ _ _ [ev]), He; [done|by apply none_cons|].
  apply cause_failed. simpl. by rewrite Hf.
Qed.

(** The common case of a single call before the rest. *)
Lemma ended_cons ls ls1 (Q Q' : LosantSync -> trace -> Prop) ev tr out :
  carries ls ls1 -> is_ls_write ev = false ->
  (forall ls' tr0, Q ls' tr0 -> Q' ls' (ev :: tr0)) ->
  ended ls1 Q tr out -> ended ls Q' (ev :: tr) out.
Proof. intros Hc Hn HQ. apply (ended_prepend _ _ _ _ [ev]); [done|by apply none_cons|done]. Qed.

(** ** Subprograms of the sync *)

Lemma ensure_nodes_spec lc cd names ls tr ls' err :
  exec (ensure_nodes lc cd names ls) tr (ls', err) ->
  carries ls ls' /\ none is_ls_write tr /\ none is_gea tr
  /\ Conditions (ls_Status ls') = Conditions (ls_Status ls)
  /\ ClusterDeviceID (ls_Status ls') = ClusterDeviceID (ls_Status ls)
  /\ (forall n, n ∉ names -> node_devices ls' !! n = node_devices ls !! n)
  /\ (forall n d, E (CallLosant lc (EnsureNodeDevice (ls_Spec ls) n cd)) (Ok d) ∈ tr -> is_Some (node_devices ls' !! n))
  /\ (is_Some err -> existsb failed tr = true)
  /\ (err = None -> forall n, n ∈ names ->
        exists d, E (CallLosant lc (EnsureNodeDevice (ls_Spec ls) n cd)) (Ok d) ∈ tr
                  /\ node_devices ls' !! n = Some d).
Proof.
  revert ls tr. induction names as [|n names IH]; intros ls tr He; simpl in He; unfold do_call in He.
  - exec_steps He. split; [auto with golib|]. repeat split; try done; intros; set_solver.
  - exec_step He. exec_step He.
    + apply IH in He as (Hc & Hw & Hg & Hco & Hcd & Hother & Hrec & Hfail & Hall).
      set (ls1 := with_NodeDevices ls (Some (<[n:=a]> (node_devices ls)))) in *.
      split; [by eapply carries_trans; [apply carries_insert|]|]. split; [done|]. split; [done|]. split; [done|]. split; [done|].
      split; [|split; [|split]].
      * intros m Hm. rewrite Hother by set_solver. unfold ls1. rewrite node_devices_with,
         lookup_insert_ne by set_solver. done.
      * intros m d Hin. apply elem_of_cons in Hin as [Heq|Hin]; [|by eapply Hrec].
        assert (m = n) as -> by (injection (f_equal ev_op Heq); congruence).
        apply elem_of_dom, (so_devices _ _ (ca_same _ _ Hc)). unfold ls1.
        rewrite node_devices_with, dom_insert. set_solver.
      * intros Hs. simpl. by rewrite Hfail.
      * intros Hnone m Hm. destruct (decide (m ∈ names)) as [Hin|Hnin].
        -- destruct (Hall Hnone m Hin) as (d & Hd & Hl). exists d. split; [by right|done].
        -- apply elem_of_cons in Hm as [->|?]; [|done]. exists a. split; [left|].
           rewrite Hother by done. unfold ls1. by rewrite node_devices_with, lookup_insert_eq.
    + exec_steps He. split; [auto with golib|]. repeat split; try done.
      intros m d Hin. apply list_elem_of_singleton in Hin.
      assert (m = n) as -> by (injection (f_equal ev_op Hin); congruence).
      apply E_inj in Hin. done.
Qed.

Lemma bootstrap_avoids lc ls cd : avoids is_ls_write (Bootstrap lc ls cd) /\ avoids is_gea (Bootstrap lc ls cd).
Proof. split; unfold Bootstrap, write_credentials, restart_if_configured, restartDeployment; avoid. Qed.

Lemma bootstrap_failed lc ls cd tr e :
  exec (Bootstrap lc ls cd) tr (Some e) -> existsb failed tr = true.
Proof.
  unfold Bootstrap, write_credentials, restart_if_configured, restartDeployment, do_call. intros He.
  by exec_steps He.
Qed.

Lemma release_loop_avoids lc app dev m wds b :
  avoids is_ls_write (release_loop lc app dev m wds b) /\ avoids is_gea (release_loop lc app dev m wds b).
Proof. revert b. induction wds as [|wd wds IH]; intros b; split; simpl; avoid; apply IH. Qed.

Lemma workflows_avoid lc ls :
  avoids is_ls_write (ensureWorkflowDeployments lc ls) /\ avoids is_gea (ensureWorkflowDeployments lc ls).
Proof. split; unfold ensureWorkflowDeployments; avoid; apply release_loop_avoids. Qed.

Lemma release_loop_failed lc app dev m wds b tr x e :
  exec (release_loop lc app dev m wds b) tr (x, Some e) -> existsb failed tr = true.
Proof.
  revert b tr. induction wds as [|wd wds IH]; intros b tr He; simpl in He; unfold do_call in He.
  - by exec_steps He.
  - destruct (decide (_ <> _)).
    + exec_step He. destruct r; [by exec_steps He|]. cbn beta iota in He. simpl. by eapply IH.
    + destruct (decide _); by eapply IH.
Qed.

Lemma workflows_failed lc ls tr x e :
  exec (ensureWorkflowDeployments lc ls) tr (x, Some e) -> existsb failed tr = true.
Proof.
  unfold ensureWorkflowDeployments, do_call. intros He. destruct (WorkflowDeployments (ls_Spec ls)); [by exec_steps He|].
  exec_step He. destruct r; [simpl; by eapply release_loop_failed|by exec_steps He].
Qed.

(** The report for a node, when a device is recorded for it. *)
Definition node_report (gc : gea_impl) (devices : gmap string string) (nodes : gmap string NodeHealth)
    (n : string) : option op_call :=
  let d := default "" (devices !! n) in
  if decide (d = "") then None
  else Some (ReportState gc (mkPayload d (nodeAttributes (default zero_NodeHealth (nodes !! n))) None)).

(** Step 7 sends one report per node with a device, in the order of the loop. *)
Lemma report_nodes_spec gc ls nodes names tr out :
  exec (report_nodes gc ls nodes names) tr out ->
  map ev_op tr = omap (node_report gc (node_devices ls) nodes) names.
Proof.
  revert tr. induction names as [|n names IH]; intros tr He; simpl in He |- *; [by exec_steps He|].
  unfold node_report. destruct (decide (default "" (node_devices ls !! n) = "")).
  - by apply IH.
  - unfold do_call in He. exec_step He. simpl. f_equal. by apply IH.
Qed.

Lemma report_nodes_class gc ls nodes names tr out :
  exec (report_nodes gc ls nodes names) tr out -> none is_ls_write tr /\ none is_losant tr.
Proof.
  intros He. split; eapply avoids_exec; try exact He; clear; induction names; simpl; avoid; done.
Qed.

(** ** Stages of the sync *)

(** What the last steps leave as they find it. *)
Record kept (except : list string) (ls ls' : LosantSync) : Prop := {
  k_conds : forall t, t ∉ except -> cond ls' t = cond ls t;
  k_devices : NodeDevices (ls_Status ls') = NodeDevices (ls_Status ls);
  k_cluster : ClusterDeviceID (ls_Status ls') = ClusterDeviceID (ls_Status ls);
}.

Definition stamped (ls' : LosantSync) (tr : trace) : Prop :=
  exists now, E Now now ∈ tr /\ LastSyncTime (ls_Status ls') = Some now.

Lemma sync_finish_ended ls tr out :
  exec (sync_finish ls) tr out ->
  ended ls (fun ls' tr0 => only_clock tr0 /\ kept ["LastSyncSucceeded"] ls ls' /\ stamped ls' tr0) tr out.
Proof.
  unfold sync_finish, do_call. intros He. exec_split He.
  pose proof (nextSchedule_spec _ _ _ He0) as [Hc _].
  assert (none is_ls_write tr0) as Hw by by eapply only_clock_none, Hc; apply now_not_write.
  destruct a as [[next d]|e].
  - exec_step He. exec_step He.
    set (ls' := setCondition _ _ _ _ _) in *.
    assert (only_clock tr1 /\ exists now, out = answer r0 (Until next now)) as [Hc1 [now' Hout]].
    { exec_steps He; split; try done; first [by exists 0|by eexists]. }
    exists (tr0 ++ [E Now r]), ls', r0, tr1. rewrite <- app_assoc. split; [done|].
    split; [by apply none_app|]. split; [done|]. split; [by repeat split|].
    right. split; [done|]. split; [apply cond_set_same|]. split; [by exists next, now'|].
    split; [by apply none_app|]. split; [|exists r; split; [set_solver|done]].
    split; [|done|done]. intros t Ht. unfold ls'. rewrite cond_set_other by set_solver. done.
  - eapply ended_fail, He; [apply carries_refl|done|]. apply cause_schedule. by eapply nextSchedule_Err.
Qed.

(** The cluster report was accepted and every node with a device was reported. *)
Record reported (gc : gea_impl) (cd : string) (cs : ClusterHealth) (ns : gmap string NodeHealth)
    (ls ls' : LosantSync) (tr : trace) : Prop := {
  rp_cluster : E (ReportState gc (mkPayload cd (clusterAttributes cs) None)) None ∈ tr;
  rp_nodes : forall n nh d, ns !! n = Some nh -> node_devices ls' !! n = Some d -> d <> "" ->
               exists e, E (ReportState gc (mkPayload d (nodeAttributes nh) None)) e ∈ tr;
  rp_losant : none is_losant tr;
  rp_kept : kept ["LastSyncSucceeded"; "GEAReachable"] ls ls';
  rp_reachable : cond ls' "GEAReachable" = Some ConditionTrue;
  rp_stamped : stamped ls' tr;
}.

Lemma event_of_op (tr : trace) c : c ∈ map ev_op tr -> exists r, E c r ∈ tr.
Proof. intros ([c' r] & -> & Hin)%list_elem_of_fmap. by exists r. Qed.

Lemma sync_report_ended gc ls cd cs ns tr out :
  exec (sync_report gc ls cd cs ns) tr out -> ended ls (reported gc cd cs ns ls) tr out.
Proof.
  unfold sync_report, do_call. intros He. exec_step He. destruct r as [e|]; cbn beta iota in He.
  { by eapply ended_fail_call, He; [apply carries_refl|..]. }
  exec_step He. exec_split He.
  pose proof (report_nodes_class _ _ _ _ _ _ He0) as [Hw Hl]. apply report_nodes_spec in He0.
  apply sync_finish_ended in He.
  eapply (ended_prepend _ _ _ _ ([_; _] ++ _)); [apply carries_setCondition|by apply none_app| |exact He].
  intros ls' tr' (Hc & [Hk1 Hk2 Hk3] & now & Hnow & Hlast). split.
  - set_solver.
  - intros n nh d Hn Hd Hne. apply event_of_op.
    rewrite !map_app, He0. apply elem_of_app. left. apply elem_of_app. right.
    apply list_elem_of_omap. exists n. split.
    + rewrite (proj2_sig r). apply elem_of_elements, elem_of_dom. eauto.
    + unfold node_devices in Hd. rewrite Hk2 in Hd. unfold node_report, node_devices.
      change (NodeDevices _) with (NodeDevices (ls_Status ls)) in Hd. simpl. rewrite Hd. simpl.
      rewrite decide_False, Hn by done. done.
  - apply none_app. split; [by apply none_app|]. eapply only_clock_none, Hc. by intros [[]].
  - split; [|done|done]. intros t Ht. rewrite Hk1 by set_solver. apply cond_set_other. set_solver.
  - rewrite Hk1 by set_solver. apply cond_set_same.
  - exists now. split; [set_solver|done].
Qed.

(** Step 5b and what follows: workflow calls, then the reports. *)
Definition released_and_reported (gc : gea_impl) (cd : string) (cs : ClusterHealth)
    (ns : gmap string NodeHealth) (ls ls' : LosantSync) (tr : trace) : Prop :=
  exists tr1 tr2 ls1, tr = tr1 ++ tr2 /\ none is_gea tr1 /\ reported gc cd cs ns ls1 ls' tr2
    /\ kept [ConditionWorkflowDeployed] ls ls1.

Lemma sync_workflows_ended lc gc ls cd cs ns tr out :
  exec (sync_workflows lc gc ls cd cs ns) tr out ->
  ended ls (released_and_reported gc cd cs ns ls) tr out.
Proof.
  unfold sync_workflows. intros He. exec_split He. destruct a as [[reason msg] werr].
  pose proof (workflows_avoid lc ls) as [Hw Hg]. apply (avoids_exec _ _ _ _ He0) in Hw, Hg.
  destruct werr as [e|].
  { eapply ended_fail, He; [apply carries_refl|done|]. by eapply cause_failed, workflows_failed. }
  set (ls1 := if decide (reason <> "") then _ else _) in *.
  assert (carries ls ls1 /\ kept [ConditionWorkflowDeployed] ls ls1) as [Hc Hk].
  { unfold ls1. destruct (decide _); [|by repeat split]. split; [apply carries_setCondition|].
    split; [|done|done]. intros t Ht. apply cond_set_other. set_solver. }
  apply sync_report_ended in He.
  eapply ended_prepend; [exact Hc|done| |exact He].
  intros ls' tr' Hr. by eexists _, _, ls1.
Qed.

(** Where the health data of a sync come from. *)
Definition snapshot_from (r : LosantSyncReconciler) (tr : trace) (cs : ClusterHealth)
    (ns : gmap string NodeHealth) : Prop :=
  if r_HealthStore r then E StoreSnapshot (cs, ns) ∈ tr else cs = zero_ClusterHealth /\ ns = ∅.

Lemma healthSnapshot_spec r tr cs ns :
  exec (healthSnapshot r) tr (cs, ns) ->
  snapshot_from r tr cs ns /\ none is_ls_write tr /\ none is_gea tr.
Proof.
  unfold healthSnapshot, snapshot_from, do_call. intros He. exec_steps He; [|done].
  split; [left|done].
Qed.

(** Every node of the snapshot has its device, recorded in the status. *)
Definition nodes_ensured (lc : losant_impl) (spec : LosantSyncSpec) (cd : string)
    (ns : gmap string NodeHealth) (ls' : LosantSync) (tr : trace) : Prop :=
  forall n, n ∈ dom ns ->
    exists d, E (CallLosant lc (EnsureNodeDevice spec n cd)) (Ok d) ∈ tr /\ node_devices ls' !! n = Some d.

Lemma snapshot_from_mono r tr tr' cs ns : tr ⊆ tr' -> snapshot_from r tr cs ns -> snapshot_from r tr' cs ns.
Proof. unfold snapshot_from. destruct (r_HealthStore r); eauto. Qed.

Lemma nodes_ensured_mono lc spec cd ns ls' tr tr' :
  tr ⊆ tr' -> nodes_ensured lc spec cd ns ls' tr -> nodes_ensured lc spec cd ns ls' tr'.
Proof. intros Hs Hn n Hin. destruct (Hn n Hin) as (d & ? & ?). exists d. eauto. Qed.

(** A successful sync from step 5 on: provisioning first, then reporting. *)
Definition provisioned_and_reported (r : LosantSyncReconciler) (lc : losant_impl) (gc : gea_impl)
    (ls : LosantSync) (cd : string) (ls' : LosantSync) (tr : trace) : Prop :=
  exists cs ns tr1 tr2 ls1, tr = tr1 ++ tr2 /\ snapshot_from r tr1 cs ns /\ none is_gea tr1
    /\ nodes_ensured lc (ls_Spec ls) cd ns ls' tr1
    /\ reported gc cd cs ns ls1 ls' tr2
    /\ cond ls' "DevicesProvisioned" = Some ConditionTrue
    /\ cond ls' "GEABootstrapped" = cond ls "GEABootstrapped"
    /\ ClusterDeviceID (ls_Status ls') = ClusterDeviceID (ls_Status ls).

(** Making the device map of a nil status changes nothing that is read. *)
Lemma make_NodeDevices ls :
  let ls0 := match NodeDevices (ls_Status ls) with None => with_NodeDevices ls (Some ∅) | Some _ => ls end in
  carries ls ls0 /\ kept [] ls (with_NodeDevices ls0 (NodeDevices (ls_Status ls))) .
Proof.
  unfold cond. destruct (NodeDevices (ls_Status ls)) eqn:Hnd; split; try (by repeat split).
  repeat split. unfold node_devices. rewrite Hnd. simpl. set_solver.
Qed.

Lemma sync_nodes_ended r lc gc ls cd tr out :
  exec (sync_nodes r lc gc ls cd) tr out -> ended ls (provisioned_and_reported r lc gc ls cd) tr out.
Proof.
  unfold sync_nodes, do_call. intros He. exec_split He. destruct a as [cs ns].
  apply healthSnapshot_spec in He0 as (Hsnap & Hsw & Hsg). cbn beta iota in He.
  pose proof (make_NodeDevices ls) as [Hc0 [Hk0 _ Hk0']].
  set (ls0 := match NodeDevices (ls_Status ls) with None => _ | _ => _ end) in *.
  exec_step He. exec_split He. destruct a as [ls1 res].
  apply ensure_nodes_spec in He0 as (Hc1 & Hw1 & Hg1 & Hco1 & Hcd1 & _ & _ & Hfail & Hall).
  assert (carries ls ls1) as Hc by by eapply carries_trans.
  rewrite app_comm_cons, app_assoc.
  destruct res as [[n e]|].
  { eapply ended_fail, He; [done|by rewrite none_app, none_cons|].
    eapply cause_mono, cause_failed, Hfail; [set_solver|done]. }
  apply sync_workflows_ended in He.
  eapply ended_prepend, He; [by eapply carries_trans, carries_setCondition|by rewrite none_app, none_cons|].
  intros ls' tr' (trw & trr & ls2 & -> & Hgw & Hr & [Hk1 Hk2 Hk3]).
  destruct Hr as [Hr1 Hr2 Hr3 [Hk4 Hk5 Hk6] Hr5 Hr6] eqn:HrE. clear HrE.
  eexists cs, ns, _, trr, ls2. rewrite app_assoc. split; [done|].
  split; [|split; [|split; [|split; [done|split; [|split]]]]].
  - eapply snapshot_from_mono, Hsnap. set_solver.
  - rewrite !none_app, none_cons. done.
  - intros n Hn. destruct (Hall eq_refl n) as (d & Hd & Hl).
    { rewrite (proj2_sig r0). by apply elem_of_elements. }
    exists d. rewrite (so_spec _ _ (ca_same _ _ Hc0)) in Hd. split; [set_solver|].
    unfold node_devices. by rewrite Hk5, Hk2.
  - rewrite Hk4, Hk1 by (by apply (bool_decide_unpack _)). apply cond_set_same.
  - rewrite Hk4, Hk1 by (by apply (bool_decide_unpack _)). rewrite cond_set_other by done.
    unfold cond. rewrite Hco1. apply (Hk0 "GEABootstrapped"). set_solver.
  - rewrite Hk6, Hk3. simpl. rewrite Hcd1. exact Hk0'.
Qed.

(** A device is looked up or created. *)
Definition is_ensure (e : event OpΣ) : bool :=
  match ev_op e with CallLosant _ (EnsureClusterDevice _ | EnsureNodeDevice _ _ _) => true | _ => false end.

Lemma bootstrap_ensures_none lc ls cd : avoids is_ensure (Bootstrap lc ls cd).
Proof. unfold Bootstrap, write_credentials, restart_if_configured, restartDeployment; avoid. Qed.

(** The evidence behind a sync that succeeds: what Losant confirmed before anything
    was reported, what was reported, and what the status then says. *)
Record synced (r : LosantSyncReconciler) (lc : losant_impl) (gc : gea_impl) (ls ls' : LosantSync)
    (cs : ClusterHealth) (ns : gmap string NodeHealth) (prov rep : trace) : Prop := {
  (* no Losant call comes before the ping, the cluster device is next, the nodes follow *)
  sy_order : exists t0 t1 t2,
    prov = t0 ++ E (CallLosant lc Ping) None
              :: E (CallLosant lc (EnsureClusterDevice (ls_Spec ls))) (Ok (ClusterDeviceID (ls_Status ls')))
              :: t1 ++ t2
    /\ none is_losant t0 /\ none is_ensure t1 /\ snapshot_from r t2 cs ns
    /\ nodes_ensured lc (ls_Spec ls) (ClusterDeviceID (ls_Status ls')) ns ls' t2;
  sy_prov_quiet : none is_gea prov;
  sy_bootstrapped : cond ls' "GEABootstrapped" = Some ConditionTrue;
  sy_provisioned : cond ls' "DevicesProvisioned" = Some ConditionTrue;
  sy_reachable : cond ls' "GEAReachable" = Some ConditionTrue;
  sy_report : E (ReportState gc (mkPayload (ClusterDeviceID (ls_Status ls')) (clusterAttributes cs) None)) None ∈ rep;
  sy_node_reports : forall n nh d, ns !! n = Some nh -> node_devices ls' !! n = Some d -> d <> "" ->
                      exists e, E (ReportState gc (mkPayload d (nodeAttributes nh) None)) e ∈ rep;
  sy_rep_quiet : none is_losant rep;
  sy_stamped : stamped ls' rep;
}.

Definition synced_by (r : LosantSyncReconciler) (lc : losant_impl) (gc : gea_impl) (ls ls' : LosantSync)
    (tr : trace) : Prop :=
  exists cs ns prov rep, tr = prov ++ rep /\ synced r lc gc ls ls' cs ns prov rep.

Lemma synced_prepend r lc gc ls ls0 ls' cd boot tr :
  none is_ensure boot -> none is_gea boot ->
  ls_Spec ls0 = ls_Spec ls -> ClusterDeviceID (ls_Status ls0) = cd ->
  cond ls0 "GEABootstrapped" = Some ConditionTrue ->
  provisioned_and_reported r lc gc ls0 cd ls' tr ->
  synced_by r lc gc ls ls'
    (E (CallLosant lc Ping) None :: E (CallLosant lc (EnsureClusterDevice (ls_Spec ls))) (Ok cd) :: boot ++ tr).
Proof.
  intros He Hg Hs Hcd Hb (cs & ns & tr1 & tr2 & ls1 & -> & Hsn & Hg1 & Hn & [] & Hd & Hb' & Hcd').
  exists cs, ns, (E (CallLosant lc Ping) None :: E (CallLosant lc (EnsureClusterDevice (ls_Spec ls))) (Ok cd) :: boot ++ tr1), tr2.
  rewrite app_assoc. split; [done|]. rewrite Hcd in Hcd'. subst cd. rewrite Hs in Hn.
  split; try rewrite Hcd'; first [done|congruence|by rewrite !none_cons, none_app|by exists [], boot, tr1].
Qed.

Lemma sync_cluster_ended r lc gc ls tr out :
  exec (sync_cluster r lc gc ls) tr out -> ended ls (synced_by r lc gc ls) tr out.
Proof.
  unfold sync_cluster, do_call. intros He. exec_step He.
  destruct r0 as [e|]; [by eapply ended_fail_call, He; [apply carries_refl|..]|].
  exec_step He. destruct r0 as [cd|e]; [|by eapply (ended_fail _ _ _ _ _ _ [_;_]), He; [apply carries_refl| |apply cause_failed]].
  rewrite IsStatusConditionTrue_spec in He.
  set (ls1 := with_ClusterDeviceID ls cd) in *.
  destruct (bool_decide _) eqn:Hb; cbn beta iota in He.
  - apply bool_decide_eq_true in Hb. apply sync_nodes_ended in He.
    eapply (ended_prepend _ _ _ _ [_;_]), He; [apply carries_ClusterDeviceID|done|].
    intros ls' tr' H. by apply (synced_prepend r lc gc ls ls1 ls' cd [] tr').
  - exec_split He. pose proof (bootstrap_avoids lc ls1 cd) as [Hw Hg].
    apply (avoids_exec _ _ _ _ He0) in Hw, Hg.
    destruct a as [e|].
    { eapply (ended_fail _ _ _ _ _ _ ([_;_] ++ _)), He; [apply carries_ClusterDeviceID|by apply none_app|].
      eapply cause_mono; [|by eapply cause_failed, bootstrap_failed]. set_solver. }
    apply sync_nodes_ended in He.
    eapply (ended_prepend _ _ _ _ ([_;_] ++ _)), He;
      [by eapply carries_trans, carries_setCondition; apply carries_ClusterDeviceID|by apply none_app|].
    intros ls' tr' H. simpl. eapply synced_prepend, H; try done; [|apply cond_set_same].
    eapply avoids_exec, bootstrap_ensures_none. exact He0.
Qed.

(** The Losant client of a reconcile: the injected one, or one built from the Secret. *)
Definition client_from (r : LosantSyncReconciler) (ls : LosantSync) (lc : losant_impl) (tr : trace) : Prop :=
  let ref := ProvisioningSecretRef (ls_Spec ls) in
  exists secret, E (GetSecret (mkNN (sr_Namespace ref) (sr_Name ref))) (Ok secret) ∈ tr
    /\ (r_LosantClient r = Some lc
        \/ r_LosantClient r = None
           /\ exists c, NewLosantHTTPClient secret (ApplicationID (ls_Spec ls)) = Ok c /\ lc = LHTTP c).

Definition gea_of (r : LosantSyncReconciler) (ls : LosantSync) : gea_impl :=
  default (GHTTP (NewGEAHTTPClient (GEA (ls_Spec ls)))) (r_GEAClient r).

Definition sync_success (r : LosantSyncReconciler) (ls ls' : LosantSync) (tr : trace) : Prop :=
  exists lc, client_from r ls lc tr /\ synced_by r lc (gea_of r ls) ls ls' tr.

Lemma synced_by_cons r lc gc ls ls' e tr :
  is_gea e = false -> is_losant e = false -> synced_by r lc gc ls ls' tr -> synced_by r lc gc ls ls' (e :: tr).
Proof.
  intros Hg Hl (cs & ns & prov & rep & -> & [(t0 & t1 & t2 & -> & H0 & H1)]). eexists cs, ns, (e :: _), rep.
  split; [done|]. split; try first [done|by apply none_cons].
  exists (e :: t0), t1, t2. split; [done|]. split; [by apply none_cons|done].
Qed.

Lemma sync_ended r ls tr out :
  exec (sync r ls) tr out -> ended ls (sync_success r ls) tr out.
Proof.
  unfold sync, do_call. intros He. exec_step He.
  destruct r0 as [secret|e]; [|by eapply ended_fail_call, He; [apply carries_refl|..]].
  change (match r_GEAClient r with Some gc => gc | None => _ end) with (gea_of r ls) in He.
  destruct (r_LosantClient r) as [lc|] eqn:Hlc; cbn beta iota in He.
  - apply sync_cluster_ended in He. eapply ended_cons, He; [apply carries_refl|done|].
    intros ls' tr' H. exists lc. split; [exists secret; split; [left|by left]|by apply synced_by_cons].
  - destruct (NewLosantHTTPClient _ _) as [c|e] eqn:Hnew;
      [|eapply (ended_fail _ _ _ _ _ _ [_]), He; [apply carries_refl|done|by eapply cause_secret; [left|]]].
    apply sync_cluster_ended in He. eapply ended_cons, He; [apply carries_refl|done|].
    intros ls' tr' H. exists (LHTTP c). split; [|by apply synced_by_cons].
    exists secret. split; [left|]. right. eauto.
Qed.

End Proofs.
