(* ===== verification/LosantSyncDevices.v ===== *)
(** * LosantSyncDevices: where the device identifiers of a status come from

    Whatever status a reconcile writes, each identifier in it is the one the object had
    or one that Losant confirmed in the same reconcile. *)

From Stdlib Require Import ZArith.
From stdpp Require Import base list strings gmap.
From S2P Require Import Prelude Effects GoLib Duration K8s ApiTypes HealthScore Collectors.
From S2P Require Import Clients Operator Provisioner LosantSyncController LosantSyncProofs.

Local Open Scope prog_scope.

Record ids_from (ls ls' : LosantSync) (h : trace) : Prop := {
  if_nodes : forall n d, node_devices ls' !! n = Some d ->
    node_devices ls !! n = Some d
    \/ exists lc cd, E (CallLosant lc (EnsureNodeDevice (ls_Spec ls) n cd)) (Ok d) ∈ h;
  if_cluster : ClusterDeviceID (ls_Status ls') = ClusterDeviceID (ls_Status ls)
    \/ exists lc, E (CallLosant lc (EnsureClusterDevice (ls_Spec ls))) (Ok (ClusterDeviceID (ls_Status ls'))) ∈ h;
}.

Definition ids_guard (ls : LosantSync) (h : trace) (c : op_call) : Prop :=
  match c with StatusUpdateLosantSync ls' => ids_from ls ls' h | _ => True end.

Lemma ids_from_refl ls h : ids_from ls ls h.
Proof. split; auto. Qed.

(** Later events, and changes to other fields, keep the origin. *)
Lemma ids_from_mono ls ls1 ls2 h h' :
  ids_from ls ls1 h -> h ⊆ h' -> node_devices ls2 = node_devices ls1 ->
  ClusterDeviceID (ls_Status ls2) = ClusterDeviceID (ls_Status ls1) -> ids_from ls ls2 h'.
Proof.
  intros [Hn Hc] Hh Heq Hcd. split.
  - rewrite Heq. intros n d Hd. destruct (Hn n d Hd) as [?|(lc & cd & Hin)]; [by left|right]. exists lc, cd. by apply Hh.
  - rewrite Hcd. destruct Hc as [?|(lc & Hin)]; [by left|right]. exists lc. by apply Hh.
Qed.

Lemma ids_from_cluster ls lc cd h :
  E (CallLosant lc (EnsureClusterDevice (ls_Spec ls))) (Ok cd) ∈ h -> ids_from ls (with_ClusterDeviceID ls cd) h.
Proof. intros Hin. split; [by left|right; eauto]. Qed.

Lemma ids_from_node ls ls1 lc cd n d h :
  ids_from ls ls1 h -> E (CallLosant lc (EnsureNodeDevice (ls_Spec ls) n cd)) (Ok d) ∈ h ->
  ids_from ls (with_NodeDevices ls1 (Some (<[n := d]> (node_devices ls1)))) h.
Proof.
  intros [Hn Hc] Hin. split; [|exact Hc]. intros m d'. rewrite node_devices_with.
  destruct (decide (n = m)) as [->|Hne]; [rewrite lookup_insert_eq|rewrite lookup_insert_ne by done; apply Hn].
  intros [= <-]. eauto.
Qed.

(** Programs that write no status need no care. *)
Lemma guarded_silent {A} ls h (p : oprog A) : avoids is_ls_write p -> guarded (ids_guard ls) h p.
Proof.
  revert h. induction p as [a|c k IH]; intros h Hp; [done|]. split.
  - destruct c; try done. assert (Some (Errorf "") = None) as [=].
    destruct (Hp None) as [Hw _]. done.
  - intros r. apply IH. destruct (Hp r). done.
Qed.

Ltac silent := cbn [bind call]; apply guarded_bind; [apply guarded_silent|].
Ltac grow H := eapply ids_from_mono; [exact H|set_solver|reflexivity|reflexivity].

Section Guards.
Context `{L : K8sLib} {LS : K8sLibSpec L}.

Lemma nextSchedule_avoids spec : avoids is_ls_write (nextScheduleAndDuration spec).
Proof. unfold nextScheduleAndDuration. avoid. Qed.

Lemma setDegraded_ids ls ls1 t r m h :
  ids_from ls ls1 h -> guarded (ids_guard ls) h (setDegraded ls1 t r m).
Proof.
  intros Hi. unfold setDegraded, do_call. silent; [apply nextSchedule_avoids|].
  intros tr a _. destruct a as [[next d]|e]; (split; [grow Hi|by intros []]).
Qed.

Lemma sync_finish_ids ls ls1 h : ids_from ls ls1 h -> guarded (ids_guard ls) h (sync_finish ls1).
Proof.
  intros Hi. unfold sync_finish, do_call. silent; [apply nextSchedule_avoids|].
  intros tr [[next d]|e] _; [|apply setDegraded_ids; grow Hi].
  split; [done|]. intros now. split; [grow Hi|]. by intros [].
Qed.

Lemma report_nodes_avoids gc ls ns names : avoids is_ls_write (report_nodes gc ls ns names).
Proof. induction names; simpl; avoid; done. Qed.

Lemma sync_report_ids gc ls ls1 cd cs ns h :
  ids_from ls ls1 h -> guarded (ids_guard ls) h (sync_report gc ls1 cd cs ns).
Proof.
  intros Hi. unfold sync_report, do_call. split; [done|]. intros [e|]; [apply setDegraded_ids; grow Hi|].
  split; [done|]. intros order. silent; [apply report_nodes_avoids|]. intros tr [] _. apply sync_finish_ids. grow Hi.
Qed.

Lemma sync_workflows_ids lc gc ls ls1 cd cs ns h :
  ids_from ls ls1 h -> guarded (ids_guard ls) h (sync_workflows lc gc ls1 cd cs ns).
Proof.
  intros Hi. unfold sync_workflows. silent; [apply workflows_avoid|].
  intros tr [[reason msg] [e|]] _; [apply setDegraded_ids; grow Hi|]. apply sync_report_ids.
  destruct (decide _); grow Hi.
Qed.

Lemma ensure_nodes_ids lc cd ls names : forall ls1 h tr ls2 err,
  ids_from ls ls1 h -> ls_Spec ls1 = ls_Spec ls -> exec (ensure_nodes lc cd names ls1) tr (ls2, err) ->
  ids_from ls ls2 (h ++ tr).
Proof.
  induction names as [|n names IH]; intros ls1 h tr ls2 err Hi Hs He; simpl in He; unfold do_call in He.
  - exec_steps He. grow Hi.
  - exec_step He. exec_step He.
    + rewrite cons_middle, app_assoc. eapply IH, He; [|done].
      eapply (ids_from_node _ _ lc cd); [grow Hi|]. rewrite <- Hs. set_solver.
    + exec_steps He. grow Hi.
Qed.

Lemma ensure_nodes_avoids lc cd names : forall ls, avoids is_ls_write (ensure_nodes lc cd names ls).
Proof.
  induction names as [|n names IH]; intros ls; simpl; [done|]. intros [d|e]; (split; [done|]); [apply IH|done].
Qed.

Lemma sync_nodes_ids r lc gc ls ls1 cd h :
  ids_from ls ls1 h -> ls_Spec ls1 = ls_Spec ls -> guarded (ids_guard ls) h (sync_nodes r lc gc ls1 cd).
Proof.
  intros Hi Hs. unfold sync_nodes, do_call. silent; [unfold healthSnapshot; avoid|].
  intros tr [cs ns] _. set (ls0 := match NodeDevices (ls_Status ls1) with None => _ | _ => _ end).
  assert (ids_from ls ls0 (h ++ tr) /\ ls_Spec ls0 = ls_Spec ls) as [Hi0 Hs0].
  { unfold ls0. destruct (NodeDevices (ls_Status ls1)) eqn:Hnd; (split; [|done]); [grow Hi|].
    eapply ids_from_mono; [exact Hi|set_solver| |done]. unfold node_devices. by rewrite Hnd. }
  split; [done|]. intros order. silent; [apply ensure_nodes_avoids|].
  intros tr1 [ls2 err] He. apply (ensure_nodes_ids lc cd ls _ ls0 ((h ++ tr) ++ [Ev _ order])) in He; [|grow Hi0|done].
  destruct err as [[n e]|]; [apply setDegraded_ids; grow He|apply sync_workflows_ids; grow He].
Qed.

Lemma sync_cluster_ids r lc gc ls h : guarded (ids_guard ls) h (sync_cluster r lc gc ls).
Proof.
  unfold sync_cluster, do_call. split; [done|]. intros [e|]; [apply setDegraded_ids, ids_from_refl|].
  split; [done|]. intros [cd|e]; [|apply setDegraded_ids, ids_from_refl].
  assert (forall h', ids_from ls (with_ClusterDeviceID ls cd)
    ((((h ++ [E (CallLosant lc Ping) None]) ++ [E (CallLosant lc (EnsureClusterDevice (ls_Spec ls))) (Ok cd)]) ++ h'))) as Hi
    by (intros h'; apply (ids_from_cluster ls lc); set_solver).
  cbn [bind call]. destruct (IsStatusConditionTrue (Conditions (ls_Status (with_ClusterDeviceID ls cd))) "GEABootstrapped").
  - apply sync_nodes_ids; [|done]. specialize (Hi []). by rewrite app_nil_r in Hi.
  - silent; [apply bootstrap_avoids|]. intros tr [e|] _; [apply setDegraded_ids, Hi|].
    apply sync_nodes_ids; [|done]. specialize (Hi tr). grow Hi.
Qed.

Lemma sync_ids r ls h : guarded (ids_guard ls) h (sync r ls).
Proof.
  unfold sync, do_call. split; [done|]. intros [secret|e]; [|apply setDegraded_ids, ids_from_refl].
  destruct (r_LosantClient r); [apply sync_cluster_ids|].
  cbn [bind call]. destruct (NewLosantHTTPClient secret (ApplicationID (ls_Spec ls))); [apply sync_cluster_ids|apply setDegraded_ids, ids_from_refl].
Qed.

Lemma schedule_check_ids r ls h : guarded (ids_guard ls) h (schedule_check r ls).
Proof.
  unfold schedule_check, do_call. destruct (NextScheduledTime (ls_Status ls)) as [next|]; [|apply sync_ids].
  destruct (decide (Phase (ls_Status ls) = PhaseActive)); [|apply sync_ids].
  split; [done|]. intros now. cbn [bind call]. destruct (Before now next); [by split|apply sync_ids].
Qed.

End Guards.
