(* ===== verification/LosantSyncTheorems.v ===== *)
(** * LosantSyncTheorems: the contract of the LosantSync reconciler

    Theorems about [LosantSync_Reconcile], for every execution: what an Active or a
    Degraded status means, the phases as a state machine, finalizer and deletion,
    suspension, scheduling, workflow releases and the reported attributes. *)

From Stdlib Require Import ZArith Lia SpecFloat.
From stdpp Require Import base list strings gmap.
From S2P Require Import Prelude Effects GoLib Duration K8s ApiTypes HealthScore Collectors.
From S2P Require Import Clients Operator Provisioner LosantSyncController LosantSyncProofs LosantSyncDevices.

Local Open Scope Z_scope.
Local Open Scope prog_scope.

Section Theorems.
Context `{L : K8sLib} {LS : K8sLibSpec L}.

(** ** The branches of Reconcile *)

Inductive reconciled (r : LosantSyncReconciler) (ls : LosantSync) (tr : trace) (out : outcome) : Prop :=
| rc_delete :
    deleting (ls_Meta ls) = true -> exec (handleDeletion r ls) tr out -> reconciled r ls tr out
| rc_finalizer e :
    deleting (ls_Meta ls) = false -> cleanupFinalizer ∉ om_Finalizers (ls_Meta ls) ->
    tr = [E (UpdateLosantSync (with_finalizers ls (om_Finalizers (ls_Meta ls) ++ [cleanupFinalizer]))) e] ->
    out = match e with Some e => (done_result, Some e) | None => (requeue_now, None) end ->
    reconciled r ls tr out
| rc_suspend :
    deleting (ls_Meta ls) = false -> cleanupFinalizer ∈ om_Finalizers (ls_Meta ls) ->
    Suspend (ls_Spec ls) = true -> exec (suspend ls) tr out -> reconciled r ls tr out
| rc_first :
    deleting (ls_Meta ls) = false -> cleanupFinalizer ∈ om_Finalizers (ls_Meta ls) ->
    Suspend (ls_Spec ls) = false -> Phase (ls_Status ls) = "" -> exec (first_reconcile ls) tr out ->
    reconciled r ls tr out
| rc_sync :
    deleting (ls_Meta ls) = false -> cleanupFinalizer ∈ om_Finalizers (ls_Meta ls) ->
    Suspend (ls_Spec ls) = false -> Phase (ls_Status ls) <> "" -> exec (schedule_check r ls) tr out ->
    reconciled r ls tr out.

Lemma reconcile_cases r key ls tr out :
  exec (LosantSync_Reconcile r key) (E (GetLosantSync key) (Ok ls) :: tr) out -> reconciled r ls tr out.
Proof.
  intros He. unfold LosantSync_Reconcile in He. unfold do_call in He. cbn [bind call] in He.
  apply exec_head in He. cbn beta iota in He. fold (deleting (ls_Meta ls)) in He.
  destruct (deleting (ls_Meta ls)) eqn:Hd; [by apply rc_delete|].
  rewrite AddFinalizer_spec, ContainsFinalizer_spec in He.
  destruct (bool_decide _) eqn:Hf; cbn beta iota in He.
  - apply bool_decide_eq_true in Hf. destruct (Suspend (ls_Spec ls)) eqn:Hs; [by apply rc_suspend|].
    destruct (decide (Phase (ls_Status ls) = "")); [by apply rc_first|by apply rc_sync].
  - apply bool_decide_eq_false in Hf. exec_step He. eapply rc_finalizer; try done; by exec_steps He.
Qed.

(** What the first reconcile and the suspended branch do. *)
Lemma first_reconcile_spec ls tr out :
  exec (first_reconcile ls) tr out ->
  exists now e tr1, tr = E Now now :: E (StatusUpdateLosantSync (with_NextScheduledTime
                          (with_Phase ls PhaseProvisioning) (Some now))) e :: tr1
    /\ none is_ls_write tr1 /\ none is_remote tr1 /\ out = answer e Second.
Proof.
  unfold first_reconcile. unfold do_call at 1 2. intros He. exec_step He. exec_step He.
  destruct r0 as [e|]; [exec_steps He; by eexists _, _, _|].
  exec_split He. exec_steps He. exists r, None, tr0. rewrite app_nil_r. split; [done|].
  split; [|split; [|done]]; eapply avoids_exec; try exact He0; unfold EnsureCredentialPlaceholder; avoid.
Qed.

Lemma suspend_spec ls tr out :
  exec (suspend ls) tr out ->
  (Phase (ls_Status ls) = PhaseSuspended /\ tr = [] /\ out = (done_result, None))
  \/ (Phase (ls_Status ls) <> PhaseSuspended
      /\ exists e, tr = [E (StatusUpdateLosantSync (with_Phase ls PhaseSuspended)) e] /\ out = (done_result, e)).
Proof.
  unfold suspend, do_call. intros He. destruct (decide _) as [Hne|Heq]; [right|left].
  - split; [done|]. exec_steps He; by eexists.
  - exec_steps He. destruct (decide (Phase (ls_Status ls) = PhaseSuspended)); [done|]. by destruct Heq.
Qed.

(** The schedule check waits, or goes on to a sync. *)
Definition waits (ls : LosantSync) (tr : trace) (out : outcome) : Prop :=
  Phase (ls_Status ls) = PhaseActive
  /\ exists next now now', NextScheduledTime (ls_Status ls) = Some next /\ now < next
     /\ tr = [E Now now; E Now now'] /\ out = (requeue_after (Until next now'), None).

Lemma sync_success_cons r ls ls' e tr :
  is_gea e = false -> is_losant e = false -> sync_success r ls ls' tr -> sync_success r ls ls' (e :: tr).
Proof.
  intros Hg Hl (lc & (s & Hin & Hc) & Hs). exists lc. split; [|by apply synced_by_cons].
  exists s. split; [by right|done].
Qed.

Lemma schedule_check_spec r ls tr out :
  exec (schedule_check r ls) tr out -> waits ls tr out \/ ended ls (sync_success r ls) tr out.
Proof.
  unfold schedule_check, do_call. intros He.
  destruct (NextScheduledTime (ls_Status ls)) as [next|] eqn:Hn; [|right; by apply sync_ended].
  destruct (decide (Phase (ls_Status ls) = PhaseActive)) as [Ha|]; [|right; by apply sync_ended].
  exec_step He. destruct (Before r0 next) eqn:Hb; cbn beta iota in He.
  - left. split; [done|]. exec_steps He. eexists _, _, _. split; [done|]. split; [|done].
    unfold Before in Hb. lia.
  - right. apply sync_ended in He. eapply ended_cons, He; [apply carries_refl|done|].
    intros ls' tr' Hs. by apply sync_success_cons.
Qed.

(** ** Deletion *)

Definition is_status_write (e : event OpΣ) : bool :=
  match ev_op e with StatusUpdateLosantSync _ => true | _ => false end.

Lemma delete_nodes_avoids p lc app devs names :
  (forall e, is_losant e = false \/ p e = false) -> avoids p (delete_nodes lc app devs names).
Proof.
  intros Hp. induction names as [|n names IH]; simpl; [done|]. unfold do_call. simpl. intros r.
  split; [by destruct (Hp (@Ev OpΣ (CallLosant lc (DeleteDevice app (default "" (devs !! n)))) r))|].
  by destruct r.
Qed.

Lemma deletion_no_status r ls : avoids is_status_write (handleDeletion r ls).
Proof.
  assert (forall e, is_losant e = false \/ is_status_write e = false) as Hp.
  { intros e. unfold is_losant, is_status_write. destruct (ev_op e); auto. }
  unfold handleDeletion, delete_devices. avoid; by apply delete_nodes_avoids.
Qed.

Lemma delete_nodes_spec lc app devs names tr out :
  exec (delete_nodes lc app devs names) tr out ->
  match out with
  | None => forall n, n ∈ names -> E (CallLosant lc (DeleteDevice app (default "" (devs !! n)))) None ∈ tr
  | Some e => exists n, n ∈ names /\ E (CallLosant lc (DeleteDevice app (default "" (devs !! n)))) (Some e) ∈ tr
  end.
Proof.
  revert tr. induction names as [|n names IH]; intros tr He; simpl in He; unfold do_call in He.
  - exec_steps He. set_solver.
  - exec_step He. destruct r as [e|]; cbn beta iota in He.
    + exec_steps He. exists n. split; left.
    + specialize (IH _ He). destruct out as [e|].
      * destruct IH as (m & Hm & Hin). exists m. split; by right.
      * intros m [->|Hm]%elem_of_cons; [left|right; auto].
Qed.

(** Every device the object knows has been deleted in Losant. *)
Definition devices_deleted (lc : losant_impl) (ls : LosantSync) (tr : trace) : Prop :=
  let app := ApplicationID (ls_Spec ls) in
  (forall n d, node_devices ls !! n = Some d -> E (CallLosant lc (DeleteDevice app d)) None ∈ tr)
  /\ (ClusterDeviceID (ls_Status ls) <> "" ->
        E (CallLosant lc (DeleteDevice app (ClusterDeviceID (ls_Status ls)))) None ∈ tr).

Lemma devices_deleted_intro lc ls (order : op_ans (RangeKeys (dom (node_devices ls)))) trn :
  let app := ApplicationID (ls_Spec ls) in
  (forall n, n ∈ proj1_sig order ->
     E (CallLosant lc (DeleteDevice app (default "" (node_devices ls !! n)))) None ∈ trn) ->
  forall tr, trn ⊆ tr ->
  (ClusterDeviceID (ls_Status ls) <> "" ->
     E (CallLosant lc (DeleteDevice app (ClusterDeviceID (ls_Status ls)))) None ∈ tr) ->
  devices_deleted lc ls tr.
Proof.
  intros app Hall tr Hsub Hcd. split; [|exact Hcd]. intros n d Hn. apply Hsub.
  specialize (Hall n). rewrite Hn in Hall. apply Hall. rewrite (proj2_sig order).
  apply elem_of_elements, elem_of_dom. eauto.
Qed.

Definition without_finalizer (ls : LosantSync) : LosantSync :=
  with_finalizers ls (RemoveFinalizer (om_Finalizers (ls_Meta ls)) cleanupFinalizer).

(** Deletion of the devices: all of them and then the finalizer, or an error and no write. *)
Lemma delete_devices_spec lc ls tr out :
  exec (delete_devices lc ls) tr out ->
  (exists tr0 e, tr = tr0 ++ [E (UpdateLosantSync (without_finalizer ls)) e] /\ out = (done_result, e)
     /\ devices_deleted lc ls tr0 /\ none is_ls_write tr0)
  \/ (exists e d, out = (done_result, Some e) /\ none is_ls_write tr
        /\ E (CallLosant lc (DeleteDevice (ApplicationID (ls_Spec ls)) d)) (Some e) ∈ tr).
Proof.
  unfold delete_devices. unfold do_call at 1. intros He. exec_step He. exec_split He.
  assert (forall e, is_losant e = false \/ is_ls_write e = false) as Hp.
  { intros e. unfold is_losant, is_ls_write. destruct (ev_op e); auto. }
  pose proof (avoids_exec _ _ _ _ He0 (delete_nodes_avoids _ _ _ _ _ Hp)) as Hw.
  apply delete_nodes_spec in He0. destruct a as [e|].
  { exec_steps He. rewrite app_nil_r. right. destruct He0 as (n & _ & Hin).
    eexists _, _. split; [done|]. split; [by apply none_cons|]. right. exact Hin. }
  pose proof (devices_deleted_intro lc ls r _ He0) as Hdd.
  unfold do_call in He. destruct (decide _) as [Hne|Heq].
  - exec_step He. destruct r0 as [e|]; exec_steps He.
    + right. eexists _, _. split; [done|]. split; [by rewrite none_cons, none_app|]. right.
      apply elem_of_app. right. left.
    + left. eexists (_ :: _ ++ [_]), _. rewrite <- app_comm_cons, <- app_assoc. split; [done|].
      split; [done|]. split; [|by rewrite none_cons, none_app].
      apply Hdd; [set_solver|]. intros _. right. apply elem_of_app. right. left.
  - exec_steps He. left. eexists (_ :: _), _. split; [done|]. split; [done|].
    split; [|by rewrite none_cons]. apply Hdd; [set_solver|]. naive_solver.
Qed.

(** Deletion stops before any client is used, or runs the cleanup with its client. *)
Lemma handleDeletion_spec r ls tr out :
  exec (handleDeletion r ls) tr out ->
  none is_ls_write tr
  \/ exists lc g tr0, tr = g :: tr0 /\ is_ls_write g = false /\ client_from r ls lc [g]
       /\ exec (delete_devices lc ls) tr0 out.
Proof.
  unfold handleDeletion, client_from, do_call. intros He. destruct (negb _); [exec_steps He; by left|].
  exec_step He. destruct r0 as [secret|e]; [|exec_steps He; by left]. cbn beta iota in He.
  destruct (r_LosantClient r) as [lc|].
  - right. eexists lc, _, _. split; [done|]. split; [done|]. split; [|done].
    exists secret. split; [left|by left].
  - destruct (NewLosantHTTPClient _ _) as [c|] eqn:Hnew; [|exec_steps He; by left].
    right. eexists (LHTTP c), _, _. split; [done|]. split; [done|]. split; [|done].
    exists secret. split; [left|right; eauto].
Qed.

(** ** Status writes *)

(** The write of an ended sync is the only one. *)
Lemma ended_write ls Q tr out ls' e :
  ended ls Q tr out -> E (StatusUpdateLosantSync ls') e ∈ tr ->
  exists tr0 tr1, tr = tr0 ++ E (StatusUpdateLosantSync ls') e :: tr1
    /\ none is_ls_write tr0 /\ none is_ls_write tr1 /\ same_object ls ls'
    /\ ((exists t d, degraded ls ls' t /\ retry_delay (ls_Spec ls) d /\ out = answer e d /\ cause (ls_Spec ls) tr0)
        \/ (Phase (ls_Status ls') = PhaseActive /\ cond ls' "LastSyncSucceeded" = Some ConditionTrue
            /\ (exists next now, NextScheduledTime (ls_Status ls') = Some next /\ out = answer e (Until next now))
            /\ Q ls' tr0)).
Proof.
  intros (tr0 & ls0 & e0 & tr1 & -> & Hn0 & Hc1 & Hs & Hcases) Hin.
  assert (none is_ls_write tr1) as Hn1 by by eapply only_clock_none, Hc1; apply now_not_write.
  apply elem_of_app in Hin as [Hin|Hin]; [by pose proof (none_elem _ _ _ Hn0 Hin)|].
  apply elem_of_cons in Hin as [Heq|Hin]; [|by pose proof (none_elem _ _ _ Hn1 Hin)].
  assert (ls' = ls0) as -> by (injection (f_equal ev_op Heq); done).
  apply E_inj in Heq as ->. by exists tr0, tr1.
Qed.

(** The phases an object can go through. *)
Inductive phase_step (suspended : bool) : string -> string -> Prop :=
| ps_suspend p : suspended = true -> p <> PhaseSuspended -> phase_step suspended p PhaseSuspended
| ps_first : suspended = false -> phase_step suspended "" PhaseProvisioning
| ps_degrade p : suspended = false -> p <> "" -> phase_step suspended p PhaseDegraded
| ps_activate p : suspended = false -> p <> "" -> phase_step suspended p PhaseActive.

(** The branch a status write comes from. *)
Lemma status_write_branch r ls tr out ls' e :
  reconciled r ls tr out -> E (StatusUpdateLosantSync ls') e ∈ tr ->
  deleting (ls_Meta ls) = false /\ cleanupFinalizer ∈ om_Finalizers (ls_Meta ls)
  /\ ((Suspend (ls_Spec ls) = true /\ Phase (ls_Status ls) <> PhaseSuspended
       /\ ls' = with_Phase ls PhaseSuspended /\ tr = [E (StatusUpdateLosantSync ls') e])
      \/ (Suspend (ls_Spec ls) = false /\ Phase (ls_Status ls) = ""
          /\ exists now tr1, ls' = with_NextScheduledTime (with_Phase ls PhaseProvisioning) (Some now)
              /\ tr = E Now now :: E (StatusUpdateLosantSync ls') e :: tr1 /\ none is_ls_write tr1)
      \/ (Suspend (ls_Spec ls) = false /\ Phase (ls_Status ls) <> ""
          /\ ended ls (sync_success r ls) tr out)).
Proof.
  intros [Hd He|e' Hd Hf -> _|Hd Hf Hs He|Hd Hf Hs Hp He|Hd Hf Hs Hp He] Hin.
  - pose proof (avoids_exec _ _ _ _ He (deletion_no_status r ls)) as Hn.
    by pose proof (none_elem _ _ _ Hn Hin).
  - apply list_elem_of_singleton in Hin. by apply (f_equal ev_op) in Hin.
  - split; [done|]. split; [done|]. left. apply suspend_spec in He as [(_ & -> & _)|(Hne & e' & -> & _)].
    + by apply not_elem_of_nil in Hin.
    + apply list_elem_of_singleton in Hin. rewrite Hin. repeat split; try done.
      by injection (f_equal ev_op Hin).
  - split; [done|]. split; [done|]. right. left. split; [done|]. split; [done|].
    apply first_reconcile_spec in He as (now & e' & tr1 & -> & Hn & _ & _). exists now, tr1.
    apply elem_of_cons in Hin as [Hin|Hin]; [by apply (f_equal ev_op) in Hin|].
    apply elem_of_cons in Hin as [Hin|Hin]; [|by pose proof (none_elem _ _ _ Hn Hin)].
    rewrite Hin. split; [by injection (f_equal ev_op Hin)|done].
  - split; [done|]. split; [done|]. right. right. split; [done|]. split; [done|].
    apply schedule_check_spec in He as [(_ & next & now & now' & _ & _ & -> & _)|He]; [|done].
    apply elem_of_cons in Hin as [Hin|Hin]; [by apply (f_equal ev_op) in Hin|].
    apply list_elem_of_singleton in Hin. by apply (f_equal ev_op) in Hin.
Qed.

(** Every identifier in a status that a sync writes has a known origin. *)
Lemma reconciled_ids r ls tr out ls' e :
  reconciled r ls tr out -> Suspend (ls_Spec ls) = false -> Phase (ls_Status ls) <> "" ->
  E (StatusUpdateLosantSync ls') e ∈ tr -> ids_from ls ls' tr.
Proof.
  intros [_ He|e' _ _ -> _|_ _ Hs _|_ _ _ Hp _|_ _ _ _ He] Hs0 Hp0 Hin; try congruence.
  - pose proof (avoids_exec _ _ _ _ He (deletion_no_status r ls)) as Hn. by apply (none_elem _ _ _ Hn) in Hin.
  - apply list_elem_of_singleton in Hin. by apply (f_equal ev_op) in Hin.
  - apply list_elem_of_split in Hin as (tr0 & tr1 & ->).
    pose proof (guarded_exec _ _ _ _ _ _ _ _ _ He (schedule_check_ids r ls []) eq_refl) as Hg.
    eapply ids_from_mono; [exact Hg|set_solver|done|done].
Qed.

(** C1: an Active status is written only after a full sync, in this order: Losant answered the ping,
    its first call, confirmed the cluster device with the next, and then a device for every node of
    the health snapshot; the bootstrap condition held; and only then the edge agent accepted the
    cluster's state and was sent the state of every node whose confirmed device ID is not empty.  The
    status carries the confirmed device IDs, the True conditions and the time of the sync. *)
Theorem active_means_synced r key ls tr out ls' e :
  exec (LosantSync_Reconcile r key) (E (GetLosantSync key) (Ok ls) :: tr) out ->
  E (StatusUpdateLosantSync ls') e ∈ tr -> Phase (ls_Status ls') = PhaseActive ->
  same_object ls ls' /\ cond ls' "LastSyncSucceeded" = Some ConditionTrue
  /\ exists tr0 tr1, tr = tr0 ++ E (StatusUpdateLosantSync ls') e :: tr1 /\ sync_success r ls ls' tr0.
Proof.
  intros He Hin Hp. apply reconcile_cases in He.
  destruct (status_write_branch _ _ _ _ _ _ He Hin)
    as (_ & _ & [(_ & _ & -> & _)|[(_ & _ & now & tr1 & -> & _)|(_ & _ & Hend)]]); [done|done|].
  destruct (ended_write _ _ _ _ _ _ Hend Hin) as (tr0 & tr1 & -> & _ & _ & Hs & [H|(_ & Hl & _ & HQ)]).
  - destruct H as (t & d & [_ Hp' _ _] & _). by rewrite Hp' in Hp.
  - split; [done|]. split; [done|]. by exists tr0, tr1.
Qed.


(** C14: the phase machine: a reconcile writes the status of an object at most once, never for an
    object that is being deleted or has no finalizer, leaves metadata and spec alone, and moves the
    phase along [phase_step]. *)
Theorem phase_machine r key ls tr out ls' e :
  exec (LosantSync_Reconcile r key) (E (GetLosantSync key) (Ok ls) :: tr) out ->
  E (StatusUpdateLosantSync ls') e ∈ tr ->
  deleting (ls_Meta ls) = false /\ cleanupFinalizer ∈ om_Finalizers (ls_Meta ls)
  /\ same_object ls ls'
  /\ phase_step (Suspend (ls_Spec ls)) (Phase (ls_Status ls)) (Phase (ls_Status ls'))
  /\ exists tr0 tr1, tr = tr0 ++ E (StatusUpdateLosantSync ls') e :: tr1
       /\ none is_ls_write tr0 /\ none is_ls_write tr1.
Proof.
  intros He Hin. apply reconcile_cases in He.
  destruct (status_write_branch _ _ _ _ _ _ He Hin) as (Hd & Hf & Hcases).
  split; [done|]. split; [done|].
  destruct Hcases as [(Hs & Hp & -> & ->)|[(Hs & Hp & now & tr1 & -> & -> & Hn)|(Hs & Hp & Hend)]].
  - split; [by repeat split|]. split; [by apply ps_suspend|]. by exists [], [].
  - split; [by repeat split|]. rewrite Hp. split; [by apply ps_first|]. by eexists [_], tr1.
  - destruct (ended_write _ _ _ _ _ _ Hend Hin) as (tr0 & tr1 & Heq & H0 & H1 & Hso & Hres).
    split; [done|]. split; [|by exists tr0, tr1].
    destruct Hres as [(t & d & [_ Hp' _ _] & _)|(Hp' & _)]; rewrite Hp'; by constructor.
Qed.

(** The removal of the finalizer, with everything that preceded it. *)
Lemma finalizer_removal r key ls tr out ls' e :
  exec (LosantSync_Reconcile r key) (E (GetLosantSync key) (Ok ls) :: tr) out ->
  deleting (ls_Meta ls) = true -> E (UpdateLosantSync ls') e ∈ tr ->
  ls' = without_finalizer ls /\ (cleanupFinalizer ∉ om_Finalizers (ls_Meta ls')) /\ out = (done_result, e)
  /\ exists lc tr0, client_from r ls lc tr /\ devices_deleted lc ls tr0
       /\ tr = tr0 ++ [E (UpdateLosantSync ls') e].
Proof.
  intros He Hd Hin. apply reconcile_cases in He as [_ He|? Hd' _ _ _|Hd' _ _ _|Hd' _ _ _ _|Hd' _ _ _ _];
    try congruence.
  apply handleDeletion_spec in He as [Hn|(lc & g & tr0 & -> & Hg & Hlc & Hdel)];
    [by pose proof (none_elem _ _ _ Hn Hin)|].
  apply elem_of_cons in Hin as [<-|Hin]; [done|].
  apply delete_devices_spec in Hdel as [(tr1 & e1 & -> & -> & Hdd & Hn)|(e1 & d & _ & Hn & _)];
    [|by pose proof (none_elem _ _ _ Hn Hin)].
  apply elem_of_app in Hin as [Hin|Hin]; [by pose proof (none_elem _ _ _ Hn Hin)|].
  apply list_elem_of_singleton in Hin.
  assert (ls' = without_finalizer ls) as -> by (by injection (f_equal ev_op Hin)). apply E_inj in Hin as ->.
  split; [done|]. split; [|split; [done|]].
  - simpl. rewrite RemoveFinalizer_spec. intros Hf%list_elem_of_In%filter_In. destruct Hf as [_ Hf].
    by rewrite bool_decide_eq_true_2 in Hf.
  - exists lc, (g :: tr1). split; [|split; [|done]].
    + destruct Hlc as (s0 & Hs0 & Hc). exists s0. split; [set_solver|done].
    + destruct Hdd as [H1 H2]. split; [intros n dv Hnd; right; by eapply H1|intros Hne; right; by apply H2].
Qed.

(** C3: cleanup is never skipped: the finalizer of an object that is being deleted is removed only
    after Losant confirmed the deletion of every node device and of the cluster device recorded in
    its status; the write removes that finalizer and nothing else. *)
Theorem finalizer_removed_after_cleanup r key ls tr out ls' e :
  exec (LosantSync_Reconcile r key) (E (GetLosantSync key) (Ok ls) :: tr) out ->
  deleting (ls_Meta ls) = true -> E (UpdateLosantSync ls') e ∈ tr ->
  ls' = without_finalizer ls /\ (cleanupFinalizer ∉ om_Finalizers (ls_Meta ls')) /\ out = (done_result, e)
  /\ exists lc tr0, client_from r ls lc tr /\ devices_deleted lc ls tr0
       /\ tr = tr0 ++ [E (UpdateLosantSync ls') e].
Proof. apply finalizer_removal. Qed.

(** Nothing is created that could not be cleaned up: a reconcile talks to Losant or the edge
    agent only for an object that carries the cleanup finalizer. *)
Theorem finalizer_before_remote r key ls tr out e :
  exec (LosantSync_Reconcile r key) (E (GetLosantSync key) (Ok ls) :: tr) out ->
  e ∈ tr -> is_remote e = true -> cleanupFinalizer ∈ om_Finalizers (ls_Meta ls).
Proof.
  intros He Hin Hr. apply reconcile_cases in He as [_ He|e' _ _ -> _|_ Hf _ _|_ Hf _ _ _|_ Hf _ _ _]; try done.
  - unfold handleDeletion in He. rewrite ContainsFinalizer_spec in He.
    destruct (bool_decide _) eqn:Hf; [by apply bool_decide_eq_true in Hf|].
    cbn [negb] in He. exec_steps He. by apply not_elem_of_nil in Hin.
  - apply list_elem_of_singleton in Hin as ->. done.
Qed.

(** A suspended object is left alone: no call leaves the cluster, and the only possible write sets
    the phase to Suspended, keeping every other field. *)
Theorem suspended_is_quiet r key ls tr out :
  exec (LosantSync_Reconcile r key) (E (GetLosantSync key) (Ok ls) :: tr) out ->
  deleting (ls_Meta ls) = false -> cleanupFinalizer ∈ om_Finalizers (ls_Meta ls) ->
  Suspend (ls_Spec ls) = true ->
  none is_remote tr /\ queued_again (fst out) = false
  /\ (Phase (ls_Status ls) = PhaseSuspended /\ tr = []
      \/ exists e, tr = [E (StatusUpdateLosantSync (with_Phase ls PhaseSuspended)) e]).
Proof.
  intros He Hd Hf Hs.
  apply reconcile_cases in He as [? _|e' _ Hf' _ _|_ _ _ He|_ _ Hs' _ _|_ _ Hs' _ _]; try congruence; try done.
  apply suspend_spec in He as [(Hp & -> & ->)|(Hp & e & -> & ->)]; (split; [done|]; split; [done|]).
  - by left.
  - right. by exists e.
Qed.

(** An Active object before its next scheduled time only reads the clock, twice; it is queued
    again exactly when the second reading is still before that time. *)
Theorem not_due_waits r key ls tr out next now :
  exec (LosantSync_Reconcile r key) (E (GetLosantSync key) (Ok ls) :: E Now now :: tr) out ->
  deleting (ls_Meta ls) = false -> cleanupFinalizer ∈ om_Finalizers (ls_Meta ls) ->
  Suspend (ls_Spec ls) = false -> Phase (ls_Status ls) = PhaseActive ->
  NextScheduledTime (ls_Status ls) = Some next -> now < next ->
  exists now', tr = [E Now now'] /\ out = (requeue_after (Until next now'), None)
    /\ (queued_again (fst out) = true <-> now' < next).
Proof.
  intros He Hd Hf Hs Hp Hn Hlt.
  apply reconcile_cases in He as [? _|e' _ Hf' _ _|_ _ Hs' _|_ _ _ Hp' _|_ _ _ _ He];
    try congruence; try done; [by rewrite Hp in Hp'|].
  unfold schedule_check, do_call in He. rewrite Hn in He. cbn beta iota in He.
  rewrite decide_True in He by done. cbn [bind call] in He. apply exec_head in He.
  unfold Before in He. rewrite (proj2 (Z.ltb_lt _ _) Hlt) in He. exec_steps He.
  exists r0. split; [done|]. split; [done|]. unfold queued_again. simpl. rewrite orb_false_r, Z.ltb_lt.
  apply Until_pos_iff.
Qed.

(** A sync of the object is due: its first reconcile is over and it is not an Active object whose
    next scheduled time lies after the clock reading of this reconcile. *)
Definition due (ls : LosantSync) (tr : trace) : Prop :=
  Phase (ls_Status ls) <> ""
  /\ forall next, Phase (ls_Status ls) = PhaseActive -> NextScheduledTime (ls_Status ls) = Some next ->
       exists now tr', tr = E Now now :: tr' /\ next <= now.


End Theorems.

(** ** Workflow releases *)

Section Releases.
Context (lc : losant_impl) (app dev : string) (known : gmap string EdgeDeploymentStatus).

Definition deployed (wd : WorkflowDeployment) : EdgeDeploymentStatus :=
  default zero_EDS (known !! wd_FlowID wd).

(** Losant has not been asked for the wanted version. *)
Definition outdated (wd : WorkflowDeployment) : bool :=
  negb (bool_decide (eds_DesiredVersion (deployed wd) = wd_Version wd)).

(** The edge agent runs the wanted version. *)
Definition confirmed (wd : WorkflowDeployment) : bool :=
  negb (outdated wd) && bool_decide (eds_CurrentVersion (deployed wd) = wd_Version wd).

Definition release (wd : WorkflowDeployment) : op_call :=
  CallLosant lc (ReleaseWorkflow app dev (wd_FlowID wd) (wd_Version wd)).

Lemma release_loop_cons wd wds all :
  release_loop lc app dev known (wd :: wds) all =
  if outdated wd then
    bind (do_call (release wd)) (fun releaseErr =>
      match releaseErr with
      | Some e => if Is e KWorkflowNotFound
                  then Ret ("WorkflowNotFound", "flowId " +:+ wd_FlowID wd +:+ " version " +:+ wd_Version wd
                                                +:+ " not found in Losant", Some e)
                  else Ret ("ReleaseFailed", Error e, Some e)
      | None => release_loop lc app dev known wds false
      end)
  else release_loop lc app dev known wds (all && confirmed wd).
Proof.
  cbn [release_loop]. fold (deployed wd). unfold confirmed, outdated.
  destruct (decide (eds_DesiredVersion (deployed wd) <> wd_Version wd)) as [Hne|Heq].
  - by rewrite bool_decide_eq_false_2.
  - rewrite bool_decide_eq_true_2 by (by apply dec_stable). simpl.
    destruct (decide _) as [Hne'|Heq'].
    + by rewrite bool_decide_eq_false_2, andb_false_r.
    + by rewrite bool_decide_eq_true_2, andb_true_r by (by apply dec_stable).
Qed.

Lemma release_loop_spec wds all tr reason msg err :
  exec (release_loop lc app dev known wds all) tr (reason, msg, err) ->
  match err with
  | None => map ev_op tr = map release (List.filter outdated wds) /\ existsb failed tr = false
            /\ reason = if all && forallb confirmed wds then "Deployed" else "DeploymentPending"
  | Some e => (exists rest, map release (List.filter outdated wds) = map ev_op tr ++ rest)
              /\ (exists tr0 wd, tr = tr0 ++ [E (release wd) (Some e)] /\ existsb failed tr0 = false)
              /\ reason = if Is e KWorkflowNotFound then "WorkflowNotFound" else "ReleaseFailed"
  end.
Proof.
  revert all tr. induction wds as [|wd wds IH]; intros all tr He.
  - simpl in He. destruct all; by exec_steps He.
  - rewrite release_loop_cons in He. cbn [List.filter forallb].
    assert (outdated wd = true -> confirmed wd = false) as Hoc by (unfold confirmed; by intros ->).
    destruct (outdated wd).
    + unfold do_call, release in He. exec_step He. destruct r as [e|]; cbn beta iota in He.
      * destruct (Is e KWorkflowNotFound) eqn:Hi; exec_steps He; rewrite Hi; (split; [by eexists|]);
          (split; [|done]); by exists [], wd.
      * apply IH in He. rewrite (Hoc eq_refl). destruct err as [e|].
        -- destruct He as ((rest & Hr) & (tr1 & wd' & -> & Hf) & Hre). split; [|split; [|done]].
           ++ exists rest. simpl. f_equal. exact Hr.
           ++ by eexists (_ :: tr1), wd'.
        -- destruct He as (Hm & Hf & ->). split; [simpl; f_equal; exact Hm|]. by rewrite andb_false_r.
    + apply IH in He. destruct err; [done|]. by rewrite andb_assoc.
Qed.

End Releases.

(** C20: workflow releases are exact: with the deployments Losant reports, the versions requested are
    those not yet desired, each once and in the order of the spec; a refusal ends the loop and
    decides the reason and the error; no error means that every request was accepted, and then the reason is Deployed exactly when
    the edge agent already runs every wanted version. *)
Theorem releases_exact lc ls ds tr reason msg err :
  let app := ApplicationID (ls_Spec ls) in
  let dev := ClusterDeviceID (ls_Status ls) in
  let known := index_deployments ds in
  let wds := WorkflowDeployments (ls_Spec ls) in
  exec (ensureWorkflowDeployments lc ls) (E (CallLosant lc (GetEdgeDeployments app dev)) (Ok ds) :: tr)
    (reason, msg, err) ->
  match err with
  | None => map ev_op tr = map (release lc app dev) (List.filter (outdated known) wds)
            /\ existsb failed tr = false
            /\ reason = if forallb (confirmed known) wds then "Deployed" else "DeploymentPending"
  | Some e => (exists rest, map (release lc app dev) (List.filter (outdated known) wds) = map ev_op tr ++ rest)
              /\ (exists tr0 wd, tr = tr0 ++ [E (release lc app dev wd) (Some e)] /\ existsb failed tr0 = false)
              /\ reason = if Is e KWorkflowNotFound then "WorkflowNotFound" else "ReleaseFailed"
  end.
Proof.
  intros app dev known wds He. unfold ensureWorkflowDeployments in He. fold wds app dev in He.
  destruct wds as [|wd wds'] eqn:Hwds.
  - apply exec_inv in He as [? _]. done.
  - unfold do_call in He. cbn [bind call] in He. apply exec_head in He. cbn beta iota in He.
    exact (release_loop_spec _ _ _ _ _ _ _ _ _ _ He).
Qed.

(** ** Reported attributes *)

(** The Losant data type of a reported value. *)
Definition data_type (v : attr_value) : string :=
  match v with VInt _ | VFloat _ => "number" | VBool _ => "boolean" | VString _ => "string" end.

Definition declares (attrs : list DeviceAttribute) (report : gmap string attr_value) : Prop :=
  dom report = list_to_set (map attr_Name attrs)
  /\ forall a, a ∈ attrs -> exists v, report !! attr_Name a = Some v /\ data_type v = attr_DataType a.

(** C39: reports fit the devices: the attributes sent for a cluster and for a node are those declared
    when the device is created, no more and no fewer, each with a value of its declared type. *)
Theorem reports_match_declarations (ch : ClusterHealth) (nh : NodeHealth) :
  declares clusterDeviceAttributes (clusterAttributes ch) /\ declares nodeDeviceAttributes (nodeAttributes nh).
Proof.
  split; (split; [unfold clusterAttributes, nodeAttributes; rewrite dom_list_to_map_L; reflexivity|]).
  all: intros a Ha; unfold clusterDeviceAttributes, nodeDeviceAttributes in Ha.
  all: repeat (apply elem_of_cons in Ha as [->|Ha]; [eexists; split; reflexivity|]).
  all: by apply not_elem_of_nil in Ha.
Qed.
