(* ===== verification/LosantSyncExamples.v ===== *)
(** * LosantSyncExamples: concrete executions of the LosantSync reconciler

    A small cluster with two nodes is reconciled against an environment whose
    answers are given by a function of the call, and each theorem of
    [LosantSyncTheorems] and [Provisioner] is applied to the resulting execution. *)

From Stdlib Require Import ZArith Lia SpecFloat.
From stdpp Require Import base list strings gmap.
From S2P Require Import Prelude Effects GoLib Duration K8s ApiTypes HealthScore Collectors.
From S2P Require Import Clients Operator Provisioner LosantSyncController LosantSyncProofs LosantSyncDevices LosantSyncTheorems.

Local Open Scope Z_scope.

(** ** Environments *)

(** Losant accepts everything; devices are named after their kind. *)
Definition ok_losant (o : losant_op) : losant_ans o :=
  match o with
  | EnsureClusterDevice spec => Ok ("dev-" +:+ ClusterName spec)
  | EnsureNodeDevice _ n _ => Ok ("dev-" +:+ n)
  | GetDevice _ d => Ok (mkDevice d d [])
  | CreateDeviceAccessKey _ _ _ => Ok ("id", "key", "secret")
  | GetEdgeDeployments _ _ => Ok [mkEDS "flow-1" "v1" "v2"]
  | Ping | UpdateDeviceTags _ _ _ | PatchDeviceAttributes _ _ _ | DeleteDevice _ _
  | ReleaseWorkflow _ _ _ _ => None
  end.

Definition demo_snapshot : ClusterHealth * gmap string NodeHealth :=
  (zero_ClusterHealth, <["node-a" := zero_NodeHealth]> (<["node-b" := zero_NodeHealth]> ∅)).

Definition demo_secret : Secret := mkSecret "losant" "edge" (<["api-token" := "token"]> ∅).

(** Everything succeeds, for the object [ls]. *)
Definition ok_world (ls : LosantSync) (now : Z) (c : op_call) : op_ans c :=
  match c with
  | GetLosantSync _ => Ok ls
  | GetSecret _ => Ok demo_secret
  | GetDeployment k => Ok (mkDeployment (nn_Name k) (nn_Namespace k) None 1)
  | StatusUpdateLosantSync _ | UpdateLosantSync _ | CreateSecret _ | UpdateSecret _
  | PatchDeployment _ _ | ReportState _ _ => None
  | CallLosant _ o => ok_losant o
  | StoreSnapshot => demo_snapshot
  | c => all_fail now c
  end.

(** As [ok_world], but Losant cannot be reached. *)
Definition losant_down (ls : LosantSync) (now : Z) (c : op_call) : op_ans c :=
  match c with
  | CallLosant _ o => fail_losant o
  | c => ok_world ls now c
  end.

(** ** Objects *)

Definition demo_spec (suspended : bool) : LosantSyncSpec :=
  mkLSSpec "app" (mkSecretRef "losant" "edge") "c1" "eu" "" "" "5m" (mkGEASpec "gea" 8080 "gea") ""
    [mkWD "flow-1" "v2"; mkWD "flow-2" "v1"] (mkTags "" "" "") suspended.

Definition demo_meta (deleted : mtime) : ObjectMeta := mkMeta "c1" "edge" 1 deleted [cleanupFinalizer].

Definition demo_status (phase : string) (next : mtime) : LosantSyncStatus :=
  mkLSStatus phase [] "dev-c1" (Some (<["node-a" := "dev-node-a"]> ∅)) (Some 7) next.

Definition demo_ls (phase : string) : LosantSync :=
  mkLosantSync (demo_meta None) (demo_spec false) (demo_status phase None).

Definition demo_key : NamespacedName := mkNN "edge" "c1".
Definition demo_rec : LosantSyncReconciler := mkLSR None None true.

(** ** Running the reconciler *)

Definition demo_run (w : forall c, op_ans c) : outcome * trace * unit :=
  run (Σ := OpΣ) (fun c u => (w c, u)) (LosantSync_Reconcile (L := RefLib) demo_rec demo_key) tt.

(** The events after the object was read, and the outcome. *)
Definition demo_trace (w : forall c, op_ans c) : trace := tail (demo_run w).1.2.
Definition demo_out (w : forall c, op_ans c) : outcome := (demo_run w).1.1.

Lemma demo_exec (w : forall c, op_ans c) ls :
  w (GetLosantSync demo_key) = Ok ls ->
  exec (LosantSync_Reconcile (L := RefLib) demo_rec demo_key)
    (E (GetLosantSync demo_key) (Ok ls) :: demo_trace w) (demo_out w).
Proof.
  intros Hw. rewrite <- Hw. exact (run_exec_head (Σ := OpΣ) (fun c u => (w c, u)) _ _ tt).
Qed.

(** The writes of the object's status in a trace. *)
Definition status_write (e : event OpΣ) : option (LosantSync * option error) :=
  match e with
  | Ev (StatusUpdateLosantSync ls) r => Some (ls, r : option error)
  | _ => None
  end.

Definition status_writes (tr : trace) : list (LosantSync * option error) := omap status_write tr.

Lemma status_writes_in tr ls e : (ls, e) ∈ status_writes tr -> E (StatusUpdateLosantSync ls) e ∈ tr.
Proof. intros ([[] r] & Hin & Heq)%list_elem_of_omap; try done. by injection Heq as -> ->. Qed.

(** The status a run writes. *)
Definition demo_written (w : forall c, op_ans c) (ls : LosantSync) : LosantSync :=
  default ls (fst <$> head (status_writes (demo_trace w))).

Lemma demo_written_in (w : forall c, op_ans c) ls :
  map snd (status_writes (demo_trace w)) = [None] ->
  E (StatusUpdateLosantSync (demo_written w ls)) None ∈ demo_trace w.
Proof.
  intros H. apply status_writes_in. unfold demo_written. destruct (status_writes (demo_trace w)) as [|[l e] [|]];
    try done. injection H as ->. left.
Qed.

(** ** Witnesses *)

Definition active_world : forall c, op_ans c := ok_world (demo_ls PhaseProvisioning) 100.

Lemma active_means_synced_witness :
  exists ls', Phase (ls_Status ls') = PhaseActive /\ node_devices ls' !! "node-b" = Some "dev-node-b"
    /\ cond ls' "LastSyncSucceeded" = Some ConditionTrue
    /\ exists tr0 tr1, demo_trace active_world = tr0 ++ E (StatusUpdateLosantSync ls') None :: tr1
         /\ sync_success demo_rec (demo_ls PhaseProvisioning) ls' tr0.
Proof.
  set (ls := demo_ls PhaseProvisioning). set (ls' := demo_written active_world ls).
  assert (Phase (ls_Status ls') = PhaseActive) as Hp by (vm_compute; reflexivity).
  destruct (active_means_synced (L := RefLib) (LS := RefLibSpec) demo_rec demo_key ls (demo_trace active_world)
    (demo_out active_world) ls' None) as (_ & Hl & Hr); [|  |exact Hp|].
  - by apply demo_exec.
  - apply demo_written_in. vm_compute. reflexivity.
  - exists ls'. split; [exact Hp|]. split; [vm_compute; reflexivity|]. split; [exact Hl|exact Hr].
Defined.

Definition down_world : forall c, op_ans c := losant_down (demo_ls PhaseActive) 100.


Lemma phase_machine_witness :
  let ls' := demo_written active_world (demo_ls PhaseProvisioning) in
  phase_step false PhaseProvisioning PhaseActive /\ same_object (demo_ls PhaseProvisioning) ls'.
Proof.
  set (ls := demo_ls PhaseProvisioning). intros ls'.
  assert (Phase (ls_Status ls') = PhaseActive) as Hp by (vm_compute; reflexivity).
  destruct (phase_machine (L := RefLib) (LS := RefLibSpec) demo_rec demo_key ls (demo_trace active_world)
    (demo_out active_world) ls' None) as (_ & _ & Hs & Hstep & _).
  - by apply demo_exec.
  - apply demo_written_in. vm_compute. reflexivity.
  - rewrite Hp in Hstep. split; [exact Hstep|exact Hs].
Defined.

(** An object that is being deleted. *)
Definition deleted_ls : LosantSync :=
  mkLosantSync (demo_meta (Some 90)) (demo_spec false) (demo_status PhaseActive None).
Definition delete_world : forall c, op_ans c := ok_world deleted_ls 100.

Lemma finalizer_removed_after_cleanup_witness :
  exists lc tr0, devices_deleted lc deleted_ls tr0
    /\ demo_trace delete_world = tr0 ++ [E (UpdateLosantSync (without_finalizer (L := RefLib) deleted_ls)) None]
    /\ E (CallLosant lc (DeleteDevice "app" "dev-node-a")) None ∈ tr0.
Proof.
  destruct (finalizer_removed_after_cleanup (L := RefLib) (LS := RefLibSpec) demo_rec demo_key deleted_ls
    (demo_trace delete_world) (demo_out delete_world) (without_finalizer (L := RefLib) deleted_ls) None)
    as (_ & _ & _ & lc & tr0 & _ & Hd & Heq).
  - by apply demo_exec.
  - reflexivity.
  - apply (list_elem_of_lookup_2 _ 4). vm_compute. reflexivity.
  - exists lc, tr0. split; [exact Hd|]. split; [exact Heq|].
    apply (proj1 Hd "node-a"). reflexivity.
Defined.

Lemma finalizer_before_remote_witness :
  let e := E (CallLosant (LHTTP (mkLosantHTTP "token" "app")) Ping) None in
  is_remote e = true /\ e ∈ demo_trace active_world /\ cleanupFinalizer ∈ om_Finalizers (demo_meta None).
Proof.
  intros e. assert (e ∈ demo_trace active_world) as Hin.
  { apply (list_elem_of_lookup_2 _ 1). vm_compute. reflexivity. }
  split; [reflexivity|]. split; [exact Hin|].
  apply (finalizer_before_remote (L := RefLib) (LS := RefLibSpec) demo_rec demo_key
    (demo_ls PhaseProvisioning) (demo_trace active_world) (demo_out active_world) e);
    [by apply demo_exec|exact Hin|reflexivity].
Defined.

Definition suspended_ls : LosantSync :=
  mkLosantSync (demo_meta None) (demo_spec true) (demo_status PhaseActive None).
Definition suspended_world : forall c, op_ans c := ok_world suspended_ls 100.

Lemma suspended_is_quiet_witness :
  Suspend (ls_Spec suspended_ls) = true /\ none is_remote (demo_trace suspended_world)
  /\ length (demo_trace suspended_world) = 1%nat.
Proof.
  destruct (suspended_is_quiet (L := RefLib) (LS := RefLibSpec) demo_rec demo_key suspended_ls
    (demo_trace suspended_world) (demo_out suspended_world)) as (Hq & _ & _).
  - by apply demo_exec.
  - reflexivity.
  - left.
  - reflexivity.
  - split; [reflexivity|]. split; [exact Hq|]. vm_compute. reflexivity.
Defined.

Definition waiting_ls : LosantSync :=
  mkLosantSync (demo_meta None) (demo_spec false) (demo_status PhaseActive (Some 160)).
Definition waiting_world : forall c, op_ans c := ok_world waiting_ls 100.

Lemma not_due_waits_witness :
  exists now', now' < 160 /\ demo_out waiting_world = (requeue_after (Until 160 now'), None)
    /\ queued_again (fst (demo_out waiting_world)) = true.
Proof.
  destruct (not_due_waits (L := RefLib) (LS := RefLibSpec) demo_rec demo_key waiting_ls [E Now 100]
    (demo_out waiting_world) 160 100) as (now' & Htr & Hout & Hq).
  - exact (demo_exec waiting_world waiting_ls eq_refl).
  - reflexivity.
  - left.
  - reflexivity.
  - reflexivity.
  - reflexivity.
  - lia.
  - assert (queued_again (fst (demo_out waiting_world)) = true) as Hqt by (vm_compute; reflexivity).
    exists now'. split; [apply Hq, Hqt|]. split; [exact Hout|exact Hqt].
Defined.

(** A Secret that was read holds an API token. *)
Definition has_token (e : event OpΣ) : bool :=
  match e with
  | Ev (GetSecret _) (Ok s) => match sec_Data s !! "api-token" with Some _ => true | None => false end
  | _ => true
  end.

(** An Active object whose next sync was due at 90, reconciled at 100. *)
Definition due_ls : LosantSync :=
  mkLosantSync (demo_meta None) (demo_spec false) (demo_status PhaseActive (Some 90)).
Definition due_world : forall c, op_ans c := ok_world due_ls 100.

(** Nothing is a cause of failure in the world in which everything succeeds. *)
Lemma due_no_cause : ~ cause (L := RefLib) (demo_spec false) (demo_trace due_world).
Proof.
  intros [Hf|[e He]|k secret e Hin Hnew].
  - vm_compute in Hf. discriminate.
  - vm_compute in He. discriminate.
  - assert (forallb has_token (demo_trace due_world) = true) as Hall by (vm_compute; reflexivity).
    rewrite forallb_forall in Hall. apply list_elem_of_In, Hall in Hin. simpl in Hin.
    unfold NewLosantHTTPClient in Hnew. by destruct (sec_Data secret !! "api-token").
Qed.


(** A workflow whose version is already wanted is not released again, the other one is. *)
Lemma releases_exact_witness :
  let ls := demo_ls PhaseActive in
  let lc := LInjected in
  let p := ensureWorkflowDeployments lc ls in
  let run := run (Σ := OpΣ) (fun c u => (ok_world ls 100 c, u)) p tt in
  map ev_op (tail run.1.2) = [CallLosant lc (ReleaseWorkflow "app" "dev-c1" "flow-2" "v1")]
  /\ existsb failed (tail run.1.2) = false /\ run.1.1.1.1 = "DeploymentPending".
Proof.
  intros ls lc p rn.
  destruct (releases_exact lc ls [mkEDS "flow-1" "v1" "v2"] (tail rn.1.2) rn.1.1.1.1 rn.1.1.1.2 None)
    as (H1 & Hf & H2).
  - exact (run_exec (Σ := OpΣ) (fun c u => (ok_world ls 100 c, u)) p tt).
  - split; [rewrite H1; vm_compute; reflexivity|]. split; [exact Hf|rewrite H2; vm_compute; reflexivity].
Defined.

(** ** The bootstrapper *)

Definition current_secret : Secret :=
  mkSecret geaCredentialsSecretName "edge" (credential_data "dev-c1" "key" "secret").

Definition boot_world (got : result Secret) (c : op_call) : op_ans c :=
  match c with GetSecret _ => got | c => ok_world (demo_ls PhaseActive) 100 c end.

Definition boot_run (got : result Secret) : option error * trace * unit :=
  run (Σ := OpΣ) (fun c u => (boot_world got c, u))
    (Bootstrap (L := RefLib) LInjected (demo_ls PhaseActive) "dev-c1") tt.

Lemma bootstrap_idempotent_witness :
  credentials_current (sec_Data current_secret) "dev-c1" = true
  /\ none is_losant (tail (boot_run (Ok current_secret)).1.2).
Proof.
  split; [vm_compute; reflexivity|].
  apply (bootstrap_idempotent (L := RefLib) LInjected (demo_ls PhaseActive) "dev-c1" current_secret _
    (boot_run (Ok current_secret)).1.1).
  - exact (run_exec_head (Σ := OpΣ) (fun c u => (boot_world (Ok current_secret) c, u)) _ _ tt).
  - vm_compute. reflexivity.
Defined.

(** A Secret of another device is replaced: the key pair is the one Losant answered. *)
Definition stale_secret : Secret := mkSecret geaCredentialsSecretName "edge" (credential_data "old" "k" "s").

Lemma bootstrap_success_witness :
  let tr := (boot_run (Ok stale_secret)).1.2 in
  E (UpdateSecret (mkSecret geaCredentialsSecretName "edge" (credential_data "dev-c1" "key" "secret"))) None ∈ tr
  /\ exists tr', tr = E (GetSecret (gea_secret_key "edge")) (Ok stale_secret) :: tr'
     /\ credentials_written LInjected (demo_ls PhaseActive) "edge" "dev-c1" (Some stale_secret) tr'
     /\ restarted (L := RefLib) "edge" "gea" tr'.
Proof.
  intros tr.
  destruct (bootstrap_success (L := RefLib) LInjected (demo_ls PhaseActive) "dev-c1" tr)
    as (got & tr' & Heq & Hw & Hr).
  - exact (run_exec (Σ := OpΣ) (fun c u => (boot_world (Ok stale_secret) c, u)) _ tt).
  - split; [apply (list_elem_of_lookup_2 _ 3); vm_compute; reflexivity|]. exists tr'.
    assert (got = Ok stale_secret) as ->.
    { pose proof (f_equal head Heq) as Hh. symmetry. exact (E_inj _ _ _ (inj Some _ _ Hh)). }
    split; [exact Heq|]. split; [exact Hw|]. apply Hr. discriminate.
Defined.

Lemma placeholder_only_when_absent_witness :
  let got := Err (mkError "secret not found" [KNotFound]) in
  let rn := run (Σ := OpΣ) (fun c u => (boot_world got c, u)) (EnsureCredentialPlaceholder "edge") tt in
  rn.1.1 = None
  /\ ((exists s, rn.1.2 = [E (GetSecret (gea_secret_key "edge")) (Ok s)] /\ rn.1.1 = None)
      \/ (exists e, rn.1.2 = [E (GetSecret (gea_secret_key "edge")) (Err e)] /\ IsNotFound e = false
           /\ rn.1.1 = Some (secret_error "read" "edge" e))
      \/ (exists e r, IsNotFound e = true
           /\ rn.1.2 = [E (GetSecret (gea_secret_key "edge")) (Err e);
                        E (CreateSecret (mkSecret geaCredentialsSecretName "edge" placeholder_data)) r]
           /\ rn.1.1 = match r with
                       | Some ce => if IsAlreadyExists ce then None
                                    else Some (secret_error "create placeholder" "edge" ce)
                       | None => None
                       end)).
Proof.
  intros got rn. split; [vm_compute; reflexivity|].
  apply (placeholder_only_when_absent "edge" rn.1.2 rn.1.1).
  exact (run_exec (Σ := OpΣ) (fun c u => (boot_world got c, u)) (EnsureCredentialPlaceholder "edge") tt).
Defined.
