(* ===== verification/Wire.v ===== *)
(** * Wire: the reconcilers with their HTTP clients

    In production the reconcilers inject no client: they build HTTP clients from the
    Secrets and the spec.  [dispatch] is the dynamic dispatch of an interface value that
    holds an HTTP client, and [interp dispatch] runs a reconciler with its calls
    carried out as HTTP requests.  The theorems follow a Secret's token and the deletion
    of a device down to the requests. *)

From Stdlib Require Import ZArith Lia String.
From stdpp Require Import base list strings gmap.
From S2P Require Import Prelude Effects GoLib K8s ApiTypes HealthScore Clients Operator Http.
From S2P Require Import LosantClient RancherClient GeaClient Interp.
From S2P Require Import Provisioner LosantSyncController LosantSyncProofs LosantSyncTheorems LosantSyncExamples.

Local Open Scope Z_scope.
Local Open Scope prog_scope.

(** ** The signature of the process *)

Inductive wire_op := Local (c : op_call) | Wire (o : http_op).
Definition wire_ans (o : wire_op) : Type := match o with Local c => op_ans c | Wire o => http_ans o end.
Definition WireΣ : sig := Sig wire_op wire_ans.

Definition local (c : op_call) (r : op_ans c) : event WireΣ := @Ev WireΣ (Local c) r.
Definition sent (rq : Request) (a : http_answer) : event WireΣ := @Ev WireΣ (Wire (Send rq)) a.
Definition on_wire (e : event HttpΣ) : event WireΣ := @Ev WireΣ (Wire (ev_op e)) (ev_ans e).

Definition over_http {A} (p : hprog A) : prog WireΣ A := interp (fun o : HttpΣ => @call WireΣ (Wire o)) p.

Lemma exec_over_http {A} (p : hprog A) tr a : exec (over_http p) tr a -> exists t, exec p t a /\ tr = map on_wire t.
Proof.
  intros He. apply exec_interp in He as (t & He & Hi). exists t. split; [done|].
  eapply implements_single, Hi. intros e t' H. unfold call in H. apply exec_inv in H as (r & tr' & -> & H).
  apply exec_inv in H as [-> <-]. done.
Qed.

Section Production.
Context `{L : K8sLib} {LS : K8sLibSpec L}.
Context (mismatch : string -> json -> error) (MarshalTime : Z -> result json).

Definition dispatch (c : OpΣ) : prog WireΣ (ans c) :=
  match c with
  | CallLosant (LHTTP cl) o => over_http (losant_http mismatch cl o)
  | CallRancher (RHTTP cl) o => over_http (rancher_http mismatch cl o)
  | ReportState (GHTTP cl) p => over_http (gea_ReportState MarshalTime cl p)
  | c => @call WireΣ (Local c)
  end.

(** The reconciler as main.go makes it: no injected client, the shared store. *)
Definition production : LosantSyncReconciler := mkLSR None None true.

Definition wired_LosantSync (key : NamespacedName) : prog WireΣ outcome :=
  interp dispatch (LosantSync_Reconcile production key).

Lemma exec_local (c : op_call) t r : exec (@call WireΣ (Local c)) t r -> t = [local c r].
Proof. intros H. apply exec_inv in H as (r' & tr' & -> & H). by apply exec_inv in H as [-> ->]. Qed.

(** ** Which clients a reconcile uses *)

(** A call through another client than the given ones. *)
Definition foreign (lc : losant_impl) (gc : gea_impl) (e : event OpΣ) : bool :=
  match ev_op e with
  | CallLosant i _ => negb (bool_decide (i = lc))
  | ReportState i _ => negb (bool_decide (i = gc))
  | CallRancher _ _ | FetchManifest _ _ => true
  | _ => false
  end.

Lemma losant_not_foreign lc gc o (r : op_ans (CallLosant lc o)) : foreign lc gc (@Ev OpΣ (CallLosant lc o) r) = false.
Proof. unfold foreign. simpl. by rewrite bool_decide_eq_true_2. Qed.

Lemma report_not_foreign lc gc p (r : op_ans (ReportState gc p)) : foreign lc gc (@Ev OpΣ (ReportState gc p) r) = false.
Proof. unfold foreign. simpl. by rewrite bool_decide_eq_true_2. Qed.

Ltac own := repeat first
  [ progress avoid
  | lazymatch goal with
    | |- avoids _ (do_call (CallLosant _ _)) => split; [apply losant_not_foreign|exact I]
    | |- avoids _ (do_call (ReportState _ _)) => split; [apply report_not_foreign|exact I]
    | |- avoids _ (Call _ _) => intros ?; split; [first [apply losant_not_foreign|apply report_not_foreign|done]|]
    end ].

Section Own.
Context (lc : losant_impl) (gc : gea_impl).
Abbreviation owned := (avoids (foreign lc gc)).

Lemma schedule_own spec : owned (nextScheduleAndDuration spec).
Proof. unfold nextScheduleAndDuration. own. Qed.

Lemma degraded_own ls t r m : owned (setDegraded ls t r m).
Proof. unfold setDegraded. apply avoids_bind; [apply schedule_own|]. intros [[]|]; own. Qed.

Lemma finish_own ls : owned (sync_finish ls).
Proof. unfold sync_finish. apply avoids_bind; [apply schedule_own|]. intros [[]|]; [own|apply degraded_own]. Qed.

Lemma report_nodes_own ls nodes names : owned (report_nodes gc ls nodes names).
Proof. induction names; cbn [report_nodes]; own; auto. Qed.

Lemma report_own ls cd cs ns : owned (sync_report gc ls cd cs ns).
Proof.
  unfold sync_report. own; first [apply degraded_own|apply report_nodes_own|apply finish_own].
Qed.

Lemma release_own app dev m wds b : owned (release_loop lc app dev m wds b).
Proof. revert b. induction wds; intros b; cbn [release_loop]; own; auto. Qed.

Lemma workflows_own ls cd cs ns : owned (sync_workflows lc gc ls cd cs ns).
Proof.
  unfold sync_workflows, ensureWorkflowDeployments.
  own; first [apply degraded_own|apply release_own|apply report_own].
Qed.

Lemma ensure_nodes_own cd names ls : owned (ensure_nodes lc cd names ls).
Proof. revert ls. induction names; intros ls; cbn [ensure_nodes]; own; auto. Qed.

Lemma bootstrap_own ls cd : owned (Bootstrap lc ls cd).
Proof. unfold Bootstrap, write_credentials, restart_if_configured, restartDeployment. own. Qed.

Lemma nodes_own r ls cd : owned (sync_nodes r lc gc ls cd).
Proof.
  unfold sync_nodes, healthSnapshot. own; first [apply degraded_own|apply ensure_nodes_own|apply workflows_own].
Qed.

Lemma cluster_own r ls : owned (sync_cluster r lc gc ls).
Proof.
  unfold sync_cluster. own; first [apply degraded_own|apply bootstrap_own|apply nodes_own].
Qed.

Lemma delete_nodes_own app devs names : owned (delete_nodes lc app devs names).
Proof. induction names; cbn [delete_nodes]; own; auto. Qed.

Lemma delete_own ls : owned (delete_devices lc ls).
Proof. unfold delete_devices. own; apply delete_nodes_own. Qed.

End Own.

(** No call leaves the cluster on these branches. *)
Lemma degraded_quiet ls t r m : avoids is_remote (setDegraded ls t r m).
Proof. unfold setDegraded, nextScheduleAndDuration. avoid. Qed.

(** The clients that the production reconciler builds in an execution. *)
Definition built_clients (key : NamespacedName) (tr : trace) (lc : losant_impl) (gc : gea_impl) : Prop :=
  exists ls secret token,
    let ref := ProvisioningSecretRef (ls_Spec ls) in
    E (GetLosantSync key) (Ok ls) ∈ tr
    /\ E (GetSecret (mkNN (sr_Namespace ref) (sr_Name ref))) (Ok secret) ∈ tr
    /\ sec_Data secret !! "api-token" = Some token
    /\ lc = LHTTP (mkLosantHTTP token (ApplicationID (ls_Spec ls)))
    /\ gc = GHTTP (NewGEAHTTPClient (GEA (ls_Spec ls))).

Definition own_calls (key : NamespacedName) (tr : trace) : Prop :=
  none is_remote tr \/ exists lc gc, built_clients key tr lc gc /\ none (foreign lc gc) tr.

Lemma NewLosant_token secret app c :
  NewLosantHTTPClient secret app = Ok c ->
  exists token, sec_Data secret !! "api-token" = Some token /\ c = mkLosantHTTP token app.
Proof. unfold NewLosantHTTPClient. destruct (_ !! _) as [token|]; [|done]. intros [= <-]. eauto. Qed.

(** The tail of a branch that reads the Secret and goes on with the clients. *)
Lemma own_calls_secret {A} key ls (k : LosantHTTPClient -> oprog A) (f : error -> oprog A) h tr a secret :
  let ref := ProvisioningSecretRef (ls_Spec ls) in
  E (GetLosantSync key) (Ok ls) ∈ h -> none is_remote h ->
  (forall lc gc, none (foreign lc gc) h) ->
  (forall e, avoids is_remote (f e)) -> (forall c, avoids (foreign (LHTTP c) (GHTTP (NewGEAHTTPClient (GEA (ls_Spec ls))))) (k c)) ->
  E (GetSecret (mkNN (sr_Namespace ref) (sr_Name ref))) (Ok secret) ∈ h ->
  exec (match NewLosantHTTPClient secret (ApplicationID (ls_Spec ls)) with Err e => f e | Ok c => k c end) tr a ->
  own_calls key (h ++ tr).
Proof.
  intros ref Hls Hr Hf Hfe Hk Hs He. destruct (NewLosantHTTPClient _ _) as [c|e] eqn:Hn.
  - apply NewLosant_token in Hn as (token & Ht & ->). right. eexists _, _. split.
    + exists ls, secret, token. split; [set_solver|]. split; [set_solver|]. done.
    + apply none_app. split; [apply Hf|]. by eapply avoids_exec.
  - left. apply none_app. split; [done|]. by eapply avoids_exec.
Qed.

Lemma reconcile_own key tr out : exec (LosantSync_Reconcile production key) tr out -> own_calls key tr.
Proof.
  intros He. pose proof He as He0. unfold LosantSync_Reconcile, do_call in He0. cbn [bind call] in He0.
  apply exec_inv in He0 as (got & tr' & -> & He0). destruct got as [ls|e].
  2:{ left. destruct (IsNotFound e); by apply exec_inv in He0 as [-> _]. }
  clear He0. apply reconcile_cases in He as [_ He|e _ _ -> _|_ _ _ He|_ _ _ _ He|_ _ _ _ He].
  - unfold handleDeletion, do_call in He. destruct (negb _); [left; by apply exec_inv in He as [-> _]|].
    exec_step He. destruct r as [secret|e]; [|left; by apply exec_inv in He as [-> _]].
    eapply (own_calls_secret key ls _ _ [_; _]), He; try done; [left|intros c; apply delete_own|right; left].
  - by left.
  - left. apply suspend_spec in He as [(_ & -> & _)|(_ & e & -> & _)]; done.
  - left. apply first_reconcile_spec in He as (now & e & tr1 & -> & _ & Hn & _). done.
  - unfold schedule_check in He.
    assert (forall h t, E (GetLosantSync key) (Ok ls) ∈ h -> none is_remote h -> (forall lc gc, none (foreign lc gc) h) ->
      exec (sync production ls) t out -> own_calls key (h ++ t)) as Hsync.
    { intros h t Hin Hr Hf Hs. unfold sync, do_call in Hs. exec_step Hs. destruct r as [secret|e].
      - rewrite cons_middle, app_assoc. eapply own_calls_secret, Hs.
        + set_solver.
        + by apply none_app.
        + intros. apply none_app. split; [apply Hf|done].
        + intros. apply degraded_quiet.
        + intros. apply cluster_own.
        + set_solver.
      - left. apply none_app. split; [done|]. apply none_cons. split; [done|].
        eapply avoids_exec, degraded_quiet. exact Hs. }
    destruct (NextScheduledTime (ls_Status ls)) as [next|]; [|eapply (Hsync [_]); try done; left].
    destruct (decide _); [|eapply (Hsync [_]); try done; left]. unfold do_call in He. exec_step He.
    destruct (Before r next); [|eapply (Hsync [_; _]); try done; left].
    left. by exec_steps He.
Qed.

(** ** Where the requests go *)

Definition plain_headers : list (string * string) := [("Content-Type", "application/json")].

Lemma losant_sent cl o t r rq a :
  exec (losant_http mismatch cl o) t r -> Ev (Send rq : HttpΣ) a ∈ t -> losant_request cl (Send rq).
Proof.
  intros He Hin. apply list_elem_of_split in Hin as (t1 & t2 & ->).
  exact (guarded_exec _ _ [] _ _ t1 _ _ t2 He (losant_http_confined mismatch cl o []) eq_refl).
Qed.

Lemma gea_sent cl p t r rq a :
  exec (gea_ReportState MarshalTime cl p) t r -> Ev (Send rq : HttpΣ) a ∈ t ->
  rq_Method rq = "POST" /\ rq_URL rq = gh_endpoint cl /\ rq_Header rq = plain_headers.
Proof.
  unfold gea_ReportState. intros He Hin. destruct (marshal_state _ _); [|exec_steps He; by apply not_elem_of_nil in Hin].
  cbn [bind send call] in He. apply exec_inv in He as (a' & t' & -> & He).
  assert (t' = []) as -> by (destruct a' as [| |code ? ?|code ?]; cbn beta iota in He; try destruct (400 <=? code); by apply exec_inv in He as [-> _]).
  apply list_elem_of_singleton in Hin. by injection (f_equal ev_op Hin) as ->.
Qed.

(** What a request on the wire belongs to. *)
Lemma sent_by e t rq a :
  exec (dispatch (ev_op e)) t (ev_ans e) -> sent rq a ∈ t ->
  (exists cl o, ev_op e = CallLosant (LHTTP cl) o /\ losant_request cl (Send rq))
  \/ (exists cl p, ev_op e = ReportState (GHTTP cl) p /\ rq_Method rq = "POST" /\ rq_URL rq = gh_endpoint cl
        /\ rq_Header rq = plain_headers)
  \/ is_rancher e = true.
Proof.
  destruct e as [c r]. simpl. intros He Hin.
  assert (forall A (p : hprog A) x, exec (over_http p) t x -> exists t', exec p t' x /\ Ev (Send rq : HttpΣ) a ∈ t') as Hh.
  { intros A p x Hx. apply exec_over_http in Hx as (t' & Hx & ->). exists t'. split; [done|].
    apply list_elem_of_fmap in Hin as ([o b] & Heq & Hin). unfold sent, on_wire in Heq. simpl in Heq.
    assert (o = Send rq) as -> by (by injection (f_equal ev_op Heq)).
    assert (a = b) as -> by (injection (f_equal (fun e : event WireΣ => match e with Ev (Wire (Send _)) x => Some x | _ => None end) Heq); done).
    done. }
  assert (forall c' x, exec (@call WireΣ (Local c')) t x -> False) as Hl.
  { intros c' x Hx. apply exec_local in Hx as ->. apply list_elem_of_singleton in Hin.
    by apply (f_equal ev_op) in Hin. }
  destruct c; try match type of He with exec (dispatch ?c) _ _ => destruct (Hl c r He) end.
  - destruct i as [|cl]; [destruct (Hl (CallLosant LInjected o) r He)|]. left. apply Hh in He as (t' & He & Ht'). exists cl, o.
    split; [done|]. by eapply losant_sent.
  - destruct i as [|cl]; [destruct (Hl (ReportState GInjected p) r He)|]. right. left. apply Hh in He as (t' & He & Ht'). exists cl, p.
    split; [done|]. by eapply gea_sent.
  - by right; right.
Qed.

(** Local events stay as they are. *)
Lemma local_event (c : op_call) (r : op_ans c) tr tr' :
  dispatch c = @call WireΣ (Local c) -> implements dispatch tr tr' -> E c r ∈ tr -> local c r ∈ tr'.
Proof.
  intros Hd Hi Hin. apply (implements_elem _ _ _ _ Hi) in Hin as (t & Hsub & He). simpl in He.
  rewrite Hd in He. apply exec_local in He as ->. apply Hsub. left.
Qed.

Lemma not_on_wire (c : op_call) (r : op_ans c) t : local c r ∉ map on_wire t.
Proof. intros Hin. apply list_elem_of_fmap in Hin as (e & Heq & _). by apply (f_equal ev_op) in Heq. Qed.

Lemma local_inj (c c' : op_call) (r : op_ans c) (r' : op_ans c') : local c r = local c' r' -> E c r = E c' r'.
Proof.
  intros H. exact (f_equal (fun e : event WireΣ => match e with Ev (Local c) r => E c r | Ev (Wire _) _ => E Now 0 end) H).
Qed.

Lemma local_source (c : op_call) (r : op_ans c) e t :
  exec (dispatch (ev_op e)) t (ev_ans e) -> local c r ∈ t -> e = E c r.
Proof.
  destruct e as [c' r']. simpl. intros He Hin.
  assert (forall x, exec (@call WireΣ (Local c')) t x -> E c' x = E c r) as Hl.
  { intros x Hx. apply exec_local in Hx as ->. apply list_elem_of_singleton in Hin. symmetry. by apply local_inj. }
  assert (forall A (p : hprog A) x, exec (over_http p) t x -> False) as Hh.
  { intros A p x Hx. apply exec_over_http in Hx as (t' & _ & ->). by apply not_on_wire in Hin. }
  destruct c'; try exact (Hl r' He); destruct i; first [exact (Hl r' He)|destruct (Hh _ _ _ He)].
Qed.

(** The first event of a reconcile is the read of its object. *)
Lemma wired_reads key tr out :
  exec (wired_LosantSync key) tr out ->
  exists got tr0 tr', tr = local (GetLosantSync key) got :: tr' /\ implements dispatch tr0 tr'
    /\ exec (LosantSync_Reconcile production key) (E (GetLosantSync key) got :: tr0) out.
Proof.
  intros He. apply exec_interp in He as (tr0 & He & Hi). pose proof He as He'.
  unfold LosantSync_Reconcile, do_call in He'. cbn [bind call] in He'. apply exec_inv in He' as (got & tr1 & -> & _).
  inversion Hi as [|e t tr2 tr' Hh Hi' Heq]; subst. apply exec_local in Hh as ->. by exists got, tr1, tr'.
Qed.

(** C9: in production every HTTP request of a LosantSync reconcile is one of two kinds: a
    POST to the edge agent of the object's spec that carries no credential, or a request to
    the applications path of api.losant.com over HTTPS that carries, as bearer token, the
    api-token of the provisioning Secret the object names, as read in the same reconcile. *)
Theorem provisioning_token_confined key tr out rq a :
  exec (wired_LosantSync key) tr out -> sent rq a ∈ tr ->
  exists ls, local (GetLosantSync key) (Ok ls) ∈ tr
    /\ ((rq_Method rq = "POST" /\ rq_URL rq = gh_endpoint (NewGEAHTTPClient (GEA (ls_Spec ls)))
         /\ rq_Header rq = plain_headers)
        \/ exists secret token,
             let ref := ProvisioningSecretRef (ls_Spec ls) in
             local (GetSecret (mkNN (sr_Namespace ref) (sr_Name ref))) (Ok secret) ∈ tr
             /\ sec_Data secret !! "api-token" = Some token
             /\ HasPrefix (rq_URL rq) "https://api.losant.com/applications/" = true
             /\ rq_Header rq = auth_headers token).
Proof.
  intros He Hin. apply exec_interp in He as (tr0 & He & Hi).
  destruct (implements_source _ _ _ _ Hi Hin) as (e & t & Hin0 & Ht & Hs).
  pose proof (sent_by _ _ _ _ Ht Hs) as Hby.
  assert (is_remote e = true) as Hrem.
  { unfold is_remote, is_losant, is_gea. destruct Hby as [(cl & o & -> & _)|[(cl & p & -> & _)|Hr]]; [done|done|].
    by rewrite Hr, orb_true_r. }
  apply reconcile_own in He as [Hn|(lc & gc & (ls & secret & token & Hls & Hsec & Htok & -> & ->) & Hn)];
    pose proof (none_elem _ _ _ Hn Hin0) as Hf; [congruence|].
  unfold foreign in Hf. destruct Hby as [(cl & o & Ho & Hr)|[(cl & p & Ho & Hr)|Hr]]; [rewrite Ho in Hf|rewrite Ho in Hf|].
  - apply negb_false_iff, bool_decide_eq_true in Hf. injection Hf as ->. exists ls.
    split; [by eapply local_event|]. right. exists secret, token.
    split; [by eapply local_event|]. split; [done|]. exact Hr.
  - apply negb_false_iff, bool_decide_eq_true in Hf. injection Hf as ->. exists ls.
    split; [by eapply local_event|]. by left.
  - unfold is_rancher in Hr. clear Ht. by destruct (ev_op e).
Qed.

(** ** Deletions on the wire *)

(** The answers that DeleteDevice takes for a deleted device. *)
Definition taken_as_deleted (app d : string) (a : http_answer) : Prop :=
  match failure "DELETE" (device_path app d) a with
  | None => True
  | Some err => mentions_404 (Error err) = true
  end.

Definition delete_request (token app d : string) : Request :=
  mkReq "DELETE" (device_path app d) (auth_headers token) None.

Lemma delete_over_http token app0 app d t :
  exec (over_http (losant_DeleteDevice (mkLosantHTTP token app0) app d)) t None ->
  exists a, t = [sent (delete_request token app d) a] /\ taken_as_deleted app d a.
Proof.
  intros He. apply exec_over_http in He as (t' & He & ->).
  unfold losant_DeleteDevice, losant_doRequest in He. cbn [bind send call lh_token] in He.
  apply exec_inv in He as (a & t1 & -> & He). exists a. unfold taken_as_deleted, failure.
  destruct a as [e|e|code s e|code b]; cbn [bind] in He; try destruct (400 <=? code); cbn [bind] in He;
    try (destruct (Contains _ _) eqn:Hc; [|by apply exec_inv in He as [_ ?]]);
    apply exec_inv in He as [-> _]; done.
Qed.

(** C8: in production the finalizer of an object being deleted is removed only after, for every
    node device and the cluster device recorded in its status, a DELETE of that device was sent to
    the Losant API, with the api-token of the provisioning Secret that the object names, as read in the
    same reconcile, and answered by a status below 400 or by an error whose text mentions status 404. *)
Theorem wired_finalizer_removal key ls tr out ls' e :
  exec (wired_LosantSync key) (local (GetLosantSync key) (Ok ls) :: tr) out ->
  deleting (ls_Meta ls) = true -> local (UpdateLosantSync ls') e ∈ tr ->
  let ref := ProvisioningSecretRef (ls_Spec ls) in
  exists secret token tr0, tr = tr0 ++ [local (UpdateLosantSync ls') e]
    /\ cleanupFinalizer ∉ om_Finalizers (ls_Meta ls')
    /\ local (GetSecret (mkNN (sr_Namespace ref) (sr_Name ref))) (Ok secret) ∈ tr0
    /\ sec_Data secret !! "api-token" = Some token
    /\ forall d, d <> "" -> (exists n, node_devices ls !! n = Some d) \/ d = ClusterDeviceID (ls_Status ls) ->
         exists a, sent (delete_request token (ApplicationID (ls_Spec ls)) d) a ∈ tr0
           /\ taken_as_deleted (ApplicationID (ls_Spec ls)) d a.
Proof.
  intros He Hd Hin ref. apply wired_reads in He as (got & tr0 & tr' & Heq & Hi & He).
  assert (tr' = tr) as -> by (symmetry; exact (f_equal tail Heq)).
  assert (got = Ok ls) as ->.
  { pose proof (f_equal (fun l => default (local Now 0) (head l)) Heq) as Hh. by apply local_inj, E_inj in Hh. }
  destruct (implements_source _ _ _ _ Hi Hin) as (e0 & t & Hin0 & Ht & Hs).
  apply (local_source _ _ _ _ Ht) in Hs as ->.
  destruct (finalizer_removal _ _ _ _ _ _ _ He Hd Hin0) as (-> & Hno & _ & lc & tr1 & Hc & Hdel & ->).
  apply implements_app_inv in Hi as (t1 & t2 & -> & Hi1 & Hi2).
  inversion Hi2 as [|? t3 ? t4 Hu Hi3 Heq2]; subst. apply exec_local in Hu as ->. inversion Hi3; subst.
  destruct Hc as (secret & Hread & [?|(_ & c & Hnew & ->)]); [done|].
  apply NewLosant_token in Hnew as (token & Htok & ->).
  apply elem_of_app in Hread as [Hread|Hread%list_elem_of_singleton]; [|by apply (f_equal ev_op) in Hread].
  exists secret, token, t1. split; [done|]. split; [done|]. split; [by eapply local_event|]. split; [done|].
  intros d Hne Hrec.
  assert (E (CallLosant (LHTTP (mkLosantHTTP token (ApplicationID (ls_Spec ls)))) (DeleteDevice (ApplicationID (ls_Spec ls)) d)) None ∈ tr1)
    as Hcall by (destruct Hdel as [H1 H2]; destruct Hrec as [[n Hn]| -> ]; [exact (H1 n d Hn)|by apply H2]).
  apply (implements_elem _ _ _ _ Hi1) in Hcall as (t0 & Hsub & Hx). simpl in Hx.
  apply (delete_over_http token (ApplicationID (ls_Spec ls))) in Hx as (a & -> & Ha). exists a. split; [by apply Hsub, list_elem_of_singleton|done].
Qed.

End Production.

(** ** An execution

    A deletion in which Losant answers 204 for every device. *)

Definition demo_mismatch (T : string) (_ : json) : error := Errorf ("json: cannot unmarshal into " +:+ T).

Definition demo_wire (w : forall c, op_ans c) (o : WireΣ) (u : unit) : ans o * unit :=
  match o return wire_ans o * unit with
  | Local c => (w c, u)
  | Wire (Send _) => (Response 204 (mkBody "" (Err (Errorf "unexpected end of JSON input"))), u)
  | Wire (RangeOver k) => (exist _ (elements k) (Permutation.Permutation_refl _), u)
  end.

Abbreviation demo_wired := (wired_LosantSync (L := RefLib) demo_mismatch (fun z => Ok (JNum z)) demo_key).
Definition wired_run (w : forall c, op_ans c) : outcome * list (event WireΣ) * unit := run (demo_wire w) demo_wired tt.

Lemma wired_run_exec w :
  exec demo_wired (local (GetLosantSync demo_key) (w (GetLosantSync demo_key)) :: tail (wired_run w).1.2) (wired_run w).1.1.
Proof. exact (run_exec_head (demo_wire w) _ _ tt). Qed.

Lemma wired_finalizer_removal_witness :
  exists secret token a, local (GetSecret (mkNN "edge" "losant")) (Ok secret) ∈ tail (wired_run delete_world).1.2
    /\ sec_Data secret !! "api-token" = Some token
    /\ sent (delete_request token "app" "dev-node-a") a ∈ tail (wired_run delete_world).1.2
    /\ taken_as_deleted "app" "dev-node-a" a.
Proof.
  destruct (wired_finalizer_removal (L := RefLib) (LS := RefLibSpec) demo_mismatch (fun z => Ok (JNum z)) demo_key deleted_ls
    (tail (wired_run delete_world).1.2) (wired_run delete_world).1.1 (without_finalizer (L := RefLib) deleted_ls) None)
    as (secret & token & tr0 & Heq & _ & Hsec & Htok & Hd).
  - exact (wired_run_exec delete_world).
  - reflexivity.
  - apply (list_elem_of_lookup_2 _ 4). vm_compute. reflexivity.
  - destruct (Hd "dev-node-a") as (a & Hin & Ha); [done|left; exists "node-a"; reflexivity|].
    exists secret, token, a. rewrite Heq. split; [apply elem_of_app; left; exact Hsec|].
    split; [exact Htok|]. split; [apply elem_of_app; left; exact Hin|exact Ha].
Defined.

Lemma provisioning_token_confined_witness :
  exists rq a, sent rq a ∈ (wired_run delete_world).1.2 /\ rq_Header rq = auth_headers "token"
    /\ HasPrefix (rq_URL rq) "https://api.losant.com/applications/" = true.
Proof.
  set (rq := delete_request "token" "app" "dev-node-a").
  set (a := Response 204 (mkBody "" (Err (Errorf "unexpected end of JSON input")))).
  assert (Hin : sent rq a ∈ (wired_run delete_world).1.2) by (apply (list_elem_of_lookup_2 _ 3); vm_compute; reflexivity).
  destruct (provisioning_token_confined (L := RefLib) (LS := RefLibSpec) demo_mismatch (fun z => Ok (JNum z)) demo_key
    (wired_run delete_world).1.2 (wired_run delete_world).1.1 rq a) as (ls & _ & [(H & _)|(secret & token & _ & _ & Hp & Hh)]).
  - exact (run_exec (demo_wire delete_world) demo_wired tt).
  - exact Hin.
  - exfalso. vm_compute in H. discriminate H.
  - exists rq, a. split; [exact Hin|]. split; [reflexivity|exact Hp].
Defined.
