(* ===== verification/Lifecycle.v ===== *)
(** * Lifecycle: a LosantSync object over many reconciles

    The object as the API server stores it, together with the devices that exist in its
    Losant application, as a state machine: users create, edit and delete the object,
    and the reconciler runs any number of times.  The API server and Losant answer from
    the state: a read returns the stored object, a status write replaces the status
    only, an object being deleted vanishes with its last finalizer, an Ensure call
    returns the device of that name or makes one.  All other answers are arbitrary.

    The machine covers the runs in which no status write fails and a failing Ensure call
    has created nothing; [lost_status_write_leaks] shows what happens otherwise. *)

From Stdlib Require Import ZArith Lia String.
From stdpp Require Import base list strings gmap.
From S2P Require Import Prelude Effects GoLib K8s ApiTypes HealthScore Clients Operator.
From S2P Require Import Provisioner LosantSyncController LosantSyncProofs LosantSyncTheorems.

Local Open Scope Z_scope.
Local Open Scope prog_scope.

(** ** The state and the answers *)

(** Devices by name, with their identifiers. *)
Record sys := mkSys { obj : option LosantSync; devs : gmap string string }.

(** What is stored after an update of metadata and spec. *)
Definition stored_after (cur ls : LosantSync) : option LosantSync :=
  if deleting (ls_Meta ls) && bool_decide (om_Finalizers (ls_Meta ls) = []) then None
  else Some (mkLosantSync (ls_Meta ls) (ls_Spec ls) (ls_Status cur)).

(** The devices after an Ensure call for a name. *)
Definition ensured_in (name : string) (ds : gmap string string) (r : result string) (ds' : gmap string string) : Prop :=
  match r with
  | Err _ => ds' = ds
  | Ok id => id <> "" /\ match ds !! name with
                         | Some id' => id = id' /\ ds' = ds
                         | None => ds' = <[name := id]> ds
                         end
  end.

Definition without_id (id : string) (ds : gmap string string) : gmap string string := filter (fun kv => kv.2 <> id) ds.

Section Machine.
Context `{L : K8sLib} {LS : K8sLibSpec L}.
(** The application and the cluster name of the object, which edits keep. *)
Context (app cn : string).

Definition losant_serves (o : losant_op) : losant_ans o -> gmap string string -> gmap string string -> Prop :=
  match o return losant_ans o -> gmap string string -> gmap string string -> Prop with
  | EnsureClusterDevice spec => fun r ds ds' =>
      if decide (ApplicationID spec = app) then ensured_in (clusterDeviceName (ClusterName spec)) ds r ds' else ds' = ds
  | EnsureNodeDevice spec n _ => fun r ds ds' =>
      if decide (ApplicationID spec = app) then ensured_in (nodeDeviceName (ClusterName spec) n) ds r ds' else ds' = ds
  | DeleteDevice a id => fun r ds ds' =>
      if decide (a = app) then match r with None => ds' = without_id id ds | Some _ => ds' = ds \/ ds' = without_id id ds end
      else ds' = ds
  | _ => fun _ ds ds' => ds' = ds
  end.

Definition serves (s : sys) (e : event OpΣ) (s' : sys) : Prop :=
  match e with
  | Ev (GetLosantSync _) r =>
      s' = s /\ match r with Ok ls => obj s = Some ls | Err e => IsNotFound e = true -> obj s = None end
  | Ev (UpdateLosantSync ls) None => exists cur, obj s = Some cur /\ s' = mkSys (stored_after cur ls) (devs s)
  | Ev (StatusUpdateLosantSync ls) None =>
      exists cur, obj s = Some cur /\ s' = mkSys (Some (with_status cur (ls_Status ls))) (devs s)
  | Ev (CallLosant _ o) r => obj s' = obj s /\ losant_serves o r (devs s) (devs s')
  | _ => s' = s
  end.

Inductive serves_all : sys -> trace -> sys -> Prop :=
| serves_nil s : serves_all s [] s
| serves_cons s e s1 tr s2 : serves s e s1 -> serves_all s1 tr s2 -> serves_all s (e :: tr) s2.

Lemma serves_all_app s tr1 tr2 s' :
  serves_all s (tr1 ++ tr2) s' <-> exists s1, serves_all s tr1 s1 /\ serves_all s1 tr2 s'.
Proof.
  split.
  - revert s. induction tr1 as [|e tr1 IH]; intros s H; [exists s; by split; [constructor|]|].
    inversion H as [|? ? s1 ? ? Hs Hr]; subst. apply IH in Hr as (s2 & H1 & H2). exists s2.
    split; [by econstructor|done].
  - intros (s1 & H1 & H2). induction H1; [done|]. simpl. econstructor; eauto.
Qed.

(** No status write is answered with an error. *)
Definition status_lost (e : event OpΣ) : bool :=
  match e with Ev (StatusUpdateLosantSync _) (Some _) => true | _ => false end.
Definition lossless (tr : trace) : Prop := none status_lost tr.

(** ** Triples over the state *)

Definition triple {A} (P : sys -> Prop) (p : oprog A) (Q : A -> sys -> Prop) : Prop :=
  forall s tr a s', P s -> exec p tr a -> serves_all s tr s' -> lossless tr -> Q a s'.

Lemma triple_ret {A} (P : sys -> Prop) (a : A) Q : (forall s, P s -> Q a s) -> triple P (Ret a) Q.
Proof. intros H s tr b s' HP He Hs _. apply exec_inv in He as [-> ->]. inversion Hs; subst. auto. Qed.

Lemma triple_bind {A B} P (p : oprog A) (f : A -> oprog B) R Q :
  triple P p R -> (forall a, triple (R a) (f a) Q) -> triple P (bind p f) Q.
Proof.
  intros Hp Hf s tr b s' HP He Hs Hl. apply exec_bind in He as (t1 & t2 & a & -> & H1 & H2).
  apply serves_all_app in Hs as (s1 & Hs1 & Hs2). apply none_app in Hl as [Hl1 Hl2].
  eapply Hf; [eapply Hp| | |]; eauto.
Qed.

Lemma triple_call (P : sys -> Prop) (c : op_call) Q :
  (forall r s s', P s -> status_lost (E c r) = false -> serves s (E c r) s' -> Q r s') -> triple P (do_call c) Q.
Proof.
  intros H s tr r s' HP He Hs Hl. unfold do_call in He. apply exec_inv in He as (r' & tr' & -> & He).
  apply exec_inv in He as [-> <-]. inversion Hs as [|? ? s1 ? ? H1 H2]; subst. inversion H2; subst.
  apply none_cons in Hl as [Hl _]. by eapply H.
Qed.

Lemma triple_weaken {A} (P P' : sys -> Prop) (p : oprog A) Q Q' :
  triple P' p Q' -> (forall s, P s -> P' s) -> (forall a s, Q' a s -> Q a s) -> triple P p Q.
Proof. intros Ht HP HQ s tr a s' H He Hs Hl. apply HQ. eapply Ht; eauto. Qed.

(** A program without calls that change the state. *)
Definition touches (e : event OpΣ) : bool :=
  match ev_op e with
  | UpdateLosantSync _ | StatusUpdateLosantSync _ => true
  | CallLosant _ (EnsureClusterDevice _ | EnsureNodeDevice _ _ _ | DeleteDevice _ _) => true
  | _ => false
  end.

Lemma untouched s e s' : touches e = false -> serves s e s' -> s' = s.
Proof.
  destruct e as [c r]. unfold touches. simpl. destruct c; try done; try (by intros _ [-> _]).
  destruct o; try done; intros _ [Ho Hd]; destruct s, s'; simpl in *; congruence.
Qed.

Lemma triple_frame {A} P (p : oprog A) : avoids touches p -> triple P p (fun _ => P).
Proof.
  intros Hp s tr a s' HP He Hs _. apply (avoids_exec _ _ _ _ He) in Hp. clear He.
  assert (s' = s) as ->; [|done]. revert Hp. induction Hs as [|s e s1 tr s2 H1 H2 IH]; [done|]. intros Hn.
  apply none_cons in Hn as [He Hn]. apply untouched in H1 as ->; [|done]. auto.
Qed.

(** ** The invariant *)

(** Every device of the application is recorded in the object. *)
Definition recorded (ls : LosantSync) (ds : gmap string string) : Prop :=
  forall name id, ds !! name = Some id ->
    id <> "" /\ (name = clusterDeviceName cn /\ ClusterDeviceID (ls_Status ls) = id
                 \/ exists n, name = nodeDeviceName cn n /\ node_devices ls !! n = Some id).

Definition inv (s : sys) : Prop :=
  match obj s with
  | None => devs s = ∅
  | Some ls => ApplicationID (ls_Spec ls) = app /\ ClusterName (ls_Spec ls) = cn /\ recorded ls (devs s)
               /\ (devs s = ∅ \/ cleanupFinalizer ∈ om_Finalizers (ls_Meta ls))
  end.

(** During a sync: the object in memory records every device, the stored one is its origin. *)
Definition syncing (ls : LosantSync) (s : sys) : Prop :=
  ApplicationID (ls_Spec ls) = app /\ ClusterName (ls_Spec ls) = cn /\ recorded ls (devs s)
  /\ cleanupFinalizer ∈ om_Finalizers (ls_Meta ls)
  /\ exists cur, obj s = Some cur /\ ls_Meta cur = ls_Meta ls /\ ls_Spec cur = ls_Spec ls.

Lemma nodeDeviceName_inj n m : nodeDeviceName cn n = nodeDeviceName cn m -> n = m.
Proof.
  unfold nodeDeviceName. intros H. assert (forall a x y : string, a +:+ x = a +:+ y -> x = y) as Hinj.
  { induction a as [|c a IH]; intros x y Hxy; [done|]. rewrite !string_app_cons in Hxy. injection Hxy. apply IH. }
  by apply Hinj, Hinj, Hinj in H.
Qed.

Lemma cluster_node_names n : clusterDeviceName cn <> nodeDeviceName cn n.
Proof. intros H. by apply (f_equal (String.get 4)) in H. Qed.

(** The status of an object decides what it records. *)
Lemma recorded_status ls ls' ds :
  ClusterDeviceID (ls_Status ls') = ClusterDeviceID (ls_Status ls) -> node_devices ls' = node_devices ls ->
  recorded ls ds -> recorded ls' ds.
Proof. intros Hc Hn Hr name id Hid. rewrite Hc, Hn. by apply Hr. Qed.

Lemma syncing_status ls ls' s :
  ls_Meta ls' = ls_Meta ls -> ls_Spec ls' = ls_Spec ls ->
  ClusterDeviceID (ls_Status ls') = ClusterDeviceID (ls_Status ls) -> node_devices ls' = node_devices ls ->
  syncing ls s -> syncing ls' s.
Proof.
  intros Hm Hs Hc Hn (Ha & Hcn & Hr & Hf & cur & Ho & Hm' & Hs'). unfold syncing. rewrite Hm, Hs.
  split; [done|]. split; [done|]. split; [by eapply recorded_status|]. eauto.
Qed.

(** The write that ends a sync stores what was recorded. *)
Lemma status_write ls :
  triple (syncing ls) (do_call (StatusUpdateLosantSync ls)) (fun _ => inv).
Proof.
  apply triple_call. intros [e|] s s' (Ha & Hcn & Hr & Hf & cur & Ho & Hm & Hs) Hl Hserve; [done|].
  simpl in Hserve. destruct Hserve as (cur' & Ho' & ->). rewrite Ho in Ho'. injection Ho' as <-.
  unfold inv. simpl. rewrite Hm, Hs. eauto.
Qed.

(** An Ensure call for the cluster, and for a node, whose answer is recorded. *)
Lemma ensured_cluster ls ds id ds' :
  recorded ls ds -> ensured_in (clusterDeviceName cn) ds (Ok id) ds' -> recorded (with_ClusterDeviceID ls id) ds'.
Proof.
  intros Hr [Hne Hd] name id' Hid. destruct (ds !! clusterDeviceName cn) as [old|] eqn:Hold.
  - destruct Hd as [-> ->]. destruct (Hr _ _ Hid) as (Hne' & [[-> _]|Hn]); split; try done; [left|by right].
    split; [done|]. simpl. congruence.
  - subst ds'. apply lookup_insert_Some in Hid as [[<- <-]|[Hnn Hid]]; [split; [done|by left]|].
    destruct (Hr _ _ Hid) as (Hne' & [[-> _]|Hn]); [done|]. split; [done|by right].
Qed.

Lemma ensured_node ls ds n id ds' :
  recorded ls ds -> ensured_in (nodeDeviceName cn n) ds (Ok id) ds' ->
  recorded (with_NodeDevices ls (Some (<[n := id]> (node_devices ls)))) ds'.
Proof.
  intros Hr [Hne Hd] name id' Hid. rewrite node_devices_with.
  assert (forall m, name = nodeDeviceName cn m -> (m = n -> id' = id) -> node_devices ls !! m = Some id' ->
    <[n := id]> (node_devices ls) !! m = Some id') as Hother.
  { intros m -> Hm Hl. destruct (decide (m = n)) as [->|]; [by rewrite lookup_insert_eq, Hm|by rewrite lookup_insert_ne]. }
  destruct (ds !! nodeDeviceName cn n) as [old|] eqn:Hold.
  - destruct Hd as [-> ->]. destruct (Hr _ _ Hid) as (Hne' & [[-> Hc]|(m & -> & Hm)]); split; try done; [by left|right].
    exists m. split; [done|]. apply Hother; [done| |done]. intros ->. congruence.
  - subst ds'. apply lookup_insert_Some in Hid as [[<- <-]|[Hnn Hid]].
    + split; [done|]. right. exists n. split; [done|]. apply lookup_insert_eq.
    + destruct (Hr _ _ Hid) as (Hne' & [[-> Hc]|(m & -> & Hm)]); split; try done; [by left|right].
      exists m. split; [done|]. apply Hother; [done| |done]. by intros ->.
Qed.

(** ** The parts of the reconciler *)

Lemma schedule_frame spec P : triple P (nextScheduleAndDuration spec) (fun _ => P).
Proof. apply triple_frame. unfold nextScheduleAndDuration. avoid. Qed.

Lemma write_then {A} ls (f : option error -> oprog A) :
  (forall e, avoids touches (f e)) ->
  triple (syncing ls) (bind (do_call (StatusUpdateLosantSync ls)) f) (fun _ => inv).
Proof. intros Hf. eapply triple_bind; [apply status_write|]. intros e. by apply triple_frame. Qed.

Lemma degraded_keeps ls t r m : triple (syncing ls) (setDegraded ls t r m) (fun _ => inv).
Proof.
  unfold setDegraded. eapply triple_bind; [apply schedule_frame|]. intros a.
  assert (forall ls', ls_Meta ls' = ls_Meta ls -> ls_Spec ls' = ls_Spec ls ->
    ClusterDeviceID (ls_Status ls') = ClusterDeviceID (ls_Status ls) -> node_devices ls' = node_devices ls ->
    forall (f : option error -> oprog outcome), (forall e, avoids touches (f e)) ->
    triple (syncing ls) (bind (do_call (StatusUpdateLosantSync ls')) f) (fun _ => inv)) as Hw.
  { intros ls' Hm Hs Hc Hn f Hf. eapply triple_weaken; [by apply write_then| |done]. intros s. by apply syncing_status. }
  destruct a as [[next d]|e]; apply Hw; try done; intros []; avoid.
Qed.

Lemma finish_keeps ls : triple (syncing ls) (sync_finish ls) (fun _ => inv).
Proof.
  unfold sync_finish. eapply triple_bind; [apply schedule_frame|]. intros [[next d]|e]; [|apply degraded_keeps].
  eapply triple_bind; [apply triple_frame; avoid|]. intros now.
  eapply triple_weaken; [apply write_then; intros []; avoid| |done]. intros s. by apply syncing_status.
Qed.

Lemma report_keeps gc ls cd cs ns : triple (syncing ls) (sync_report gc ls cd cs ns) (fun _ => inv).
Proof.
  unfold sync_report. eapply triple_bind; [apply triple_frame; avoid|]. intros [e|]; [apply degraded_keeps|].
  eapply triple_bind; [apply triple_frame; avoid|]. intros order.
  eapply triple_bind; [apply triple_frame; induction (proj1_sig order); cbn [report_nodes]; avoid; auto|]. intros [].
  eapply triple_weaken; [apply finish_keeps| |done]. intros s. by apply syncing_status.
Qed.

Lemma release_untouched lc a dev m wds b : avoids touches (release_loop lc a dev m wds b).
Proof. revert b. induction wds; intros b; cbn [release_loop]; avoid; auto. Qed.

Lemma workflows_keep lc gc ls cd cs ns : triple (syncing ls) (sync_workflows lc gc ls cd cs ns) (fun _ => inv).
Proof.
  unfold sync_workflows. eapply triple_bind.
  { apply triple_frame. unfold ensureWorkflowDeployments. avoid; apply release_untouched. }
  intros [[reason msg] [e|]]; [apply degraded_keeps|].
  eapply triple_weaken; [apply report_keeps| |done]. intros s. destruct (decide _); by apply syncing_status.
Qed.

(** Step 5 records each device as soon as Losant confirmed it. *)
Lemma ensure_nodes_keep lc cd names ls :
  triple (syncing ls) (ensure_nodes lc cd names ls) (fun res => syncing (fst res)).
Proof.
  revert ls. induction names as [|n names IH]; intros ls; cbn [ensure_nodes]; [by apply triple_ret|].
  eapply (triple_bind _ _ _ (fun r => match r with
    | Ok id => syncing (with_NodeDevices ls (Some (<[n := id]> (node_devices ls)))) | Err _ => syncing ls end)).
  - apply (triple_call _ (CallLosant lc (EnsureNodeDevice (ls_Spec ls) n cd))). intros r s s' Hs _ Hserve. pose proof Hs as (Ha & Hcn & Hr & Hf & cur & Ho & Hm & Hsp).
    simpl in Hserve. destruct Hserve as [Ho' Hd]. rewrite decide_True, Hcn in Hd by done. destruct r as [id|e].
    + split; [done|]. split; [done|]. split; [by eapply ensured_node|]. split; [done|]. exists cur. by rewrite Ho'.
    + simpl in Hd. unfold syncing. rewrite Hd, Ho'. done.
  - intros [id|e]; [apply IH|by apply triple_ret].
Qed.

Lemma nodes_keep r lc gc ls cd : triple (syncing ls) (sync_nodes r lc gc ls cd) (fun _ => inv).
Proof.
  unfold sync_nodes. eapply triple_bind; [apply triple_frame; unfold healthSnapshot; avoid|]. intros [cs ns].
  set (ls0 := match NodeDevices (ls_Status ls) with None => _ | Some _ => _ end).
  eapply triple_bind; [apply triple_frame; avoid|]. intros order.
  eapply triple_bind.
  { eapply triple_weaken; [apply (ensure_nodes_keep lc cd (proj1_sig order) ls0)| |by intros a s Hs; apply Hs].
    intros s. unfold ls0. destruct (NodeDevices (ls_Status ls)) eqn:E; [done|]. apply syncing_status; try done.
    unfold node_devices. by rewrite E. }
  intros [ls1 [[n e]|]]; [apply degraded_keeps|].
  eapply triple_weaken; [apply workflows_keep| |done]. intros s. by apply syncing_status.
Qed.

Lemma cluster_keeps r lc gc ls : triple (syncing ls) (sync_cluster r lc gc ls) (fun _ => inv).
Proof.
  unfold sync_cluster. eapply triple_bind; [apply triple_frame; avoid|]. intros [e|]; [apply degraded_keeps|].
  eapply (triple_bind _ _ _ (fun res => match res with
    | Ok id => syncing (with_ClusterDeviceID ls id) | Err _ => syncing ls end)).
  { apply (triple_call _ (CallLosant lc (EnsureClusterDevice (ls_Spec ls)))). intros res s s' Hs _ Hserve. pose proof Hs as (Ha & Hcn & Hr & Hf & cur & Ho & Hm & Hsp).
    simpl in Hserve. destruct Hserve as [Ho' Hd]. rewrite decide_True, Hcn in Hd by done. destruct res as [id|e].
    - split; [done|]. split; [done|]. split; [by eapply ensured_cluster|]. split; [done|]. exists cur. by rewrite Ho'.
    - simpl in Hd. unfold syncing. rewrite Hd, Ho'. done. }
  intros [id|e]; [|apply degraded_keeps]. destruct (IsStatusConditionTrue _ _); [apply nodes_keep|].
  eapply triple_bind; [apply triple_frame; unfold Bootstrap, write_credentials, restart_if_configured, restartDeployment; avoid|].
  intros [e|]; [apply degraded_keeps|].
  eapply triple_weaken; [apply nodes_keep| |done]. intros s. by apply syncing_status.
Qed.

Lemma sync_keeps r ls : triple (syncing ls) (sync r ls) (fun _ => inv).
Proof.
  unfold sync. eapply triple_bind; [apply triple_frame; avoid|]. intros [secret|e]; [|apply degraded_keeps].
  destruct (r_LosantClient r); [apply cluster_keeps|]. destruct (NewLosantHTTPClient _ _); [apply cluster_keeps|apply degraded_keeps].
Qed.

(** ** Deletion *)

(** The devices left when those of [names] are gone. *)
Definition left_after (ls : LosantSync) (names : list string) (s : sys) : Prop :=
  forall name id, devs s !! name = Some id ->
    id <> "" /\ (name = clusterDeviceName cn /\ ClusterDeviceID (ls_Status ls) = id
                 \/ exists n, n ∈ names /\ name = nodeDeviceName cn n /\ node_devices ls !! n = Some id).

Lemma without_id_lookup id ds name id' : without_id id ds !! name = Some id' <-> ds !! name = Some id' /\ id' <> id.
Proof. unfold without_id. by rewrite map_lookup_filter_Some. Qed.

(** A deletion of one more device keeps the invariant. *)
Lemma devs_shrink s s' :
  obj s' = obj s -> (forall name x, devs s' !! name = Some x -> devs s !! name = Some x) -> inv s -> inv s'.
Proof.
  intros Ho Hsub. unfold inv. rewrite Ho. assert (devs s = ∅ -> devs s' = ∅) as Hempty.
  { intros He. apply map_eq. intros name. rewrite lookup_empty. apply eq_None_not_Some. intros [x Hx].
    apply Hsub in Hx. by rewrite He in Hx. }
  destruct (obj s) as [ls|]; [|done]. intros (Ha & Hcn & Hr & Hf). split; [done|]. split; [done|].
  split; [intros name x Hx; by apply Hr, Hsub|]. destruct Hf; auto.
Qed.

Definition stored (ls : LosantSync) (s : sys) : Prop := obj s = Some ls.

Lemma delete_nodes_clear lc ls names :
  triple (fun s => inv s /\ stored ls s /\ left_after ls names s) (delete_nodes lc app (node_devices ls) names)
    (fun err s => inv s /\ stored ls s /\ match err with None => left_after ls [] s | Some _ => True end).
Proof.
  induction names as [|n names IH]; cbn [delete_nodes]; [apply triple_ret; tauto|].
  eapply (triple_bind _ _ _ (fun err s => inv s /\ stored ls s /\ match err with None => left_after ls names s | Some _ => True end)).
  - apply (triple_call _ (CallLosant lc (DeleteDevice app (default "" (node_devices ls !! n))))). intros r s s' (Hi & Ho & Hl) _ Hserve. destruct Hserve as [Ho' Hd]. cbn [losant_serves] in Hd.
    rewrite decide_True in Hd by done. set (id := default "" (node_devices ls !! n)) in *.
    assert (forall name x, devs s' !! name = Some x -> devs s !! name = Some x) as Hsub.
    { destruct r; [destruct Hd as [-> | ->]|rewrite Hd]; intros name x Hx; try done; by apply without_id_lookup in Hx as [? _]. }
    split; [by eapply devs_shrink|]. split; [by unfold stored; rewrite Ho'|].
    destruct r as [e|]; [done|]. intros name x Hx. rewrite Hd in Hx.
    apply without_id_lookup in Hx as [Hx Hne]. destruct (Hl _ _ Hx) as (Hx0 & [Hc|(m & Hm & -> & Hmx)]); split; try done; [by left|right].
    exists m. split; [|done]. apply elem_of_cons in Hm as [->|Hm]; [|done]. unfold id in Hne. by rewrite Hmx in Hne.
  - intros [e|]; [apply triple_ret; tauto|]. apply IH.
Qed.

(** The finalizer goes last, when no device is left. *)
Lemma cluster_clear lc ls :
  triple (fun s => inv s /\ stored ls s /\ left_after ls [] s)
    (if decide (ClusterDeviceID (ls_Status ls) <> "")
     then do_call (CallLosant lc (DeleteDevice app (ClusterDeviceID (ls_Status ls)))) else Ret None)
    (fun err s => inv s /\ stored ls s /\ (err = None -> devs s = ∅)).
Proof.
  destruct (decide _) as [Hne|Heq].
  - apply (triple_call _ (CallLosant lc (DeleteDevice app (ClusterDeviceID (ls_Status ls))))).
    intros r s s' (Hi & Ho & Hl) _ Hserve. destruct Hserve as [Ho' Hd]. cbn [losant_serves] in Hd.
    rewrite decide_True in Hd by done. split; [|split; [by unfold stored; rewrite Ho'|]].
    + eapply devs_shrink, Hi; [done|].
      destruct r; [destruct Hd as [-> | ->]|rewrite Hd]; intros name x Hx; try done; by apply without_id_lookup in Hx as [? _].
    + intros ->. rewrite Hd. apply map_eq. intros name. rewrite lookup_empty. apply eq_None_not_Some.
      intros [x Hx]. apply without_id_lookup in Hx as [Hx Hx']. destruct (Hl _ _ Hx) as (_ & [[_ <-]|(n & Hn & _)]); [done|].
      by apply not_elem_of_nil in Hn.
  - apply triple_ret. intros s (Hi & Ho & Hl). split; [done|]. split; [done|]. intros _.
    apply map_eq. intros name. rewrite lookup_empty. apply eq_None_not_Some. intros [x Hx].
    destruct (Hl _ _ Hx) as (Hx0 & [[_ <-]|(n & Hn & _)]); [by destruct Heq|by apply not_elem_of_nil in Hn].
Qed.

Lemma delete_devices_clear lc ls :
  triple (fun s => inv s /\ stored ls s) (delete_devices lc ls) (fun _ => inv).
Proof.
  assert (ApplicationID (ls_Spec ls) = app -> triple (fun s => inv s /\ stored ls s) (delete_devices lc ls) (fun _ => inv)) as H.
  2:{ intros s tr a s' [Hi Ho]. apply H; [|done]. unfold inv in Hi. rewrite Ho in Hi. apply Hi. }
  intros Ha. unfold delete_devices. rewrite Ha.
  eapply triple_bind; [apply triple_frame; avoid|]. intros order.
  eapply triple_bind.
  { eapply triple_weaken; [apply (delete_nodes_clear lc ls (proj1_sig order))| |by intros a s Hs; apply Hs].
    intros s [Hi Ho]. split; [done|]. split; [done|]. unfold inv in Hi. rewrite Ho in Hi. destruct Hi as (_ & _ & Hr & _).
    intros name id Hid. destruct (Hr _ _ Hid) as (Hne & [Hc|(n & -> & Hn)]); split; try done; [by left|right].
    exists n. split; [|done]. rewrite (proj2_sig order). apply elem_of_elements, elem_of_dom. eauto. }
  intros [e|]; [apply triple_ret; tauto|].
  eapply triple_bind; [apply cluster_clear|]. intros [e|]; [apply triple_ret; tauto|].
  eapply triple_bind.
  { apply (triple_call _ (UpdateLosantSync (without_finalizer ls))). intros r s s' (Hi & Ho & Hd) _ Hserve.
    instantiate (1 := fun _ => inv). destruct r as [e|]; [by rewrite Hserve|].
    destruct Hserve as (cur & Ho' & ->). unfold inv in *. rewrite Ho in Hi. unfold stored_after. simpl.
    destruct (_ && _); [by apply Hd|]. split; [apply Hi|]. split; [apply Hi|]. rewrite Hd by done.
    split; [intros name id Hid; by rewrite lookup_empty in Hid|by left]. }
  intros e. by apply triple_ret.
Qed.

(** ** Reconcile *)

Lemma syncing_start ls s : inv s -> stored ls s -> cleanupFinalizer ∈ om_Finalizers (ls_Meta ls) -> syncing ls s.
Proof.
  unfold inv, stored. intros Hi Ho Hf. rewrite Ho in Hi. destruct Hi as (Ha & Hcn & Hr & _).
  split; [done|]. split; [done|]. split; [done|]. split; [done|]. by exists ls.
Qed.

Lemma deletion_keeps r ls : triple (fun s => inv s /\ stored ls s) (handleDeletion r ls) (fun _ => inv).
Proof.
  unfold handleDeletion. destruct (negb _); [apply triple_ret; tauto|].
  eapply triple_bind; [apply triple_frame; avoid|]. intros [secret|e]; [|apply triple_ret; tauto].
  destruct (r_LosantClient r); [apply delete_devices_clear|].
  destruct (NewLosantHTTPClient _ _); [apply delete_devices_clear|apply triple_ret; tauto].
Qed.

Definition ready (ls : LosantSync) (s : sys) : Prop :=
  inv s /\ stored ls s /\ cleanupFinalizer ∈ om_Finalizers (ls_Meta ls).

Lemma ready_triple {A} ls (p : oprog A) Q : triple (syncing ls) p Q -> triple (ready ls) p Q.
Proof. intros H. eapply triple_weaken; [exact H| |done]. intros s (Hi & Ho & Hf). by apply syncing_start. Qed.

Lemma schedule_keeps r ls : triple (ready ls) (schedule_check r ls) (fun _ => inv).
Proof.
  pose proof (ready_triple _ _ _ (sync_keeps r ls)) as Hsync. unfold schedule_check.
  destruct (NextScheduledTime (ls_Status ls)) as [next|]; [|exact Hsync].
  destruct (decide _); [|exact Hsync]. eapply triple_bind; [apply triple_frame; avoid|]. intros now.
  destruct (Before now next); [|exact Hsync].
  eapply triple_bind; [apply triple_frame; avoid|]. intros now'. apply triple_ret. by intros s [Hi _].
Qed.

Lemma suspend_keeps ls : triple (ready ls) (suspend ls) (fun _ => inv).
Proof.
  unfold suspend. destruct (decide _); [|apply triple_ret; by intros s [Hi _]]. apply ready_triple.
  eapply triple_weaken; [apply write_then; intros []; avoid| |done]. intros s. by apply syncing_status.
Qed.

Lemma first_keeps ls : triple (ready ls) (first_reconcile ls) (fun _ => inv).
Proof.
  unfold first_reconcile. apply ready_triple. eapply triple_bind; [apply triple_frame; avoid|]. intros now.
  eapply triple_weaken; [apply write_then| |by intros ? s Hs; apply Hs].
  - intros []; unfold EnsureCredentialPlaceholder; avoid.
  - intros s. by apply syncing_status.
Qed.

(** Every reconcile keeps the invariant. *)
Lemma reconcile_keeps r key : triple inv (LosantSync_Reconcile r key) (fun _ => inv).
Proof.
  unfold LosantSync_Reconcile.
  eapply (triple_bind _ _ _ (fun got s => inv s /\ match got with Ok ls => stored ls s | Err _ => True end)).
  { apply (triple_call _ (GetLosantSync key)). intros r0 s s' Hi _ [-> Hr]. split; [done|]. by destruct r0. }
  intros [ls|e]; [|destruct (IsNotFound e); apply triple_ret; tauto].
  destruct (negb _) eqn:Hdel; [apply deletion_keeps|].
  rewrite AddFinalizer_spec, ContainsFinalizer_spec. destruct (bool_decide _) eqn:Hf; cbn beta iota.
  - apply bool_decide_eq_true in Hf.
    assert (forall p : oprog outcome, triple (ready ls) p (fun _ => inv) -> triple (fun s => inv s /\ stored ls s) p (fun _ => inv)) as Hw.
    { intros p Hp. eapply triple_weaken; [exact Hp| |done]. by intros s [? ?]. }
    apply Hw. destruct (Suspend _); [apply suspend_keeps|]. destruct (decide _); [apply first_keeps|apply schedule_keeps].
  - eapply (triple_bind _ _ _ (fun _ => inv)); [|intros []; by apply triple_ret].
    apply (triple_call _ (UpdateLosantSync (with_finalizers ls (om_Finalizers (ls_Meta ls) ++ [cleanupFinalizer])))).
    intros [e|] s s' [Hi Ho] _ Hserve; [by rewrite Hserve|]. destruct Hserve as (cur & Ho' & ->).
    unfold stored in Ho. unfold inv in *. rewrite Ho in Hi, Ho'. injection Ho' as <-. unfold stored_after.
    replace (deleting _) with false by (symmetry; exact Hdel). simpl. destruct Hi as (Ha & Hcn & Hr & _). split; [done|]. split; [done|]. split; [exact Hr|].
    right. apply elem_of_app. right. by apply list_elem_of_singleton.
Qed.

(** ** The machine *)

Definition set_deletion (m : ObjectMeta) (t : Z) : ObjectMeta :=
  mkMeta (om_Name m) (om_Namespace m) (om_Generation m) (Some t) (om_Finalizers m).

Inductive user_step : sys -> sys -> Prop :=
| us_create ls ds :
    ApplicationID (ls_Spec ls) = app -> ClusterName (ls_Spec ls) = cn ->
    user_step (mkSys None ds) (mkSys (Some ls) ds)
| us_edit ls ls' ds :
    ApplicationID (ls_Spec ls') = app -> ClusterName (ls_Spec ls') = cn -> ls_Status ls' = ls_Status ls ->
    (cleanupFinalizer ∈ om_Finalizers (ls_Meta ls) -> cleanupFinalizer ∈ om_Finalizers (ls_Meta ls')) ->
    user_step (mkSys (Some ls) ds) (mkSys (Some ls') ds)
| us_delete ls t ds :
    om_Finalizers (ls_Meta ls) <> [] ->
    user_step (mkSys (Some ls) ds) (mkSys (Some (mkLosantSync (set_deletion (ls_Meta ls) t) (ls_Spec ls) (ls_Status ls))) ds)
| us_remove ls ds :
    om_Finalizers (ls_Meta ls) = [] -> user_step (mkSys (Some ls) ds) (mkSys None ds).

Inductive sys_step : sys -> sys -> Prop :=
| step_user s s' : user_step s s' -> sys_step s s'
| step_reconcile r key s tr out s' :
    exec (LosantSync_Reconcile r key) tr out -> serves_all s tr s' -> lossless tr -> sys_step s s'.

Lemma user_step_keeps s s' : user_step s s' -> inv s -> inv s'.
Proof.
  unfold inv. destruct 1 as [ls ds Ha Hcn|ls ls' ds Ha Hcn Hst Hf|ls t ds Hne|ls ds He]; simpl.
  - intros ->. split; [done|]. split; [done|]. split; [|by left]. intros name id Hid. by rewrite lookup_empty in Hid.
  - intros (_ & _ & Hr & Hd). split; [done|]. split; [done|]. split; [|naive_solver].
    eapply recorded_status, Hr; unfold node_devices; by rewrite Hst.
  - intros (Ha & Hcn & Hr & Hd). done.
  - intros (_ & _ & _ & [Hd|Hf]); [done|]. rewrite He in Hf. by apply not_elem_of_nil in Hf.
Qed.

Lemma sys_step_keeps s s' : sys_step s s' -> inv s -> inv s'.
Proof.
  destruct 1 as [s s' Hu|r key s tr out s' He Hs Hl]; intros Hi; [by eapply user_step_keeps|].
  by eapply (reconcile_keeps r key).
Qed.


(** ** Convergence *)

Definition write_failed (e : event OpΣ) : bool :=
  match e with
  | Ev (UpdateLosantSync _) (Some _) | Ev (StatusUpdateLosantSync _) (Some _) => true
  | Ev (GetLosantSync _) (Err _) => true
  | _ => false
  end.

(** A reconcile in which the API server and every service do what they are asked, with a
    usable Secret and schedule. *)
Definition smooth_step (r : LosantSyncReconciler) (key : NamespacedName) (s s' : sys) : Prop :=
  exists tr out, exec (LosantSync_Reconcile r key) tr out /\ serves_all s tr s' /\ none write_failed tr
    /\ forall ls, obj s = Some ls -> ~ cause (ls_Spec ls) tr.

Lemma smooth_cases r key ls s s' :
  smooth_step r key s s' -> obj s = Some ls ->
  exists tr out, reconciled r ls tr out /\ serves_all s tr s' /\ none write_failed tr /\ ~ cause (ls_Spec ls) tr.
Proof.
  intros (tr & out & He & Hs & Hw & Hc) Ho. pose proof He as He'. unfold LosantSync_Reconcile, do_call in He'.
  cbn [bind call] in He'. apply exec_inv in He' as (got & tr' & -> & _). apply none_cons in Hw as [Hg Hw].
  inversion Hs as [|? ? s1 ? ? Hm Hs']; subst. destruct Hm as [-> Hgot]. destruct got as [ls'|e]; [|done].
  rewrite Ho in Hgot. injection Hgot as <-. exists tr', out. split; [by eapply reconcile_cases|].
  split; [done|]. split; [done|]. intros Hca. apply (Hc ls Ho). eapply cause_mono, Hca. set_solver.
Qed.

(** Without writes the stored object stays. *)
Lemma obj_kept s tr s' : serves_all s tr s' -> none is_ls_write tr -> obj s' = obj s.
Proof.
  induction 1 as [|s e s1 tr s2 H1 H2 IH]; [done|]. intros Hn. apply none_cons in Hn as [He Hn]. rewrite (IH Hn).
  destruct e as [c r]. unfold is_ls_write in He. simpl in He. destruct c; try done; simpl in H1; try (by rewrite H1); by destruct H1 as [H1 _]; rewrite ?H1.
Qed.

(** The one status write of a trace decides the stored object. *)
Lemma obj_written s tr0 ls e tr1 s' cur :
  serves_all s (tr0 ++ E (StatusUpdateLosantSync ls) e :: tr1) s' -> obj s = Some cur ->
  none is_ls_write tr0 -> none is_ls_write tr1 -> none write_failed (tr0 ++ E (StatusUpdateLosantSync ls) e :: tr1) ->
  obj s' = Some (with_status cur (ls_Status ls)).
Proof.
  intros Hs Ho H0 H1 Hw. apply serves_all_app in Hs as (s1 & Hs1 & Hs2). apply (obj_kept _ _ _ Hs1) in H0.
  inversion Hs2 as [|? ? s2 ? ? Hm Hs3]; subst. apply (obj_kept _ _ _ Hs3) in H1. rewrite H1.
  apply none_app in Hw as [_ Hw]. apply none_cons in Hw as [Hw _]. destruct e as [e|]; [done|].
  destruct Hm as (cur' & Hc' & ->). simpl. rewrite H0, Ho in Hc'. by injection Hc' as <-.
Qed.

Lemma smooth_finalizer r key ls ds s' :
  smooth_step r key (mkSys (Some ls) ds) s' -> deleting (ls_Meta ls) = false -> cleanupFinalizer ∉ om_Finalizers (ls_Meta ls) ->
  obj s' = Some (with_finalizers ls (om_Finalizers (ls_Meta ls) ++ [cleanupFinalizer])).
Proof.
  intros Hs Hd Hf. apply (smooth_cases _ _ ls) in Hs as (tr & out & Hr & Hs & Hw & _); [|done].
  destruct Hr as [Hd' _|e _ _ -> _|_ Hf' _ _|_ Hf' _ _ _|_ Hf' _ _ _]; [congruence| |done..].
  inversion Hs as [|? ? s1 ? ? Hm Hs3]; subst. inversion Hs3; subst. apply none_cons in Hw as [Hw _].
  destruct e as [e|]; [done|]. destruct Hm as (cur & Hcur & ->). simpl in Hcur. injection Hcur as <-.
  simpl. unfold stored_after. replace (deleting _) with false by (symmetry; exact Hd). done.
Qed.

Lemma smooth_first r key ls s s' :
  smooth_step r key s s' -> obj s = Some ls -> deleting (ls_Meta ls) = false ->
  cleanupFinalizer ∈ om_Finalizers (ls_Meta ls) -> Suspend (ls_Spec ls) = false -> Phase (ls_Status ls) = "" ->
  exists st, obj s' = Some (with_status ls st) /\ Phase st = PhaseProvisioning.
Proof.
  intros Hs Ho Hd Hf Hsu Hp. apply (smooth_cases _ _ ls) in Hs as (tr & out & Hr & Hs & Hw & _); [|done].
  destruct Hr as [Hd' _|e _ Hf' _ _|_ _ Hs' _|_ _ _ _ He|_ _ _ Hp' _]; [congruence|done|congruence| |done].
  apply first_reconcile_spec in He as (now & e & tr1 & -> & Hn & _).
  eapply (obj_written _ [_]) in Hs; try done. eexists. split; [exact Hs|done].
Qed.

Lemma smooth_sync r key ls s s' :
  smooth_step r key s s' -> obj s = Some ls -> deleting (ls_Meta ls) = false ->
  cleanupFinalizer ∈ om_Finalizers (ls_Meta ls) -> Suspend (ls_Spec ls) = false ->
  Phase (ls_Status ls) = PhaseProvisioning \/ Phase (ls_Status ls) = PhaseDegraded ->
  exists st, obj s' = Some (with_status ls st) /\ Phase st = PhaseActive
    /\ cond_status (Conditions st) "LastSyncSucceeded" = Some ConditionTrue.
Proof.
  intros Hs Ho Hd Hf Hsu Hp. apply (smooth_cases _ _ ls) in Hs as (tr & out & Hr & Hs & Hw & Hc); [|done].
  destruct Hr as [Hd' _|e _ Hf' _ _|_ _ Hs' _|_ _ _ Hp' _|_ _ _ _ He]; [congruence|done|congruence|rewrite Hp' in Hp; by destruct Hp|].
  apply schedule_check_spec in He as [[Hp' _]|He]; [rewrite Hp' in Hp; by destruct Hp|].
  destruct He as (tr0 & ls' & e & tr1 & -> & Hn & Hck & _ & [(t & d & _ & _ & _ & Hca)|(Hp' & Hl & _)]).
  - destruct Hc. eapply cause_mono, Hca. set_solver.
  - eapply obj_written in Hs; try done; [|by eapply only_clock_none, Hck; apply now_not_write].
    exists (ls_Status ls'). done.
Qed.

Lemma cause_from_failed spec tr : ~ cause spec tr -> existsb failed tr = false.
Proof. intros H. destruct (existsb failed tr) eqn:E; [|done]. destruct H. by apply cause_failed. Qed.

(** The deletion of an object of which only the cleanup finalizer is left. *)
Lemma smooth_deletion r key ls s s' :
  smooth_step r key s s' -> obj s = Some ls -> deleting (ls_Meta ls) = true ->
  om_Finalizers (ls_Meta ls) = [cleanupFinalizer] -> obj s' = None.
Proof.
  intros Hs Ho Hd Hf. apply (smooth_cases _ _ ls) in Hs as (tr & out & Hr & Hs & Hw & Hc); [|done].
  destruct Hr as [_ He|e Hd' _ _ _|Hd' _ _ _|Hd' _ _ _ _|Hd' _ _ _ _]; try congruence.
  assert (exists lc g tr0, tr = g :: tr0 /\ is_ls_write g = false /\ exec (delete_devices lc ls) tr0 out)
    as (lc & g & tr0 & -> & Hg & Hdel).
  { unfold handleDeletion, do_call in He. rewrite ContainsFinalizer_spec, bool_decide_eq_true_2 in He by (rewrite Hf; left).
    cbn [negb] in He. exec_step He. destruct r0 as [secret|e]; [|by apply cause_from_failed in Hc].
    destruct (r_LosantClient r) as [lc|]; [by eexists lc, _, _|].
    destruct (NewLosantHTTPClient _ _) as [c|e] eqn:Hn; [by eexists (LHTTP c), _, _|].
    destruct Hc. by eapply cause_secret; [left|]. }
  apply delete_devices_spec in Hdel as [(tr1 & e & -> & _ & _ & Hn)|(e & d & _ & _ & Hin)].
  - rewrite app_comm_cons in Hs, Hw. apply serves_all_app in Hs as (s1 & Hs1 & Hs2).
    apply (obj_kept) in Hs1; [|by apply none_cons]. inversion Hs2 as [|? ? s2 ? ? Hm Hs3]; subst. inversion Hs3; subst.
    apply none_app in Hw as [_ Hw]. apply none_cons in Hw as [Hw _]. destruct e as [e|]; [done|].
    destruct Hm as (cur & Hcur & ->). simpl. unfold stored_after, without_finalizer.
    replace (deleting _) with true by (symmetry; exact Hd). simpl.
    by rewrite RemoveFinalizer_spec, Hf.
  - exfalso. apply cause_from_failed in Hc. apply not_true_iff_false in Hc. apply Hc, existsb_exists.
    eexists. split; [apply list_elem_of_In; right; exact Hin|done].
Qed.


End Machine.
