(* ===== verification/LifecycleExamples.v ===== *)
(** * LifecycleExamples: concrete lives of a LosantSync object

    A simulated API server and Losant application that answer every call from their
    state; an object is created, synced, deleted and cleaned up against them, and the
    theorems of [Lifecycle] are applied to that life.  A second life, in which one status
    write fails, ends with devices that nobody deletes. *)

From Stdlib Require Import ZArith Lia String.
From stdpp Require Import base list strings gmap.
From S2P Require Import Prelude Effects GoLib K8s ApiTypes HealthScore Clients Operator.
From S2P Require Import Provisioner LosantSyncController LosantSyncProofs LosantSyncTheorems LosantSyncExamples Lifecycle.

Local Open Scope Z_scope.

Definition not_found : error := mkError "not found" [KNotFound].

Definition sim_ensure (name : string) (s : sys) : result string * sys :=
  match devs s !! name with
  | Some id => (Ok id, s)
  | None => (Ok ("id-" +:+ name), mkSys (obj s) (<[name := "id-" +:+ name]> (devs s)))
  end.

Definition sim_losant (o : losant_op) (s : sys) : losant_ans o * sys :=
  match o return losant_ans o * sys with
  | EnsureClusterDevice spec =>
      if decide (ApplicationID spec = "app") then sim_ensure (clusterDeviceName (ClusterName spec)) s else (Err unavailable, s)
  | EnsureNodeDevice spec n _ =>
      if decide (ApplicationID spec = "app") then sim_ensure (nodeDeviceName (ClusterName spec) n) s else (Err unavailable, s)
  | DeleteDevice a id => (None, if decide (a = "app") then mkSys (obj s) (without_id id (devs s)) else s)
  | o => (ok_losant o, s)
  end.

(** [down] makes status writes fail. *)
Definition sim (down : bool) (c : OpΣ) (s : sys) : ans c * sys :=
  match c return op_ans c * sys with
  | GetLosantSync _ => (match obj s with Some ls => Ok ls | None => Err not_found end, s)
  | UpdateLosantSync ls =>
      match obj s with
      | Some cur => (None, mkSys (stored_after cur ls) (devs s))
      | None => (Some not_found, s)
      end
  | StatusUpdateLosantSync ls =>
      match obj s with
      | Some cur => if down then (Some unavailable, s) else (None, mkSys (Some (with_status cur (ls_Status ls))) (devs s))
      | None => (Some not_found, s)
      end
  | CallLosant _ o => sim_losant o s
  | c => (ok_world (demo_ls "") 100 c, s)
  end.

(** The simulated services answer as [serves] says, as long as identifiers are not empty. *)
Definition named (s : sys) : Prop := map_Forall (fun _ id => id <> "") (devs s).

Lemma sim_ensure_serves name s :
  named s -> ensured_in name (devs s) (sim_ensure name s).1 (devs (sim_ensure name s).2)
    /\ obj (sim_ensure name s).2 = obj s /\ named (sim_ensure name s).2.
Proof.
  intros Hn. unfold sim_ensure. destruct (devs s !! name) as [id|] eqn:E; simpl; rewrite E.
  - split; [|done]. split; [by apply (Hn name)|done].
  - split; [split; [done|done]|]. split; [done|]. unfold named. simpl. apply map_Forall_insert_2; [done|exact Hn].
Qed.

Lemma sim_serves down c s : named s -> serves "app" s (@Ev OpΣ c (sim down c s).1) (sim down c s).2 /\ named (sim down c s).2.
Proof.
  intros Hn. destruct c; try (by split); simpl.
  - split; [|done]. split; [done|]. by destruct (obj s).
  - destruct (obj s) eqn:E; simpl; [|done]. split; [eauto|done].
  - destruct (obj s) eqn:E; simpl; [|done]. destruct down; simpl; [done|]. split; [eauto|done].
  - assert (forall name, (obj (sim_ensure name s).2 = obj s /\ ensured_in name (devs s) (sim_ensure name s).1 (devs (sim_ensure name s).2))
      /\ named (sim_ensure name s).2) as He by (intros name; destruct (sim_ensure_serves name s Hn) as (? & ? & ?); done).
    destruct o; simpl; try done; destruct (decide _); try done; try apply He.
    split; [done|]. unfold named. simpl. intros k id Hk. apply without_id_lookup in Hk as [Hk _]. by apply (Hn k).
Qed.

Lemma sim_run {A} down (p : oprog A) s :
  named s -> serves_all "app" s (run (sim down) p s).1.2 (run (sim down) p s).2 /\ named (run (sim down) p s).2.
Proof.
  revert s. induction p as [a|c k IH]; intros s Hn; simpl; [split; [constructor|done]|].
  destruct (sim_serves down c s Hn) as [H1 H2]. destruct (sim down c s) as [r s1]. simpl in *.
  destruct (IH r s1 H2) as [H3 H4]. destruct (run (sim down) (k r) s1) as [[a tr] s2]. simpl in *.
  split; [by econstructor|done].
Qed.

(** ** A life without failures *)

Definition reconcile_demo (down : bool) (s : sys) : outcome * trace * sys :=
  run (sim down) (LosantSync_Reconcile (L := RefLib) demo_rec demo_key) s.

Definition new_ls : LosantSync :=
  mkLosantSync (mkMeta "c1" "edge" 1 None []) (demo_spec false) (mkLSStatus "" [] "" None None None).

Definition created : sys := mkSys (Some new_ls) ∅.
Definition s1 : sys := (reconcile_demo false created).2.
Definition s2 : sys := (reconcile_demo false s1).2.
Definition s3 : sys := (reconcile_demo false s2).2.

(** The user's deletion request. *)
Definition delete_request (s : sys) : sys :=
  mkSys ((fun ls => mkLosantSync (set_deletion (ls_Meta ls) 200) (ls_Spec ls) (ls_Status ls)) <$> obj s) (devs s).

Definition s4 : sys := delete_request s3.
Definition s5 : sys := (reconcile_demo false s4).2.

Lemma s1_eq : s1 = (reconcile_demo false created).2.
Proof. unfold s1. reflexivity. Qed.
Lemma s2_eq : s2 = (reconcile_demo false s1).2.
Proof. unfold s2. reflexivity. Qed.
Lemma s3_eq : s3 = (reconcile_demo false s2).2.
Proof. unfold s3. reflexivity. Qed.
Lemma s5_eq : s5 = (reconcile_demo false s4).2.
Proof. unfold s5. reflexivity. Qed.

#[local] Opaque s1 s2 s3 s5.

Lemma created_named : named created.
Proof. apply map_Forall_empty. Qed.
Lemma s1_named : named s1.
Proof. apply (bool_decide_unpack _). vm_compute. exact I. Qed.
Lemma s2_named : named s2.
Proof. apply (bool_decide_unpack _). vm_compute. exact I. Qed.
Lemma s3_named : named s3.
Proof. apply (bool_decide_unpack _). vm_compute. exact I. Qed.
Lemma s4_named : named s4.
Proof. apply (bool_decide_unpack _). vm_compute. exact I. Qed.

Lemma sys_eta s : s = mkSys (obj s) (devs s).
Proof. by destruct s. Qed.

Lemma demo_step s s' : s' = (reconcile_demo false s).2 -> named s -> lossless (reconcile_demo false s).1.2 ->
  sys_step (L := RefLib) "app" "c1" s s'.
Proof.
  intros -> Hn Hl. destruct (sim_run false (LosantSync_Reconcile (L := RefLib) demo_rec demo_key) s Hn) as [H1 H2].
  eapply step_reconcile; [apply (run_exec (sim false))|exact H1|exact Hl].
Qed.

Lemma demo_life : rtc (sys_step (L := RefLib) "app" "c1") (mkSys None ∅) s3 /\ rtc (sys_step (L := RefLib) "app" "c1") s3 s5.
Proof.
  pose proof (demo_step _ _ s1_eq created_named ltac:(vm_compute; reflexivity)) as H1.
  pose proof (demo_step _ _ s2_eq s1_named ltac:(vm_compute; reflexivity)) as H2.
  pose proof (demo_step _ _ s3_eq s2_named ltac:(vm_compute; reflexivity)) as H3.
  pose proof (demo_step _ _ s5_eq s4_named ltac:(vm_compute; reflexivity)) as H5.
  split.
  - eapply rtc_l; [apply step_user, (us_create "app" "c1" new_ls ∅); reflexivity|].
    eapply rtc_l; [exact H1|]. eapply rtc_l; [exact H2|]. apply rtc_once. exact H3.
  - eapply rtc_l; [|apply rtc_once; exact H5]. apply step_user. unfold s4, delete_request.
    destruct s3 as [[ls|] ds] eqn:E; [|vm_compute in E; discriminate E].
    apply us_delete. intros Hf. assert (om_Finalizers <$> (ls_Meta <$> obj s3) = Some []) as Hx by (rewrite E; simpl; by rewrite Hf).
    vm_compute in Hx. discriminate Hx.
Qed.


(** Events of a run carry the environment's answers. *)
Lemma run_answers {A} down (p : oprog A) s c r :
  E c r ∈ (run (sim down) p s).1.2 -> exists s', r = (sim down c s').1.
Proof.
  revert s. induction p as [a|c' k IH]; intros s Hin; simpl in Hin; [by apply not_elem_of_nil in Hin|].
  destruct (sim down c' s) as [r' s'] eqn:Es. specialize (IH r' s'). destruct (run (sim down) (k r') s') as [[a tr] s''].
  simpl in *. apply elem_of_cons in Hin as [Hin|Hin]; [|by apply IH].
  assert (c = c') as -> by exact (f_equal ev_op Hin). apply E_inj in Hin as ->. exists s. by rewrite Es.
Qed.

Lemma sim_secret {A} down (p : oprog A) s k secret :
  E (GetSecret k) (Ok secret) ∈ (run (sim down) p s).1.2 -> secret = demo_secret.
Proof. intros Hin. apply run_answers in Hin as [s' Hs]. by injection Hs. Qed.

Lemma demo_smooth s s' : s' = (reconcile_demo false s).2 -> named s -> none write_failed (reconcile_demo false s).1.2 ->
  ls_Spec <$> obj s = Some (demo_spec false) -> existsb failed (reconcile_demo false s).1.2 = false ->
  smooth_step (L := RefLib) "app" demo_rec demo_key s s'.
Proof.
  intros -> Hn Hw Ho Hf. unfold reconcile_demo in *.
  set (p := LosantSync_Reconcile demo_rec demo_key) in *.
  exists (run (sim false) p s).1.2, (run (sim false) p s).1.1.
  split; [apply (run_exec (sim false))|]. split; [by apply sim_run|]. split; [exact Hw|].
  intros ls Ho'. rewrite Ho' in Ho. injection Ho as Hs. rewrite Hs. intros [Hx|Hx|k secret e Hin Hx].
  - congruence.
  - unfold unschedulable in Hx. simpl in Hx. destruct Hx as [e Hx]. vm_compute in Hx. discriminate Hx.
  - apply sim_secret in Hin as ->. discriminate Hx.
Qed.


(** ** A life in which a status write fails *)

Definition lost : sys := (reconcile_demo true s2).2.
Definition lost_deleted : sys := (reconcile_demo false (delete_request lost)).2.

(** Devices that were created in a reconcile whose status write failed are not recorded; when the
    object is deleted before the next successful reconcile, its finalizer is removed and the
    devices remain. *)
Theorem lost_status_write_leaks :
  serves_all "app" s2 (reconcile_demo true s2).1.2 lost
  /\ serves_all "app" (delete_request lost) (reconcile_demo false (delete_request lost)).1.2 lost_deleted
  /\ size (devs lost) = 3%nat /\ obj lost_deleted = None /\ devs lost_deleted = devs lost.
Proof.
  assert (named s2 /\ named (delete_request lost)) as [N2 N]
    by (split; apply (bool_decide_unpack _); vm_compute; exact I).
  pose (p := LosantSync_Reconcile (L := RefLib) demo_rec demo_key).
  split; [exact (proj1 (sim_run true p s2 N2))|]. split; [exact (proj1 (sim_run false p _ N))|].
  split; [vm_compute; reflexivity|]. split; vm_compute; reflexivity.
Qed.
