(* ===== verification/RancherSession.v ===== *)
(** * RancherSession: internal/controller/ranchersession_controller.go

    The reconciler that connects the cluster to Rancher for a limited time: it finds
    or creates the Rancher cluster, applies the import manifest, waits for the agent,
    enforces the time to live and cleans up.

    A method called on a nil [*HTTPClient] panics, so a handler returns [None] when
    it panics and [Some] outcome otherwise. *)

From Stdlib Require Import ZArith Lia.
From stdpp Require Import base list strings gmap.
From S2P Require Import Prelude Effects GoLib K8s ApiTypes HealthScore Clients Operator.

Local Open Scope Z_scope.
Local Open Scope prog_scope.

Definition rancherFinalizer : string := "losant.io/rancher-cleanup".
Definition cattleSystemNamespace : string := "cattle-system".
Definition cattleAgentDeployment : string := "cattle-cluster-agent".
Definition agentPollInterval : Z := 5 * Second.
Definition agentReadyTimeout : Z := 120 * Second.
Definition rancherErrorRequeueWait : Z := 30 * Second.
Definition rancherConditionAPIReachable : string := "RancherAPIReachable".

(** A handler: it may panic. *)
Abbreviation handler := (oprog (option outcome)).

Definition return_ (r : Result) (e : option error) : handler := Ret (Some (r, e)).

(** After a write: its error ends the handler, otherwise it goes on. *)
Definition or_return (err : option error) (k : handler) : handler :=
  match err with Some e => return_ done_result (Some e) | None => k end.

(** A method of the interface value; on a nil pointer it panics. *)
Definition call_rancher (rc : rancher_impl) (o : rancher_op) (k : rancher_ans o -> handler) : handler :=
  match rc with
  | RNilHTTP => Ret None
  | rc => let* r := do_call (CallRancher rc o) in k r
  end.

Section Session.
Context `{L : K8sLib} (pem_ok : string -> bool).

(** The reconciler: whether a client was injected. *)
Record RancherSessionReconciler := mkRSR { rr_RancherClient : bool }.

Definition setRancherCondition (rs : RancherSession) (condType status reason message : string) : RancherSession :=
  rs_with_Conditions rs (SetStatusCondition (rs_Conditions (rs_Status rs))
    (mkCond condType status (om_Generation (rs_Meta rs)) reason message)).

Definition setFailed (rs : RancherSession) (reason message : string) : handler :=
  let rs := rs_with_Phase rs PhaseFailed in
  let rs := rs_with_Message rs message in
  let rs := setRancherCondition rs rancherConditionAPIReachable ConditionFalse reason message in
  let* err := do_call (StatusUpdateRancherSession rs) in
  or_return err (return_ done_result None).

Definition setAPIUnreachable (rs : RancherSession) (reason message : string) : handler :=
  let rs := setRancherCondition rs rancherConditionAPIReachable ConditionFalse reason message in
  let rs := rs_with_Message rs message in
  let* err := do_call (StatusUpdateRancherSession rs) in
  or_return err (return_ (requeue_after rancherErrorRequeueWait) None).

Definition credentials_key (rs : RancherSession) : NamespacedName :=
  mkNN (sr_Namespace (CredentialsSecretRef (rs_Spec rs))) (sr_Name (CredentialsSecretRef (rs_Spec rs))).

(** An interface value without error, or an error together with the value it comes
    with: the nil interface after a failed Get, a nil pointer in a non-nil interface
    after a failed NewHTTPClient. *)
Inductive built := Built (rc : rancher_impl) | NotBuilt (rc : option rancher_impl) (e : error).

Definition rancherClient (r : RancherSessionReconciler) (rs : RancherSession) : oprog built :=
  if rr_RancherClient r then Ret (Built RInjected)
  else
    let* got := do_call (GetSecret (credentials_key rs)) in
    match got with
    | Err e => Ret (NotBuilt None (wrapf "read credentials secret: " e ""))
    | Ok secret =>
        match NewRancherHTTPClient pem_ok secret with
        | Err e => Ret (NotBuilt (Some RNilHTTP) e)
        | Ok c => Ret (Built (RHTTP c))
        end
    end.

Definition deleteNamespace (name : string) : oprog (option error) :=
  let* err := do_call (DeleteNamespace name) in
  match err with
  | Some e => if IsNotFound e then Ret None else Ret (Some (wrapf ("delete namespace " +:+ name +:+ ": ") e ""))
  | None => Ret None
  end.

Definition removeFinalizer (rs : RancherSession) : handler :=
  let rs := rs_with_finalizers rs (RemoveFinalizer (om_Finalizers (rs_Meta rs)) rancherFinalizer) in
  let* err := do_call (UpdateRancherSession rs) in
  or_return err (return_ done_result None).

(** ** The import manifest *)

(** The loop over the documents. *)
Fixpoint apply_documents (docs : manifest_stream) : oprog (option error) :=
  match docs with
  | DocEOF => Ret None
  | DocError e => Ret (Some (wrapf "decode manifest document: " e ""))
  | DocObj o rest =>
      if decide (u_Kind o = "") then apply_documents rest
      else
        let* err := do_call (ApplyObject o) in
        match err with
        | Some e => Ret (Some (wrapf ("apply " +:+ u_Kind o +:+ " " +:+ u_Namespace o +:+ "/" +:+ u_Name o +:+ ": ") e ""))
        | None => apply_documents rest
        end
  end.

Definition applyManifest (rs : RancherSession) (manifestURL : string) : oprog (option error) :=
  let* got := do_call (GetSecret (credentials_key rs)) in
  match got with
  | Err e => Ret (Some (wrapf "read credentials secret: " e ""))
  | Ok secret =>
      let caData := default "" (sec_Data secret !! "RANCHER_CA") in
      let* resp := do_call (FetchManifest caData manifestURL) in
      match resp with
      | FetchBadRequest e => Ret (Some (wrapf "build manifest request: " e ""))
      | FetchFailed e => Ret (Some (wrapf "fetch manifest: " e ""))
      | FetchStatus code body =>
          if 400 <=? code then Ret (Some (Errorf ("fetch manifest: status " +:+ Itoa code)))
          else
            match body with
            | Err e => Ret (Some (wrapf "read manifest body: " e ""))
            | Ok docs => apply_documents docs
            end
      end
  end.

(** ** Connecting *)

(** From the registration token on, for a known cluster. *)
Definition connect_cluster (rs : RancherSession) (rc : rancher_impl) (clusterID : string) : handler :=
  let rs := rs_with_ClusterID rs clusterID in
  call_rancher rc (GetRegistrationToken clusterID) (fun token =>
  match token with
  | Err e => setAPIUnreachable rs "GetTokenFailed" (Error e)
  | Ok manifestURL =>
      let* applied := applyManifest rs manifestURL in
      match applied with
      | Some e => setFailed rs "ManifestApplyFailed" (Error e)
      | None =>
          let* now := do_call Now in
          let rs := rs_with_ManifestApplied rs true in
          let rs := rs_with_times rs (Some now) (Some (now + agentReadyTimeout)) in
          let rs := setRancherCondition rs rancherConditionAPIReachable ConditionTrue "APIReachable"
                      "Rancher API reachable" in
          let* err := do_call (StatusUpdateRancherSession rs) in
          or_return err (return_ (requeue_after agentPollInterval) None)
      end
  end).

Definition displayName (rs : RancherSession) : string :=
  if decide (ClusterDisplayName (rs_Spec rs) = "") then om_Name (rs_Meta rs) else ClusterDisplayName (rs_Spec rs).

Definition handleConnect (rs : RancherSession) (rc : rancher_impl) : handler :=
  let rs := rs_with_Phase rs PhaseConnecting in
  let* err := do_call (StatusUpdateRancherSession rs) in
  or_return err (
    call_rancher rc (FindCluster (displayName rs)) (fun found =>
    match found with
    | Err e => setAPIUnreachable rs "FindClusterFailed" (Error e)
    | Ok (clusterID, true) => connect_cluster rs rc clusterID
    | Ok (_, false) =>
        call_rancher rc (CreateCluster (displayName rs)) (fun created =>
        match created with
        | Err e => setAPIUnreachable rs "CreateClusterFailed" (Error e)
        | Ok clusterID => connect_cluster rs rc clusterID
        end)
    end)).

(** ** Waiting for the agent *)

Definition timeout_message : string := "cattle-cluster-agent did not become ready within 2m0s".

(** [time.Duration(ttlSeconds) * time.Second], an int64 product. *)
Definition ttl_duration (ttlSeconds : Z) : Z := wrap64 (ttlSeconds * Second).

(** Whether an expiry time is set and has passed; the clock is read only when it is set. *)
Definition expired (at_ : mtime) : oprog bool :=
  match at_ with
  | None => Ret false
  | Some t => let* now := do_call Now in Ret (After now t)
  end.

Definition poll_deployment (rs : RancherSession) : handler :=
  let* got := do_call (GetDeployment (mkNN cattleSystemNamespace cattleAgentDeployment)) in
  match got with
  | Err e => if IsNotFound e then return_ (requeue_after agentPollInterval) None else return_ done_result (Some e)
  | Ok dep =>
      if dep_AvailableReplicas dep =? 0 then return_ (requeue_after agentPollInterval) None
      else
        let* now := do_call Now in
        let ttl := ttl_duration (TTLSeconds (rs_Spec rs)) in
        let rs := rs_with_Phase rs PhaseConnected in
        let rs := rs_with_times rs (Some now) (Some (now + ttl)) in
        let rs := setRancherCondition rs rancherConditionAPIReachable ConditionTrue "Connected"
                    "Rancher session established" in
        let* err := do_call (StatusUpdateRancherSession rs) in
        or_return err (return_ (requeue_after ttl) None)
  end.

Definition pollAgentReady (rs : RancherSession) : handler :=
  let* late := expired (ExpiresAt (rs_Status rs)) in
  if late then setFailed rs "AgentReadyTimeout" timeout_message else poll_deployment rs.

(** ** Disconnecting *)

(** From the deletion of the namespace on. *)
Definition cleanup_local (rs : RancherSession) : handler :=
  let* err := deleteNamespace cattleSystemNamespace in
  or_return err (
    let rs := rs_with_Phase rs PhaseDisconnected in
    let rs := rs_with_Message rs "session disconnected" in
    let* err := do_call (StatusUpdateRancherSession rs) in
    or_return err (
      if negb (IsZero (om_DeletionTimestamp (rs_Meta rs))) then removeFinalizer rs
      else return_ done_result None)).

Definition runCleanup (rs : RancherSession) (rc : rancher_impl) : handler :=
  let rs := rs_with_Phase rs PhaseDisconnecting in
  let* err := do_call (StatusUpdateRancherSession rs) in
  or_return err (
    if decide (RancherClusterID (rs_Status rs) <> "") then
      call_rancher rc (DeleteCluster (RancherClusterID (rs_Status rs))) (fun err =>
      match err with
      | Some e => setAPIUnreachable rs "DeleteClusterFailed" (Error e)
      | None => cleanup_local rs
      end)
    else cleanup_local rs).

(** ** A connected session *)

(** The requeue at the remaining time to live. *)
Definition requeue_remaining (rs : RancherSession) : handler :=
  match ExpiresAt (rs_Status rs) with
  | Some t =>
      let* now := do_call Now in
      if 0 <? Until t now then return_ (requeue_after (Until t now)) None else return_ done_result None
  | None => return_ done_result None
  end.

Definition handleConnected (rs : RancherSession) (rc : rancher_impl) : handler :=
  let* late := expired (ExpiresAt (rs_Status rs)) in
  if late then runCleanup rs rc
  else if decide (RancherClusterID (rs_Status rs) <> "") then
    call_rancher rc (GetCluster (RancherClusterID (rs_Status rs))) (fun err =>
    match err with
    | Some e => if Is e KRancherNotFound then runCleanup rs rc
                else setAPIUnreachable rs "GetClusterFailed" (Error e)
    | None => requeue_remaining rs
    end)
  else requeue_remaining rs.

Definition handleDisconnect (r : RancherSessionReconciler) (rs : RancherSession) : handler :=
  if negb (ContainsFinalizer (om_Finalizers (rs_Meta rs)) rancherFinalizer) then return_ done_result None
  else
    let* client := rancherClient r rs in
    match (match client with Built rc => Some rc | NotBuilt rc _ => rc end) with
    | Some rc =>
        let* cleaned := runCleanup rs rc in
        match cleaned with
        | None => Ret None
        | Some (_, Some e) => return_ done_result (Some e)
        | Some (_, None) => return_ done_result None
        end
    | None =>
        let* err := deleteNamespace cattleSystemNamespace in
        or_return err (removeFinalizer rs)
    end.

(** ** Reconcile *)

(** The switch on the phase. *)
Definition by_phase (rs : RancherSession) (rc : rancher_impl) : handler :=
  let phase := rs_Phase (rs_Status rs) in
  if decide (phase = "") then handleConnect rs rc
  else if decide (phase = PhaseConnecting) then
    if ManifestApplied (rs_Status rs) then pollAgentReady rs else handleConnect rs rc
  else if decide (phase = PhaseConnected) then handleConnected rs rc
  else return_ done_result None.

(** Reconcile after the object was read. *)
Definition reconcile_session (r : RancherSessionReconciler) (rs : RancherSession) : handler :=
  if negb (IsZero (om_DeletionTimestamp (rs_Meta rs))) then handleDisconnect r rs
  else
    let '(finalizers, added) := AddFinalizer (om_Finalizers (rs_Meta rs)) rancherFinalizer in
    if added then
      let* err := do_call (UpdateRancherSession (rs_with_finalizers rs finalizers)) in
      or_return err (return_ requeue_now None)
    else if rs_Suspend (rs_Spec rs) then return_ done_result None
    else
      let* client := rancherClient r rs in
      match client with
      | NotBuilt _ e => setFailed rs "InvalidSecret" (Error e)
      | Built rc => by_phase rs rc
      end.

Definition RancherSession_Reconcile (r : RancherSessionReconciler) (key : NamespacedName) : handler :=
  let* got := do_call (GetRancherSession key) in
  match got with
  | Err e => if IsNotFound e then return_ done_result None else return_ done_result (Some e)
  | Ok rs => reconcile_session r rs
  end.

End Session.
