(* ===== verification/RancherSessionProofs.v ===== *)
(** * RancherSessionProofs: the contract of the RancherSession reconciler

    Every call of a reconcile is guarded by a precondition on what happened before
    it ([session_guard]); the theorems read off what each status means, when the
    finalizer may go, that no cluster is created twice, how the time to live is
    enforced, and where the reconciler stops making progress. *)

From Stdlib Require Import ZArith Lia.
From stdpp Require Import base list strings gmap.
From S2P Require Import Prelude Effects GoLib K8s ApiTypes HealthScore Clients Operator RancherSession.

Local Open Scope Z_scope.
Local Open Scope prog_scope.

(** ** Evidence in a history *)

(** The cattle-system namespace was deleted, or there was none. *)
Definition namespace_gone (h : trace) : Prop :=
  E (DeleteNamespace cattleSystemNamespace) None ∈ h
  \/ exists e, IsNotFound e = true /\ E (DeleteNamespace cattleSystemNamespace) (Some e) ∈ h.

(** Rancher confirmed the deletion of the cluster, when there is one. *)
Definition cluster_deleted (id : string) (h : trace) : Prop :=
  id <> "" -> exists rc, E (CallRancher rc (DeleteCluster id)) None ∈ h.

(** The agent's Deployment had available replicas. *)
Definition agent_available (h : trace) : Prop :=
  exists dep, E (GetDeployment (mkNN cattleSystemNamespace cattleAgentDeployment)) (Ok dep) ∈ h
    /\ dep_AvailableReplicas dep <> 0.

(** The objects of a manifest that decodes to its end. *)
Fixpoint objects (docs : manifest_stream) : option (list Unstructured) :=
  match docs with
  | DocEOF => Some []
  | DocError _ => None
  | DocObj o rest => cons o <$> objects rest
  end.

(** A manifest was fetched with a success status and all its objects were applied. *)
Definition manifest_applied (h : trace) : Prop :=
  exists ca url code docs os, E (FetchManifest ca url) (FetchStatus code (Ok docs)) ∈ h /\ code < 400
    /\ objects docs = Some os /\ forall o, o ∈ os -> u_Kind o <> "" -> E (ApplyObject o) None ∈ h.

(** Rancher named the cluster, as one it has or one it just created. *)
Definition cluster_named (name id : string) (h : trace) : Prop :=
  exists rc, E (CallRancher rc (FindCluster name)) (Ok (id, true)) ∈ h
             \/ E (CallRancher rc (CreateCluster name)) (Ok id) ∈ h.

(** ** The guard *)

(** The phases a session can go through.  Any live session, whatever its phase, fails when its
    credentials Secret is [unusable], because Reconcile reads the Secret before it looks at the phase;
    otherwise only a session that is being connected can fail. *)
Inductive session_step (deleting applied : bool) (unusable : Prop) : string -> string -> Prop :=
| ss_connecting p : deleting = false -> p = "" \/ p = PhaseConnecting /\ applied = false ->
    session_step deleting applied unusable p PhaseConnecting
| ss_connected : deleting = false -> applied = true ->
    session_step deleting applied unusable PhaseConnecting PhaseConnected
| ss_unreachable : deleting = false -> session_step deleting applied unusable PhaseConnected PhaseConnected
| ss_failed p : deleting = false -> p = "" \/ p = PhaseConnecting ->
    session_step deleting applied unusable p PhaseFailed
| ss_unusable p : deleting = false -> unusable -> session_step deleting applied unusable p PhaseFailed
| ss_disconnecting p : deleting = true \/ p = PhaseConnected ->
    session_step deleting applied unusable p PhaseDisconnecting
| ss_disconnected p : deleting = true \/ p = PhaseConnected ->
    session_step deleting applied unusable p PhaseDisconnected.

Section Proofs.
Context `{L : K8sLib} {LS : K8sLibSpec L} (pem_ok : string -> bool).

(** The credentials Secret was not readable, or makes no client. *)
Definition credentials_unusable (rs : RancherSession) (h : trace) : Prop :=
  exists got, E (GetSecret (credentials_key rs)) got ∈ h
    /\ match got with Err _ => True | Ok secret => exists e, NewRancherHTTPClient pem_ok secret = Err e end.

(** A status that may be written for the object [rs] after the history [h]. *)
Record write_ok (rs rs' : RancherSession) (h : trace) : Prop := {
  wo_meta : rs_Meta rs' = rs_Meta rs;
  wo_spec : rs_Spec rs' = rs_Spec rs;
  wo_step : session_step (deleting (rs_Meta rs)) (ManifestApplied (rs_Status rs)) (credentials_unusable rs h)
              (rs_Phase (rs_Status rs)) (rs_Phase (rs_Status rs'));
  wo_connected : rs_Phase (rs_Status rs') = PhaseConnected ->
    rs_Phase (rs_Status rs) = PhaseConnected /\ ExpiresAt (rs_Status rs') = ExpiresAt (rs_Status rs)
    \/ agent_available h /\ exists now, E Now now ∈ h /\ ConnectedAt (rs_Status rs') = Some now
         /\ ExpiresAt (rs_Status rs') = Some (now + ttl_duration (TTLSeconds (rs_Spec rs)));
  wo_disconnected : rs_Phase (rs_Status rs') = PhaseDisconnected ->
    namespace_gone h /\ cluster_deleted (RancherClusterID (rs_Status rs)) h;
  wo_manifest : ManifestApplied (rs_Status rs') = true ->
    ManifestApplied (rs_Status rs) = true \/ manifest_applied h;
  wo_cluster : RancherClusterID (rs_Status rs') = RancherClusterID (rs_Status rs)
    \/ cluster_named (displayName rs) (RancherClusterID (rs_Status rs')) h;
}.

Definition without_rancher_finalizer (rs : RancherSession) : list string :=
  RemoveFinalizer (om_Finalizers (rs_Meta rs)) rancherFinalizer.

(** What must hold when the object itself is written. *)
Definition update_ok (rs rs' : RancherSession) (h : trace) : Prop :=
  if deleting (rs_Meta rs) then
    om_Finalizers (rs_Meta rs') = without_rancher_finalizer rs /\ namespace_gone h
    /\ (cluster_deleted (RancherClusterID (rs_Status rs)) h
        \/ exists e, E (GetSecret (credentials_key rs)) (Err e) ∈ h)
  else rs' = rs_with_finalizers rs (om_Finalizers (rs_Meta rs) ++ [rancherFinalizer])
       /\ rancherFinalizer ∉ om_Finalizers (rs_Meta rs).

(** The precondition of every call of a reconcile of [rs]. *)
Definition session_guard (rs : RancherSession) (h : trace) (c : op_call) : Prop :=
  match c with
  | StatusUpdateRancherSession rs' => rancherFinalizer ∈ om_Finalizers (rs_Meta rs) /\ write_ok rs rs' h
  | UpdateRancherSession rs' => update_ok rs rs' h
  | CallRancher rc o =>
      rancherFinalizer ∈ om_Finalizers (rs_Meta rs)
      /\ match o with
         | CreateCluster name => name = displayName rs
             /\ exists id, E (CallRancher rc (FindCluster name)) (Ok (id, false)) ∈ h
         | DeleteCluster id => id = RancherClusterID (rs_Status rs)
             /\ (deleting (rs_Meta rs) = true \/ rs_Phase (rs_Status rs) = PhaseConnected)
         | _ => True
         end
  | ApplyObject _ | FetchManifest _ _ => rancherFinalizer ∈ om_Finalizers (rs_Meta rs)
  | DeleteNamespace name => name = cattleSystemNamespace
      /\ (deleting (rs_Meta rs) = true
          \/ rs_Phase (rs_Status rs) = PhaseConnected /\ cluster_deleted (RancherClusterID (rs_Status rs)) h)
  | _ => True
  end.

(** Walk a handler up to the next subprogram. *)
Ltac guard_step :=
  match goal with
  | |- guarded _ _ (bind (do_call _) _) => unfold do_call; cbn [bind call]
  | |- guarded _ _ (do_call _) => unfold do_call, call
  | |- guarded _ _ (Call _ _) => let r := fresh "r" in split; [try (simpl; done)|intros r; cbn beta]
  | |- guarded _ _ (Ret _) => exact I
  | |- guarded _ _ (return_ _ _) => exact I
  | |- guarded _ _ (or_return ?e _) => destruct e as [?|]; [exact I|unfold or_return]
  | |- guarded _ _ (match ?x with _ => _ end) => destruct x eqn:?
  end.

(** A method call of the session's client. *)
Lemma guarded_call_rancher rs h rc o k :
  session_guard rs h (CallRancher rc o) ->
  (forall r, guarded (session_guard rs) (h ++ [E (CallRancher rc o) r]) (k r)) ->
  guarded (session_guard rs) h (call_rancher rc o k).
Proof. intros Hg Hk. destruct rc; [split..|exact I]; done. Qed.

(** ** The manifest *)

Lemma apply_documents_spec docs tr :
  exec (apply_documents docs) tr None ->
  exists os, objects docs = Some os /\ forall o, o ∈ os -> u_Kind o <> "" -> E (ApplyObject o) None ∈ tr.
Proof.
  revert tr. induction docs as [|e|o rest IH]; intros tr He; simpl in He.
  - exists []. split; [done|]. intros o Ho. by apply not_elem_of_nil in Ho.
  - exec_steps He.
  - assert (exists tr', tr' ⊆ tr /\ exec (apply_documents rest) tr' None
              /\ (u_Kind o <> "" -> E (ApplyObject o) None ∈ tr)) as (tr' & Hsub & He' & Ho).
    { destruct (decide (u_Kind o = "")); [by exists tr|]. unfold do_call in He. exec_step He.
      destruct r as [e|]; [exec_steps He|]. exists tr0. split; [set_solver|]. split; [done|]. left. }
    destruct (IH _ He') as (os & Hos & Hall). exists (o :: os). simpl. rewrite Hos. split; [done|].
    intros o' [->|Hin]%elem_of_cons; [exact Ho|]. intros Hk. by apply Hsub, Hall.
Qed.

Lemma applyManifest_spec rs url tr : exec (applyManifest rs url) tr None -> manifest_applied tr.
Proof.
  unfold applyManifest, do_call. intros He. exec_step He.
  destruct r as [secret|e]; [|exec_steps He].
  exec_step He. destruct r as [e|e|code body]; [exec_steps He..|].
  destruct (400 <=? code) eqn:Hc; [exec_steps He|]. destruct body as [docs|e]; [|exec_steps He].
  apply apply_documents_spec in He as (os & Hos & Hall). eexists _, url, code, docs, os.
  split; [right; left|]. split; [lia|]. split; [done|]. intros o Ho Hk. do 2 right. by apply Hall.
Qed.

Lemma guarded_documents rs h docs :
  rancherFinalizer ∈ om_Finalizers (rs_Meta rs) -> guarded (session_guard rs) h (apply_documents docs).
Proof.
  intros Hf. revert h. induction docs as [|e|o rest IH]; intros h; simpl; [done|done|].
  repeat guard_step; apply IH.
Qed.

Lemma guarded_applyManifest rs rs1 h url :
  rancherFinalizer ∈ om_Finalizers (rs_Meta rs) -> guarded (session_guard rs) h (applyManifest rs1 url).
Proof.
  intros Hf. unfold applyManifest. repeat guard_step. by apply guarded_documents.
Qed.

(** ** Handlers *)

Section Handlers.
Context (rs : RancherSession).
Hypothesis Hfin : rancherFinalizer ∈ om_Finalizers (rs_Meta rs).

Lemma guarded_setFailed rs1 h reason msg :
  write_ok rs (setRancherCondition (rs_with_Message (rs_with_Phase rs1 PhaseFailed) msg)
    rancherConditionAPIReachable ConditionFalse reason msg) h ->
  guarded (session_guard rs) h (setFailed rs1 reason msg).
Proof. intros Hw. unfold setFailed. by repeat guard_step. Qed.

Lemma guarded_unreachable rs1 h reason msg :
  write_ok rs (rs_with_Message (setRancherCondition rs1 rancherConditionAPIReachable ConditionFalse reason msg) msg) h ->
  guarded (session_guard rs) h (setAPIUnreachable rs1 reason msg).
Proof. intros Hw. unfold setAPIUnreachable. by repeat guard_step. Qed.

(** Connecting, from a phase in which that is due. *)
Definition connectable : Prop :=
  deleting (rs_Meta rs) = false
  /\ (rs_Phase (rs_Status rs) = "" \/ rs_Phase (rs_Status rs) = PhaseConnecting /\ ManifestApplied (rs_Status rs) = false).

(** The object while it is being connected. *)
Record connecting (rs1 : RancherSession) (h : trace) : Prop := {
  cn_meta : rs_Meta rs1 = rs_Meta rs;
  cn_spec : rs_Spec rs1 = rs_Spec rs;
  cn_phase : rs_Phase (rs_Status rs1) = PhaseConnecting;
  cn_manifest : ManifestApplied (rs_Status rs1) = true ->
    ManifestApplied (rs_Status rs) = true \/ manifest_applied h;
  cn_cluster : RancherClusterID (rs_Status rs1) = RancherClusterID (rs_Status rs)
    \/ cluster_named (displayName rs) (RancherClusterID (rs_Status rs1)) h;
}.

(** Writes that only touch the phase, the conditions, the message or the times. *)
Lemma connecting_write rs1 rs2 h :
  connectable -> connecting rs1 h ->
  rs_Meta rs2 = rs_Meta rs1 -> rs_Spec rs2 = rs_Spec rs1 ->
  rs_Phase (rs_Status rs2) = PhaseConnecting \/ rs_Phase (rs_Status rs2) = PhaseFailed ->
  RancherClusterID (rs_Status rs2) = RancherClusterID (rs_Status rs1) ->
  (ManifestApplied (rs_Status rs2) = true -> ManifestApplied (rs_Status rs1) = true \/ manifest_applied h) ->
  write_ok rs rs2 h.
Proof.
  intros [Hd Hph] [] Hm Hs Hp Hc Hman. split; try congruence.
  - destruct Hp as [->| ->]; [by apply ss_connecting|]. apply ss_failed; [done|]. naive_solver.
  - intros Heq. rewrite Heq in Hp. by destruct Hp.
  - intros Heq. rewrite Heq in Hp. by destruct Hp.
  - intros H. destruct (Hman H); auto.
Qed.

Lemma connecting_mono rs1 h h' : h ⊆ h' -> connecting rs1 h -> connecting rs1 h'.
Proof.
  intros Hs []. split; try done.
  - intros H. destruct (cn_manifest0 H) as [?|(ca & url & code & docs & os & ? & ? & ? & ?)]; [by left|right].
    exists ca, url, code, docs, os. eauto 7.
  - destruct cn_cluster0 as [?|(rc & [?|?])]; [by left|right..]; exists rc; eauto.
Qed.

Lemma guarded_connect_cluster rs1 rc id h :
  connectable -> connecting rs1 h -> cluster_named (displayName rs) id h ->
  guarded (session_guard rs) h (connect_cluster rs1 rc id).
Proof.
  intros Hcon Hrs1 Hid. unfold connect_cluster. set (rs2 := rs_with_ClusterID rs1 id).
  assert (connecting rs2 h) as Hrs2 by (destruct Hrs1; split; try done; by right).
  apply guarded_call_rancher; [done|]. intros [url|e].
  2: { apply guarded_unreachable. apply (connecting_write rs2); try done.
       - eapply connecting_mono, Hrs2. set_solver.
       - left. apply Hrs2.
       - by left. }
  apply guarded_bind; [by apply guarded_applyManifest|]. intros tr [e|] He.
  - apply guarded_setFailed. apply (connecting_write rs2); try done.
    + eapply connecting_mono, Hrs2. set_solver.
    + by right.
    + by left.
  - apply applyManifest_spec in He as (ca & u & code & docs & os & H1 & H2 & H3 & H4).
    repeat guard_step. split; [done|]. apply (connecting_write rs2); try done.
    + eapply connecting_mono, Hrs2. set_solver.
    + left. apply Hrs2.
    + intros _. right. exists ca, u, code, docs, os. split; [set_solver|]. split; [done|]. split; [done|].
      intros o Ho Hk. specialize (H4 o Ho Hk). set_solver.
Qed.

Lemma guarded_handleConnect rc h :
  connectable -> guarded (session_guard rs) h (handleConnect rs rc).
Proof.
  intros Hcon. unfold handleConnect. set (rs1 := rs_with_Phase rs PhaseConnecting).
  assert (forall h', connecting rs1 h') as Hrs1 by (intros; split; try done; by left).
  guard_step. guard_step.
  { split; [done|]. apply (connecting_write rs1); try done; [by left|by left]. }
  guard_step. apply guarded_call_rancher; [done|]. intros [[id []]|e].
  - apply guarded_connect_cluster; try done. exists rc. left. set_solver.
  - apply guarded_call_rancher.
    { split; [done|]. split; [done|]. exists id. set_solver. }
    intros [id'|e].
    + apply guarded_connect_cluster; try done. exists rc. right. set_solver.
    + apply guarded_unreachable. apply (connecting_write rs1); try done; [by left|by left].
  - apply guarded_unreachable. apply (connecting_write rs1); try done; [by left|by left].
Qed.

(** A write that keeps everything but phase, conditions, message and times. *)
Lemma plain_write rs' h :
  rs_Meta rs' = rs_Meta rs -> rs_Spec rs' = rs_Spec rs ->
  RancherClusterID (rs_Status rs') = RancherClusterID (rs_Status rs) ->
  ManifestApplied (rs_Status rs') = ManifestApplied (rs_Status rs) ->
  session_step (deleting (rs_Meta rs)) (ManifestApplied (rs_Status rs)) (credentials_unusable rs h)
    (rs_Phase (rs_Status rs)) (rs_Phase (rs_Status rs')) ->
  rs_Phase (rs_Status rs') <> PhaseConnected -> rs_Phase (rs_Status rs') <> PhaseDisconnected ->
  write_ok rs rs' h.
Proof. intros Hm Hs Hc Hma Hst H1 H2. split; try done; auto. rewrite Hma. auto. Qed.

Lemma guarded_expired h at_ : guarded (session_guard rs) h (expired at_).
Proof. unfold expired. by repeat guard_step. Qed.

Lemma guarded_poll h :
  deleting (rs_Meta rs) = false -> rs_Phase (rs_Status rs) = PhaseConnecting ->
  ManifestApplied (rs_Status rs) = true -> guarded (session_guard rs) h (pollAgentReady rs).
Proof.
  intros Hd Hp Hma. unfold pollAgentReady. apply guarded_bind; [apply guarded_expired|].
  intros tr [] _.
  - apply guarded_setFailed, plain_write; try done. apply ss_failed; auto.
  - unfold poll_deployment. repeat guard_step. split; [done|]. split; try done; auto.
    + rewrite Hp. by constructor.
    + intros _. right. split; [|exists r0; split; [set_solver|done]].
      exists a. split; [set_solver|]. by apply Z.eqb_neq.
Qed.

Lemma namespace_gone_mono h h' : h ⊆ h' -> namespace_gone h -> namespace_gone h'.
Proof. intros Hs [H|(e & He & H)]; [left|right]; eauto. Qed.

Lemma cluster_deleted_mono id h h' : h ⊆ h' -> cluster_deleted id h -> cluster_deleted id h'.
Proof. intros Hs H Hne. destruct (H Hne) as [rc ?]. eauto. Qed.

Lemma deleteNamespace_spec tr : exec (deleteNamespace cattleSystemNamespace) tr None -> namespace_gone tr.
Proof.
  unfold deleteNamespace, do_call. intros He. exec_step He.
  destruct r as [e|]; [destruct (IsNotFound e) eqn:Hn; exec_steps He|exec_steps He; left; left].
  right. exists e. split; [done|left].
Qed.

(** Cleaning up is due for a deleted object or a connected session. *)
Definition cleanable : Prop := deleting (rs_Meta rs) = true \/ rs_Phase (rs_Status rs) = PhaseConnected.

Lemma guarded_cleanup_local h :
  cleanable -> cluster_deleted (RancherClusterID (rs_Status rs)) h ->
  guarded (session_guard rs) h (cleanup_local (L := L) (rs_with_Phase rs PhaseDisconnecting)).
Proof.
  intros Hc Hcd. unfold cleanup_local. apply guarded_bind.
  { unfold deleteNamespace. repeat guard_step. split; [done|]. destruct Hc; auto. }
  intros tr [e|] He; [done|]. apply deleteNamespace_spec in He. unfold or_return at 1.
  guard_step. guard_step.
  - split; [done|]. split; try done; auto.
    + simpl. destruct Hc; constructor; auto.
    + intros _. split; [eapply namespace_gone_mono, He|eapply cluster_deleted_mono, Hcd]; set_solver.
  - guard_step. destruct (negb _) eqn:Hd; [|done]. unfold removeFinalizer. repeat guard_step.
    unfold session_guard, update_ok. fold (deleting (rs_Meta rs)) in Hd. simpl in Hd.
    assert (deleting (rs_Meta rs) = true) as -> by done. split; [done|].
    split; [eapply namespace_gone_mono, He; set_solver|]. left. eapply cluster_deleted_mono, Hcd; set_solver.
Qed.

Lemma guarded_runCleanup rc h : cleanable -> guarded (session_guard rs) h (runCleanup rs rc).
Proof.
  intros Hc. unfold runCleanup. guard_step. guard_step.
  { split; [done|]. apply plain_write; try done. destruct Hc; constructor; auto. }
  guard_step. simpl RancherClusterID. destruct (decide _) as [Hne|Heq].
  - apply guarded_call_rancher; [by split; [|split]|]. intros [e|].
    + apply guarded_unreachable, plain_write; try done. simpl. destruct Hc; constructor; auto.
    + apply guarded_cleanup_local; [done|]. intros _. exists rc. set_solver.
  - apply guarded_cleanup_local; [done|]. intros Hne. by destruct Heq.
Qed.

Lemma guarded_handleConnected rc h :
  deleting (rs_Meta rs) = false -> rs_Phase (rs_Status rs) = PhaseConnected ->
  guarded (session_guard rs) h (handleConnected rs rc).
Proof.
  intros Hd Hp. unfold handleConnected. apply guarded_bind; [apply guarded_expired|].
  assert (forall h', guarded (session_guard rs) h' (requeue_remaining rs)) as Hrem.
  { intros h'. unfold requeue_remaining. by repeat guard_step. }
  intros tr [] _; [apply guarded_runCleanup; by right|].
  destruct (decide _); [|apply Hrem].
  apply guarded_call_rancher; [done|]. intros [e|]; [|apply Hrem].
  destruct (Is e KRancherNotFound); [apply guarded_runCleanup; by right|].
  apply guarded_unreachable. split; try done; auto.
  - simpl. rewrite Hp. by constructor.
  - simpl. by rewrite Hp.
Qed.

Lemma guarded_rancherClient r h : guarded (session_guard rs) h (rancherClient pem_ok r rs).
Proof. unfold rancherClient. by repeat guard_step. Qed.

Lemma rancherClient_unusable r tr rc e :
  exec (rancherClient pem_ok r rs) tr (NotBuilt rc e) -> credentials_unusable rs tr.
Proof.
  unfold rancherClient, do_call. intros He. exec_steps He; eexists; (split; [left|]); cbn beta iota; eauto.
Qed.

Lemma guarded_handleDisconnect r h :
  deleting (rs_Meta rs) = true -> guarded (session_guard rs) h (handleDisconnect pem_ok r rs).
Proof.
  intros Hd. unfold handleDisconnect. guard_step; [done|].
  apply guarded_bind; [apply guarded_rancherClient|]. intros tr client He.
  destruct (match client with Built rc => _ | _ => _ end) as [rc|] eqn:Hrc.
  - apply guarded_bind; [apply guarded_runCleanup; by left|]. intros. by repeat guard_step.
  - assert (exists e, E (GetSecret (credentials_key rs)) (Err e) ∈ tr) as [e Hin].
    { unfold rancherClient, do_call in He. exec_steps He; try done. eexists. left. }
    apply guarded_bind.
    { unfold deleteNamespace. repeat guard_step. split; [done|]. by left. }
    intros tr' [e'|] Hdel; [done|]. apply deleteNamespace_spec in Hdel. unfold or_return, removeFinalizer.
    repeat guard_step. unfold session_guard, update_ok. rewrite Hd. split; [done|].
    split; [eapply namespace_gone_mono, Hdel; set_solver|]. right. exists e. set_solver.
Qed.

End Handlers.

(** ** Reconcile *)

Lemma session_read r key rs tr out :
  exec (RancherSession_Reconcile pem_ok r key) (E (GetRancherSession key) (Ok rs) :: tr) out ->
  exec (reconcile_session pem_ok r rs) tr out.
Proof.
  intros He. unfold RancherSession_Reconcile, do_call in He. cbn [bind call] in He.
  by apply exec_head in He.
Qed.

Lemma guarded_reconcile r rs : guarded (session_guard rs) [] (reconcile_session pem_ok r rs).
Proof.
  unfold reconcile_session. fold (deleting (rs_Meta rs)).
  rewrite AddFinalizer_spec, ContainsFinalizer_spec.
  destruct (deleting (rs_Meta rs)) eqn:Hd.
  - destruct (decide (rancherFinalizer ∈ om_Finalizers (rs_Meta rs))).
    + by apply guarded_handleDisconnect.
    + unfold handleDisconnect. rewrite ContainsFinalizer_spec, bool_decide_eq_false_2 by done. done.
  - destruct (bool_decide _) eqn:Hf.
    + apply bool_decide_eq_true in Hf. guard_step; [done|].
      apply guarded_bind; [by apply guarded_rancherClient|]. intros tr client Hcl. destruct client as [rc|rc e].
      * unfold by_phase. destruct (decide _); [apply guarded_handleConnect; [done|split; auto]|].
        destruct (decide _).
        -- destruct (ManifestApplied (rs_Status rs)) eqn:Hma; [by apply guarded_poll|].
           apply guarded_handleConnect; [done|split; auto].
        -- destruct (decide _); [by apply guarded_handleConnected|done].
      * apply guarded_setFailed; [done|]. apply plain_write; try done.
        apply ss_unusable; [done|]. by eapply rancherClient_unusable.
    + apply bool_decide_eq_false in Hf. repeat guard_step. unfold session_guard, update_ok. by rewrite Hd.
Qed.

Lemma reconcile_guard r key rs tr out tr1 c a tr2 :
  exec (RancherSession_Reconcile pem_ok r key) (E (GetRancherSession key) (Ok rs) :: tr) out ->
  tr = tr1 ++ E c a :: tr2 -> session_guard rs tr1 c.
Proof.
  intros He Heq. apply session_read in He.
  exact (guarded_exec _ _ [] _ _ tr1 c a tr2 He (guarded_reconcile r rs) Heq).
Qed.

(** C15: the session's phases: a status is written only for an object with the cleanup finalizer,
    keeps metadata and spec, and moves the phase along [session_step]: a live session, even a
    Disconnected one, fails when this reconcile could not read its credentials Secret or build a client
    from it, and otherwise only while it is being connected; a cluster ID that changes is one Rancher
    returned for the session's display name. *)
Theorem session_phase_machine r key rs tr out tr1 rs' e tr2 :
  exec (RancherSession_Reconcile pem_ok r key) (E (GetRancherSession key) (Ok rs) :: tr) out ->
  tr = tr1 ++ E (StatusUpdateRancherSession rs') e :: tr2 ->
  rancherFinalizer ∈ om_Finalizers (rs_Meta rs) /\ rs_Meta rs' = rs_Meta rs /\ rs_Spec rs' = rs_Spec rs
  /\ session_step (deleting (rs_Meta rs)) (ManifestApplied (rs_Status rs)) (credentials_unusable rs tr1)
       (rs_Phase (rs_Status rs)) (rs_Phase (rs_Status rs'))
  /\ (RancherClusterID (rs_Status rs') = RancherClusterID (rs_Status rs)
      \/ cluster_named (displayName rs) (RancherClusterID (rs_Status rs')) tr1).
Proof. intros He Heq. destruct (reconcile_guard _ _ _ _ _ _ _ _ _ He Heq) as [Hf []]. done. Qed.

(** C16: a session becomes Connected only when the agent's Deployment was seen available, and then
    expires its time to live after that moment. *)
Theorem connected_means_agent_ready r key rs tr out tr1 rs' e tr2 :
  exec (RancherSession_Reconcile pem_ok r key) (E (GetRancherSession key) (Ok rs) :: tr) out ->
  tr = tr1 ++ E (StatusUpdateRancherSession rs') e :: tr2 ->
  rs_Phase (rs_Status rs') = PhaseConnected -> rs_Phase (rs_Status rs) <> PhaseConnected ->
  agent_available tr1 /\ exists now, E Now now ∈ tr1 /\ ConnectedAt (rs_Status rs') = Some now
    /\ ExpiresAt (rs_Status rs') = Some (now + ttl_duration (TTLSeconds (rs_Spec rs))).
Proof.
  intros He Heq Hp Hne. destruct (reconcile_guard _ _ _ _ _ _ _ _ _ He Heq) as [_ Hw].
  destruct (wo_connected _ _ _ Hw Hp) as [[? _]|H]; done.
Qed.

(** C6: Disconnected means clean: the status is written only after Rancher confirmed the deletion of
    the session's cluster, if it has one, and the cattle-system namespace was deleted or absent. *)
Theorem disconnected_means_clean r key rs tr out tr1 rs' e tr2 :
  exec (RancherSession_Reconcile pem_ok r key) (E (GetRancherSession key) (Ok rs) :: tr) out ->
  tr = tr1 ++ E (StatusUpdateRancherSession rs') e :: tr2 ->
  rs_Phase (rs_Status rs') = PhaseDisconnected ->
  namespace_gone tr1 /\ cluster_deleted (RancherClusterID (rs_Status rs)) tr1.
Proof.
  intros He Heq Hp. destruct (reconcile_guard _ _ _ _ _ _ _ _ _ He Heq) as [_ Hw].
  exact (wo_disconnected _ _ _ Hw Hp).
Qed.

(** C7: the finalizer of a session that is being deleted goes only after the namespace is gone and
    Rancher confirmed the deletion of the cluster; the one exception is a credentials Secret that
    could not be read. *)
Theorem session_finalizer_removed_after_cleanup r key rs tr out tr1 rs' e tr2 :
  exec (RancherSession_Reconcile pem_ok r key) (E (GetRancherSession key) (Ok rs) :: tr) out ->
  deleting (rs_Meta rs) = true -> tr = tr1 ++ E (UpdateRancherSession rs') e :: tr2 ->
  (rancherFinalizer ∉ om_Finalizers (rs_Meta rs')) /\ namespace_gone tr1
  /\ (cluster_deleted (RancherClusterID (rs_Status rs)) tr1
      \/ exists err, E (GetSecret (credentials_key rs)) (Err err) ∈ tr1).
Proof.
  intros He Hd Heq. pose proof (reconcile_guard _ _ _ _ _ _ _ _ _ He Heq) as Hg.
  unfold session_guard, update_ok in Hg. rewrite Hd in Hg. destruct Hg as (Hfs & Hns & Hc).
  split; [|done]. rewrite Hfs. unfold without_rancher_finalizer. rewrite RemoveFinalizer_spec.
  intros [_ Hf]%list_elem_of_In%filter_In. by rewrite bool_decide_eq_true_2 in Hf.
Qed.

(** C25: no duplicate clusters: a cluster is created only under the session's display name and only
    after Rancher answered that it has none of that name. *)
Theorem create_only_when_absent r key rs tr out tr1 rc name a tr2 :
  exec (RancherSession_Reconcile pem_ok r key) (E (GetRancherSession key) (Ok rs) :: tr) out ->
  tr = tr1 ++ E (CallRancher rc (CreateCluster name)) a :: tr2 ->
  name = displayName rs /\ exists id, E (CallRancher rc (FindCluster name)) (Ok (id, false)) ∈ tr1.
Proof.
  intros He Heq. pose proof (reconcile_guard _ _ _ _ _ _ _ _ _ He Heq) as [_ Hg]. exact Hg.
Qed.

(** C26: ManifestApplied is set only after a manifest was fetched with a success status, decoded to
    its end, and every object of it with a kind was applied without error. *)
Theorem manifest_applied_in_full r key rs tr out tr1 rs' e tr2 :
  exec (RancherSession_Reconcile pem_ok r key) (E (GetRancherSession key) (Ok rs) :: tr) out ->
  tr = tr1 ++ E (StatusUpdateRancherSession rs') e :: tr2 ->
  ManifestApplied (rs_Status rs) = false -> ManifestApplied (rs_Status rs') = true -> manifest_applied tr1.
Proof.
  intros He Heq Hm Hm'. destruct (reconcile_guard _ _ _ _ _ _ _ _ _ He Heq) as [_ Hw].
  destruct (wo_manifest _ _ _ Hw Hm') as [?|H]; [congruence|done].
Qed.

(** ** Panics *)

(** A handler that always returns. *)
Definition returns (p : handler) : Prop := forall tr out, exec p tr out -> is_Some out.

Lemma returns_bind {A} (p : oprog A) (k : A -> handler) : (forall a, returns (k a)) -> returns (bind p k).
Proof. intros Hk tr out He. exec_split He. by eapply Hk. Qed.

Lemma returns_return r e : returns (return_ r e).
Proof. intros tr out He. unfold return_ in He. exec_steps He. done. Qed.

Lemma returns_or_return e k : returns k -> returns (or_return e k).
Proof. intros Hk. destruct e; [apply returns_return|done]. Qed.

Lemma returns_call rc o k : rc <> RNilHTTP -> (forall r, returns (k r)) -> returns (call_rancher rc o k).
Proof. intros Hne Hk. destruct rc; [apply returns_bind; done..|done]. Qed.

Ltac return_step :=
  match goal with
  | |- returns (bind _ _) => apply returns_bind; intros ?
  | |- returns (return_ _ _) => apply returns_return
  | |- returns (or_return _ _) => apply returns_or_return
  | |- returns (call_rancher _ _ _) => apply returns_call; [assumption|intros ?]
  | |- returns (match ?x with _ => _ end) => destruct x
  end.

Lemma returns_cleanup_local rs : returns (cleanup_local rs).
Proof. unfold cleanup_local, removeFinalizer. repeat return_step. Qed.

Lemma returns_runCleanup rs rc : rc <> RNilHTTP -> returns (runCleanup rs rc).
Proof.
  intros Hne. unfold runCleanup, setAPIUnreachable. repeat return_step; apply returns_cleanup_local.
Qed.

Lemma returns_by_phase rs rc : rc <> RNilHTTP -> returns (by_phase rs rc).
Proof.
  intros Hne. unfold by_phase, handleConnect, handleConnected, pollAgentReady, poll_deployment, connect_cluster,
    requeue_remaining, setAPIUnreachable, setFailed.
  repeat return_step; by apply returns_runCleanup.
Qed.

(** The only panicking execution of the cleanup. *)
Lemma runCleanup_panics rs rc tr :
  exec (runCleanup rs rc) tr None <->
  rc = RNilHTTP /\ RancherClusterID (rs_Status rs) <> ""
  /\ tr = [E (StatusUpdateRancherSession (rs_with_Phase rs PhaseDisconnecting)) None].
Proof.
  split.
  - intros He. destruct (decide (rc = RNilHTTP)) as [->|Hne].
    2: { by destruct (returns_runCleanup _ _ Hne _ _ He). }
    split; [done|]. unfold runCleanup, do_call in He. exec_step He.
    destruct r as [e|]; unfold or_return in He; [by destruct (returns_return _ _ _ _ He)|].
    simpl RancherClusterID in He. destruct (decide _) as [Hid|].
    + split; [done|]. unfold call_rancher in He. by exec_steps He.
    + by destruct (returns_cleanup_local _ _ _ He).
  - intros (-> & Hid & ->). unfold runCleanup, do_call. cbn [bind call]. constructor.
    unfold or_return. simpl RancherClusterID. rewrite decide_True by done. constructor.
Qed.

(** What building a client gives, and when it gives a nil pointer. *)
Lemma rancherClient_spec r rs tr c :
  exec (rancherClient pem_ok r rs) tr c ->
  match c with
  | Built rc => rc <> RNilHTTP
  | NotBuilt None _ => True
  | NotBuilt (Some rc) e => rc = RNilHTTP /\ rr_RancherClient r = false
      /\ exists secret, NewRancherHTTPClient pem_ok secret = Err e
           /\ tr = [E (GetSecret (credentials_key rs)) (Ok secret)]
  end.
Proof. unfold rancherClient, do_call. intros He. exec_steps He; try done. eauto. Qed.

Lemma handleDisconnect_panics r rs tr :
  exec (handleDisconnect pem_ok r rs) tr None ->
  rancherFinalizer ∈ om_Finalizers (rs_Meta rs) /\ RancherClusterID (rs_Status rs) <> ""
  /\ rr_RancherClient r = false
  /\ exists secret e, NewRancherHTTPClient pem_ok secret = Err e
       /\ tr = [E (GetSecret (credentials_key rs)) (Ok secret);
                E (StatusUpdateRancherSession (rs_with_Phase rs PhaseDisconnecting)) None].
Proof.
  unfold handleDisconnect. rewrite ContainsFinalizer_spec. intros He.
  destruct (bool_decide _) eqn:Hf; [|by destruct (returns_return _ _ _ _ He)].
  apply bool_decide_eq_true in Hf. split; [done|]. cbn [negb] in He. exec_split He.
  apply rancherClient_spec in He0.
  destruct (match a with Built rc => _ | _ => _ end) as [rc|] eqn:Hrc.
  - exec_split He. destruct a0 as [[? [?|]]|]; [by destruct (returns_return _ _ _ _ He)..|].
    exec_steps He. apply runCleanup_panics in He1 as (-> & Hid & ->). split; [done|].
    destruct a as [rc|[rc|] e]; simplify_eq. destruct He0 as (_ & Hrr & secret & Hnew & ->). eauto 6.
  - assert (returns (let* err := deleteNamespace cattleSystemNamespace in or_return err (removeFinalizer rs))) as Hret.
    { unfold removeFinalizer. repeat return_step. }
    by destruct (Hret _ _ He).
Qed.

Lemma returns_alive r rs : deleting (rs_Meta rs) = false -> returns (reconcile_session pem_ok r rs).
Proof.
  intros Hd. unfold reconcile_session. fold (deleting (rs_Meta rs)). rewrite Hd.
  destruct (AddFinalizer _ _) as [fs []]; [repeat return_step|].
  destruct (rs_Suspend (rs_Spec rs)); [return_step|].
  intros tr out He. exec_split He. apply rancherClient_spec in He0. revert He. destruct a as [rc|rc e].
  - by apply returns_by_phase.
  - unfold setFailed. apply returns_bind. intros ?. repeat return_step.
Qed.

(** C11: a deleted session with unusable credentials panics: Reconcile dereferences a nil client in
    exactly one situation, when a session with a Rancher cluster is being deleted and its credentials
    Secret is readable but does not make a client (a key is missing or the CA does not parse);
    the finalizer is then never reached. *)
Theorem reconcile_panics_iff r key tr :
  exec (RancherSession_Reconcile pem_ok r key) tr None <->
  exists rs secret e,
    deleting (rs_Meta rs) = true /\ rancherFinalizer ∈ om_Finalizers (rs_Meta rs)
    /\ RancherClusterID (rs_Status rs) <> ""
    /\ rr_RancherClient r = false /\ NewRancherHTTPClient pem_ok secret = Err e
    /\ tr = [E (GetRancherSession key) (Ok rs); E (GetSecret (credentials_key rs)) (Ok secret);
             E (StatusUpdateRancherSession (rs_with_Phase rs PhaseDisconnecting)) None].
Proof.
  split.
  - intros He. unfold RancherSession_Reconcile, do_call in He. exec_step He.
    destruct r0 as [rs|e]; [|by destruct (IsNotFound e); destruct (returns_return _ _ _ _ He)].
    destruct (deleting (rs_Meta rs)) eqn:Hd; [|by destruct (returns_alive _ _ Hd _ _ He)].
    unfold reconcile_session in He. fold (deleting (rs_Meta rs)) in He. rewrite Hd in He.
    apply handleDisconnect_panics in He as (Hf & Hid & Hrr & secret & e & Hnew & ->). by exists rs, secret, e.
  - intros (rs & secret & e & Hd & Hf & Hid & Hrr & Hnew & ->).
    unfold RancherSession_Reconcile, do_call. cbn [bind call]. constructor.
    unfold reconcile_session. fold (deleting (rs_Meta rs)). rewrite Hd. unfold handleDisconnect.
    rewrite ContainsFinalizer_spec, bool_decide_eq_true_2 by done. cbn [negb].
    unfold rancherClient, do_call. rewrite Hrr. cbn [bind call]. constructor. rewrite Hnew. cbn [bind].
    apply exec_bind. eexists [_], [], None. split; [done|]. split; [|constructor].
    apply runCleanup_panics. done.
Qed.

(** ** Progress *)

(** A call of the cleanup. *)
Definition is_cleanup (e : event OpΣ) : bool :=
  match ev_op e with CallRancher _ _ | DeleteNamespace _ => true | _ => false end.

(** The write after Rancher refused to delete the cluster. *)
Definition refused (rs : RancherSession) (e : error) : RancherSession :=
  rs_with_Message (setRancherCondition (rs_with_Phase rs PhaseDisconnecting)
    rancherConditionAPIReachable ConditionFalse "DeleteClusterFailed" (Error e)) (Error e).

Lemma refused_cleanup rs rc tr out e :
  let id := RancherClusterID (rs_Status rs) in
  exec (runCleanup rs rc)
    (E (StatusUpdateRancherSession (rs_with_Phase rs PhaseDisconnecting)) None
     :: E (CallRancher rc (DeleteCluster id)) (Some e) :: tr) out ->
  exists x, tr = [E (StatusUpdateRancherSession (refused rs e)) x]
    /\ out = Some match x with None => (requeue_after rancherErrorRequeueWait, None)
                              | Some err => (done_result, Some err) end.
Proof.
  intros id He. unfold runCleanup, do_call in He. cbn [bind call] in He. apply exec_head in He.
  unfold or_return at 1 in He. simpl RancherClusterID in He. fold id in He. destruct (decide _) as [Hne|Heq].
  - assert (exec (setAPIUnreachable (rs_with_Phase rs PhaseDisconnecting) "DeleteClusterFailed" (Error e)) tr out) as Hs.
    { destruct rc; unfold call_rancher, do_call in He; [exact (exec_head _ _ _ _ _ He)..|].
      by apply exec_inv in He as [? _]. }
    unfold setAPIUnreachable, do_call, or_return, return_ in Hs. exec_steps Hs; by eexists.
  - unfold cleanup_local, deleteNamespace, do_call in He. cbn [bind call] in He.
    apply exec_inv in He as (r & tr' & Hev & _). by apply (f_equal (fun l => ev_op <$> head l)) in Hev.
Qed.

(** Reconciling a live object in a phase the switch ignores. *)
Lemma ignored_phase r rs tr out :
  exec (reconcile_session pem_ok r rs) tr out -> deleting (rs_Meta rs) = false ->
  rancherFinalizer ∈ om_Finalizers (rs_Meta rs) -> rs_Phase (rs_Status rs) <> "" -> rs_Phase (rs_Status rs) <> PhaseConnecting ->
  rs_Phase (rs_Status rs) <> PhaseConnected ->
  none is_cleanup tr /\ (forall rs' x, E (StatusUpdateRancherSession rs') x ∈ tr -> rs_Phase (rs_Status rs') = PhaseFailed)
  /\ exists res err, out = Some (res, err) /\ queued_again res = false.
Proof.
  intros He Hd Hf H1 H2 H3. unfold reconcile_session in He. fold (deleting (rs_Meta rs)) in He.
  rewrite Hd, AddFinalizer_spec, ContainsFinalizer_spec, bool_decide_eq_true_2 in He by done.
  destruct (rs_Suspend (rs_Spec rs)).
  { unfold return_ in He. exec_steps He. split; [done|]. split; [|eauto]. intros rs' x Hin. by apply not_elem_of_nil in Hin. }
  exec_split He. assert (none is_cleanup tr0 /\ forall rs' x, E (StatusUpdateRancherSession rs') x ∉ tr0) as [Hn Hno].
  { unfold rancherClient, do_call in He0. exec_steps He0; (split; [done|]); intros rs' x Hin;
      try (by apply not_elem_of_nil in Hin); by apply list_elem_of_singleton, (f_equal ev_op) in Hin. }
  destruct a as [rc|rc e].
  - unfold by_phase in He. rewrite !decide_False in He by done. unfold return_ in He. exec_steps He.
    rewrite app_nil_r. split; [done|]. split; [|eauto]. intros rs' x Hin. by destruct (Hno rs' x).
  - unfold setFailed, do_call, or_return, return_ in He. exec_steps He; (split; [by apply none_app|]);
      (split; [|eauto]); intros rs' x [Hin|Hin]%elem_of_app; try (by destruct (Hno rs' x));
      apply list_elem_of_singleton in Hin; by injection (f_equal ev_op Hin) as ->.
Qed.

(** C12: a refused cleanup of a live session is abandoned: when Rancher answers the deletion of the
    cluster with an error, the status that is written has the phase Disconnecting and a retry in 30
    seconds is asked for; but a reconcile of any live object in the phase Disconnecting (or Failed) calls
    neither Rancher nor the namespace deletion, asks for no further run, and writes no phase but
    Failed, so only the deletion of the object starts the cleanup again. *)
Theorem refused_cleanup_is_abandoned :
  (forall rs rc e tr out,
     exec (runCleanup rs rc)
       (E (StatusUpdateRancherSession (rs_with_Phase rs PhaseDisconnecting)) None
        :: E (CallRancher rc (DeleteCluster (RancherClusterID (rs_Status rs)))) (Some e) :: tr) out ->
     exists rs' x, tr = [E (StatusUpdateRancherSession rs') x]
       /\ rs_Meta rs' = rs_Meta rs /\ rs_Phase (rs_Status rs') = PhaseDisconnecting
       /\ (x = None -> out = Some (requeue_after rancherErrorRequeueWait, None)))
  /\ (forall r key rs tr out,
     exec (RancherSession_Reconcile pem_ok r key) (E (GetRancherSession key) (Ok rs) :: tr) out ->
     deleting (rs_Meta rs) = false -> rancherFinalizer ∈ om_Finalizers (rs_Meta rs) ->
     rs_Phase (rs_Status rs) = PhaseDisconnecting \/ rs_Phase (rs_Status rs) = PhaseFailed ->
     none is_cleanup tr
     /\ (forall rs' x, E (StatusUpdateRancherSession rs') x ∈ tr -> rs_Phase (rs_Status rs') = PhaseFailed)
     /\ exists res err, out = Some (res, err) /\ queued_again res = false).
Proof.
  split.
  - intros rs rc e tr out He. apply refused_cleanup in He as (x & -> & ->). exists (refused rs e), x.
    do 3 (split; [done|]). by intros ->.
  - intros r key rs tr out He Hd Hf Hp. apply session_read in He.
    eapply ignored_phase; [exact He|exact Hd|exact Hf|..]; destruct Hp as [-> | ->]; done.
Qed.

(** A session that ended stays ended: reconciling a live object that is Failed or Disconnected
    never calls Rancher, never deletes the namespace, writes no status but Failed, and does not
    ask to be run again. *)
Theorem ended_session_is_inert r key rs tr out :
  exec (RancherSession_Reconcile pem_ok r key) (E (GetRancherSession key) (Ok rs) :: tr) out ->
  deleting (rs_Meta rs) = false -> rancherFinalizer ∈ om_Finalizers (rs_Meta rs) ->
  rs_Phase (rs_Status rs) = PhaseFailed \/ rs_Phase (rs_Status rs) = PhaseDisconnected ->
  none is_cleanup tr
  /\ (forall rs' x, E (StatusUpdateRancherSession rs') x ∈ tr -> rs_Phase (rs_Status rs') = PhaseFailed)
  /\ exists res err, out = Some (res, err) /\ queued_again res = false.
Proof.
  intros He Hd Hf Hp. apply session_read in He.
  eapply ignored_phase; [exact He|exact Hd|exact Hf|..]; destruct Hp as [-> | ->]; done.
Qed.

End Proofs.

(** ** Time to live *)

Section TimeToLive.
Context `{L : K8sLib}.

Definition max_ttl : Z := 9223372036.

Lemma ttl_duration_exact ttl : 0 <= ttl <= max_ttl -> ttl_duration ttl = ttl * Second.
Proof.
  intros H. unfold ttl_duration. apply wrap64_id. unfold in_int64, min_int64, max_int64, two63, Second, max_ttl in *.
  lia.
Qed.

Lemma ttl_overflow : ttl_duration (max_ttl + 1) = -9223372036709551616.
Proof. vm_compute. reflexivity. Qed.

(** C38: the time to live is exact within int64: a session that becomes Connected with a positive time
    to live of at most 9223372036 seconds expires that many seconds after the clock reading and
    its next reconcile is asked for at that moment; the first value beyond wraps to an expiry in
    the past. *)
Theorem ttl_within_int64 rs dep now rs' e res :
  exec (poll_deployment rs)
    [E (GetDeployment (mkNN cattleSystemNamespace cattleAgentDeployment)) (Ok dep); E Now now;
     E (StatusUpdateRancherSession rs') e] (Some (res, None)) ->
  (0 < TTLSeconds (rs_Spec rs) <= max_ttl ->
     ExpiresAt (rs_Status rs') = Some (now + TTLSeconds (rs_Spec rs) * Second)
     /\ res = requeue_after (TTLSeconds (rs_Spec rs) * Second) /\ queued_again res = true)
  /\ (TTLSeconds (rs_Spec rs) = max_ttl + 1 ->
     (exists t, ExpiresAt (rs_Status rs') = Some t /\ t < now) /\ queued_again res = false).
Proof.
  intros He. assert (ExpiresAt (rs_Status rs') = Some (now + ttl_duration (TTLSeconds (rs_Spec rs)))
    /\ res = requeue_after (ttl_duration (TTLSeconds (rs_Spec rs)))) as [-> ->].
  { unfold poll_deployment, do_call in He. cbn [bind call] in He. apply exec_head in He. cbn beta iota in He.
    destruct (dep_AvailableReplicas dep =? 0); [by apply exec_inv in He as [? _]|].
    apply exec_head in He. cbn beta in He. apply exec_inv in He as (r & tr & Htr & He).
    injection (f_equal (fun l : trace => match l with x :: _ => ev_op x | [] => Now end) Htr) as ->.
    destruct r as [err|]; unfold or_return, return_ in He; by exec_steps He. }
  split.
  - intros Ht. rewrite ttl_duration_exact by lia. split; [done|]. split; [done|].
    unfold queued_again. simpl. rewrite orb_false_r. apply Z.ltb_lt. unfold Second. lia.
  - intros ->. rewrite ttl_overflow. split; [eexists; split; [reflexivity|lia]|reflexivity].
Qed.

(** The local part of the cleanup, when its calls succeed. *)
Lemma cleanup_local_ok rs tr out :
  exec (cleanup_local rs) tr out -> deleting (rs_Meta rs) = false ->
  (forall rs' e, E (StatusUpdateRancherSession rs') (Some e) ∉ tr) ->
  (forall n e, E (DeleteNamespace n) (Some e) ∉ tr) ->
  out = Some (done_result, None)
  /\ exists rs', tr = [E (DeleteNamespace cattleSystemNamespace) None; E (StatusUpdateRancherSession rs') None]
       /\ rs_Phase (rs_Status rs') = PhaseDisconnected.
Proof.
  intros He Hd Hs Hn. unfold cleanup_local, deleteNamespace, do_call in He. exec_step He.
  destruct r as [e|]; [exfalso; eapply Hn; left|]. cbn [bind call] in He. unfold or_return at 1 in He.
  exec_step He. destruct r as [e|]; [exfalso; eapply Hs; right; left|]. unfold or_return in He.
  cbn [rs_Meta rs_with_Message rs_with_Phase rs_with_status] in He. fold (deleting (rs_Meta rs)) in He.
  rewrite Hd in He. unfold return_ in He. exec_steps He. eauto.
Qed.

(** A write or a deletion that was refused. *)
Definition refuses (e : event OpΣ) : bool :=
  match e with
  | Ev (StatusUpdateRancherSession _) (Some _) | Ev (DeleteNamespace _) (Some _)
  | Ev (CallRancher _ (DeleteCluster _)) (Some _) => true
  | _ => false
  end.

Lemma expired_cleanup rs rc t now tr out :
  exec (handleConnected rs rc) (E Now now :: tr) out ->
  rc <> RNilHTTP -> deleting (rs_Meta rs) = false -> ExpiresAt (rs_Status rs) = Some t -> t < now ->
  none refuses tr ->
  cluster_deleted (RancherClusterID (rs_Status rs)) tr /\ namespace_gone tr
  /\ out = Some (done_result, None)
  /\ exists tr0 rs', tr = tr0 ++ [E (StatusUpdateRancherSession rs') None]
       /\ rs_Phase (rs_Status rs') = PhaseDisconnected.
Proof.
  intros He Hnil Hd Hx Hlt Hok.
  assert (forall rs' e, E (StatusUpdateRancherSession rs') (Some e) ∉ tr) as Hs
    by (intros rs' e Hin; by apply (none_elem _ _ _ Hok) in Hin).
  assert (forall rc id e, E (CallRancher rc (DeleteCluster id)) (Some e) ∉ tr) as Hc
    by (intros rc' id e Hin; by apply (none_elem _ _ _ Hok) in Hin).
  assert (forall n e, E (DeleteNamespace n) (Some e) ∉ tr) as Hn
    by (intros n e Hin; by apply (none_elem _ _ _ Hok) in Hin).
  unfold handleConnected, expired, do_call in He. rewrite Hx in He.
  cbn [bind call] in He. apply exec_head in He. unfold After in He.
  rewrite (proj2 (Z.ltb_lt _ _) Hlt) in He. unfold runCleanup, do_call in He. exec_step He.
  destruct r as [e|]; [exfalso; eapply Hs; left|]. unfold or_return at 1 in He. simpl RancherClusterID in He.
  assert (exists h tr', tr0 = h ++ tr' /\ exec (cleanup_local (rs_with_Phase rs PhaseDisconnecting)) tr' out
    /\ cluster_deleted (RancherClusterID (rs_Status rs)) h) as (h & tr' & -> & Hcl & Hdel).
  { destruct (decide _) as [Hne|Heq]; [|exists [], tr0; split; [done|]; split; [done|]; intros Hne; by destruct Heq].
    destruct rc as [|c|]; [| |done]; unfold call_rancher, do_call in He; exec_step He;
      (destruct r as [e|]; [exfalso; eapply Hc; right; left|]); eexists [_], _; (split; [done|]);
      (split; [done|]); intros _; eexists; left. }
  apply cleanup_local_ok in Hcl as (-> & rs' & -> & Hp); [|done| |].
  - split; [eapply cluster_deleted_mono, Hdel; set_solver|]. split; [left; set_solver|]. split; [done|].
    eexists (_ :: h ++ [_]), rs'. split; [|done]. simpl. by rewrite <- app_assoc.
  - intros rs1 e Hin. apply (Hs rs1 e). set_solver.
  - intros n e Hin. apply (Hn n e). set_solver.
Qed.

Section Expiry.
Context {LS : K8sLibSpec L} (pem_ok : string -> bool).

(** C36: an expired session is disconnected: when a live session in the phase Connected that is not
    suspended and whose credentials make a client is reconciled after its expiry time (by the clock as
    this reconcile reads it), and no status write, cluster deletion or namespace deletion is refused,
    that reconcile deletes the cluster and the namespace and leaves the session Disconnected. *)
Theorem expired_session_disconnects r key rs t tr out :
  exec (RancherSession_Reconcile pem_ok r key) (E (GetRancherSession key) (Ok rs) :: tr) out ->
  deleting (rs_Meta rs) = false -> rancherFinalizer ∈ om_Finalizers (rs_Meta rs) ->
  rs_Suspend (rs_Spec rs) = false -> rs_Phase (rs_Status rs) = PhaseConnected ->
  ~ credentials_unusable pem_ok rs tr ->
  ExpiresAt (rs_Status rs) = Some t -> (forall now, E Now now ∈ tr -> t < now) -> none refuses tr ->
  cluster_deleted (RancherClusterID (rs_Status rs)) tr /\ namespace_gone tr
  /\ out = Some (done_result, None)
  /\ exists tr0 rs', tr = tr0 ++ [E (StatusUpdateRancherSession rs') None]
       /\ rs_Phase (rs_Status rs') = PhaseDisconnected.
Proof.
  intros He Hd Hf Hsu Hp Hun Hx Hnow Hok. apply session_read in He. unfold reconcile_session in He.
  fold (deleting (rs_Meta rs)) in He.
  rewrite Hd, AddFinalizer_spec, ContainsFinalizer_spec, bool_decide_eq_true_2, Hsu in He by done.
  exec_split He. destruct a as [rc|rc e].
  2:{ destruct Hun. apply rancherClient_unusable in He0 as (got & Hin & Hgot). exists got. split; [set_solver|done]. }
  apply rancherClient_spec in He0. unfold by_phase in He. rewrite Hp in He.
  rewrite !decide_False, decide_True in He by done.
  assert (exists now tr', tr1 = E Now now :: tr') as (now & tr' & ->).
  { unfold handleConnected, expired, do_call in He. rewrite Hx in He. exec_step He. by eexists _, _. }
  apply none_app in Hok as [_ [_ Hok]%none_cons].
  destruct (expired_cleanup rs rc t now tr' out He) as (Hc & Hn & -> & tr2 & rs' & -> & Hp'); [done..| |done|].
  { apply Hnow. set_solver. }
  split; [eapply cluster_deleted_mono, Hc; set_solver|]. split; [eapply namespace_gone_mono, Hn; set_solver|].
  split; [done|]. eexists (tr0 ++ E Now now :: tr2), rs'. split; [|done]. by rewrite <- app_assoc.
Qed.

End Expiry.

Definition is_session_write (e : event OpΣ) : bool :=
  match ev_op e with StatusUpdateRancherSession _ => true | _ => false end.

Lemma first_write_not_none {A} (p : oprog A) tr a rs (k : option error -> oprog A) :
  p = bind (do_call (StatusUpdateRancherSession rs)) k -> exec p tr a -> ~ none is_session_write tr.
Proof.
  intros -> He. unfold do_call in He. exec_step He. rewrite none_cons. by intros [? _].
Qed.

(** C37: a Connected session that is left alone comes back for its expiry: a reconcile that writes no
    status reads the clock last, and is run again, after the remaining time, exactly when that
    reading is before the expiry; a reading at or after it ends with no retry. *)
Theorem connected_session_requeues rs rc t tr res :
  exec (handleConnected rs rc) tr (Some (res, None)) -> ExpiresAt (rs_Status rs) = Some t ->
  none is_session_write tr ->
  exists now tr0, tr = tr0 ++ [E Now now] /\ (queued_again res = true <-> now < t)
    /\ (now < t -> res = requeue_after (Until t now)).
Proof.
  intros He Hx Hn.
  assert (forall h tr', exec (requeue_remaining rs) tr' (Some (res, None)) ->
    exists now tr0, h ++ tr' = tr0 ++ [E Now now] /\ (queued_again res = true <-> now < t)
      /\ (now < t -> res = requeue_after (Until t now))) as Hrem.
  { intros h tr' Hr. unfold requeue_remaining, do_call, return_ in Hr. rewrite Hx in Hr. exec_step Hr.
    exists r, h. pose proof (Until_pos_iff t r) as Hpos.
    destruct (0 <? Until t r) eqn:Hu; exec_steps Hr; (split; [done|]); unfold queued_again; simpl; split; try done; lia. }
  assert (forall h tr', none is_session_write (h ++ tr') -> ~ exec (runCleanup rs rc) tr' (Some (res, None))) as Hcl.
  { intros h tr' Hnn Hc. apply none_app in Hnn as [_ Hnn]. revert Hnn.
    by eapply first_write_not_none, Hc. }
  unfold handleConnected, expired, do_call in He. rewrite Hx in He. exec_step He.
  destruct (After r t); [by destruct (Hcl [_] _ Hn)|].
  destruct (decide _) as [Hne|Heq]; [|exact (Hrem [_] _ He)].
  destruct rc as [|c|]; unfold call_rancher, do_call in He; [| |exec_steps He];
    (exec_step He; destruct r0 as [e|]; [|exact (Hrem [_; _] _ He)]);
    (destruct (Is e KRancherNotFound); [by destruct (Hcl [_; _] _ Hn)|]);
    (exfalso; apply (none_app _ [_; _]) in Hn as [_ Hn]; revert Hn; by eapply first_write_not_none, He).
Qed.

End TimeToLive.
