(* ===== verification/RancherSessionExamples.v ===== *)
(** * RancherSessionExamples: concrete executions of the RancherSession reconciler

    A session is connected, polled, expired and deleted against environments whose
    answers are given by a function of the call; each theorem of
    [RancherSessionProofs] is applied to one of these executions. *)

From Stdlib Require Import ZArith Lia.
From stdpp Require Import base list strings gmap.
From S2P Require Import Prelude Effects GoLib K8s ApiTypes HealthScore Clients Operator.
From S2P Require Import RancherSession RancherSessionProofs.

Local Open Scope Z_scope.

Definition accept_pem (s : string) : bool := negb (bool_decide (s = "")).

(** ** Objects *)

Definition rs_demo (deleted : mtime) (ttl : Z) (st : RancherSessionStatus) : RancherSession :=
  mkRancherSession (mkMeta "c1" "edge" 1 deleted [rancherFinalizer])
    (mkRSSpec (mkSecretRef "rancher-credentials" "edge") "" ttl false) st.

Definition st_demo (phase id : string) (applied : bool) (expires : mtime) : RancherSessionStatus :=
  mkRSStatus phase id applied None expires [] "".

Definition rs_new : RancherSession := rs_demo None 60 (st_demo "" "" false None).
Definition rs_polling : RancherSession := rs_demo None 60 (st_demo PhaseConnecting "c-1" true (Some 500)).
Definition rs_up : RancherSession := rs_demo None 60 (st_demo PhaseConnected "c-1" true (Some 500)).
Definition rs_expired : RancherSession := rs_demo None 60 (st_demo PhaseConnected "c-1" true (Some 50)).
Definition rs_deleted : RancherSession := rs_demo (Some 90) 60 (st_demo PhaseConnected "c-1" true (Some 500)).

(** ** Environments *)

Definition manifest : manifest_stream :=
  DocObj (mkUnstructured "v1" "Namespace" "" "cattle-system")
    (DocObj (mkUnstructured "" "" "" "")
      (DocObj (mkUnstructured "apps/v1" "Deployment" "cattle-system" "cattle-cluster-agent") DocEOF)).

Definition good_secret : Secret :=
  mkSecret "rancher-credentials" "edge"
    (<["RANCHER_URL" := "https://r/"]> (<["RANCHER_TOKEN" := "t"]> (<["RANCHER_CA" := "pem"]> ∅))).
Definition bad_secret : Secret := mkSecret "rancher-credentials" "edge" (<["RANCHER_URL" := "https://r/"]> ∅).

Definition ok_rancher (o : rancher_op) : rancher_ans o :=
  match o with
  | FindCluster _ => Ok ("", false)
  | CreateCluster _ => Ok "c-1"
  | GetRegistrationToken _ => Ok "https://r/manifest.yaml"
  | GetCluster _ | DeleteCluster _ => None
  end.

(** Everything succeeds; the credentials are [secret]. *)
Definition rancher_world (secret : Secret) (rs : RancherSession) (c : op_call) : op_ans c :=
  match c with
  | GetRancherSession _ => Ok rs
  | GetSecret _ => Ok secret
  | GetDeployment k => Ok (mkDeployment (nn_Name k) (nn_Namespace k) None 1)
  | FetchManifest _ _ => FetchStatus 200 (Ok manifest)
  | StatusUpdateRancherSession _ | UpdateRancherSession _ | ApplyObject _ | DeleteNamespace _ => None
  | CallRancher _ o => ok_rancher o
  | c => all_fail 100 c
  end.

Definition session_key : NamespacedName := mkNN "edge" "c1".
Definition session_rec : RancherSessionReconciler := mkRSR false.

Definition session_prog : handler := RancherSession_Reconcile (L := RefLib) accept_pem session_rec session_key.

Definition session_run (rs : RancherSession) : option outcome * trace * unit :=
  run (Σ := OpΣ) (fun c u => (rancher_world good_secret rs c, u)) session_prog tt.

Definition session_trace (rs : RancherSession) : trace := tail (session_run rs).1.2.

Lemma session_exec rs :
  exec session_prog (E (GetRancherSession session_key) (Ok rs) :: session_trace rs) (session_run rs).1.1.
Proof. exact (run_exec_head (Σ := OpΣ) (fun c u => (rancher_world good_secret rs c, u)) _ _ tt). Qed.

(** Splitting a trace at a position. *)
Lemma split_at (tr : trace) n e : tr !! n = Some e -> tr = take n tr ++ e :: drop (S n) tr.
Proof. intros H. symmetry. by apply take_drop_middle. Qed.

(** The status written at a position, by default the one of [rs]. *)
Definition written_at (rs : RancherSession) (n : nat) : RancherSession :=
  match session_trace rs !! n with
  | Some (Ev (StatusUpdateRancherSession rs') _) => rs'
  | _ => rs
  end.

(** ** Witnesses *)

Lemma session_phase_machine_witness :
  session_step false true (credentials_unusable accept_pem rs_polling (take 4 (session_trace rs_polling)))
    PhaseConnecting PhaseConnected
  /\ rs_Meta (written_at rs_polling 4) = rs_Meta rs_polling.
Proof.
  destruct (session_phase_machine (L := RefLib) (LS := RefLibSpec) accept_pem session_rec session_key rs_polling
    (session_trace rs_polling) (session_run rs_polling).1.1 (take 4 (session_trace rs_polling))
    (written_at rs_polling 4) None (drop 5 (session_trace rs_polling))) as (_ & Hm & _ & Hs & _).
  - apply session_exec.
  - apply split_at. vm_compute. reflexivity.
  - split; [exact Hs|exact Hm].
Defined.

(** A Disconnected session whose Secret has lost its token is written as Failed. *)
Definition rs_done : RancherSession := rs_demo None 60 (st_demo PhaseDisconnected "c-1" true (Some 50)).

Example disconnected_session_fails :
  let tr := (run (Σ := OpΣ) (fun c u => (rancher_world bad_secret rs_done c, u)) session_prog tt).1.2 in
  omap (fun e : event OpΣ => match e with Ev (StatusUpdateRancherSession rs) _ => Some (rs_Phase (rs_Status rs)) | _ => None end) tr
  = [PhaseFailed].
Proof. vm_compute. reflexivity. Qed.

Lemma connected_means_agent_ready_witness :
  ExpiresAt (rs_Status (written_at rs_polling 4)) = Some (100 + 60 * Second)
  /\ agent_available (take 4 (session_trace rs_polling)).
Proof.
  destruct (connected_means_agent_ready (L := RefLib) (LS := RefLibSpec) accept_pem session_rec session_key rs_polling
    (session_trace rs_polling) (session_run rs_polling).1.1 (take 4 (session_trace rs_polling))
    (written_at rs_polling 4) None (drop 5 (session_trace rs_polling))) as (Ha & _).
  - apply session_exec.
  - apply split_at. vm_compute. reflexivity.
  - vm_compute. reflexivity.
  - discriminate.
  - split; [vm_compute; reflexivity|exact Ha].
Defined.

Lemma disconnected_means_clean_witness :
  rs_Phase (rs_Status (written_at rs_expired 5)) = PhaseDisconnected
  /\ cluster_deleted "c-1" (take 5 (session_trace rs_expired)).
Proof.
  assert (rs_Phase (rs_Status (written_at rs_expired 5)) = PhaseDisconnected) as Hp by (vm_compute; reflexivity).
  destruct (disconnected_means_clean (L := RefLib) (LS := RefLibSpec) accept_pem session_rec session_key rs_expired
    (session_trace rs_expired) (session_run rs_expired).1.1 (take 5 (session_trace rs_expired))
    (written_at rs_expired 5) None (drop 6 (session_trace rs_expired))) as (_ & Hc).
  - apply session_exec.
  - apply split_at. vm_compute. reflexivity.
  - exact Hp.
  - split; [exact Hp|exact Hc].
Defined.

Lemma session_finalizer_removed_after_cleanup_witness :
  exists rs', E (UpdateRancherSession rs') None ∈ session_trace rs_deleted
    /\ (rancherFinalizer ∉ om_Finalizers (rs_Meta rs')) /\ namespace_gone (take 5 (session_trace rs_deleted)).
Proof.
  set (rs' := rs_with_finalizers (written_at rs_deleted 4) []).
  assert (session_trace rs_deleted !! 5%nat = Some (E (UpdateRancherSession rs') None)) as Hat by (vm_compute; reflexivity).
  destruct (session_finalizer_removed_after_cleanup (L := RefLib) (LS := RefLibSpec) accept_pem session_rec session_key
    rs_deleted (session_trace rs_deleted) (session_run rs_deleted).1.1 (take 5 (session_trace rs_deleted))
    rs' None (drop 6 (session_trace rs_deleted))) as (Hf & Hn & _).
  - apply session_exec.
  - reflexivity.
  - by apply split_at.
  - exists rs'. split; [exact (list_elem_of_lookup_2 _ _ _ Hat)|]. split; [exact Hf|exact Hn].
Defined.

Definition demo_rancher : rancher_impl := RHTTP (mkRancherHTTP "https://r" "t" "pem").

Lemma create_only_when_absent_witness :
  exists id, E (CallRancher demo_rancher (FindCluster "c1")) (Ok (id, false)) ∈ take 3 (session_trace rs_new).
Proof.
  apply (create_only_when_absent (L := RefLib) (LS := RefLibSpec) accept_pem session_rec session_key rs_new
    (session_trace rs_new) (session_run rs_new).1.1 (take 3 (session_trace rs_new)) demo_rancher "c1" (Ok "c-1")
    (drop 4 (session_trace rs_new))).
  - apply session_exec.
  - apply split_at. vm_compute. reflexivity.
Defined.

Lemma manifest_applied_in_full_witness :
  ManifestApplied (rs_Status (written_at rs_new 10)) = true /\ manifest_applied (take 10 (session_trace rs_new)).
Proof.
  assert (ManifestApplied (rs_Status (written_at rs_new 10)) = true) as Hm by (vm_compute; reflexivity).
  split; [exact Hm|].
  apply (manifest_applied_in_full (L := RefLib) (LS := RefLibSpec) accept_pem session_rec session_key rs_new
    (session_trace rs_new) (session_run rs_new).1.1 (take 10 (session_trace rs_new)) (written_at rs_new 10) None
    (drop 11 (session_trace rs_new))).
  - apply session_exec.
  - apply split_at. vm_compute. reflexivity.
  - reflexivity.
  - exact Hm.
Defined.

Definition refusal : error := Errorf "status 500".

Definition rs_refused : RancherSession := refused (L := RefLib) rs_expired refusal.

Lemma refused_cleanup_is_abandoned_witness :
  (exists rs' x, [E (StatusUpdateRancherSession rs_refused) None] = [E (StatusUpdateRancherSession rs') x]
     /\ rs_Phase (rs_Status rs') = PhaseDisconnecting)
  /\ none is_cleanup (session_trace rs_refused).
Proof.
  destruct (refused_cleanup_is_abandoned (L := RefLib) (LS := RefLibSpec) accept_pem) as [H1 H2]. split.
  - destruct (H1 rs_expired RInjected refusal [E (StatusUpdateRancherSession rs_refused) None]
      (Some (requeue_after rancherErrorRequeueWait, None))) as (rs' & x & Heq & _ & Hp & _).
    + repeat constructor.
    + exists rs', x. split; [exact Heq|exact Hp].
  - destruct (H2 session_rec session_key rs_refused _ _ (session_exec rs_refused)) as [Hn _];
      [reflexivity|left|left; reflexivity|exact Hn].
Defined.

Definition poll_run : option outcome * trace * unit :=
  run (Σ := OpΣ) (fun c u => (rancher_world good_secret rs_polling c, u)) (poll_deployment (L := RefLib) rs_polling) tt.

Lemma ttl_within_int64_witness :
  ExpiresAt (rs_Status (written_at rs_polling 4)) = Some (100 + 60 * Second)
  /\ queued_again (requeue_after (60 * Second)) = true.
Proof.
  destruct (ttl_within_int64 (L := RefLib) rs_polling
    (mkDeployment cattleAgentDeployment cattleSystemNamespace None 1) 100 (written_at rs_polling 4) None
    (requeue_after (60 * Second))) as [H _].
  - assert (poll_run.1.2 =
      [E (GetDeployment (mkNN cattleSystemNamespace cattleAgentDeployment))
         (Ok (mkDeployment cattleAgentDeployment cattleSystemNamespace None 1)); E Now 100;
       E (StatusUpdateRancherSession (written_at rs_polling 4)) None]) as <- by (vm_compute; reflexivity).
    assert (poll_run.1.1 = Some (requeue_after (60 * Second), None)) as <- by (vm_compute; reflexivity).
    exact (run_exec (Σ := OpΣ) (fun c u => (rancher_world good_secret rs_polling c, u)) _ tt).
  - destruct H as (H1 & H2 & H3); [vm_compute; split; [reflexivity|discriminate]|].
    split; [exact H1|exact H3].
Defined.

(** Handling of a connected session by a function of the environment. *)
Definition connected_run (rs : RancherSession) : option outcome * trace * unit :=
  run (Σ := OpΣ) (fun c u => (rancher_world good_secret rs c, u)) (handleConnected (L := RefLib) rs RInjected) tt.

(** The clock of an expired session, and a Secret that makes a client. *)
Definition late_or_other (e : event OpΣ) : bool :=
  match e with
  | Ev Now now => 50 <? now
  | Ev (GetSecret _) got => match got with
                            | Ok s => match NewRancherHTTPClient accept_pem s with Ok _ => true | Err _ => false end
                            | Err _ => false
                            end
  | _ => true
  end.

Lemma expired_session_disconnects_witness :
  cluster_deleted "c-1" (session_trace rs_expired) /\ (session_run rs_expired).1.1 = Some (done_result, None).
Proof.
  assert (forallb late_or_other (session_trace rs_expired) = true) as Hok by (vm_compute; reflexivity).
  rewrite forallb_forall in Hok.
  destruct (expired_session_disconnects (L := RefLib) (LS := RefLibSpec) accept_pem session_rec session_key rs_expired 50
    (session_trace rs_expired) (session_run rs_expired).1.1) as (Hc & _ & Ho & _).
  - apply session_exec.
  - reflexivity.
  - left.
  - reflexivity.
  - reflexivity.
  - intros (got & Hin%list_elem_of_In & Hgot). apply Hok in Hin. simpl in Hin. destruct got as [s|]; [|discriminate].
    destruct Hgot as [e He]. rewrite He in Hin. discriminate.
  - reflexivity.
  - intros now Hin%list_elem_of_In. apply Hok in Hin. simpl in Hin. lia.
  - vm_compute. reflexivity.
  - split; [exact Hc|exact Ho].
Defined.

Lemma connected_session_requeues_witness :
  exists now tr0, (connected_run rs_up).1.2 = tr0 ++ [E Now now]
    /\ (queued_again (requeue_after 400) = true <-> now < 500).
Proof.
  destruct (connected_session_requeues (L := RefLib) rs_up RInjected 500 (connected_run rs_up).1.2
    (requeue_after 400)) as (now & tr0 & Htr & Hq & _).
  - assert (Some (requeue_after 400, None) = (connected_run rs_up).1.1) as -> by (vm_compute; reflexivity).
    exact (run_exec (Σ := OpΣ) (fun c u => (rancher_world good_secret rs_up c, u)) _ tt).
  - reflexivity.
  - vm_compute. reflexivity.
  - exists now, tr0. split; [exact Htr|exact Hq].
Defined.

(** A session being deleted whose Secret lost its token: the reconcile panics. *)
Lemma reconcile_panics_iff_witness :
  exec session_prog
    [E (GetRancherSession session_key) (Ok rs_deleted);
     E (GetSecret (mkNN "edge" "rancher-credentials")) (Ok bad_secret);
     E (StatusUpdateRancherSession (rs_with_Phase rs_deleted PhaseDisconnecting)) None] None.
Proof.
  apply (reconcile_panics_iff (L := RefLib) (LS := RefLibSpec) accept_pem session_rec session_key).
  eexists rs_deleted, bad_secret, _.
  split; [reflexivity|]. split; [left|]. split; [discriminate|]. split; [reflexivity|].
  split; [vm_compute; reflexivity|]. reflexivity.
Defined.
