(* ===== verification/SessionWait.v ===== *)
(** * SessionWait: waiting for the Rancher agent ends

    A session whose manifest was applied is polled until its agent is available or its
    deadline has passed.  The queue runs the polls at least the poll interval apart; the
    number of polls that leave the session waiting is then bounded. *)

From Stdlib Require Import ZArith Lia.
From stdpp Require Import base list strings gmap.
From S2P Require Import Prelude Effects GoLib K8s ApiTypes HealthScore Clients Operator.
From S2P Require Import RancherSession RancherSessionProofs RancherSessionExamples.

Local Open Scope Z_scope.
Local Open Scope prog_scope.

Section Wait.
Context `{L : K8sLib} {LS : K8sLibSpec L} (pem_ok : string -> bool).

(** A live session that waits for its agent until [t]. *)
Record waiting (rs : RancherSession) (t : Z) : Prop := {
  w_live : deleting (rs_Meta rs) = false;
  w_finalizer : rancherFinalizer ∈ om_Finalizers (rs_Meta rs);
  w_running : rs_Suspend (rs_Spec rs) = false;
  w_phase : rs_Phase (rs_Status rs) = PhaseConnecting;
  w_applied : ManifestApplied (rs_Status rs) = true;
  w_deadline : ExpiresAt (rs_Status rs) = Some t;
}.

(** What one poll does. *)
Lemma poll_cases r rs t tr out :
  waiting rs t -> exec (reconcile_session pem_ok r rs) tr out ->
  (exists rs' e, E (StatusUpdateRancherSession rs') e ∈ tr /\ rs_Phase (rs_Status rs') <> PhaseConnecting)
  \/ (exists now, E Now now ∈ tr /\ (forall now', E Now now' ∈ tr -> now' = now) /\ now <= t /\ none is_session_write tr
        /\ (out = Some (requeue_after agentPollInterval, None) \/ exists e, out = Some (done_result, Some e))).
Proof.
  intros [Hd Hf Hs Hp Ha Ht] He. unfold reconcile_session in He. fold (deleting (rs_Meta rs)) in He.
  rewrite Hd, AddFinalizer_spec, ContainsFinalizer_spec, bool_decide_eq_true_2, Hs in He by done.
  exec_split He. destruct a as [rc|rc e].
  2:{ left. unfold setFailed, do_call, or_return, return_ in He.
      exec_steps He; (eexists _, _; split; [apply elem_of_app; right; left|done]). }
  assert (none is_session_write tr0 /\ forall now, E Now now ∉ tr0) as [Hn0 Hno].
  { unfold rancherClient, do_call in He0. exec_steps He0; (split; [done|]); intros now Hin;
      try (by apply not_elem_of_nil in Hin); by apply list_elem_of_singleton, (f_equal ev_op) in Hin. }
  unfold by_phase in He. rewrite Hp, Ha in He. rewrite decide_False, decide_True in He by done.
  unfold pollAgentReady, expired, do_call in He. rewrite Ht in He. exec_step He. rename r0 into now.
  destruct (After now t) eqn:Haft.
  { left. unfold setFailed, do_call, or_return, return_ in He.
    exec_steps He; (eexists _, _; split; [apply elem_of_app; right; right; left|done]). }
  unfold After in Haft. apply Z.ltb_ge in Haft. unfold poll_deployment, do_call in He. exec_step He.
  set (read := @Ev OpΣ (GetDeployment (mkNN cattleSystemNamespace cattleAgentDeployment)) r0).
  assert (none is_session_write (tr0 ++ [@Ev OpΣ Now now; read])) as Hq1 by by apply none_app.
  assert (E Now now ∈ tr0 ++ [@Ev OpΣ Now now; read]) as Hq2 by (apply elem_of_app; right; left).
  assert (forall now', E Now now' ∈ tr0 ++ [@Ev OpΣ Now now; read] -> now' = now) as Huniq.
  { intros now' Hin. apply elem_of_app in Hin as [Hin|Hin]; [by destruct (Hno now')|].
    apply elem_of_cons in Hin as [Hin|Hin]; [by apply E_inj in Hin|].
    apply list_elem_of_singleton in Hin. by apply (f_equal ev_op) in Hin. }
  unfold read in *. clear read. destruct r0 as [dep|e].
  - destruct (dep_AvailableReplicas dep =? 0).
    + right. exists now. unfold return_ in He. exec_steps He. by split_and!; auto.
    + left. exec_step He. exec_step He. eexists _, _. split; [apply elem_of_app; right; do 3 right; left|done].
  - right. exists now. destruct (IsNotFound e); unfold return_ in He; exec_steps He; split_and!; eauto.
Qed.

(** Polls of one waiting session that decide nothing, with their clock readings. *)
Inductive idle_polls (r : RancherSessionReconciler) (key : NamespacedName) (rs : RancherSession) : list Z -> Prop :=
| idle_nil : idle_polls r key rs []
| idle_cons now nows tr out :
    exec (RancherSession_Reconcile pem_ok r key) (E (GetRancherSession key) (Ok rs) :: tr) out ->
    none is_session_write tr -> E Now now ∈ tr ->
    (forall next, head nows = Some next -> now + agentPollInterval <= next) ->
    idle_polls r key rs nows -> idle_polls r key rs (now :: nows).

Lemma idle_bound r key rs t now nows :
  waiting rs t -> idle_polls r key rs (now :: nows) -> Z.of_nat (length nows) * agentPollInterval <= t - now.
Proof.
  intros Hw. revert now. induction nows as [|next nows IH]; intros now Hi;
    inversion Hi as [|? ? tr out He Hn Hin Hnext Hi']; subst; apply session_read in He;
    destruct (poll_cases _ _ _ _ _ Hw He) as [(rs' & e & Hin' & _)|(now' & _ & Huniq & Hle & _)];
    try (by pose proof (none_elem _ _ _ Hn Hin')); apply Huniq in Hin as ->.
  - simpl. lia.
  - specialize (IH _ Hi'). specialize (Hnext next eq_refl). simpl length. lia.
Qed.

(** C32: waiting for the agent ends: a poll of a waiting session that writes no status asks to be
    run again; polls at least the interval apart that start after the manifest was applied can
    leave the session waiting at most 25 times; and any poll that reads a clock after the
    deadline writes a status that ends the waiting. *)
Theorem agent_wait_ends r key rs t :
  waiting rs t ->
  (forall tr out, exec (RancherSession_Reconcile pem_ok r key) (E (GetRancherSession key) (Ok rs) :: tr) out ->
     none is_session_write tr ->
     out = Some (requeue_after agentPollInterval, None) \/ exists e, out = Some (done_result, Some e))
  /\ (forall now nows, idle_polls r key rs (now :: nows) -> t - agentReadyTimeout <= now ->
       (length (now :: nows) <= 25)%nat)
  /\ (forall tr out now, exec (RancherSession_Reconcile pem_ok r key) (E (GetRancherSession key) (Ok rs) :: tr) out ->
       E Now now ∈ tr -> t < now ->
       exists rs' e, E (StatusUpdateRancherSession rs') e ∈ tr /\ rs_Phase (rs_Status rs') <> PhaseConnecting).
Proof.
  intros Hw. split; [|split].
  - intros tr out He Hn. apply session_read in He.
    destruct (poll_cases _ _ _ _ _ Hw He) as [(rs' & e & Hin & _)|(now & _ & _ & _ & _ & Hout)]; [|done].
    by pose proof (none_elem _ _ _ Hn Hin).
  - intros now nows Hi Hstart. apply (idle_bound _ _ _ _ _ _ Hw) in Hi. simpl.
    unfold agentPollInterval, agentReadyTimeout, Second in *. lia.
  - intros tr out now He Hin Hlt. apply session_read in He.
    destruct (poll_cases _ _ _ _ _ Hw He) as [Hdone|(now' & _ & Huniq & Hle & _)]; [done|].
    apply Huniq in Hin. lia.
Qed.

End Wait.

(** ** A session whose agent does not come up *)

(** No replica of the agent is available. *)
Definition starting_world (now : Z) (c : op_call) : op_ans c :=
  match c with
  | Now => now
  | GetDeployment k => Ok (mkDeployment (nn_Name k) (nn_Namespace k) None 0)
  | c => rancher_world good_secret rs_polling c
  end.

Definition starting_run (now : Z) : option outcome * trace * unit :=
  run (Σ := OpΣ) (fun c u => (starting_world now c, u)) session_prog tt.

Lemma starting_exec now :
  exec session_prog (E (GetRancherSession session_key) (Ok rs_polling) :: tail (starting_run now).1.2) (starting_run now).1.1.
Proof. exact (run_exec_head (Σ := OpΣ) (fun c u => (starting_world now c, u)) _ _ tt). Qed.

Lemma agent_wait_ends_witness :
  (starting_run 100).1.1 = Some (requeue_after agentPollInterval, None)
  /\ idle_polls (L := RefLib) accept_pem session_rec session_key rs_polling [-5 * Second; 100]
  /\ exists rs' e, E (StatusUpdateRancherSession rs') e ∈ tail (starting_run 501).1.2 /\ rs_Phase (rs_Status rs') <> PhaseConnecting.
Proof.
  assert (waiting rs_polling 500) as Hw by (split; try reflexivity; left).
  destruct (agent_wait_ends (L := RefLib) (LS := RefLibSpec) accept_pem session_rec session_key rs_polling 500 Hw)
    as (Hask & _ & Hend).
  split.
  - destruct (Hask _ _ (starting_exec 100)) as [H|[e H]]; [vm_compute; reflexivity|exact H|].
    vm_compute in H. discriminate H.
  - split.
    + refine (idle_cons _ _ _ _ (-5 * Second) _ _ _ (starting_exec (-5 * Second)) _ _ _ _); [vm_compute; reflexivity| | |].
      * apply (list_elem_of_lookup_2 _ 1). vm_compute. reflexivity.
      * intros next [= <-]. vm_compute. discriminate.
      * refine (idle_cons _ _ _ _ 100 _ _ _ (starting_exec 100) _ _ _ _); [vm_compute; reflexivity| | |apply idle_nil].
        -- apply (list_elem_of_lookup_2 _ 1). vm_compute. reflexivity.
        -- intros next [=].
    + apply (Hend _ _ 501 (starting_exec 501)); [|lia].
      apply (list_elem_of_lookup_2 _ 1). vm_compute. reflexivity.
Defined.
