(* ===== verification/Trigger.v ===== *)
(** * Trigger: internal/trigger/server.go

    The HTTP server through which edge workflows open and close Rancher sessions.
    A request is its method and the outcome of decoding its body; a response is a
    status code and a text, the ones http.Error or WriteHeader send. *)

From Stdlib Require Import ZArith Lia.
From stdpp Require Import base list strings gmap.
From S2P Require Import Prelude Effects GoLib K8s ApiTypes HealthScore Clients Operator.

Local Open Scope Z_scope.
Local Open Scope prog_scope.

Record rancherRequest := mkRequest { Action : string; req_TTLSeconds : Z }.

(** The fields of http.Request the handler reads; the body as the JSON decoder reads it. *)
Record http_request := mkHTTPRequest { Method : string; Body : result rancherRequest }.

Record response := mkResponse { Status : Z; Text : string }.

Definition StatusAccepted : Z := 202.
Definition StatusBadRequest : Z := 400.
Definition StatusNotFound : Z := 404.
Definition StatusMethodNotAllowed : Z := 405.
Definition StatusConflict : Z := 409.
Definition StatusInternalServerError : Z := 500.

(** The server's namespace; its client is the environment. *)
Record Server := mkServer { srv_Namespace : string }.

Definition losantSyncName : oprog (result string) :=
  let* got := do_call ListLosantSyncs in
  match got with
  | Err e => Ret (Err (wrapf "list LosantSync: " e ""))
  | Ok [] => Ret (Err (Errorf "no LosantSync CR found"))
  | Ok (ls :: _) => Ret (Ok (om_Name (ls_Meta ls)))
  end.

(** The RancherSession a connect request creates. *)
Definition new_session (s : Server) (name : string) (ttlSeconds : Z) : RancherSession :=
  let ttl := if ttlSeconds <=? 0 then 3600 else ttlSeconds in
  mkRancherSession (mkMeta name (srv_Namespace s) 0 None [])
    (mkRSSpec (mkSecretRef "rancher-credentials" (srv_Namespace s)) "" ttl false)
    (mkRSStatus "" "" false None None [] "").

Definition trigger_handleConnect (s : Server) (name : string) (ttlSeconds : Z) : oprog response :=
  let* err := do_call (CreateRancherSession (new_session s name ttlSeconds)) in
  match err with
  | Some e =>
      if IsAlreadyExists e then Ret (mkResponse StatusConflict "RancherSession already exists")
      else Ret (mkResponse StatusInternalServerError "failed to create session")
  | None => Ret (mkResponse StatusAccepted "")
  end.

Definition trigger_handleDisconnect (s : Server) (name : string) : oprog response :=
  let* got := do_call (GetRancherSession (mkNN (srv_Namespace s) name)) in
  match got with
  | Err e =>
      if IsNotFound e then Ret (mkResponse StatusNotFound "RancherSession not found")
      else Ret (mkResponse StatusInternalServerError "failed to look up session")
  | Ok rs =>
      let* err := do_call (DeleteRancherSession rs) in
      match err with
      | Some e =>
          if IsNotFound e then Ret (mkResponse StatusNotFound "RancherSession not found")
          else Ret (mkResponse StatusInternalServerError "failed to delete session")
      | None => Ret (mkResponse StatusAccepted "")
      end
  end.

Definition handleRancher (s : Server) (r : http_request) : oprog response :=
  if decide (Method r <> "POST") then Ret (mkResponse StatusMethodNotAllowed "method not allowed")
  else
    match Body r with
    | Err _ => Ret (mkResponse StatusBadRequest "invalid request body")
    | Ok req =>
        let* lsName := losantSyncName in
        match lsName with
        | Err _ => Ret (mkResponse StatusInternalServerError "internal error: could not determine session name")
        | Ok lsName =>
            if decide (Action req = "connect") then trigger_handleConnect s lsName (req_TTLSeconds req)
            else if decide (Action req = "disconnect") then trigger_handleDisconnect s lsName
            else Ret (mkResponse StatusBadRequest
                        ("unknown action " +:+ Quote (Action req) +:+ "; expected connect or disconnect"))
        end
    end.

(** ** Theorems *)

(** What the server may write: one session, created with a positive time to live or deleted as read. *)
Definition trigger_guard (s : Server) (r : http_request) (h : trace) (c : op_call) : Prop :=
  match c with
  | CreateRancherSession rs => exists ls rest req, Body r = Ok req /\ Action req = "connect"
      /\ h = [E ListLosantSyncs (Ok (ls :: rest))]
      /\ rs = new_session s (om_Name (ls_Meta ls)) (req_TTLSeconds req)
  | DeleteRancherSession rs => exists ls rest req, Body r = Ok req /\ Action req = "disconnect"
      /\ h = [E ListLosantSyncs (Ok (ls :: rest));
              E (GetRancherSession (mkNN (srv_Namespace s) (om_Name (ls_Meta ls)))) (Ok rs)]
  | ListLosantSyncs | GetRancherSession _ => True
  | _ => False
  end.

Lemma handleRancher_guarded s r : guarded (trigger_guard s r) [] (handleRancher s r).
Proof.
  unfold handleRancher, losantSyncName, do_call. destruct (decide _); [done|]. destruct (Body r) as [req|] eqn:Hb; [|done].
  cbn [bind call]. split; [done|]. intros [[|ls rest]|e]; [done| |done]. cbn [bind].
  destruct (decide (Action req = "connect")).
  - unfold trigger_handleConnect, do_call. split; [|intros [e0|]; [|done]; simpl; destruct (IsAlreadyExists e0); exact I].
    by exists ls, rest, req.
  - destruct (decide (Action req = "disconnect")); [|done].
    unfold trigger_handleDisconnect, do_call. split; [done|].
    intros [rs|e0]; [|simpl; destruct (IsNotFound e0); exact I]. split; [|intros [e1|]; [|done]; simpl; destruct (IsNotFound e1); exact I].
    by exists ls, rest, req.
Qed.

(** C40: the server touches nothing but the session it is asked for: it creates a session only on a
    connect request and deletes one only on a disconnect request, both named after the first
    LosantSync that was listed; a created session has a positive time to live; there is no other write. *)
Theorem trigger_writes s r tr out t1 c a t2 :
  exec (handleRancher s r) tr out -> tr = t1 ++ E c a :: t2 -> is_k8s_write (E c a) = true ->
  exists ls rest req, Method r = "POST" /\ Body r = Ok req /\ E ListLosantSyncs (Ok (ls :: rest)) ∈ t1
    /\ ((Action req = "connect" /\ exists rs, c = CreateRancherSession rs /\ om_Name (rs_Meta rs) = om_Name (ls_Meta ls)
          /\ om_Namespace (rs_Meta rs) = srv_Namespace s /\ 0 < TTLSeconds (rs_Spec rs))
        \/ (Action req = "disconnect" /\ exists rs, c = DeleteRancherSession rs
          /\ E (GetRancherSession (mkNN (srv_Namespace s) (om_Name (ls_Meta ls)))) (Ok rs) ∈ t1)).
Proof.
  intros He Heq Hw. pose proof (guarded_exec _ _ _ _ _ _ _ _ _ He (handleRancher_guarded s r) Heq) as Hg.
  assert (Method r = "POST") as Hm.
  { unfold handleRancher in He. destruct (decide _) as [Hne|Hp]; [|by apply dec_stable].
    exec_steps He. by destruct t1. }
  destruct c; try done; destruct Hg as (ls & rest & req & Hb & Ha & Hrest); exists ls, rest, req;
    (split; [done|]; split; [done|]).
  - destruct Hrest as [Ht1 ->]. simpl in Ht1. subst t1. split; [left|]. left. split; [done|]. eexists. split; [done|]. split; [done|].
    split; [done|]. simpl. destruct (req_TTLSeconds req <=? 0) eqn:?; lia.
  - simpl in Hrest. subst t1. split; [left|]. right. split; [done|]. eexists. split; [done|]. right. left.
Qed.

(** The status codes of the documentation, as a function of what happened. *)
Definition status_of (r : http_request) (tr : trace) : option Z :=
  if decide (Method r <> "POST") then Some StatusMethodNotAllowed
  else match Body r, tr with
       | Err _, [] => Some StatusBadRequest
       | Ok _, [Ev ListLosantSyncs (Err _ | Ok [])] => Some StatusInternalServerError
       | Ok _, [Ev ListLosantSyncs (Ok (_ :: _))] => Some StatusBadRequest
       | Ok _, [_; Ev (CreateRancherSession _) a] =>
           Some match a with
                | None => StatusAccepted
                | Some e => if IsAlreadyExists e then StatusConflict else StatusInternalServerError
                end
       | Ok _, [_; Ev (GetRancherSession _) (Err e)] =>
           Some (if IsNotFound e then StatusNotFound else StatusInternalServerError)
       | Ok _, [_; _; Ev (DeleteRancherSession _) a] =>
           Some match a with
                | None => StatusAccepted
                | Some e => if IsNotFound e then StatusNotFound else StatusInternalServerError
                end
       | _, _ => None
       end.

(** The call that does what was asked for. *)
Definition accepted (e : event OpΣ) : bool :=
  match e with
  | Ev (CreateRancherSession _) None | Ev (DeleteRancherSession _) None => true
  | _ => false
  end.

(** The status code reports what happened: 202 exactly when the session was created or deleted,
    409 when it already existed, 404 when there was none, 405 and 400 for requests that are not
    understood, 500 when the API server failed. *)
Theorem trigger_status s r tr out :
  exec (handleRancher s r) tr out ->
  status_of r tr = Some (Status out) /\ (Status out =? StatusAccepted) = existsb accepted tr.
Proof.
  unfold handleRancher, losantSyncName, trigger_handleConnect, trigger_handleDisconnect, do_call, status_of.
  intros He. exec_steps He; try done.
  all: try match goal with H : IsNotFound ?e = _ |- context [IsNotFound ?e] => rewrite H end.
  all: try match goal with H : IsAlreadyExists ?e = _ |- context [IsAlreadyExists ?e] => rewrite H end.
  all: done.
Qed.

(** ** Concrete requests *)

Definition trigger_ls : LosantSync :=
  mkLosantSync (mkMeta "c1" "" 1 None [])
    (mkLSSpec "app" (mkSecretRef "losant" "edge") "c1" "eu" "" "" "5m" (mkGEASpec "gea" 8080 "") "" []
       (mkTags "" "" "") false)
    (mkLSStatus "" [] "" None None None).

Definition trigger_env (c : op_call) : op_ans c :=
  match c with
  | ListLosantSyncs => Ok [trigger_ls]
  | CreateRancherSession _ | DeleteRancherSession _ => None
  | c => all_fail 0 c
  end.

Definition connect_request : http_request := mkHTTPRequest "POST" (Ok (mkRequest "connect" (-1))).
Definition trigger_run := run (Σ := OpΣ) (fun c u => (trigger_env c, u))
  (handleRancher (mkServer "edge") connect_request) tt.

Lemma trigger_writes_witness :
  let rs := new_session (mkServer "edge") "c1" (-1) in
  TTLSeconds (rs_Spec rs) = 3600 /\ is_k8s_write (E (CreateRancherSession rs) None) = true
  /\ exists ls rest, E ListLosantSyncs (Ok (ls :: rest)) ∈ [E ListLosantSyncs (Ok [trigger_ls])].
Proof.
  intros rs.
  destruct (trigger_writes (mkServer "edge") connect_request trigger_run.1.2 trigger_run.1.1
    [E ListLosantSyncs (Ok [trigger_ls])] (CreateRancherSession rs) None [])
    as (ls & rest & req & _ & _ & Hin & _).
  - exact (run_exec (Σ := OpΣ) (fun c u => (trigger_env c, u)) _ tt).
  - reflexivity.
  - reflexivity.
  - split; [reflexivity|]. split; [reflexivity|]. exists ls, rest. exact Hin.
Defined.

Lemma trigger_status_witness : Status trigger_run.1.1 = 202 /\ existsb accepted trigger_run.1.2 = true.
Proof.
  destruct (trigger_status (mkServer "edge") connect_request trigger_run.1.2 trigger_run.1.1) as [_ H].
  - exact (run_exec (Σ := OpΣ) (fun c u => (trigger_env c, u)) _ tt).
  - split; [reflexivity|]. rewrite <- H. reflexivity.
Defined.
