(* ===== verification/TriggerStart.v ===== *)
(** * TriggerStart: the life of the trigger server (internal/trigger/server.go, Start)

    Start runs the listener in a goroutine of its own and waits for the end of its
    context or for an error of the listener, which the goroutine sends on a channel with
    a buffer of one.  The steps of the two goroutines, of the goroutines that net/http
    runs for the open connections, of Shutdown and of the world around them interleave
    freely.

    The http.Server has no timeouts and Shutdown gets a context without a deadline, so a
    handler that waits for the rest of its request body, or for the API server, may wait
    forever: only the world moves it on.  Connections are kept alive between requests. *)

From Stdlib Require Import ZArith Lia.
From stdpp Require Import base list strings relations.
From S2P Require Import Prelude GoLib.

(** The goroutine that listens: in ListenAndServe, about to send an error, ended. *)
Inductive listener := Serving | Sending (e : error) | Exited.

(** Start itself: in its select, in Shutdown, returned. *)
Inductive starter := Selecting | ShuttingDown | Returned (err : option error).

(** An open connection: between two requests; with a request whose handler waits for the
    client or the API server; with a handler that can run to its end. *)
Inductive conn := IdleConn | Waiting | Handling.

#[export] Instance conn_eq_dec : EqDecision conn.
Proof. solve_decision. Defined.

(** [s_ctx]: the context is done; [s_shutdown]: Shutdown was called, the listener is
    closed and connections are not kept alive; [s_conns]: the open connections;
    [s_errCh]: the buffer of the channel. *)
Record server := mkState {
  s_ctx : bool;
  s_shutdown : bool;
  s_conns : list conn;
  s_errCh : option error;
  s_listener : listener;
  s_starter : starter;
}.

Definition initial : server := mkState false false [] None Serving Selecting.

Definition start_error (e : error) : error := wrapf "trigger server: " e "".

(** What the world does: the manager cancels the context; the listener fails for a reason
    other than Shutdown; clients connect while it accepts, send requests on the connections
    they have, also after the listener has failed, and go away; what a handler waits for
    comes, or fails. *)
Inductive world : server -> server -> Prop :=
| w_cancel sd cs ch l st : world (mkState false sd cs ch l st) (mkState true sd cs ch l st)
| w_fail c cs ch e st : world (mkState c false cs ch Serving st) (mkState c false cs ch (Sending e) st)
| w_connect c cs ch st :
    world (mkState c false cs ch Serving st) (mkState c false (cs ++ [IdleConn]) ch Serving st)
| w_request c sd cs1 cs2 ch l st :
    world (mkState c sd (cs1 ++ IdleConn :: cs2) ch l st) (mkState c sd (cs1 ++ Waiting :: cs2) ch l st)
| w_resume c sd cs1 cs2 ch l st :
    world (mkState c sd (cs1 ++ Waiting :: cs2) ch l st) (mkState c sd (cs1 ++ Handling :: cs2) ch l st)
| w_hang_up c sd cs1 cs2 ch l st :
    world (mkState c sd (cs1 ++ IdleConn :: cs2) ch l st) (mkState c sd (cs1 ++ cs2) ch l st).

(** What the program does. *)
Inductive step : server -> server -> Prop :=
| p_finish c cs1 cs2 ch l st :                    (* a handler returns, the connection stays *)
    step (mkState c false (cs1 ++ Handling :: cs2) ch l st) (mkState c false (cs1 ++ IdleConn :: cs2) ch l st)
| p_last c cs1 cs2 ch l st :                      (* a handler returns after Shutdown was called *)
    step (mkState c true (cs1 ++ Handling :: cs2) ch l st) (mkState c true (cs1 ++ cs2) ch l st)
| p_close c cs1 cs2 ch l :                        (* Shutdown closes an idle connection *)
    step (mkState c true (cs1 ++ IdleConn :: cs2) ch l ShuttingDown) (mkState c true (cs1 ++ cs2) ch l ShuttingDown)
| p_closed c cs ch st :                           (* ListenAndServe returns ErrServerClosed *)
    step (mkState c true cs ch Serving st) (mkState c true cs ch Exited st)
| p_send c sd cs e st :                           (* errCh <- err, with room in the buffer *)
    step (mkState c sd cs None (Sending e) st) (mkState c sd cs (Some e) Exited st)
| p_done sd cs ch l :                             (* case <-ctx.Done(): Shutdown begins *)
    step (mkState true sd cs ch l Selecting) (mkState true true cs ch l ShuttingDown)
| p_shutdown c ch l :                             (* Shutdown returns once no connection is left *)
    step (mkState c true [] ch l ShuttingDown) (mkState c true [] ch l (Returned None))
| p_error c sd cs e l :                           (* case err := <-errCh *)
    step (mkState c sd cs (Some e) l Selecting) (mkState c sd cs None l (Returned (Some (start_error e)))).

Definition any_step (s s' : server) : Prop := world s s' \/ step s s'.

(** ** Invariant *)

(** One error at most is sent, so the buffer is empty when it is; Shutdown begins when
    the context is done; nil is returned when every connection is closed, an error only
    after the goroutine ended. *)
Definition inv (s : server) : Prop :=
  match s_listener s, s_errCh s with Exited, _ | _, None => True | _, Some _ => False end /\
  match s_starter s with
  | Selecting =>
      s_shutdown s = false /\ match s_listener s, s_errCh s with Exited, None => False | _, _ => True end
  | ShuttingDown => s_shutdown s = true /\ s_ctx s = true
  | Returned None => s_shutdown s = true /\ s_ctx s = true /\ s_conns s = []
  | Returned (Some _) => s_shutdown s = false /\ s_listener s = Exited
  end.

Lemma inv_initial : inv initial.
Proof. by repeat split. Qed.

Lemma no_middle {A} (l1 l2 : list A) x : l1 ++ x :: l2 <> [].
Proof. by destruct l1. Qed.

Lemma inv_step s s' : inv s -> any_step s s' -> inv s'.
Proof.
  intros [Hch Hst] [Hs|Hs]; destruct Hs; unfold inv; simpl in *;
    repeat match goal with
    | st : starter |- _ => destruct st as [| |[]]
    | l : listener |- _ => destruct l
    | ch : option error |- _ => destruct ch
    end; intuition (try congruence); by edestruct @no_middle.
Qed.

Lemma inv_reach s : rtc any_step initial s -> inv s.
Proof.
  intros Hs. pose proof inv_initial as Hi. revert Hi. induction Hs; eauto using inv_step.
Qed.

(** ** The end of the server *)

(** Start has returned, the listening goroutine has ended and no handler can run. *)
Definition finished (s : server) : Prop :=
  s_listener s = Exited /\ (exists r, s_starter s = Returned r) /\ Handling ∉ s_conns s.

(** Shutdown waits for connections whose handlers all wait for someone else. *)
Definition blocked (s : server) : Prop :=
  s_listener s = Exited /\ s_starter s = ShuttingDown /\ s_conns s <> [] /\ Forall (eq Waiting) (s_conns s).

(** The end is near: the context is done or the listener failed. *)
Definition ending (s : server) : Prop := s_ctx s = true \/ s_listener s <> Serving.

(** The number of steps that the program can still make on its own. *)
Definition weight (c : conn) : nat := match c with Waiting => 0 | IdleConn => 1 | Handling => 2 end.

Definition work (s : server) : nat :=
  sum_list_with weight (s_conns s) + (match s_listener s with Exited => 0 | _ => 1 end) +
  match s_starter s with Selecting => 2 | ShuttingDown => 1 | Returned _ => 0 end.

Lemma step_work s s' : step s s' -> work s' < work s.
Proof. destruct 1; unfold work; simpl; rewrite ?sum_list_with_app; simpl; try destruct l; lia. Qed.

Lemma nsteps_work n s s' : nsteps step n s s' -> n + work s' <= work s.
Proof. induction 1 as [|n s1 s2 s3 H1 H2 IH]; [done|]. apply step_work in H1. lia. Qed.

Lemma weight_bound cs : sum_list_with weight cs <= 2 * length cs.
Proof. induction cs as [|[] cs IH]; simpl; lia. Qed.

Lemma still_ending s s' : step s s' -> ending s -> ending s'.
Proof. intros Hs. destruct Hs; unfold ending; simpl; intuition congruence. Qed.

(** A connection the program can move. *)
Lemma some_conn cs :
  Handling ∈ cs \/ Handling ∉ cs /\ (IdleConn ∈ cs \/ Forall (eq Waiting) cs).
Proof.
  induction cs as [|c cs IH]; [right; split; [set_solver|by right]|].
  destruct c, IH as [|[Hn [|]]]; (try by left; set_solver); right; split; set_solver.
Qed.

Lemma can_step_or_stuck s : inv s -> ending s -> finished s \/ blocked s \/ exists s', step s s'.
Proof.
  destruct s as [c sd cs ch l st]. intros [Hch Hst] Hgo. unfold ending in Hgo. simpl in *.
  destruct (some_conn cs) as [Hh|[Hh Hcs]].
  { apply list_elem_of_split in Hh as (c1 & c2 & ->). right. right. destruct sd; eauto using step. }
  destruct l as [|e|].
  - right. right. destruct st as [| |[e|]]; destruct Hst as [-> Hst]; [|eauto using step|done|eauto using step].
    destruct Hgo as [->|?]; [eauto using step|done].
  - destruct ch; [done|]. right. right. eauto using step.
  - destruct st as [| |r]; [|destruct Hst as [-> Hst]|left; split; [done|]; split; [eauto|done]].
    + destruct Hst as [-> Hst]. destruct ch as [e|]; [|done]. right. right. eauto using step.
    + destruct Hcs as [Hi|Hw].
      * apply list_elem_of_split in Hi as (c1 & c2 & ->). right. right. eauto using step.
      * destruct cs as [|c0 cs]; [right; right; eauto using step|]. right. left. by repeat split.
Qed.

Lemma stuck_no_step s : inv s -> finished s \/ blocked s -> forall s', ~ step s s'.
Proof.
  intros [Hch Hst] Hfb s' Hs.
  assert (s_listener s = Exited) as Hl by (destruct Hfb as [[? _]|[? _]]; done).
  assert (Handling ∉ s_conns s) as Hh.
  { destruct Hfb as [(_ & _ & ?)|(_ & _ & _ & Hw)]; [done|]. intros Hin. rewrite Forall_forall in Hw. by apply Hw in Hin. }
  assert (s_starter s = ShuttingDown -> s_conns s <> [] /\ IdleConn ∉ s_conns s) as Hw.
  { intros Heq. destruct Hfb as [(_ & [r Hr] & _)|(_ & _ & Hne & Hw)]; [congruence|]. split; [done|].
    intros Hin. rewrite Forall_forall in Hw. by apply Hw in Hin. }
  assert (s_starter s <> Selecting) as Hsel by (destruct Hfb as [(_ & [r ->] & _)|(_ & -> & _)]; done).
  destruct Hs; simpl in *; try done; try destruct (Hw eq_refl) as [Hne Hi]; set_solver.
Qed.

(** Steps of the program never make a handler wait. *)
Lemma step_waiting s s' : step s s' -> Waiting ∉ s_conns s -> Waiting ∉ s_conns s'.
Proof. destruct 1; simpl; set_solver. Qed.

Lemma runs_to_end n : forall s, work s <= n -> inv s -> ending s -> Waiting ∉ s_conns s ->
  exists s', rtc step s s' /\ finished s'.
Proof.
  induction n as [|n IH]; intros s Hw Hi Hgo Hnw;
    destruct (can_step_or_stuck s Hi Hgo) as [He|[(_ & _ & Hne & Hall)|[s1 Hs]]]; eauto using rtc_refl;
    try (destruct (s_conns s) as [|c cs]; [done|]; apply Forall_cons in Hall as [<- _]; set_solver).
  - apply step_work in Hs. lia.
  - destruct (IH s1) as (s' & Hr & He);
      [apply step_work in Hs; lia|by eapply inv_step; [|right]|by apply (still_ending s)|by eapply step_waiting|].
    exists s'. split; [by eapply rtc_l|done].
Qed.

(** On the way to [s] the listener failed with [e]. *)
Definition failed_with (e : error) (s : server) : Prop :=
  exists s1, rtc any_step initial s1 /\ s_listener s1 = Sending e /\ rtc any_step s1 s.

Lemma failed_step e s s' : failed_with e s -> any_step s s' -> failed_with e s'.
Proof. intros (s1 & H1 & Hl & H2) Hs. exists s1. split; [done|]. split; [done|]. by eapply rtc_r. Qed.

Lemma error_origin s :
  rtc any_step initial s ->
  (forall e, s_errCh s = Some e -> failed_with e s) /\
  (forall e, s_starter s = Returned (Some e) -> exists e0, e = start_error e0 /\ failed_with e0 s).
Proof.
  revert s. apply (rtc_ind_r (fun s => _) initial); [done|]. intros s s' Hr Hs [IH1 IH2].
  assert (forall e, failed_with e s -> failed_with e s') as Hf by eauto using failed_step.
  destruct Hs as [Hs|Hs]; destruct Hs; simpl in *; split; intros e0 He; simplify_eq; eauto.
  all: try (destruct (IH2 _ eq_refl) as (e1 & -> & ?); by eauto).
  all: apply Hf; eexists; split; [exact Hr|]; split; [done|apply rtc_refl].
Qed.

(** C33: how the trigger server stops.  However its two goroutines, the connections and the
    cancellation interleave: the goroutine that listens never blocks on the error channel; Start
    returns nil only after its context is done and every connection is closed, and an error only after
    the listener failed with it.  Once the context is done or the listener failed, the program makes
    at most two steps per open connection and three more without the world's help, and it stands
    still exactly when Start has returned, the goroutine has ended and no handler can run, or when
    Shutdown waits for connections whose handlers all wait for their client or the API server; the
    former is reached whenever no handler waits. *)
Theorem trigger_server_stops s :
  rtc any_step initial s ->
  (forall e, s_listener s = Sending e -> s_errCh s = None) /\
  (s_starter s = Returned None -> s_ctx s = true /\ s_conns s = []) /\
  (forall e, s_starter s = Returned (Some e) -> exists e0, e = start_error e0 /\ failed_with e0 s) /\
  (ending s ->
     (forall n s', nsteps step n s s' -> n <= 2 * length (s_conns s) + 3) /\
     ((forall s', ~ step s s') <-> finished s \/ blocked s) /\
     (Waiting ∉ s_conns s -> exists s', rtc step s s' /\ finished s')).
Proof.
  intros Hr. pose proof (inv_reach s Hr) as Hi. split; [|split; [|split; [by apply error_origin|]]].
  - intros e He. destruct Hi as [Hi _]. rewrite He in Hi. by destruct (s_errCh s).
  - intros He. destruct Hi as [_ Hi]. rewrite He in Hi. tauto.
  - intros Hgo. split; [|split; [|by eapply runs_to_end]].
    + intros n s' Hn. apply nsteps_work in Hn. unfold work in Hn. pose proof (weight_bound (s_conns s)).
      destruct (s_listener s), (s_starter s); lia.
    + split; [|by apply stuck_no_step]. intros Hno.
      destruct (can_step_or_stuck s Hi Hgo) as [?|[?|[s' Hs]]]; [by left|by right|by destruct (Hno s')].
Qed.

(** ** Three runs *)

(** A cancellation while the listener fails: Start returns nil, the error stays in the
    buffer and the goroutine ends. *)
Definition racing : server := mkState true false [IdleConn] None (Sending (Errorf "accept")) Selecting.

Lemma racing_reachable : rtc any_step initial racing.
Proof.
  eapply rtc_l; [left; apply w_connect|]. eapply rtc_l; [left; apply w_fail|].
  eapply rtc_l; [left; apply w_cancel|]. apply rtc_refl.
Qed.

Lemma trigger_server_stops_witness :
  ending racing /\ (exists s', rtc step racing s' /\ finished s') /\
  step racing (mkState true true [IdleConn] None (Sending (Errorf "accept")) ShuttingDown).
Proof.
  split; [left; reflexivity|]. split; [|apply p_done].
  destruct (trigger_server_stops racing racing_reachable) as (_ & _ & _ & H).
  apply H; [left; reflexivity|]. apply (bool_decide_unpack _). vm_compute. exact I.
Defined.

(** A client that never sends the rest of its request keeps Start from returning. *)
Definition stalled : server := mkState true true [Waiting] None Exited ShuttingDown.

Example stalled_client_blocks_shutdown : rtc any_step initial stalled /\ blocked stalled.
Proof.
  split; [|by repeat split; try constructor].
  eapply rtc_l; [left; apply w_connect|]. eapply rtc_l; [left; apply (w_request _ _ [] [])|].
  eapply rtc_l; [left; apply w_cancel|]. eapply rtc_l; [right; apply p_done|].
  eapply rtc_l; [right; apply p_closed|]. apply rtc_refl.
Qed.

(** After a failure of the listener Start returns without a Shutdown: a connection that was
    open goes on being served. *)
Example error_leaves_connections :
  exists e, rtc any_step initial (mkState false false [Handling] None Exited (Returned (Some e))).
Proof.
  eexists. eapply rtc_l; [left; apply w_connect|]. eapply rtc_l; [left; apply (w_fail _ _ _ (Errorf "accept"))|].
  eapply rtc_l; [right; apply p_send|]. eapply rtc_l; [right; apply p_error|].
  eapply rtc_l; [left; apply (w_request _ _ [] [])|]. eapply rtc_l; [left; apply (w_resume _ _ [] [])|]. apply rtc_refl.
Qed.
