(* ===== verification/Linearize.v ===== *)
(** * Linearize: Go objects with a mutex, under concurrent calls

    A method body is a small program ([body]) of the statements that touch the shared
    object: Lock and Unlock of its mutex, reads of its fields, writes of a field, and the
    return.  Any number of goroutines call methods of a shared object; a step of the
    machine executes one statement of one goroutine, whether or not it holds the lock, so
    a method that forgets to lock can lose an update ([unlocked_loses_update]).  A caller
    may also write through a slice that shares its array with a field of the object
    ([step_scribble]); which results do is part of the object.

    For objects whose bodies lock first, unlock last and touch no field after that
    ([disciplined]) and whose results share nothing, [reach_linear] gives every reachable
    machine a history in which the calls that have taken effect come one after the other,
    with the results of the bodies run alone and in the order of each goroutine;
    [linear_extends] shows that later steps only extend it, so calls that do not overlap
    keep their order; [can_step] is freedom from deadlock. *)

From stdpp Require Import base list gmap.
From S2P Require Import Prelude Effects.

(** ** Method bodies *)

Inductive body (S R : Type) : Type :=
| Lock (k : body S R)
| Unlock (k : body S R)
| Load (k : S -> body S R)
| Store (f : S -> S) (k : body S R)
| Return (r : R).
Arguments Lock {_ _} _.
Arguments Unlock {_ _} _.
Arguments Load {_ _} _.
Arguments Store {_ _} _ _.
Arguments Return {_ _} _.

Declare Scope body_scope.
Delimit Scope body_scope with body.
Bind Scope body_scope with body.

Notation "'mu.Lock' ; k" := (Lock k) (at level 200, k at level 200) : body_scope.
Notation "'mu.Unlock' ; k" := (Unlock k) (at level 200, k at level 200) : body_scope.
Notation "'read' m ; k" := (Load (fun m => k)) (at level 200, m name, k at level 200) : body_scope.
Notation "'write' f ; k" := (Store f k) (at level 200, f at level 9, k at level 200) : body_scope.

(** A body run alone: the fields after it, and its result. *)
Fixpoint run_alone {S R} (b : body S R) (s : S) : S * R :=
  match b with
  | Lock k | Unlock k => run_alone k s
  | Load k => run_alone (k s) s
  | Store f k => run_alone k (f s)
  | Return r => (s, r)
  end.

(** Reads and writes up to an Unlock that only the return follows. *)
Fixpoint critical {S R} (b : body S R) : Prop :=
  match b with
  | Load k => forall s, critical (k s)
  | Store _ k => critical k
  | Unlock k => match k with Return _ => True | _ => False end
  | Lock _ | Return _ => False
  end.

Definition disciplined {S R} (b : body S R) : Prop :=
  match b with Lock k => critical k | _ => False end.

(** The methods of an object, and how the holder of a result may change its fields. *)
Record object (Σ : sig) (S : Type) := mkObject {
  o_body : forall c : Σ, body S (ans c);
  o_scribble : event Σ -> S -> S -> Prop;
}.
Arguments o_body {_ _} _ _.
Arguments o_scribble {_ _} _ _ _ _.

Section Object.
Context {Σ : sig} {S : Type} (O : object Σ S).

Definition o_next (c : Σ) (s : S) : S := (run_alone (o_body O c) s).1.
Definition o_reply (c : Σ) (s : S) : ans c := (run_alone (o_body O c) s).2.

(** A sequence of calls with the replies of the object, one after the other. *)
Inductive sequential : S -> list (nat * event Σ) -> S -> Prop :=
| seq_nil s : sequential s [] s
| seq_snoc s l s' t (c : Σ) :
    sequential s l s' -> sequential s (l ++ [(t, Ev c (o_reply c s'))]) (o_next c s').

(** ** Goroutines *)

(** Where a goroutine stands: outside the object, or before the rest of a body. *)
Inductive pc :=
| Outside
| Running (c : Σ) (rest : body S (ans c)).

(** A goroutine: where it stands, the calls it still has to make, those that returned. *)
Record thread := mkThread { th_pc : pc; th_todo : list Σ; th_done : list (event Σ) }.

Record machine := mkMachine { owner : option nat; fields : S; threads : gmap nat thread }.

Definition set_thread (m : machine) (o : option nat) (f : S) (t : nat) (th : thread) : machine :=
  mkMachine o f (<[t := th]> (threads m)).

Inductive mstep (m : machine) : machine -> Prop :=
| step_call t c todo rets :
    threads m !! t = Some (mkThread Outside (c :: todo) rets) ->
    mstep m (set_thread m (owner m) (fields m) t (mkThread (Running c (o_body O c)) todo rets))
| step_lock t c k todo rets :
    owner m = None -> threads m !! t = Some (mkThread (Running c (Lock k)) todo rets) ->
    mstep m (set_thread m (Some t) (fields m) t (mkThread (Running c k) todo rets))
| step_unlock t c k todo rets :
    owner m <> None -> threads m !! t = Some (mkThread (Running c (Unlock k)) todo rets) ->
    mstep m (set_thread m None (fields m) t (mkThread (Running c k) todo rets))
| step_load t c k todo rets :
    threads m !! t = Some (mkThread (Running c (Load k)) todo rets) ->
    mstep m (set_thread m (owner m) (fields m) t (mkThread (Running c (k (fields m))) todo rets))
| step_store t c f k todo rets :
    threads m !! t = Some (mkThread (Running c (Store f k)) todo rets) ->
    mstep m (set_thread m (owner m) (f (fields m)) t (mkThread (Running c k) todo rets))
| step_return t c r todo rets :
    threads m !! t = Some (mkThread (Running c (Return r)) todo rets) ->
    mstep m (set_thread m (owner m) (fields m) t (mkThread Outside todo (rets ++ [Ev c r])))
| step_scribble t th e s' :
    threads m !! t = Some th -> e ∈ th_done th -> o_scribble O e (fields m) s' ->
    mstep m (mkMachine (owner m) s' (threads m)).

(** A machine before its first step: no goroutine has made a call. *)
Definition start (s : S) (progs : gmap nat (list Σ)) : machine :=
  mkMachine None s ((fun todo => mkThread Outside todo []) <$> progs).

(** The call in progress that has taken effect, or not yet. *)
Definition decided (p : pc) : list (event Σ) :=
  match p with Running c (Return r) => [Ev c r] | _ => [] end.
Definition undecided (p : pc) : list Σ :=
  match p with Outside => [] | Running c b => match b with Return _ => [] | _ => [c] end end.

(** The calls that have taken effect, and all the calls of a goroutine in order. *)
Definition effective (th : thread) : list (event Σ) := th_done th ++ decided (th_pc th).
Definition program (th : thread) : list Σ :=
  map ev_op (effective th) ++ undecided (th_pc th) ++ th_todo th.

Definition finished (m : machine) : Prop :=
  forall t th, threads m !! t = Some th -> th_pc th = Outside /\ th_todo th = [].

(** The part of a history that belongs to a goroutine. *)
Definition of_thread (t : nat) (l : list (nat * event Σ)) : list (event Σ) :=
  snd <$> filter (fun x => fst x = t) l.

(** [l] orders the calls that have taken effect in [m] and leads to the fields [s], which are those
    of [m] whenever the lock is free. *)
Record linearization (s0 : S) (progs : gmap nat (list Σ)) (m : machine) (l : list (nat * event Σ)) (s : S) : Prop := {
  lin_seq : sequential s0 l s;
  lin_threads : forall t, of_thread t l = default [] (effective <$> threads m !! t);
  lin_progs : forall t, program <$> threads m !! t = progs !! t;
  lin_fields : owner m = None -> fields m = s;
}.

(** Between Lock and Unlock. *)
Definition inside (p : pc) : bool :=
  match p with
  | Outside => false
  | Running _ b => match b with Load _ | Store _ _ | Unlock _ => true | Lock _ | Return _ => false end
  end.

(** A goroutine is before the lock of its body, in its critical section, or done. *)
Definition shape (p : pc) : Prop :=
  match p with
  | Outside => True
  | Running c b => match b with Lock k => o_body O c = b | Return _ => True | _ => critical b end
  end.

(** The rest of the body, run on the fields as they are, ends as the whole would have on [s]. *)
Definition on_track (f s : S) (p : pc) : Prop :=
  match p with
  | Outside => True
  | Running c b => inside p = true -> run_alone b f = run_alone (o_body O c) s
  end.

(** The lock is held by the one goroutine inside, whose work so far is invisible. *)
Record exclusive (m : machine) (s : S) : Prop := {
  ex_owner : forall t th, threads m !! t = Some th -> (inside (th_pc th) = true <-> owner m = Some t);
  ex_held : forall t, owner m = Some t -> is_Some (threads m !! t);
  ex_shape : forall t th, threads m !! t = Some th -> shape (th_pc th);
  ex_track : forall t th, threads m !! t = Some th -> on_track (fields m) s (th_pc th);
}.

(** ** Proofs *)

Hypothesis Hdisc : forall c, disciplined (o_body O c).
Hypothesis Hfresh : forall c s s1 s2, ~ o_scribble O (Ev c (o_reply c s)) s1 s2.

Lemma of_thread_snoc t l x :
  of_thread t (l ++ [x]) = of_thread t l ++ (if decide (fst x = t) then [snd x] else []).
Proof.
  unfold of_thread. rewrite filter_app, fmap_app. f_equal. rewrite filter_cons. by destruct (decide _).
Qed.

Lemma of_thread_in t l e : e ∈ of_thread t l -> (t, e) ∈ l.
Proof.
  unfold of_thread. intros ([t' e'] & -> & Hin)%list_elem_of_fmap. apply list_elem_of_filter in Hin as [Heq Hin].
  simpl in *. by subst t'.
Qed.

(** The events of a sequential history are replies of the object. *)
Lemma sequential_replies s0 l s t e : sequential s0 l s -> (t, e) ∈ l -> exists c s', e = Ev c (o_reply c s').
Proof.
  induction 1 as [|s0 l s' t' c Hs IH]; intros Hin; [by apply not_elem_of_nil in Hin|].
  apply elem_of_app in Hin as [Hin|Hin]; [auto|]. apply list_elem_of_singleton in Hin. simplify_eq. eauto.
Qed.

Ltac at_thread t t' := destruct (decide (t = t')) as [->|?];
  [rewrite ?lookup_insert_eq in *|rewrite ?lookup_insert_ne in * by done]; simplify_eq/=.

Lemma start_linear s progs : linearization s progs (start s progs) [] s.
Proof.
  split; [constructor|..]; try done; intros t; simpl; rewrite lookup_fmap; by destruct (progs !! t).
Qed.

Lemma start_exclusive s progs : exclusive (start s progs) s.
Proof.
  split; simpl; [|done|..]; intros t th; rewrite lookup_fmap; destruct (progs !! t); naive_solver.
Qed.

(** One goroutine moves: it may change the fields only while it holds the lock. *)
Lemma exclusive_set m s t th o f th' s' :
  exclusive m s -> threads m !! t = Some th ->
  (inside (th_pc th') = true <-> o = Some t) -> shape (th_pc th') -> on_track f s' (th_pc th') ->
  (forall t', t' <> t -> o = Some t' <-> owner m = Some t') ->
  (f = fields m /\ s' = s \/ owner m = Some t) ->
  exclusive (set_thread m o f t th') s'.
Proof.
  intros [Ho Hh Hsh Htr] Ht Hin Hshape Htrack Hother Hf. split; simpl.
  - intros t' th1 H1. at_thread t' t; [done|]. rewrite (Ho _ _ H1). by symmetry; apply Hother.
  - intros t' H1. at_thread t' t; [eauto|]. apply Hh. by apply Hother.
  - intros t' th1 H1. at_thread t' t; [done|]. by eapply Hsh.
  - intros t' th1 H1. at_thread t' t; [done|]. destruct Hf as [[-> ->]|Hf]; [by eapply Htr|].
    pose proof (proj1 (Ho _ _ H1)) as H2. unfold on_track. destruct (th_pc th1); [done|].
    intros H3. specialize (H2 H3). congruence.
Qed.

(** One goroutine moves without an effect on the object. *)
Lemma linear_silent s0 progs m l s t th o f th' :
  linearization s0 progs m l s -> threads m !! t = Some th ->
  effective th' = effective th -> program th' = program th -> (o = None -> f = s) ->
  linearization s0 progs (set_thread m o f t th') l s.
Proof.
  intros [Hs Ht Hp Hf] Hth He Hpr Hof. split; [done|..|done]; intros t'; simpl; at_thread t' t.
  - by rewrite Ht, Hth, He.
  - by apply Ht.
  - by rewrite <- Hp, Hth, Hpr.
  - by apply Hp.
Qed.

(** The unlock is the point at which a call takes effect. *)
Lemma linear_unlock s0 progs m l s t c r todo rets :
  linearization s0 progs m l s -> threads m !! t = Some (mkThread (Running c (Unlock (Return r))) todo rets) ->
  run_alone (o_body O c) s = (fields m, r) ->
  linearization s0 progs (set_thread m None (fields m) t (mkThread (Running c (Return r)) todo rets))
    (l ++ [(t, Ev c r)]) (fields m).
Proof.
  intros [Hs Ht Hp Hf] Hth Hrun. split; [|intros t'; simpl..|done].
  - pose proof (seq_snoc _ _ _ t c Hs) as H. unfold o_reply, o_next in H. rewrite Hrun in H. exact H.
  - rewrite of_thread_snoc, Ht. simpl. destruct (decide (t = t')) as [<-|Hne].
    + by rewrite Hth, lookup_insert_eq; simpl; unfold effective; simpl; rewrite app_nil_r.
    + by rewrite lookup_insert_ne, app_nil_r.
  - at_thread t' t; [|by apply Hp]. rewrite <- Hp, Hth. simpl. f_equal. unfold program, effective. simpl.
    by rewrite app_nil_r, map_app, <- !app_assoc.
Qed.

Lemma critical_inside c (b : body S (ans c)) :
  critical b -> inside (Running c b) = true /\ decided (Running c b) = [] /\ undecided (Running c b) = [c]
    /\ shape (Running c b).
Proof. by destruct b. Qed.

(** Moves within the critical section, and into it. *)
Lemma step_inside s0 progs m l s t c b b' f todo rets :
  exclusive m s -> linearization s0 progs m l s -> threads m !! t = Some (mkThread (Running c b) todo rets) ->
  decided (Running c b) = [] -> undecided (Running c b) = [c] -> critical b' ->
  run_alone b' f = run_alone (o_body O c) s ->
  (owner m = Some t \/ owner m = None /\ f = fields m) ->
  let m' := set_thread m (Some t) f t (mkThread (Running c b') todo rets) in
  exclusive m' s /\ linearization s0 progs m' l s.
Proof.
  intros He Hl Ht Hd Hu Hc Hrun Ho. destruct (critical_inside c b' Hc) as (Hin & Hd' & Hu' & Hsh). split.
  - eapply exclusive_set; [exact He|exact Ht|simpl th_pc; by rewrite Hin|exact Hsh|by intros _| |].
    + intros t' Hne. split; [by intros [= ->]|]. destruct Ho as [->|[-> _]]; [by intros [= ->]|done].
    + destruct Ho as [?|[_ ->]]; [by right|by left].
  - eapply linear_silent; [exact Hl|exact Ht|..|done]; unfold program, effective; simpl th_pc; simpl th_done; simpl th_todo;
      by rewrite ?Hd, ?Hd', ?Hu, ?Hu'.
Qed.

Lemma linear_step s0 progs m m' l s :
  exclusive m s -> linearization s0 progs m l s -> mstep m m' ->
  exists k s', exclusive m' s' /\ linearization s0 progs m' (l ++ k) s'.
Proof.
  intros He Hl Hs.
  inversion Hs as [t c todo rets Ht|t c k todo rets Hn Ht|t c k todo rets Hn Ht|t c k todo rets Ht
                  |t c f k todo rets Ht|t c r todo rets Ht|t th e s' Ht Hin Hsc]; subst.
  7:{ exfalso. assert (e ∈ of_thread t l) as Hin'
        by (rewrite (lin_threads _ _ _ _ _ Hl), Ht; simpl; unfold effective; set_solver).
      apply of_thread_in in Hin'. destruct (sequential_replies _ _ _ _ _ (lin_seq _ _ _ _ _ Hl) Hin') as (c & s1 & ->).
      by eapply Hfresh. }
  all: pose proof (ex_owner _ _ He _ _ Ht) as Hown; pose proof (ex_shape _ _ He _ _ Ht) as Hsh;
    pose proof (ex_track _ _ He _ _ Ht) as Htr; simpl in Hown, Hsh, Htr.
  - exists [], s. rewrite app_nil_r. pose proof (Hdisc c) as Hd. destruct (o_body O c) as [k| | | |] eqn:Hb; [|done..]. split.
    + eapply exclusive_set; [exact He|exact Ht|..]; simpl; [exact Hown|exact Hb|done|done|by left].
    + eapply linear_silent; [exact Hl|exact Ht|..]; [done|done|]. apply (lin_fields _ _ _ _ _ Hl).
  - exists [], s. rewrite app_nil_r. pose proof (Hdisc c) as Hd. rewrite Hsh in Hd.
    eapply step_inside; [exact He|exact Hl|exact Ht|done|done|exact Hd| |by right].
    by rewrite Hsh, (lin_fields _ _ _ _ _ Hl Hn).
  - destruct k as [| | | |r]; try done. specialize (Htr eq_refl). simpl in Htr.
    exists [(t, Ev c r)], (fields m). split; [|by eapply linear_unlock].
    assert (owner m = Some t) as Hot by by apply Hown.
    eapply exclusive_set; [exact He|exact Ht|..]; simpl; [done|done|done| |by right].
    intros t' Hne. rewrite Hot. split; [done|]. intros [= ->]. done.
  - exists [], s. rewrite app_nil_r. assert (owner m = Some t) as Hot by by apply Hown. rewrite Hot.
    eapply step_inside; [exact He|exact Hl|exact Ht|done|done|apply Hsh|by apply Htr|by left].
  - exists [], s. rewrite app_nil_r. assert (owner m = Some t) as Hot by by apply Hown. rewrite Hot.
    eapply step_inside; [exact He|exact Hl|exact Ht|done|done|exact Hsh|by apply Htr|by left].
  - exists [], s. rewrite app_nil_r. split.
    + eapply exclusive_set; [exact He|exact Ht|..]; simpl; [exact Hown|done|done|done|by left].
    + eapply linear_silent; [exact Hl|exact Ht|..]; unfold program, effective; simpl;
        [by rewrite app_nil_r|by rewrite app_nil_r|apply (lin_fields _ _ _ _ _ Hl)].
Qed.

(** Later steps extend the history. *)
Lemma linear_extends s0 progs m m' l s :
  exclusive m s -> linearization s0 progs m l s -> rtc mstep m m' ->
  exists k s', exclusive m' s' /\ linearization s0 progs m' (l ++ k) s'.
Proof.
  intros He Hl Hs. revert l s He Hl. induction Hs as [m|m m1 m2 H1 Hs IH]; intros l s He Hl;
    [exists [], s; by rewrite app_nil_r|].
  destruct (linear_step _ _ _ _ _ _ He Hl H1) as (k1 & s1 & He1 & Hk1).
  destruct (IH _ _ He1 Hk1) as (k2 & s2 & He2 & Hk2).
  exists (k1 ++ k2), s2. by rewrite app_assoc.
Qed.

Lemma reach_linear s0 progs m :
  rtc mstep (start s0 progs) m -> exists l s, exclusive m s /\ linearization s0 progs m l s.
Proof.
  intros Hs. destruct (linear_extends _ _ _ _ _ _ (start_exclusive s0 progs) (start_linear s0 progs) Hs) as (k & s & H).
  eauto.
Qed.

Definition idle (th : thread) : bool :=
  match th with mkThread Outside [] _ => true | _ => false end.

(** A machine with calls left can make a step. *)
Lemma can_step m s : exclusive m s -> finished m \/ exists m', mstep m m'.
Proof.
  intros He. destruct (owner m) as [t|] eqn:Ho.
  - right. destruct (ex_held _ _ He _ Ho) as [[p todo rets] Ht].
    pose proof (proj2 (ex_owner _ _ He _ _ Ht) Ho) as Hin. destruct p as [|c []]; try done; eauto using mstep.
    eexists. eapply step_unlock; [by rewrite Ho|exact Ht].
  - destruct (decide (map_Forall (fun _ th => idle th = true) (threads m))) as [Hall|Hex].
    + left. intros t th Ht. pose proof (Hall _ _ Ht) as H. destruct th as [[] []]; done.
    + right. apply map_not_Forall in Hex as (t & [p todo rets] & Ht & Hp); [|apply _].
      pose proof (proj1 (ex_owner _ _ He _ _ Ht)) as Hin. rewrite Ho in Hin.
      destruct p as [|c []]; [destruct todo; [done|]|..]; try (by specialize (Hin eq_refl)); eauto using mstep.
Qed.

(** What a sequential history preserves. *)
Lemma sequential_ind_on (I : list (nat * event Σ) -> S -> Prop) s0 l s :
  I [] s0 -> (forall l s t c, I l s -> I (l ++ [(t, Ev c (o_reply c s))]) (o_next c s)) ->
  sequential s0 l s -> I l s.
Proof. intros H0 Hs. induction 1; auto. Qed.

(** Every property that calls one after the other establish holds of concurrent ones. *)
Lemma reach_explained (I : list (nat * event Σ) -> S -> Prop) s0 progs m m' :
  I [] s0 -> (forall l s t c, I l s -> I (l ++ [(t, Ev c (o_reply c s))]) (o_next c s)) ->
  rtc mstep (start s0 progs) m -> rtc mstep m m' ->
  exists l s k s',
    linearization s0 progs m l s /\ linearization s0 progs m' (l ++ k) s' /\
    I l s /\ I (l ++ k) s' /\ (finished m \/ exists m1, mstep m m1).
Proof.
  intros HI0 HIs H1 H2. destruct (reach_linear _ _ _ H1) as (l & s & He & Hl).
  destruct (linear_extends _ _ _ _ _ _ He Hl H2) as (k & s' & _ & Hk).
  exists l, s, k, s'. split; [done|]. split; [done|].
  split; [by eapply (sequential_ind_on I s0), lin_seq|].
  split; [by eapply (sequential_ind_on I s0), lin_seq|by eapply can_step].
Qed.

(** ** A scheduler *)

(** The move of a goroutine; it stays where it is when it has none. *)
Definition move (t : nat) (m : machine) : machine :=
  match threads m !! t with
  | None => m
  | Some (mkThread p todo rets) =>
      match p with
      | Outside =>
          match todo with
          | [] => m
          | c :: todo' => set_thread m (owner m) (fields m) t (mkThread (Running c (o_body O c)) todo' rets)
          end
      | Running c b =>
          match b with
          | Lock k => match owner m with
                      | None => set_thread m (Some t) (fields m) t (mkThread (Running c k) todo rets)
                      | Some _ => m
                      end
          | Unlock k => match owner m with
                        | Some _ => set_thread m None (fields m) t (mkThread (Running c k) todo rets)
                        | None => m
                        end
          | Load k => set_thread m (owner m) (fields m) t (mkThread (Running c (k (fields m))) todo rets)
          | Store f k => set_thread m (owner m) (f (fields m)) t (mkThread (Running c k) todo rets)
          | Return r => set_thread m (owner m) (fields m) t (mkThread Outside todo (rets ++ [Ev c r]))
          end
      end
  end.

Definition schedule (ts : list nat) (m : machine) : machine := foldl (fun m t => move t m) m ts.

Lemma move_reach t m : rtc mstep m (move t m).
Proof.
  unfold move. destruct (threads m !! t) as [[p todo rets]|] eqn:Ht; [|done].
  destruct p as [|c b]; [destruct todo; [done|]; apply rtc_once; eauto using mstep|].
  destruct b; [destruct (owner m) eqn:Ho; [done|]|destruct (owner m) eqn:Ho; [|done]|..]; apply rtc_once; eauto using mstep.
  eapply step_unlock; [by rewrite Ho|exact Ht].
Qed.

Lemma schedule_reach ts m : rtc mstep m (schedule ts m).
Proof.
  revert m. induction ts as [|t ts IH]; intros m; [done|].
  transitivity (move t m); [apply move_reach|apply IH].
Qed.

End Object.

(** ** Slices *)

(** A slice with its elements: over an array of its own, or over the array of a field. *)
Inductive go_slice (A : Type) := Fresh (l : list A) | Shared (l : list A).
Arguments Fresh {_} _.
Arguments Shared {_} _.

Definition elems {A} (s : go_slice A) : list A := match s with Fresh l | Shared l => l end.

(** make([]A, n), and copy(out, src). *)
Definition make_slice {A} (zero : A) (n : nat) : go_slice A := Fresh (replicate n zero).
Definition copy_slice {A} (out src : go_slice A) : go_slice A :=
  let l := take (length (elems out)) (elems src) ++ drop (length (elems src)) (elems out) in
  match out with Fresh _ => Fresh l | Shared _ => Shared l end.

Lemma copy_make {A} (zero : A) (l : list A) : copy_slice (make_slice zero (length l)) (Shared l) = Fresh l.
Proof.
  unfold copy_slice, make_slice. simpl. rewrite length_replicate, firstn_all, drop_ge by (by rewrite length_replicate).
  by rewrite app_nil_r.
Qed.

(** The elements of a list after someone wrote through a slice over it. *)
Definition written_through {A} (s : go_slice A) (l l' : list A) : Prop :=
  match s with Fresh _ => False | Shared _ => length l' = length l end.

(** ** Why the lock matters

    A counter whose method reads and writes without locking: two goroutines that each
    increment it once can leave it at one. *)

Inductive counter_op := Incr.
Definition CounterΣ : sig := Sig counter_op (fun _ => unit).

Definition unlocked : object CounterΣ nat := mkObject CounterΣ nat
  (fun _ => (read n; write (fun _ => S n); Return tt)%body) (fun _ _ _ => False).

Example unlocked_loses_update :
  let m := schedule unlocked [0; 1; 0; 1; 0; 1; 0; 1] (start 0 {[0 := [Incr]; 1 := [Incr]]}) in
  fields m = 1 /\ (length ∘ th_done <$> threads m !! 0) = Some 1 /\ (length ∘ th_done <$> threads m !! 1) = Some 1.
Proof. vm_compute. done. Qed.
