(* ===== verification/MockLosant.v ===== *)
(** * MockLosant: the recording Losant client of the unit tests

    internal/losant/mock_client.go.  A method of the mock appends its arguments to a list
    and copies its handler while it holds the lock, and calls the handler, or returns the
    default, after the unlock.  Handlers are functions of their arguments; results are
    Go's: a value and an error that may be nil, whatever the value is.  Method bodies are
    the programs of [Linearize], one Load or Store for each access to a field, with the
    lock and unlock where the source has them.

    "MockClient is safe for concurrent use" is [losant_mock_linearizable]: the calls of
    any number of goroutines have an order that agrees with the order of each of them and
    with time, in which every reply is that of the sequential mock and every list holds
    the calls since the last Reset, whatever the callers do to the slices they got. *)

From Stdlib Require Import ZArith Lia.
From stdpp Require Import base list strings gmap.
From S2P Require Import Prelude Effects GoLib K8s ApiTypes HealthScore Clients Linearize.

Record EnsureClusterDeviceCall := mkEnsureClusterDeviceCall {
  ecdc_Spec : LosantSyncSpec;
}.

Record EnsureNodeDeviceCall := mkEnsureNodeDeviceCall {
  endc_Spec : LosantSyncSpec;
  endc_NodeName : string;
  endc_GatewayID : string;
}.

Record UpdateDeviceTagsCall := mkUpdateDeviceTagsCall {
  udtc_ApplicationID : string;
  udtc_DeviceID : string;
  udtc_Tags : gmap string string;
}.

Record GetDeviceCall := mkGetDeviceCall {
  gdc_ApplicationID : string;
  gdc_DeviceID : string;
}.

Record CreateDeviceAccessKeyCall := mkCreateDeviceAccessKeyCall {
  cdakc_ApplicationID : string;
  cdakc_DeviceID : string;
  cdakc_Name : string;
}.

Record PatchDeviceAttributesCall := mkPatchDeviceAttributesCall {
  pdac_ApplicationID : string;
  pdac_DeviceID : string;
  pdac_Attrs : list DeviceAttribute;
}.

Record DeleteDeviceCall := mkDeleteDeviceCall {
  ddc_ApplicationID : string;
  ddc_DeviceID : string;
}.

Record ReleaseWorkflowCall := mkReleaseWorkflowCall {
  rwc_ApplicationID : string;
  rwc_DeviceID : string;
  rwc_FlowID : string;
  rwc_Version : string;
}.

Record GetEdgeDeploymentsCall := mkGetEdgeDeploymentsCall {
  gedc_ApplicationID : string;
  gedc_DeviceID : string;
}.

Record Funcs := mkFuncs {
  PingFunc : option (option error);
  EnsureClusterDeviceFunc : option (LosantSyncSpec -> string * option error);
  EnsureNodeDeviceFunc : option (LosantSyncSpec -> string -> string -> string * option error);
  UpdateDeviceTagsFunc : option (string -> string -> gmap string string -> option error);
  GetDeviceFunc : option (string -> string -> option Device * option error);
  CreateDeviceAccessKeyFunc : option (string -> string -> string -> string * string * string * option error);
  PatchDeviceAttributesFunc : option (string -> string -> list DeviceAttribute -> option error);
  DeleteDeviceFunc : option (string -> string -> option error);
  ReleaseWorkflowFunc : option (string -> string -> string -> string -> option error);
  GetEdgeDeploymentsFunc : option (string -> string -> list EdgeDeploymentStatus * option error);
}.

Record Calls := mkCalls {
  PingCalls : list unit;
  EnsureClusterDeviceCalls : list EnsureClusterDeviceCall;
  EnsureNodeDeviceCalls : list EnsureNodeDeviceCall;
  UpdateDeviceTagsCalls : list UpdateDeviceTagsCall;
  GetDeviceCalls : list GetDeviceCall;
  CreateDeviceAccessKeyCalls : list CreateDeviceAccessKeyCall;
  PatchDeviceAttributesCalls : list PatchDeviceAttributesCall;
  DeleteDeviceCalls : list DeleteDeviceCall;
  ReleaseWorkflowCalls : list ReleaseWorkflowCall;
  GetEdgeDeploymentsCalls : list GetEdgeDeploymentsCall;
}.

Record MockClient := mkMock { funcs : Funcs; calls : Calls }.

Definition go_ans (o : losant_op) : Type :=
  match o with
  | Ping | UpdateDeviceTags _ _ _ | PatchDeviceAttributes _ _ _ | DeleteDevice _ _ | ReleaseWorkflow _ _ _ _ =>
      option error
  | EnsureClusterDevice _ | EnsureNodeDevice _ _ _ => string * option error
  | GetDevice _ _ => option Device * option error
  | CreateDeviceAccessKey _ _ _ => string * string * string * option error
  | GetEdgeDeployments _ _ => list EdgeDeploymentStatus * option error
  end.

Definition no_funcs : Funcs := mkFuncs None None None None None None None None None None.
Definition no_calls : Calls := mkCalls [] [] [] [] [] [] [] [] [] [].

Definition NewMockClient : MockClient := mkMock no_funcs no_calls.

(** ** Assignments to one field *)

Definition set_PingFunc (v : option (option error)) (m : MockClient) : MockClient :=
  let f := funcs m in
  mkMock (mkFuncs v (EnsureClusterDeviceFunc f) (EnsureNodeDeviceFunc f) (UpdateDeviceTagsFunc f) (GetDeviceFunc f) (CreateDeviceAccessKeyFunc f) (PatchDeviceAttributesFunc f) (DeleteDeviceFunc f) (ReleaseWorkflowFunc f) (GetEdgeDeploymentsFunc f)) (calls m).
Definition set_EnsureClusterDeviceFunc (v : option (LosantSyncSpec -> string * option error)) (m : MockClient) : MockClient :=
  let f := funcs m in
  mkMock (mkFuncs (PingFunc f) v (EnsureNodeDeviceFunc f) (UpdateDeviceTagsFunc f) (GetDeviceFunc f) (CreateDeviceAccessKeyFunc f) (PatchDeviceAttributesFunc f) (DeleteDeviceFunc f) (ReleaseWorkflowFunc f) (GetEdgeDeploymentsFunc f)) (calls m).
Definition set_EnsureNodeDeviceFunc (v : option (LosantSyncSpec -> string -> string -> string * option error)) (m : MockClient) : MockClient :=
  let f := funcs m in
  mkMock (mkFuncs (PingFunc f) (EnsureClusterDeviceFunc f) v (UpdateDeviceTagsFunc f) (GetDeviceFunc f) (CreateDeviceAccessKeyFunc f) (PatchDeviceAttributesFunc f) (DeleteDeviceFunc f) (ReleaseWorkflowFunc f) (GetEdgeDeploymentsFunc f)) (calls m).
Definition set_UpdateDeviceTagsFunc (v : option (string -> string -> gmap string string -> option error)) (m : MockClient) : MockClient :=
  let f := funcs m in
  mkMock (mkFuncs (PingFunc f) (EnsureClusterDeviceFunc f) (EnsureNodeDeviceFunc f) v (GetDeviceFunc f) (CreateDeviceAccessKeyFunc f) (PatchDeviceAttributesFunc f) (DeleteDeviceFunc f) (ReleaseWorkflowFunc f) (GetEdgeDeploymentsFunc f)) (calls m).
Definition set_GetDeviceFunc (v : option (string -> string -> option Device * option error)) (m : MockClient) : MockClient :=
  let f := funcs m in
  mkMock (mkFuncs (PingFunc f) (EnsureClusterDeviceFunc f) (EnsureNodeDeviceFunc f) (UpdateDeviceTagsFunc f) v (CreateDeviceAccessKeyFunc f) (PatchDeviceAttributesFunc f) (DeleteDeviceFunc f) (ReleaseWorkflowFunc f) (GetEdgeDeploymentsFunc f)) (calls m).
Definition set_CreateDeviceAccessKeyFunc (v : option (string -> string -> string -> string * string * string * option error)) (m : MockClient) : MockClient :=
  let f := funcs m in
  mkMock (mkFuncs (PingFunc f) (EnsureClusterDeviceFunc f) (EnsureNodeDeviceFunc f) (UpdateDeviceTagsFunc f) (GetDeviceFunc f) v (PatchDeviceAttributesFunc f) (DeleteDeviceFunc f) (ReleaseWorkflowFunc f) (GetEdgeDeploymentsFunc f)) (calls m).
Definition set_PatchDeviceAttributesFunc (v : option (string -> string -> list DeviceAttribute -> option error)) (m : MockClient) : MockClient :=
  let f := funcs m in
  mkMock (mkFuncs (PingFunc f) (EnsureClusterDeviceFunc f) (EnsureNodeDeviceFunc f) (UpdateDeviceTagsFunc f) (GetDeviceFunc f) (CreateDeviceAccessKeyFunc f) v (DeleteDeviceFunc f) (ReleaseWorkflowFunc f) (GetEdgeDeploymentsFunc f)) (calls m).
Definition set_DeleteDeviceFunc (v : option (string -> string -> option error)) (m : MockClient) : MockClient :=
  let f := funcs m in
  mkMock (mkFuncs (PingFunc f) (EnsureClusterDeviceFunc f) (EnsureNodeDeviceFunc f) (UpdateDeviceTagsFunc f) (GetDeviceFunc f) (CreateDeviceAccessKeyFunc f) (PatchDeviceAttributesFunc f) v (ReleaseWorkflowFunc f) (GetEdgeDeploymentsFunc f)) (calls m).
Definition set_ReleaseWorkflowFunc (v : option (string -> string -> string -> string -> option error)) (m : MockClient) : MockClient :=
  let f := funcs m in
  mkMock (mkFuncs (PingFunc f) (EnsureClusterDeviceFunc f) (EnsureNodeDeviceFunc f) (UpdateDeviceTagsFunc f) (GetDeviceFunc f) (CreateDeviceAccessKeyFunc f) (PatchDeviceAttributesFunc f) (DeleteDeviceFunc f) v (GetEdgeDeploymentsFunc f)) (calls m).
Definition set_GetEdgeDeploymentsFunc (v : option (string -> string -> list EdgeDeploymentStatus * option error)) (m : MockClient) : MockClient :=
  let f := funcs m in
  mkMock (mkFuncs (PingFunc f) (EnsureClusterDeviceFunc f) (EnsureNodeDeviceFunc f) (UpdateDeviceTagsFunc f) (GetDeviceFunc f) (CreateDeviceAccessKeyFunc f) (PatchDeviceAttributesFunc f) (DeleteDeviceFunc f) (ReleaseWorkflowFunc f) v) (calls m).
Definition set_PingCalls (v : list unit) (m : MockClient) : MockClient :=
  let c := calls m in
  mkMock (funcs m) (mkCalls v (EnsureClusterDeviceCalls c) (EnsureNodeDeviceCalls c) (UpdateDeviceTagsCalls c) (GetDeviceCalls c) (CreateDeviceAccessKeyCalls c) (PatchDeviceAttributesCalls c) (DeleteDeviceCalls c) (ReleaseWorkflowCalls c) (GetEdgeDeploymentsCalls c)).
Definition set_EnsureClusterDeviceCalls (v : list EnsureClusterDeviceCall) (m : MockClient) : MockClient :=
  let c := calls m in
  mkMock (funcs m) (mkCalls (PingCalls c) v (EnsureNodeDeviceCalls c) (UpdateDeviceTagsCalls c) (GetDeviceCalls c) (CreateDeviceAccessKeyCalls c) (PatchDeviceAttributesCalls c) (DeleteDeviceCalls c) (ReleaseWorkflowCalls c) (GetEdgeDeploymentsCalls c)).
Definition set_EnsureNodeDeviceCalls (v : list EnsureNodeDeviceCall) (m : MockClient) : MockClient :=
  let c := calls m in
  mkMock (funcs m) (mkCalls (PingCalls c) (EnsureClusterDeviceCalls c) v (UpdateDeviceTagsCalls c) (GetDeviceCalls c) (CreateDeviceAccessKeyCalls c) (PatchDeviceAttributesCalls c) (DeleteDeviceCalls c) (ReleaseWorkflowCalls c) (GetEdgeDeploymentsCalls c)).
Definition set_UpdateDeviceTagsCalls (v : list UpdateDeviceTagsCall) (m : MockClient) : MockClient :=
  let c := calls m in
  mkMock (funcs m) (mkCalls (PingCalls c) (EnsureClusterDeviceCalls c) (EnsureNodeDeviceCalls c) v (GetDeviceCalls c) (CreateDeviceAccessKeyCalls c) (PatchDeviceAttributesCalls c) (DeleteDeviceCalls c) (ReleaseWorkflowCalls c) (GetEdgeDeploymentsCalls c)).
Definition set_GetDeviceCalls (v : list GetDeviceCall) (m : MockClient) : MockClient :=
  let c := calls m in
  mkMock (funcs m) (mkCalls (PingCalls c) (EnsureClusterDeviceCalls c) (EnsureNodeDeviceCalls c) (UpdateDeviceTagsCalls c) v (CreateDeviceAccessKeyCalls c) (PatchDeviceAttributesCalls c) (DeleteDeviceCalls c) (ReleaseWorkflowCalls c) (GetEdgeDeploymentsCalls c)).
Definition set_CreateDeviceAccessKeyCalls (v : list CreateDeviceAccessKeyCall) (m : MockClient) : MockClient :=
  let c := calls m in
  mkMock (funcs m) (mkCalls (PingCalls c) (EnsureClusterDeviceCalls c) (EnsureNodeDeviceCalls c) (UpdateDeviceTagsCalls c) (GetDeviceCalls c) v (PatchDeviceAttributesCalls c) (DeleteDeviceCalls c) (ReleaseWorkflowCalls c) (GetEdgeDeploymentsCalls c)).
Definition set_PatchDeviceAttributesCalls (v : list PatchDeviceAttributesCall) (m : MockClient) : MockClient :=
  let c := calls m in
  mkMock (funcs m) (mkCalls (PingCalls c) (EnsureClusterDeviceCalls c) (EnsureNodeDeviceCalls c) (UpdateDeviceTagsCalls c) (GetDeviceCalls c) (CreateDeviceAccessKeyCalls c) v (DeleteDeviceCalls c) (ReleaseWorkflowCalls c) (GetEdgeDeploymentsCalls c)).
Definition set_DeleteDeviceCalls (v : list DeleteDeviceCall) (m : MockClient) : MockClient :=
  let c := calls m in
  mkMock (funcs m) (mkCalls (PingCalls c) (EnsureClusterDeviceCalls c) (EnsureNodeDeviceCalls c) (UpdateDeviceTagsCalls c) (GetDeviceCalls c) (CreateDeviceAccessKeyCalls c) (PatchDeviceAttributesCalls c) v (ReleaseWorkflowCalls c) (GetEdgeDeploymentsCalls c)).
Definition set_ReleaseWorkflowCalls (v : list ReleaseWorkflowCall) (m : MockClient) : MockClient :=
  let c := calls m in
  mkMock (funcs m) (mkCalls (PingCalls c) (EnsureClusterDeviceCalls c) (EnsureNodeDeviceCalls c) (UpdateDeviceTagsCalls c) (GetDeviceCalls c) (CreateDeviceAccessKeyCalls c) (PatchDeviceAttributesCalls c) (DeleteDeviceCalls c) v (GetEdgeDeploymentsCalls c)).
Definition set_GetEdgeDeploymentsCalls (v : list GetEdgeDeploymentsCall) (m : MockClient) : MockClient :=
  let c := calls m in
  mkMock (funcs m) (mkCalls (PingCalls c) (EnsureClusterDeviceCalls c) (EnsureNodeDeviceCalls c) (UpdateDeviceTagsCalls c) (GetDeviceCalls c) (CreateDeviceAccessKeyCalls c) (PatchDeviceAttributesCalls c) (DeleteDeviceCalls c) (ReleaseWorkflowCalls c) v).

(** ** Method bodies *)

Local Open Scope body_scope.

Definition m_SetError (err : option error) : body MockClient unit :=
  mu.Lock;
  write (set_PingFunc (Some (err)));
  write (set_EnsureClusterDeviceFunc (Some (fun _ => ("", err))));
  write (set_EnsureNodeDeviceFunc (Some (fun _ _ _ => ("", err))));
  write (set_UpdateDeviceTagsFunc (Some (fun _ _ _ => err)));
  write (set_GetDeviceFunc (Some (fun _ _ => (None, err))));
  write (set_CreateDeviceAccessKeyFunc (Some (fun _ _ _ => ("", "", "", err))));
  write (set_PatchDeviceAttributesFunc (Some (fun _ _ _ => err)));
  write (set_DeleteDeviceFunc (Some (fun _ _ => err)));
  write (set_ReleaseWorkflowFunc (Some (fun _ _ _ _ => err)));
  write (set_GetEdgeDeploymentsFunc (Some (fun _ _ => ([], err))));
  mu.Unlock; Return tt.

Definition m_CallCount : body MockClient nat :=
  mu.Lock;
  read m0;
  read m1;
  read m2;
  read m3;
  read m4;
  read m5;
  read m6;
  read m7;
  read m8;
  read m9;
  let n :=
    length (PingCalls (calls m0)) +
    length (EnsureClusterDeviceCalls (calls m1)) +
    length (EnsureNodeDeviceCalls (calls m2)) +
    length (UpdateDeviceTagsCalls (calls m3)) +
    length (GetDeviceCalls (calls m4)) +
    length (CreateDeviceAccessKeyCalls (calls m5)) +
    length (PatchDeviceAttributesCalls (calls m6)) +
    length (DeleteDeviceCalls (calls m7)) +
    length (ReleaseWorkflowCalls (calls m8)) +
    length (GetEdgeDeploymentsCalls (calls m9)) in
  mu.Unlock; Return n.

Definition m_Reset : body MockClient unit :=
  mu.Lock;
  write (set_PingFunc None);
  write (set_EnsureClusterDeviceFunc None);
  write (set_EnsureNodeDeviceFunc None);
  write (set_UpdateDeviceTagsFunc None);
  write (set_GetDeviceFunc None);
  write (set_CreateDeviceAccessKeyFunc None);
  write (set_PatchDeviceAttributesFunc None);
  write (set_DeleteDeviceFunc None);
  write (set_ReleaseWorkflowFunc None);
  write (set_GetEdgeDeploymentsFunc None);
  write (set_PingCalls []);
  write (set_EnsureClusterDeviceCalls []);
  write (set_EnsureNodeDeviceCalls []);
  write (set_UpdateDeviceTagsCalls []);
  write (set_GetDeviceCalls []);
  write (set_CreateDeviceAccessKeyCalls []);
  write (set_PatchDeviceAttributesCalls []);
  write (set_DeleteDeviceCalls []);
  write (set_ReleaseWorkflowCalls []);
  write (set_GetEdgeDeploymentsCalls []);
  mu.Unlock; Return tt.

Definition m_Ping : body MockClient (option error) :=
  mu.Lock;
  read m; write (set_PingCalls (PingCalls (calls m) ++ [tt]));
  read m; let fn := PingFunc (funcs m) in
  mu.Unlock;
  Return match fn with Some fn => fn | None => None end.

Definition m_EnsureClusterDevice (spec : LosantSyncSpec) : body MockClient (string * option error) :=
  mu.Lock;
  read m; write (set_EnsureClusterDeviceCalls (EnsureClusterDeviceCalls (calls m) ++ [mkEnsureClusterDeviceCall spec]));
  read m; let fn := EnsureClusterDeviceFunc (funcs m) in
  mu.Unlock;
  Return match fn with Some fn => fn spec | None => ("mock-cluster-device-id", None) end.

Definition m_EnsureNodeDevice (spec : LosantSyncSpec) (nodeName gatewayID : string) : body MockClient (string * option error) :=
  mu.Lock;
  read m; write (set_EnsureNodeDeviceCalls (EnsureNodeDeviceCalls (calls m) ++ [mkEnsureNodeDeviceCall spec nodeName gatewayID]));
  read m; let fn := EnsureNodeDeviceFunc (funcs m) in
  mu.Unlock;
  Return match fn with Some fn => fn spec nodeName gatewayID | None => ("mock-node-" +:+ nodeName, None) end.

Definition m_UpdateDeviceTags (applicationID deviceID : string) (tags : gmap string string) : body MockClient (option error) :=
  mu.Lock;
  read m; write (set_UpdateDeviceTagsCalls (UpdateDeviceTagsCalls (calls m) ++ [mkUpdateDeviceTagsCall applicationID deviceID tags]));
  read m; let fn := UpdateDeviceTagsFunc (funcs m) in
  mu.Unlock;
  Return match fn with Some fn => fn applicationID deviceID tags | None => None end.

Definition m_GetDevice (applicationID deviceID : string) : body MockClient (option Device * option error) :=
  mu.Lock;
  read m; write (set_GetDeviceCalls (GetDeviceCalls (calls m) ++ [mkGetDeviceCall applicationID deviceID]));
  read m; let fn := GetDeviceFunc (funcs m) in
  mu.Unlock;
  Return match fn with Some fn => fn applicationID deviceID | None => (Some (mkDevice deviceID "" []), None) end.

Definition m_CreateDeviceAccessKey (applicationID deviceID name : string) : body MockClient (string * string * string * option error) :=
  mu.Lock;
  read m; write (set_CreateDeviceAccessKeyCalls (CreateDeviceAccessKeyCalls (calls m) ++ [mkCreateDeviceAccessKeyCall applicationID deviceID name]));
  read m; let fn := CreateDeviceAccessKeyFunc (funcs m) in
  mu.Unlock;
  Return match fn with Some fn => fn applicationID deviceID name | None => ("mock-key-id", "mock-access-key", "mock-access-secret", None) end.

Definition m_PatchDeviceAttributes (applicationID deviceID : string) (attrs : list DeviceAttribute) : body MockClient (option error) :=
  mu.Lock;
  read m; write (set_PatchDeviceAttributesCalls (PatchDeviceAttributesCalls (calls m) ++ [mkPatchDeviceAttributesCall applicationID deviceID attrs]));
  read m; let fn := PatchDeviceAttributesFunc (funcs m) in
  mu.Unlock;
  Return match fn with Some fn => fn applicationID deviceID attrs | None => None end.

Definition m_DeleteDevice (applicationID deviceID : string) : body MockClient (option error) :=
  mu.Lock;
  read m; write (set_DeleteDeviceCalls (DeleteDeviceCalls (calls m) ++ [mkDeleteDeviceCall applicationID deviceID]));
  read m; let fn := DeleteDeviceFunc (funcs m) in
  mu.Unlock;
  Return match fn with Some fn => fn applicationID deviceID | None => None end.

Definition m_ReleaseWorkflow (applicationID deviceID flowID version : string) : body MockClient (option error) :=
  mu.Lock;
  read m; write (set_ReleaseWorkflowCalls (ReleaseWorkflowCalls (calls m) ++ [mkReleaseWorkflowCall applicationID deviceID flowID version]));
  read m; let fn := ReleaseWorkflowFunc (funcs m) in
  mu.Unlock;
  Return match fn with Some fn => fn applicationID deviceID flowID version | None => None end.

Definition m_GetEdgeDeployments (applicationID deviceID : string) : body MockClient (list EdgeDeploymentStatus * option error) :=
  mu.Lock;
  read m; write (set_GetEdgeDeploymentsCalls (GetEdgeDeploymentsCalls (calls m) ++ [mkGetEdgeDeploymentsCall applicationID deviceID]));
  read m; let fn := GetEdgeDeploymentsFunc (funcs m) in
  mu.Unlock;
  Return match fn with Some fn => fn applicationID deviceID | None => ([], None) end.

(** The getters of the tests: a new slice, filled under the lock. *)
Definition zero_spec : LosantSyncSpec :=
  mkLSSpec "" (mkSecretRef "" "") "" "" "" "" "" (mkGEASpec "" 0 "") "" [] (mkTags "" "" "") false.

Definition GetEnsureClusterDeviceCalls : body MockClient (go_slice EnsureClusterDeviceCall) :=
  mu.Lock;
  read m; let out := make_slice (mkEnsureClusterDeviceCall zero_spec) (length (EnsureClusterDeviceCalls (calls m))) in
  read m; let out := copy_slice out (Shared (EnsureClusterDeviceCalls (calls m))) in
  mu.Unlock; Return out.

Definition GetEnsureNodeDeviceCalls : body MockClient (go_slice EnsureNodeDeviceCall) :=
  mu.Lock;
  read m; let out := make_slice (mkEnsureNodeDeviceCall zero_spec "" "") (length (EnsureNodeDeviceCalls (calls m))) in
  read m; let out := copy_slice out (Shared (EnsureNodeDeviceCalls (calls m))) in
  mu.Unlock; Return out.

Local Close Scope body_scope.

(** ** What the methods should do *)

(** Every handler replaced by one that returns [err] and zero values. *)
Definition failing (err : option error) : Funcs := mkFuncs
  (Some err)
  (Some (fun _ => ("", err)))
  (Some (fun _ _ _ => ("", err)))
  (Some (fun _ _ _ => err))
  (Some (fun _ _ => (None, err)))
  (Some (fun _ _ _ => ("", "", "", err)))
  (Some (fun _ _ _ => err))
  (Some (fun _ _ => err))
  (Some (fun _ _ _ _ => err))
  (Some (fun _ _ => ([], err))).

Definition CallCount (m : MockClient) : nat :=
  let c := calls m in
  length (PingCalls c) +
  length (EnsureClusterDeviceCalls c) +
  length (EnsureNodeDeviceCalls c) +
  length (UpdateDeviceTagsCalls c) +
  length (GetDeviceCalls c) +
  length (CreateDeviceAccessKeyCalls c) +
  length (PatchDeviceAttributesCalls c) +
  length (DeleteDeviceCalls c) +
  length (ReleaseWorkflowCalls c) +
  length (GetEdgeDeploymentsCalls c).

(** What an invocation adds to each list. *)
Definition of_Ping (o : losant_op) := match o with Ping => [tt] | _ => [] end.
Definition of_EnsureClusterDevice (o : losant_op) :=
  match o with EnsureClusterDevice spec => [mkEnsureClusterDeviceCall spec] | _ => [] end.
Definition of_EnsureNodeDevice (o : losant_op) :=
  match o with
  | EnsureNodeDevice spec nodeName gatewayID => [mkEnsureNodeDeviceCall spec nodeName gatewayID]
  | _ => []
  end.
Definition of_UpdateDeviceTags (o : losant_op) :=
  match o with
  | UpdateDeviceTags applicationID deviceID tags => [mkUpdateDeviceTagsCall applicationID deviceID tags]
  | _ => []
  end.
Definition of_GetDevice (o : losant_op) :=
  match o with GetDevice applicationID deviceID => [mkGetDeviceCall applicationID deviceID] | _ => [] end.
Definition of_CreateDeviceAccessKey (o : losant_op) :=
  match o with
  | CreateDeviceAccessKey applicationID deviceID name =>
      [mkCreateDeviceAccessKeyCall applicationID deviceID name]
  | _ => []
  end.
Definition of_PatchDeviceAttributes (o : losant_op) :=
  match o with
  | PatchDeviceAttributes applicationID deviceID attrs =>
      [mkPatchDeviceAttributesCall applicationID deviceID attrs]
  | _ => []
  end.
Definition of_DeleteDevice (o : losant_op) :=
  match o with DeleteDevice applicationID deviceID => [mkDeleteDeviceCall applicationID deviceID] | _ => [] end.
Definition of_ReleaseWorkflow (o : losant_op) :=
  match o with
  | ReleaseWorkflow applicationID deviceID flowID version =>
      [mkReleaseWorkflowCall applicationID deviceID flowID version]
  | _ => []
  end.
Definition of_GetEdgeDeployments (o : losant_op) :=
  match o with
  | GetEdgeDeployments applicationID deviceID => [mkGetEdgeDeploymentsCall applicationID deviceID]
  | _ => []
  end.

(** The call added to its list. *)
Definition record (o : losant_op) (c : Calls) : Calls := mkCalls
  (PingCalls c ++ of_Ping o)
  (EnsureClusterDeviceCalls c ++ of_EnsureClusterDevice o)
  (EnsureNodeDeviceCalls c ++ of_EnsureNodeDevice o)
  (UpdateDeviceTagsCalls c ++ of_UpdateDeviceTags o)
  (GetDeviceCalls c ++ of_GetDevice o)
  (CreateDeviceAccessKeyCalls c ++ of_CreateDeviceAccessKey o)
  (PatchDeviceAttributesCalls c ++ of_PatchDeviceAttributes o)
  (DeleteDeviceCalls c ++ of_DeleteDevice o)
  (ReleaseWorkflowCalls c ++ of_ReleaseWorkflow o)
  (GetEdgeDeploymentsCalls c ++ of_GetEdgeDeployments o).

Definition recorded (o : losant_op) (m : MockClient) : MockClient := mkMock (funcs m) (record o (calls m)).

(** The replies of a mock whose handlers are those of SetError, or none. *)
Definition reply (mode : option (option error)) (o : losant_op) : go_ans o :=
  match mode with
  | Some err => match o with
      | Ping => err
      | EnsureClusterDevice _ => ("", err)
      | EnsureNodeDevice _ _ _ => ("", err)
      | UpdateDeviceTags _ _ _ => err
      | GetDevice _ _ => (None, err)
      | CreateDeviceAccessKey _ _ _ => ("", "", "", err)
      | PatchDeviceAttributes _ _ _ => err
      | DeleteDevice _ _ => err
      | ReleaseWorkflow _ _ _ _ => err
      | GetEdgeDeployments _ _ => ([], err)
      end
  | None => match o with
      | Ping => None
      | EnsureClusterDevice _ => ("mock-cluster-device-id", None)
      | EnsureNodeDevice _ nodeName _ => ("mock-node-" +:+ nodeName, None)
      | UpdateDeviceTags _ _ _ => None
      | GetDevice _ deviceID => (Some (mkDevice deviceID "" []), None)
      | CreateDeviceAccessKey _ _ _ => ("mock-key-id", "mock-access-key", "mock-access-secret", None)
      | PatchDeviceAttributes _ _ _ => None
      | DeleteDevice _ _ => None
      | ReleaseWorkflow _ _ _ _ => None
      | GetEdgeDeployments _ _ => ([], None)
      end
  end.

(** ** The mock as a shared object *)

(** The methods of the interface, and those only the tests call. *)
Inductive mock_op :=
| Client (o : losant_op)
| CallSetError (err : option error)
| CallCallCount
| CallReset
| CallGetEnsureClusterDeviceCalls
| CallGetEnsureNodeDeviceCalls.

Definition mock_ans (c : mock_op) : Type :=
  match c with
  | Client o => go_ans o
  | CallSetError _ | CallReset => unit
  | CallCallCount => nat
  | CallGetEnsureClusterDeviceCalls => go_slice EnsureClusterDeviceCall
  | CallGetEnsureNodeDeviceCalls => go_slice EnsureNodeDeviceCall
  end.

Definition MockΣ : sig := Sig mock_op mock_ans.

Definition client_body (o : losant_op) : body MockClient (go_ans o) :=
  match o with
  | Ping => m_Ping
  | EnsureClusterDevice spec => m_EnsureClusterDevice spec
  | EnsureNodeDevice spec nodeName gatewayID => m_EnsureNodeDevice spec nodeName gatewayID
  | UpdateDeviceTags applicationID deviceID tags => m_UpdateDeviceTags applicationID deviceID tags
  | GetDevice applicationID deviceID => m_GetDevice applicationID deviceID
  | CreateDeviceAccessKey applicationID deviceID name => m_CreateDeviceAccessKey applicationID deviceID name
  | PatchDeviceAttributes applicationID deviceID attrs => m_PatchDeviceAttributes applicationID deviceID attrs
  | DeleteDevice applicationID deviceID => m_DeleteDevice applicationID deviceID
  | ReleaseWorkflow applicationID deviceID flowID version => m_ReleaseWorkflow applicationID deviceID flowID version
  | GetEdgeDeployments applicationID deviceID => m_GetEdgeDeployments applicationID deviceID
  end.

Definition mock_body (c : MockΣ) : body MockClient (ans c) :=
  match c with
  | Client o => client_body o
  | CallSetError err => m_SetError err
  | CallReset => m_Reset
  | CallCallCount => m_CallCount
  | CallGetEnsureClusterDeviceCalls => GetEnsureClusterDeviceCalls
  | CallGetEnsureNodeDeviceCalls => GetEnsureNodeDeviceCalls
  end.

(** Writing through a slice that a getter returned changes a list of the mock when it shares its array. *)
Definition scribble (e : event MockΣ) (m m' : MockClient) : Prop :=
  match e with
  | Ev CallGetEnsureClusterDeviceCalls s =>
      exists l, written_through s (EnsureClusterDeviceCalls (calls m)) l /\ m' = set_EnsureClusterDeviceCalls l m
  | Ev CallGetEnsureNodeDeviceCalls s =>
      exists l, written_through s (EnsureNodeDeviceCalls (calls m)) l /\ m' = set_EnsureNodeDeviceCalls l m
  | _ => False
  end.

Definition mock : object MockΣ MockClient := mkObject _ _ mock_body scribble.

(** ** What a history means *)

Abbreviation history := (list (nat * event MockΣ)).

Definition ops (l : history) : list mock_op := map (fun x => ev_op (snd x)) l.

(** The calls of the interface since the last Reset. *)
Definition since_reset (l : list mock_op) : list losant_op :=
  foldl (fun acc c => match c with Client o => acc ++ [o] | CallReset => [] | _ => acc end) [] l.

(** The argument of the last SetError since the last Reset. *)
Definition mode (l : list mock_op) : option (option error) :=
  foldl (fun acc c => match c with CallSetError err => Some err | CallReset => None | _ => acc end) None l.

(** The lists of a mock that received the calls [l]. *)
Definition log (l : list losant_op) : Calls := mkCalls
  (flat_map of_Ping l)
  (flat_map of_EnsureClusterDevice l)
  (flat_map of_EnsureNodeDevice l)
  (flat_map of_UpdateDeviceTags l)
  (flat_map of_GetDevice l)
  (flat_map of_CreateDeviceAccessKey l)
  (flat_map of_PatchDeviceAttributes l)
  (flat_map of_DeleteDevice l)
  (flat_map of_ReleaseWorkflow l)
  (flat_map of_GetEdgeDeployments l).

(** ** Proofs *)

Lemma losant_log_snoc l o : log (l ++ [o]) = record o (log l).
Proof. unfold log, record. simpl. by rewrite !flat_map_app; simpl; rewrite !app_nil_r. Qed.

(** CallCount counts every call in exactly one of its lists. *)
Lemma losant_CallCount_record o m : CallCount (recorded o m) = S (CallCount m).
Proof. destruct o; unfold CallCount; simpl; rewrite ?length_app; simpl; lia. Qed.

Lemma losant_CallCount_log f l : CallCount (mkMock f (log l)) = length l.
Proof.
  induction l as [|o l IH] using rev_ind; [done|].
  rewrite losant_log_snoc, length_app, Nat.add_1_r, <- IH. apply (losant_CallCount_record o (mkMock f (log l))).
Qed.

(** Every body locks, works and unlocks. *)
Lemma losant_disciplined c : disciplined (o_body mock c).
Proof. destruct c as [[]| | | | |]; simpl; auto. Qed.

(** No result shares an array with a field. *)
Lemma losant_fresh c m m1 m2 : ~ o_scribble mock (Ev c (o_reply mock c m)) m1 m2.
Proof. destruct c; intros H; try exact H; destruct H as (l & Hw & _); exact Hw. Qed.

(** What the bodies do when nothing interferes. *)
Lemma losant_next c m :
  o_next mock c m = match c with
                    | Client o => recorded o m
                    | CallSetError err => mkMock (failing err) (calls m)
                    | CallReset => NewMockClient
                    | _ => m
                    end.
Proof.
  destruct m as [[] []]. destruct c as [o| | | | |]; [|reflexivity..].
  destruct o; unfold o_next, recorded, record; simpl; by rewrite ?app_nil_r.
Qed.

Lemma losant_method_reply md c o :
  o_reply mock (Client o) (mkMock (from_option failing no_funcs md) c) = reply md o.
Proof. by destruct md, o. Qed.

(** What a call returns after the calls [prior], from the history alone. *)
Definition expected (prior : list mock_op) (c : MockΣ) : ans c :=
  match c with
  | Client o => reply (mode prior) o
  | CallSetError _ | CallReset => tt
  | CallCallCount => length (since_reset prior)
  | CallGetEnsureClusterDeviceCalls => Fresh (flat_map of_EnsureClusterDevice (since_reset prior))
  | CallGetEnsureNodeDeviceCalls => Fresh (flat_map of_EnsureNodeDevice (since_reset prior))
  end.

(** The state of the mock, and every reply so far, as functions of the history. *)
Record explained (l : history) (m : MockClient) : Prop := {
  x_calls : calls m = log (since_reset (ops l));
  x_funcs : funcs m = from_option failing no_funcs (mode (ops l));
  x_replies : forall i t e, l !! i = Some (t, e) -> ev_ans e = expected (ops (take i l)) (ev_op e);
}.

Lemma losant_explained_reply l m c : explained l m -> o_reply mock c m = expected (ops l) c.
Proof.
  intros [Hc Hf _]. destruct m as [f cs]. simpl in Hc, Hf. subst f cs.
  destruct c; [apply losant_method_reply|done|apply losant_CallCount_log|done|apply copy_make..].
Qed.

Lemma losant_explained_snoc l m t c :
  explained l m -> explained (l ++ [(t, Ev c (o_reply mock c m))]) (o_next mock c m).
Proof.
  intros Hx. pose proof Hx as [Hc Hf Hr].
  assert (Hops : ops (l ++ [(t, Ev c (o_reply mock c m))]) = ops l ++ [c]) by apply map_app.
  rewrite losant_next. split.
  - rewrite Hops. unfold since_reset. rewrite foldl_app. fold (since_reset (ops l)).
    destruct c; simpl; rewrite ?losant_log_snoc; simpl; by rewrite ?Hc.
  - rewrite Hops. unfold mode. rewrite foldl_app. fold (mode (ops l)).
    by destruct c.
  - intros i t' e Hi. apply lookup_snoc_Some in Hi as [[Hlt Hi]|[-> [=<- <-]]].
    + rewrite take_app_le by lia. by eapply Hr.
    + rewrite take_app_length. by apply losant_explained_reply.
Qed.

(** C35: The mock Losant client is safe for concurrent use: whatever calls any number of
    goroutines make, statement by statement interleaved, and whatever they do to the slices the
    getters gave them, the calls that have taken effect have one order that keeps the order
    of every goroutine and that later steps only extend; in it every call returns what
    the history so far says (the default, or the error of the last SetError; the number
    and the arguments of the calls since the last Reset), and whenever the lock is free every list of
    the mock holds exactly the calls since the last Reset, none lost or written twice; and while a
    goroutine has calls left, some goroutine can go on. *)
Theorem losant_mock_linearizable (progs : gmap nat (list MockΣ)) m m' :
  rtc (mstep mock) (start NewMockClient progs) m -> rtc (mstep mock) m m' ->
  exists l s k s',
    linearization mock NewMockClient progs m l s /\ linearization mock NewMockClient progs m' (l ++ k) s' /\
    explained l s /\ explained (l ++ k) s' /\
    (owner m = None -> fields m = s /\ CallCount (fields m) = length (since_reset (ops l))) /\
    (finished m \/ exists m1, mstep mock m m1).
Proof.
  intros H1 H2.
  destruct (reach_explained mock losant_disciplined losant_fresh explained NewMockClient progs m m')
    as (l & s & k & s' & Hl & Hk & Hx & Hx' & Hp); [by split|by intros; apply losant_explained_snoc|done|done|].
  exists l, s, k, s'. do 4 (split; [done|]). split; [|done]. intros Ho.
  rewrite (lin_fields _ _ _ _ _ _ Hl Ho). split; [done|]. exact (losant_explained_reply _ _ CallCallCount Hx).
Qed.

(** ** Two goroutines *)

Definition demo_spec : LosantSyncSpec :=
  mkLSSpec "app" (mkSecretRef "s" "ns") "c1" "eu" "" "" "" (mkGEASpec "" 0 "") "" [] (mkTags "" "" "") false.

Definition two : gmap nat (list MockΣ) :=
  {[0 := [Client (EnsureNodeDevice demo_spec "n1" "gw"); CallGetEnsureNodeDeviceCalls];
    1 := [CallSetError (Some (Errorf "down")); Client Ping]]}.

(** Goroutine 1 calls SetError while goroutine 0 is in its critical section, waits for the lock, and
    then makes the client fail; goroutine 0 reads the list of its own calls. *)
Definition interleaving : list nat := [0; 0; 1; 1; 0; 0; 0; 1; 0; 0] ++ replicate 21 1 ++ replicate 8 0.

Lemma losant_mock_linearizable_witness :
  let m := schedule mock interleaving (start NewMockClient two) in
  owner m = None /\ CallCount (fields m) = 2 /\
  th_done <$> threads m !! 0 =
    Some [Ev (Client (EnsureNodeDevice demo_spec "n1" "gw") : MockΣ) ("mock-node-n1", None);
          Ev (CallGetEnsureNodeDeviceCalls : MockΣ) (Fresh [mkEnsureNodeDeviceCall demo_spec "n1" "gw"])] /\
  exists l s k s', linearization mock NewMockClient two m l s /\ explained (l ++ k) s'.
Proof.
  intros m. split; [by vm_compute|]. split; [by vm_compute|]. split; [by vm_compute|].
  destruct (losant_mock_linearizable two m m) as (l & s & k & s' & Hl & _ & _ & Hx & _);
    [apply schedule_reach|done|]. by exists l, s, k, s'.
Defined.
