(* ===== verification/MockGea.v ===== *)
(** * MockGea: the recording edge agent client of the unit tests

    internal/gea/mock_client.go.  ReportState appends the payload and copies its handler
    while it holds the lock, and calls the handler, if there is one, after the unlock.
    SetError(nil) removes the handler.  The assertion helpers return the failures they
    report to the test; [SprintV] is fmt.Sprintf with the verb %v. *)

From Stdlib Require Import ZArith Lia.
From stdpp Require Import base list strings gmap.
From S2P Require Import Prelude Effects GoLib K8s ApiTypes HealthScore Clients Linearize.

(** ** The mock *)

Record MockClient := mkMock {
  ReportStateFunc : option (StatePayload -> option error);
  Calls : list StatePayload;
}.

Definition NewMockClient : MockClient := mkMock None [].

Definition CallCount (m : MockClient) : nat := length (Calls m).

(** ** Method bodies *)

Definition set_ReportStateFunc (v : option (StatePayload -> option error)) (m : MockClient) : MockClient :=
  mkMock v (Calls m).
Definition set_Calls (v : list StatePayload) (m : MockClient) : MockClient := mkMock (ReportStateFunc m) v.

Local Open Scope body_scope.

Definition m_SetError (err : option error) : body MockClient unit :=
  mu.Lock;
  match err with
  | None => write (set_ReportStateFunc None); mu.Unlock; Return tt
  | Some e => write (set_ReportStateFunc (Some (fun _ => Some e))); mu.Unlock; Return tt
  end.

Definition m_Reset : body MockClient unit :=
  mu.Lock;
  write (set_ReportStateFunc None);
  write (set_Calls []);
  mu.Unlock; Return tt.

Definition m_CallCount : body MockClient nat :=
  mu.Lock; read m; let n := length (Calls m) in mu.Unlock; Return n.

Definition m_ReportState (payload : StatePayload) : body MockClient (option error) :=
  mu.Lock;
  read m; write (set_Calls (Calls m ++ [payload]));
  read m; let fn := ReportStateFunc m in
  mu.Unlock;
  Return match fn with Some fn => fn payload | None => None end.

(** ** Assertions *)

Section Asserts.
Context (SprintV : attr_value -> string).

Definition matches (deviceID attributeKey : string) (want : attr_value) (c : StatePayload) : bool :=
  if decide (sp_DeviceID c <> deviceID) then false
  else match sp_Attributes c !! attributeKey with
       | None => false
       | Some got => bool_decide (SprintV got = SprintV want)
       end.

(** Whether the test fails: the loop returns at the first call that matches. *)
Fixpoint payload_loop (deviceID attributeKey : string) (want : attr_value) (calls : list StatePayload) : bool :=
  match calls with
  | [] => true
  | c :: rest =>
      if matches deviceID attributeKey want c then false else payload_loop deviceID attributeKey want rest
  end.

Definition zero_payload : StatePayload := mkPayload "" ∅ None.

Definition AssertPayloadContains (deviceID attributeKey : string) (want : attr_value) : body MockClient bool :=
  mu.Lock;
  read m; let calls := make_slice zero_payload (length (Calls m)) in
  read m; let calls := copy_slice calls (Shared (Calls m)) in
  mu.Unlock;
  Return (payload_loop deviceID attributeKey want (elems calls)).

(** CallCount, then a comparison. *)
Definition AssertCalled : body MockClient bool :=
  mu.Lock; read m; let n := length (Calls m) in mu.Unlock; Return (n =? 0).
Definition AssertNotCalled : body MockClient bool :=
  mu.Lock; read m; let n := length (Calls m) in mu.Unlock; Return (0 <? n).

Lemma gea_payload_loop_spec deviceID attributeKey want calls :
  payload_loop deviceID attributeKey want calls = false <->
  exists c got, c ∈ calls /\ sp_DeviceID c = deviceID /\ sp_Attributes c !! attributeKey = Some got /\
    SprintV got = SprintV want.
Proof.
  induction calls as [|c calls IH]; simpl;
    [split; [done|]; intros (? & ? & Hin & _); by apply not_elem_of_nil in Hin|].
  destruct (matches deviceID attributeKey want c) eqn:Hm.
  - split; [intros _|done]. unfold matches in Hm. destruct (decide _) as [|Hd] in Hm; [done|].
    apply dec_stable in Hd.
    destruct (sp_Attributes c !! attributeKey) as [got|] eqn:Hg; [|done]. apply bool_decide_eq_true in Hm.
    exists c, got. rewrite elem_of_cons. split; [by left|]. split; done.
  - rewrite IH. split.
    + intros (c' & got & Hin & H). exists c', got. split; [by right|done].
    + intros (c' & got & Hin & Hd & Hg & Hs). apply elem_of_cons in Hin as [->|Hin]; [exfalso|by exists c', got].
      unfold matches in Hm. rewrite decide_False in Hm by (intros Hne; apply Hne, Hd).
      rewrite Hg in Hm. by apply bool_decide_eq_false in Hm.
Qed.

End Asserts.

Local Close Scope body_scope.

(** ** The mock as a shared object *)

Inductive mock_op :=
| Report (payload : StatePayload)
| CallSetError (err : option error)
| CallReset
| CallCallCount
| CallAssertPayloadContains (deviceID attributeKey : string) (want : attr_value)
| CallAssertCalled
| CallAssertNotCalled.

Definition mock_ans (c : mock_op) : Type :=
  match c with
  | Report _ => option error
  | CallSetError _ | CallReset => unit
  | CallCallCount => nat
  | CallAssertPayloadContains _ _ _ | CallAssertCalled | CallAssertNotCalled => bool
  end.

Definition MockΣ : sig := Sig mock_op mock_ans.

Section Shared.
Context (SprintV : attr_value -> string).

Definition mock_body (c : MockΣ) : body MockClient (ans c) :=
  match c with
  | Report payload => m_ReportState payload
  | CallSetError err => m_SetError err
  | CallReset => m_Reset
  | CallCallCount => m_CallCount
  | CallAssertPayloadContains d a want => AssertPayloadContains SprintV d a want
  | CallAssertCalled => AssertCalled
  | CallAssertNotCalled => AssertNotCalled
  end.

(** No result holds a slice. *)
Definition mock : object MockΣ MockClient := mkObject _ _ mock_body (fun _ _ _ => False).

(** ** What a history means *)

Abbreviation history := (list (nat * event MockΣ)).

Definition ops (l : history) : list mock_op := map (fun x => ev_op (snd x)) l.

(** The payloads since the last Reset. *)
Definition since_reset (l : list mock_op) : list StatePayload :=
  foldl (fun acc c => match c with Report p => acc ++ [p] | CallReset => [] | _ => acc end) [] l.

(** The error in force: that of the last SetError, none after Reset. *)
Definition mode (l : list mock_op) : option error :=
  foldl (fun acc c => match c with CallSetError err => err | CallReset => None | _ => acc end) None l.

Definition expected (prior : list mock_op) (c : MockΣ) : ans c :=
  match c with
  | Report _ => mode prior
  | CallSetError _ | CallReset => tt
  | CallCallCount => length (since_reset prior)
  | CallAssertPayloadContains d a want => payload_loop SprintV d a want (since_reset prior)
  | CallAssertCalled => length (since_reset prior) =? 0
  | CallAssertNotCalled => 0 <? length (since_reset prior)
  end.

Record explained (l : history) (m : MockClient) : Prop := {
  x_calls : Calls m = since_reset (ops l);
  x_func : ReportStateFunc m = (fun e _ => Some e) <$> mode (ops l);
  x_replies : forall i t e, l !! i = Some (t, e) -> ev_ans e = expected (ops (take i l)) (ev_op e);
}.

Lemma gea_disciplined c : disciplined (o_body mock c).
Proof. destruct c as [|[]| | | | |]; simpl; auto. Qed.

Lemma gea_next c m :
  o_next mock c m = match c with
                    | Report p => mkMock (ReportStateFunc m) (Calls m ++ [p])
                    | CallSetError err => mkMock ((fun e _ => Some e) <$> err) (Calls m)
                    | CallReset => NewMockClient
                    | _ => m
                    end.
Proof. destruct m. by destruct c as [|[]| | | | |]. Qed.

Lemma gea_explained_reply l m c : explained l m -> o_reply mock c m = expected (ops l) c.
Proof.
  intros [Hc Hf _]. destruct c as [p|[]| | |d a want| |]; unfold o_reply; simpl; rewrite ?Hc; try done.
  - rewrite Hf. by destruct (mode (ops l)).
  - exact (f_equal (fun s => payload_loop SprintV d a want (elems s)) (copy_make zero_payload (since_reset (ops l)))).
Qed.

Lemma gea_explained_snoc l m t c :
  explained l m -> explained (l ++ [(t, Ev c (o_reply mock c m))]) (o_next mock c m).
Proof.
  intros Hx. pose proof Hx as [Hc Hf Hr].
  assert (Hops : ops (l ++ [(t, Ev c (o_reply mock c m))]) = ops l ++ [c]) by apply map_app.
  rewrite gea_next. split.
  - rewrite Hops. unfold since_reset. rewrite foldl_app. fold (since_reset (ops l)).
    destruct c as [p|[err|]| | | | |]; simpl; by rewrite ?Hc.
  - rewrite Hops. unfold mode. rewrite foldl_app. fold (mode (ops l)).
    by destruct c as [p|[err|]| | | | |].
  - intros i t' e Hi. apply lookup_snoc_Some in Hi as [[Hlt Hi]|[-> [=<- <-]]].
    + rewrite take_app_le by lia. by eapply Hr.
    + rewrite take_app_length. by apply gea_explained_reply.
Qed.

(** The mock edge agent client is safe for concurrent use, as the mock Losant client is;
    an assertion on a payload passes exactly when a goroutine reported a matching one
    since the last Reset. *)
Theorem gea_mock_linearizable (progs : gmap nat (list MockΣ)) m m' :
  rtc (mstep mock) (start NewMockClient progs) m -> rtc (mstep mock) m m' ->
  exists l s k s',
    linearization mock NewMockClient progs m l s /\ linearization mock NewMockClient progs m' (l ++ k) s' /\
    explained l s /\ explained (l ++ k) s' /\
    (finished m \/ exists m1, mstep mock m m1) /\
    (forall d a want, expected (ops l) (CallAssertPayloadContains d a want) = false <->
       exists c got, c ∈ since_reset (ops l) /\ sp_DeviceID c = d /\ sp_Attributes c !! a = Some got /\
         SprintV got = SprintV want).
Proof.
  intros H1 H2.
  destruct (reach_explained mock gea_disciplined (fun _ _ _ _ H => H) explained NewMockClient progs m m')
    as (l & s & k & s' & Hl & Hk & Hx & Hx' & Hp); [by split|by intros; apply gea_explained_snoc|done|done|].
  exists l, s, k, s'. do 5 (split; [done|]). intros d a want. apply gea_payload_loop_spec.
Qed.

End Shared.
