(* ===== verification/MockRancher.v ===== *)
(** * MockRancher: the recording Rancher client of the unit tests

    internal/rancher/mock_client.go.  As the mock Losant client, without SetError: the
    tests set the handlers before the mock is shared, so the theorem is about any
    handlers. *)

From Stdlib Require Import ZArith Lia.
From stdpp Require Import base list strings gmap.
From S2P Require Import Prelude Effects GoLib K8s ApiTypes HealthScore Clients Linearize.

(** ** The mock *)

Record FindClusterCall := mkFindClusterCall { fcc_Name : string }.
Record CreateClusterCall := mkCreateClusterCall { ccc_Name : string }.
Record GetRegistrationTokenCall := mkGetRegistrationTokenCall { grtc_ClusterID : string }.
Record GetClusterCall := mkGetClusterCall { gcc_ClusterID : string }.
Record DeleteClusterCall := mkDeleteClusterCall { dcc_ClusterID : string }.

Record Funcs := mkFuncs {
  FindClusterFunc : option (string -> string * bool * option error);
  CreateClusterFunc : option (string -> string * option error);
  GetRegistrationTokenFunc : option (string -> string * option error);
  GetClusterFunc : option (string -> option error);
  DeleteClusterFunc : option (string -> option error);
}.

Record Calls := mkCalls {
  FindClusterCalls : list FindClusterCall;
  CreateClusterCalls : list CreateClusterCall;
  GetRegistrationTokenCalls : list GetRegistrationTokenCall;
  GetClusterCalls : list GetClusterCall;
  DeleteClusterCalls : list DeleteClusterCall;
}.

Record MockClient := mkMock { funcs : Funcs; calls : Calls }.

Definition go_ans (o : rancher_op) : Type :=
  match o with
  | FindCluster _ => string * bool * option error
  | CreateCluster _ | GetRegistrationToken _ => string * option error
  | GetCluster _ | DeleteCluster _ => option error
  end.

Definition no_funcs : Funcs := mkFuncs None None None None None.
Definition no_calls : Calls := mkCalls [] [] [] [] [].

Definition NewMockRancherClient : MockClient := mkMock no_funcs no_calls.
(** ** Assignments to one field *)

Definition set_FindClusterFunc (v : option (string -> string * bool * option error)) (m : MockClient) : MockClient :=
  let f := funcs m in mkMock (mkFuncs v (CreateClusterFunc f) (GetRegistrationTokenFunc f) (GetClusterFunc f) (DeleteClusterFunc f)) (calls m).
Definition set_CreateClusterFunc (v : option (string -> string * option error)) (m : MockClient) : MockClient :=
  let f := funcs m in mkMock (mkFuncs (FindClusterFunc f) v (GetRegistrationTokenFunc f) (GetClusterFunc f) (DeleteClusterFunc f)) (calls m).
Definition set_GetRegistrationTokenFunc (v : option (string -> string * option error)) (m : MockClient) : MockClient :=
  let f := funcs m in mkMock (mkFuncs (FindClusterFunc f) (CreateClusterFunc f) v (GetClusterFunc f) (DeleteClusterFunc f)) (calls m).
Definition set_GetClusterFunc (v : option (string -> option error)) (m : MockClient) : MockClient :=
  let f := funcs m in mkMock (mkFuncs (FindClusterFunc f) (CreateClusterFunc f) (GetRegistrationTokenFunc f) v (DeleteClusterFunc f)) (calls m).
Definition set_DeleteClusterFunc (v : option (string -> option error)) (m : MockClient) : MockClient :=
  let f := funcs m in mkMock (mkFuncs (FindClusterFunc f) (CreateClusterFunc f) (GetRegistrationTokenFunc f) (GetClusterFunc f) v) (calls m).
Definition set_FindClusterCalls (v : list FindClusterCall) (m : MockClient) : MockClient :=
  let c := calls m in mkMock (funcs m) (mkCalls v (CreateClusterCalls c) (GetRegistrationTokenCalls c) (GetClusterCalls c) (DeleteClusterCalls c)).
Definition set_CreateClusterCalls (v : list CreateClusterCall) (m : MockClient) : MockClient :=
  let c := calls m in mkMock (funcs m) (mkCalls (FindClusterCalls c) v (GetRegistrationTokenCalls c) (GetClusterCalls c) (DeleteClusterCalls c)).
Definition set_GetRegistrationTokenCalls (v : list GetRegistrationTokenCall) (m : MockClient) : MockClient :=
  let c := calls m in mkMock (funcs m) (mkCalls (FindClusterCalls c) (CreateClusterCalls c) v (GetClusterCalls c) (DeleteClusterCalls c)).
Definition set_GetClusterCalls (v : list GetClusterCall) (m : MockClient) : MockClient :=
  let c := calls m in mkMock (funcs m) (mkCalls (FindClusterCalls c) (CreateClusterCalls c) (GetRegistrationTokenCalls c) v (DeleteClusterCalls c)).
Definition set_DeleteClusterCalls (v : list DeleteClusterCall) (m : MockClient) : MockClient :=
  let c := calls m in mkMock (funcs m) (mkCalls (FindClusterCalls c) (CreateClusterCalls c) (GetRegistrationTokenCalls c) (GetClusterCalls c) v).

(** ** Method bodies *)

Local Open Scope body_scope.

Definition m_Reset : body MockClient unit :=
  mu.Lock;
  write (set_FindClusterFunc None);
  write (set_CreateClusterFunc None);
  write (set_GetRegistrationTokenFunc None);
  write (set_GetClusterFunc None);
  write (set_DeleteClusterFunc None);
  write (set_FindClusterCalls []);
  write (set_CreateClusterCalls []);
  write (set_GetRegistrationTokenCalls []);
  write (set_GetClusterCalls []);
  write (set_DeleteClusterCalls []);
  mu.Unlock; Return tt.

Definition m_FindCluster (name : string) : body MockClient (string * bool * option error) :=
  mu.Lock;
  read m; write (set_FindClusterCalls (FindClusterCalls (calls m) ++ [mkFindClusterCall name]));
  read m; let fn := FindClusterFunc (funcs m) in
  mu.Unlock;
  Return match fn with Some fn => fn name | None => ("", false, None) end.

Definition m_CreateCluster (name : string) : body MockClient (string * option error) :=
  mu.Lock;
  read m; write (set_CreateClusterCalls (CreateClusterCalls (calls m) ++ [mkCreateClusterCall name]));
  read m; let fn := CreateClusterFunc (funcs m) in
  mu.Unlock;
  Return match fn with Some fn => fn name | None => ("mock-cluster-id", None) end.

Definition m_GetRegistrationToken (clusterID : string) : body MockClient (string * option error) :=
  mu.Lock;
  read m; write (set_GetRegistrationTokenCalls (GetRegistrationTokenCalls (calls m) ++ [mkGetRegistrationTokenCall clusterID]));
  read m; let fn := GetRegistrationTokenFunc (funcs m) in
  mu.Unlock;
  Return match fn with Some fn => fn clusterID | None => ("https://rancher.example.com/manifest.yaml", None) end.

Definition m_GetCluster (clusterID : string) : body MockClient (option error) :=
  mu.Lock;
  read m; write (set_GetClusterCalls (GetClusterCalls (calls m) ++ [mkGetClusterCall clusterID]));
  read m; let fn := GetClusterFunc (funcs m) in
  mu.Unlock;
  Return match fn with Some fn => fn clusterID | None => None end.

Definition m_DeleteCluster (clusterID : string) : body MockClient (option error) :=
  mu.Lock;
  read m; write (set_DeleteClusterCalls (DeleteClusterCalls (calls m) ++ [mkDeleteClusterCall clusterID]));
  read m; let fn := DeleteClusterFunc (funcs m) in
  mu.Unlock;
  Return match fn with Some fn => fn clusterID | None => None end.

Local Close Scope body_scope.

(** ** What the methods should do *)

(** What an invocation adds to each list. *)
Definition of_FindCluster (o : rancher_op) :=
  match o with FindCluster name => [mkFindClusterCall name] | _ => [] end.
Definition of_CreateCluster (o : rancher_op) :=
  match o with CreateCluster name => [mkCreateClusterCall name] | _ => [] end.
Definition of_GetRegistrationToken (o : rancher_op) :=
  match o with GetRegistrationToken clusterID => [mkGetRegistrationTokenCall clusterID] | _ => [] end.
Definition of_GetCluster (o : rancher_op) :=
  match o with GetCluster clusterID => [mkGetClusterCall clusterID] | _ => [] end.
Definition of_DeleteCluster (o : rancher_op) :=
  match o with DeleteCluster clusterID => [mkDeleteClusterCall clusterID] | _ => [] end.

(** The call added to its list. *)
Definition record (o : rancher_op) (c : Calls) : Calls := mkCalls
  (FindClusterCalls c ++ of_FindCluster o)
  (CreateClusterCalls c ++ of_CreateCluster o)
  (GetRegistrationTokenCalls c ++ of_GetRegistrationToken o)
  (GetClusterCalls c ++ of_GetCluster o)
  (DeleteClusterCalls c ++ of_DeleteCluster o).

Definition recorded (o : rancher_op) (m : MockClient) : MockClient := mkMock (funcs m) (record o (calls m)).

(** ** The mock as a shared object *)

Inductive mock_op := Client (o : rancher_op) | CallReset.

Definition mock_ans (c : mock_op) : Type :=
  match c with Client o => go_ans o | CallReset => unit end.

Definition MockΣ : sig := Sig mock_op mock_ans.

Definition client_body (o : rancher_op) : body MockClient (go_ans o) :=
  match o with
  | FindCluster name => m_FindCluster name
  | CreateCluster name => m_CreateCluster name
  | GetRegistrationToken clusterID => m_GetRegistrationToken clusterID
  | GetCluster clusterID => m_GetCluster clusterID
  | DeleteCluster clusterID => m_DeleteCluster clusterID
  end.

Definition mock_body (c : MockΣ) : body MockClient (ans c) :=
  match c with Client o => client_body o | CallReset => m_Reset end.

(** No result holds a slice. *)
Definition mock : object MockΣ MockClient := mkObject _ _ mock_body (fun _ _ _ => False).

(** ** What a history means *)

Abbreviation history := (list (nat * event MockΣ)).

Definition ops (l : history) : list mock_op := map (fun x => ev_op (snd x)) l.

(** The calls of the interface since the last Reset. *)
Definition since_reset (l : list mock_op) : list rancher_op :=
  foldl (fun acc c => match c with Client o => acc ++ [o] | CallReset => [] end) [] l.

(** The handlers in force: the ones set before, none after a Reset. *)
Definition handlers (f : Funcs) (l : list mock_op) : Funcs :=
  foldl (fun acc c => match c with Client _ => acc | CallReset => no_funcs end) f l.

(** The lists of a mock that received the calls [l]. *)
Definition log (l : list rancher_op) : Calls := mkCalls
  (flat_map of_FindCluster l)
  (flat_map of_CreateCluster l)
  (flat_map of_GetRegistrationToken l)
  (flat_map of_GetCluster l)
  (flat_map of_DeleteCluster l).

(** What the handlers answer, with the defaults of NewMockRancherClient. *)
Definition reply (f : Funcs) (o : rancher_op) : go_ans o :=
  match o with
  | FindCluster name => from_option (.$ name) ("", false, None) (FindClusterFunc f)
  | CreateCluster name => from_option (.$ name) ("mock-cluster-id", None) (CreateClusterFunc f)
  | GetRegistrationToken id =>
      from_option (.$ id) ("https://rancher.example.com/manifest.yaml", None) (GetRegistrationTokenFunc f)
  | GetCluster id => from_option (.$ id) None (GetClusterFunc f)
  | DeleteCluster id => from_option (.$ id) None (DeleteClusterFunc f)
  end.

Definition expected (f : Funcs) (prior : list mock_op) (c : MockΣ) : ans c :=
  match c with Client o => reply (handlers f prior) o | CallReset => tt end.

Record explained (f : Funcs) (l : history) (m : MockClient) : Prop := {
  x_calls : calls m = log (since_reset (ops l));
  x_funcs : funcs m = handlers f (ops l);
  x_replies : forall i t e, l !! i = Some (t, e) -> ev_ans e = expected f (ops (take i l)) (ev_op e);
}.

Lemma rancher_log_snoc l o : log (l ++ [o]) = record o (log l).
Proof. unfold log, record. simpl. by rewrite !flat_map_app; simpl; rewrite !app_nil_r. Qed.

Lemma rancher_disciplined c : disciplined (o_body mock c).
Proof. destruct c as [[]|]; simpl; auto. Qed.

Lemma rancher_run o m : run_alone (client_body o) m = (recorded o m, reply (funcs m) o).
Proof.
  destruct m as [[] []]. destruct o; unfold recorded, record; simpl; rewrite ?app_nil_r; f_equal; simpl; by case_match.
Qed.

Lemma rancher_explained_reply f l m c : explained f l m -> o_reply mock c m = expected f (ops l) c.
Proof. intros [_ Hf _]. unfold o_reply. destruct c; [|done]. simpl. by rewrite rancher_run, <- Hf. Qed.

Lemma rancher_explained_snoc f l m t c :
  explained f l m -> explained f (l ++ [(t, Ev c (o_reply mock c m))]) (o_next mock c m).
Proof.
  intros Hx. pose proof Hx as [Hc Hf Hr].
  assert (Hops : ops (l ++ [(t, Ev c (o_reply mock c m))]) = ops l ++ [c]) by apply map_app.
  assert (o_next mock c m = match c with Client o => recorded o m | CallReset => NewMockRancherClient end) as ->.
  { unfold o_next. destruct c; [simpl; by rewrite rancher_run|by destruct m as [[] []]]. }
  split.
  - rewrite Hops. unfold since_reset. rewrite foldl_app. fold (since_reset (ops l)).
    destruct c; simpl; [|done]. rewrite rancher_log_snoc. by rewrite Hc.
  - rewrite Hops. unfold handlers. rewrite foldl_app. fold (handlers f (ops l)). by destruct c.
  - intros i t' e Hi. apply lookup_snoc_Some in Hi as [[Hlt Hi]|[-> [=<- <-]]].
    + rewrite take_app_le by lia. by eapply Hr.
    + rewrite take_app_length. by apply rancher_explained_reply.
Qed.

(** The mock Rancher client is safe for concurrent use, whatever handlers it is given. *)
Theorem rancher_mock_linearizable (f : Funcs) (progs : gmap nat (list MockΣ)) m m' :
  let s0 := mkMock f no_calls in
  rtc (mstep mock) (start s0 progs) m -> rtc (mstep mock) m m' ->
  exists l s k s',
    linearization mock s0 progs m l s /\ linearization mock s0 progs m' (l ++ k) s' /\
    explained f l s /\ explained f (l ++ k) s' /\
    (finished m \/ exists m1, mstep mock m m1).
Proof.
  intros s0 H1 H2. apply (reach_explained mock rancher_disciplined (fun _ _ _ _ H => H) (explained f)); [by split| |done..].
  intros; by apply rancher_explained_snoc.
Qed.
