(* ===== verification/Heap.v ===== *)
(** * Heap: values with references, and what a deep copy of one is

    Go memory as a finite map from addresses to cells, pointers and slices into it, and
    computations that read, allocate and write, and that panic on a nil pointer or an
    index out of range.  A type with references is [Deep] when its values have a view,
    the tree of plain data behind the references, and a set of the addresses they reach.
    [copies f] says that [f] never panics on a well-formed value, leaves the memory that
    was there alone, and returns a value with the same view that reaches only addresses
    allocated by [f]; the lemmas build it up from fields, pointers and slices. *)

From Stdlib Require Import Lia.
From stdpp Require Import base list gmap sets fin_maps.
From S2P Require Import Prelude.

Abbreviation addr := nat.

(** ** Memory and computations *)

Section Memory.
Context {cell : Type}.

Abbreviation mem := (gmap addr cell).

(** [None] is a panic. *)
Definition M (A : Type) : Type := mem -> option (A * mem).

Definition mret {A} (x : A) : M A := fun m => Some (x, m).
Definition mbnd {A B} (c : M A) (k : A -> M B) : M B :=
  fun m => match c m with Some (x, m') => k x m' | None => None end.

(** A type whose values are stored in cells. *)
Class Stored (A : Type) := {
  inj : A -> cell;
  prj : cell -> option A;
  prj_inj a : prj (inj a) = Some a;
}.

Definition mnew {A} `{!Stored A} (x : A) : M addr :=
  fun m => let a := fresh (dom m) in Some (a, <[a := inj x]> m).
Definition mload {A} `{!Stored A} (a : addr) : M A :=
  fun m => x ← m !! a ≫= prj; Some (x, m).
Definition mstore {A} `{!Stored A} (a : addr) (x : A) : M unit :=
  fun m => Some (tt, <[a := inj x]> m).

End Memory.

Arguments M : clear implicits.
Arguments Stored : clear implicits.

Declare Scope heap_scope.
Delimit Scope heap_scope with heap.
Notation "'let!' x ':=' c 'in' k" := (mbnd c (fun x => k))
  (at level 10, x name, c at level 100, k at level 200) : heap_scope.
Notation "'do!' c 'in' k" := (mbnd c (fun _ => k))
  (at level 10, c at level 100, k at level 200) : heap_scope.

(** Typed references: pointers, slices (an array, the window on it and the capacity)
    and maps; [None] is nil. *)
Record ptr (A : Type) := Ptr { to_addr : option addr }.
Record window := mkWindow { w_arr : addr; w_off : nat; w_len : nat; w_cap : nat }.
Record slice (A : Type) := Slice { to_window : option window }.
Arguments Ptr {_} _.
Arguments to_addr {_} _.
Arguments Slice {_} _.
Arguments to_window {_} _.
Record gomap (K W : Type) := GoMap { to_map : option addr }.
Arguments GoMap {_ _} _.
Arguments to_map {_ _} _.

Section Ops.
Context {cell : Type}.
Local Open Scope heap_scope.

(** *p *)
Definition pload {A} `{!Stored cell A} (p : ptr A) : M cell A :=
  match to_addr p with Some a => mload a | None => fun _ => None end.

(** make([]T, n), s[i] and s[i] = x *)
Definition smake {A} `{!Stored cell (list A)} (zero : A) (n : nat) : M cell (slice A) :=
  let! a := mnew (replicate n zero) in mret (Slice (Some (mkWindow a 0 n n))).
Definition slen {A} (s : slice A) : nat := from_option w_len 0 (to_window s).
Definition sget {A} `{!Stored cell (list A)} (s : slice A) (i : nat) : M cell A :=
  match to_window s with
  | Some w =>
      if decide (i < w_len w) then
        let! l := mload (w_arr w) in
        match l !! (w_off w + i) with Some x => mret x | None => fun _ => None end
      else fun _ => None
  | None => fun _ => None
  end.
Definition sset {A} `{!Stored cell (list A)} (s : slice A) (i : nat) (x : A) : M cell unit :=
  match to_window s with
  | Some w =>
      if decide (i < w_len w) then
        let! l := mload (w_arr w) in mstore (w_arr w) (<[w_off w + i := x]> (l : list A))
      else fun _ => None
  | None => fun _ => None
  end.

(** for i := range in { in[i].DeepCopyInto(&out[i]) }, from index [i] for [n] elements *)
Fixpoint sloop {A} `{!Stored cell (list A)} (f : A -> M cell A) (src dst : slice A) (i n : nat) : M cell unit :=
  match n with
  | O => mret tt
  | S n' =>
      let! x := sget src i in
      let! y := f x in
      do! sset dst i y in
      sloop f src dst (S i) n'
  end.

(** A field copied when it is not nil; copy(out, in) is the loop with plain assignment. *)
Definition copy_slice {A} `{!Stored cell (list A)} (zero : A) (f : A -> M cell A) (s : slice A) : M cell (slice A) :=
  match to_window s with
  | None => mret s
  | Some _ =>
      let! out := smake zero (slen s) in
      do! sloop f s out 0 (slen s) in
      mret out
  end.

(** The generated DeepCopy of a pointer: nil stays nil, otherwise a new zero value is
    filled in by DeepCopyInto. *)
Definition copy_ptr {A} `{!Stored cell A} (zero : A) (f : A -> M cell A) (p : ptr A) : M cell (ptr A) :=
  match to_addr p with
  | None => mret (Ptr None)
  | Some _ =>
      let! a := mnew zero in
      let! x := pload p in
      let! y := f x in
      do! mstore a y in
      mret (Ptr (Some a))
  end.

(** out[key] = val for every pair that the runtime delivers *)
Fixpoint map_loop {K W} `{Countable K} `{!Stored cell (gmap K W)} (b : addr) (kvs : list (K * W)) : M cell unit :=
  match kvs with
  | [] => mret tt
  | (k, x) :: rest =>
      let! g := mload b in
      do! mstore b (<[k := x]> (g : gmap K W)) in
      map_loop b rest
  end.

(** A map field copied when it is not nil; [order] is the order of range, which Go
    leaves open. *)
Definition copy_map {K W} `{Countable K} `{!Stored cell (gmap K W)} (order : gmap K W -> list (K * W))
    (s : gomap K W) : M cell (gomap K W) :=
  match to_map s with
  | None => mret s
  | Some a =>
      let! b := mnew (∅ : gmap K W) in
      let! g := mload a in
      do! map_loop b (order g) in
      mret (GoMap (Some b))
  end.

End Ops.

(** ** Views *)

Class Deep (cell A V : Type) := {
  view : gmap addr cell -> A -> option V;
  refs : gmap addr cell -> A -> gset addr;
  view_dom m x v : view m x = Some v -> refs m x ⊆ dom m;
  view_local m m' x v : view m x = Some v ->
    (forall a, a ∈ refs m x -> m' !! a = m !! a) -> view m' x = Some v /\ refs m' x = refs m x;
}.
Arguments view {_ _ _ _} _ _.
Arguments refs {_ _ _ _} _ _.

Definition copies {cell A V} `{!Deep cell A V} (f : A -> M cell A) : Prop :=
  forall m x v, view m x = Some v ->
    exists y m', f x m = Some (y, m') /\ m ⊆ m' /\ view m' y = Some v /\ refs m' y ## dom m.

Section Views.
Context {cell : Type}.
Abbreviation mem := (gmap addr cell).

Lemma view_mono {A V} `{!Deep cell A V} m m' (x : A) v :
  view m x = Some v -> m ⊆ m' -> view m' x = Some v /\ refs m' x = refs m x.
Proof.
  intros Hv Hm. apply (view_local _ _ _ _ Hv). intros a Ha. apply (view_dom _ _ _ Hv) in Ha.
  apply elem_of_dom in Ha as [c Hc]. rewrite Hc. by eapply lookup_weaken.
Qed.

(** Writes to the addresses of one value, and new cells, leave a value with other
    addresses alone. *)
Lemma view_separate {A B V W} `{!Deep cell A V} `{!Deep cell B W} m m' (x : A) (y : B) v :
  view m x = Some v -> refs m x ## refs m y ->
  (forall a, a ∈ dom m -> a ∉ refs m y -> m' !! a = m !! a) -> view m' x = Some v.
Proof.
  intros Hv Hd Hm. apply (view_local m m' x v Hv). intros a Ha. pose proof (view_dom _ _ _ Hv). apply Hm; set_solver.
Qed.

(** A value that reaches nothing is its own copy. *)
Lemma copy_self {A V} `{!Deep cell A V} m (x : A) v :
  view m x = Some v -> refs m x = ∅ ->
  exists y m', mret x m = Some (y, m') /\ m ⊆ m' /\ view m' y = Some v /\ refs m' y ## dom m.
Proof. intros Hv Hr. exists x, m. rewrite Hr. split_and!; [done..|]. apply disjoint_empty_l. Qed.

(** Values without references. *)
Class Plain (A : Type) := plain : True.

#[export] Program Instance deep_plain {A} `{!Plain A} : Deep cell A A :=
  {| view _ x := Some x; refs _ _ := ∅ |}.
Next Obligation. set_solver. Qed.
Next Obligation. done. Qed.

Lemma copies_plain {A} `{!Plain A} : copies (mret : A -> M cell A).
Proof. intros m x v Hv. by apply copy_self. Qed.

Lemma fresh_subseteq (m : mem) c : m ⊆ <[fresh (dom m) := c]> m.
Proof. apply insert_subseteq. apply not_elem_of_dom, is_fresh. Qed.

(** Pointers. *)
#[export] Program Instance deep_ptr {A V} `{!Stored cell A} `{!Deep cell A V} : Deep cell (ptr A) (option V) :=
  {| view m p := match to_addr p with
                 | None => Some None
                 | Some a => x ← m !! a ≫= prj; Some <$> view m (x : A)
                 end;
     refs m p := match to_addr p with
                 | None => ∅
                 | Some a => {[a]} ∪ from_option (refs m) ∅ (m !! a ≫= prj : option A)
                 end |}.
Next Obligation.
  intros A V ?? m [[a|]] v; simpl; [|set_solver]. intros Hv.
  destruct (m !! a) as [c|] eqn:Hc; [|done]. simpl in *. destruct (prj c) as [x|]; [|done]. simpl in *.
  destruct (view m x) as [w|] eqn:Hx; [|done]. pose proof (view_dom _ _ _ Hx).
  assert (a ∈ dom m) by (apply elem_of_dom; eauto). set_solver.
Qed.
Next Obligation.
  intros A V ?? m m' [[a|]] v; simpl; [|done]. intros Hv Hm.
  rewrite (Hm a) by set_solver. destruct (m !! a) as [c|] eqn:Hc; [|done]. simpl in *.
  destruct (prj c) as [x|]; [|done]. simpl in *. destruct (view m x) as [w|] eqn:Hx; [|done].
  destruct (view_local m m' x w Hx) as [Hx' Hr]; [intros; apply Hm; set_solver|]. by rewrite Hx', Hr.
Qed.

(** A fresh cell written after a computation that could not reach it. *)
Lemma fill_fresh {A V} `{!Deep cell A V} (m m2 : mem) a c0 c (y : A) v :
  a ∉ dom m -> <[a := c0]> m ⊆ m2 -> view m2 y = Some v -> a ∉ refs m2 y ->
  m ⊆ <[a := c]> m2 /\ view (<[a := c]> m2) y = Some v /\ refs (<[a := c]> m2) y = refs m2 y.
Proof.
  intros Ha Hm Hv Hr. apply not_elem_of_dom in Ha. split.
  - apply map_subseteq_spec. intros b d Hb. destruct (decide (b = a)) as [->|Hne]; [congruence|].
    rewrite lookup_insert_ne by done. eapply lookup_weaken; [|exact Hm]. by rewrite lookup_insert_ne.
  - apply (view_local _ _ _ _ Hv). intros b Hb. apply lookup_insert_ne. set_solver.
Qed.

Lemma copies_ptr {A V} `{!Stored cell A} `{!Deep cell A V} zero (f : A -> M cell A) :
  copies f -> copies (copy_ptr zero f).
Proof.
  intros Hf m [[a|]] v Hv; [|by apply copy_self]. cbn in Hv. unfold copy_ptr, mbnd, mnew, pload, mload. simpl.
  set (b := fresh (dom m)). assert (Hb : b ∉ dom m) by apply is_fresh.
  destruct (m !! a) as [c|] eqn:Hc; [|done]. simpl in Hv. destruct (prj c) as [x|] eqn:Hx; [|done]. simpl in Hv.
  assert (Hba : b <> a) by (intros <-; by apply Hb, elem_of_dom). rewrite lookup_insert_ne, Hc by done. simpl.
  rewrite Hx. simpl. destruct (view m x) as [w|] eqn:Hw; [|done]. simpl in Hv. injection Hv as <-.
  assert (Hm1 : m ⊆ <[b := inj zero]> m) by apply fresh_subseteq.
  destruct (view_mono _ _ _ _ Hw Hm1) as [Hw1 _].
  destruct (Hf _ _ _ Hw1) as (y & m2 & -> & Hm2 & Hy & Hd). simpl.
  assert (Hby : b ∉ refs m2 y) by (rewrite dom_insert_L in Hd; set_solver).
  destruct (fill_fresh m m2 b _ (inj y) y w Hb Hm2 Hy Hby) as (Hm & Hy3 & Hr3).
  eexists _, _. split; [done|]. split; [done|]. cbn. rewrite lookup_insert_eq. simpl. rewrite prj_inj. simpl.
  rewrite Hy3, Hr3. split; [done|]. rewrite dom_insert_L in Hd. set_solver.
Qed.

(** Slices. *)
Definition elems {A} (w : window) (l : list A) : list A := take (w_len w) (drop (w_off w) l).

Definition refs_list {A V} `{!Deep cell A V} (m : mem) (l : list A) : gset addr := ⋃ (refs m <$> l).

Lemma refs_list_cons {A V} `{!Deep cell A V} m (x : A) l : refs_list m (x :: l) = refs m x ∪ refs_list m l.
Proof. done. Qed.

Lemma refs_list_app {A V} `{!Deep cell A V} m (l k : list A) : refs_list m (l ++ k) = refs_list m l ∪ refs_list m k.
Proof.
  induction l as [|x l IH]; [symmetry; apply (left_id_L ∅ (∪))|].
  rewrite <- app_comm_cons, !refs_list_cons, IH. by rewrite (assoc_L (∪)).
Qed.

Lemma views_dom {A V} `{!Deep cell A V} m (l : list A) vs :
  mapM (view m) l = Some vs -> refs_list m l ⊆ dom m.
Proof.
  intros Hl. apply mapM_Some in Hl. induction Hl as [|x v l vs Hx Hl IH]; [apply empty_subseteq|].
  rewrite refs_list_cons. pose proof (view_dom _ _ _ Hx). set_solver.
Qed.

Lemma views_local {A V} `{!Deep cell A V} m m' (l : list A) vs :
  mapM (view m) l = Some vs -> (forall a, a ∈ refs_list m l -> m' !! a = m !! a) ->
  mapM (view m') l = Some vs /\ refs_list m' l = refs_list m l.
Proof.
  intros Hl. apply mapM_Some in Hl. induction Hl as [|x v l vs Hx Hl IH]; intros Hm; [done|].
  rewrite refs_list_cons in Hm. destruct (view_local m m' x v Hx) as [Hx' Hr]; [set_solver|].
  destruct IH as [IH1 IH2]; [set_solver|]. rewrite !refs_list_cons, Hr, IH2. split; [|done].
  apply mapM_Some. constructor; [done|]. by apply mapM_Some.
Qed.

#[export] Program Instance deep_slice {A V} `{!Stored cell (list A)} `{!Deep cell A V} :
    Deep cell (slice A) (option (list V)) :=
  {| view m s := match to_window s with
                 | None => Some None
                 | Some w =>
                     l ← m !! w_arr w ≫= prj;
                     if decide (w_off w + w_len w <= length (l : list A))
                     then Some <$> mapM (view m) (elems w l) else None
                 end;
     refs m s := match to_window s with
                 | None => ∅
                 | Some w => {[w_arr w]} ∪ from_option (fun l => refs_list m (elems w l)) ∅
                                             (m !! w_arr w ≫= prj : option (list A))
                 end |}.
Next Obligation.
  intros A V ?? m [[w|]] v; simpl; [|set_solver]. intros Hv.
  destruct (m !! w_arr w) as [c|] eqn:Hc; [|done]. simpl in *. destruct (prj c) as [l|]; [|done]. simpl in *.
  destruct (decide _); [|done]. destruct (mapM _ _) as [vs|] eqn:Hl; [|done].
  apply views_dom in Hl. assert (w_arr w ∈ dom m) by (apply elem_of_dom; eauto). set_solver.
Qed.
Next Obligation.
  intros A V ?? m m' [[w|]] v; simpl; [|done]. intros Hv Hm.
  rewrite (Hm (w_arr w)) by set_solver. destruct (m !! w_arr w) as [c|] eqn:Hc; [|done]. simpl in *.
  destruct (prj c) as [l|]; [|done]. simpl in *. destruct (decide _); [|done].
  destruct (mapM _ _) as [vs|] eqn:Hl; [|done]. simpl in *.
  destruct (views_local m m' _ vs Hl) as [Hl' Hr]; [intros; apply Hm; set_solver|].
  by rewrite Hl', Hr.
Qed.

Lemma views_mono {A V} `{!Deep cell A V} m m' (l : list A) vs :
  mapM (view m) l = Some vs -> m ⊆ m' -> mapM (view m') l = Some vs /\ refs_list m' l = refs_list m l.
Proof.
  intros Hl Hm. apply (views_local _ _ _ _ Hl). intros a Ha. apply (views_dom _ _ _ Hl) in Ha.
  apply elem_of_dom in Ha as [c Hc]. rewrite Hc. by eapply lookup_weaken.
Qed.

Section Loop.
Context {A V : Type} `{!Stored cell (list A)} `{!Deep cell A V} (zero : A) (f : A -> M cell A).
Context (Hf : copies f) (m0 : mem) (w : window) (c : cell) (l : list A) (vs : list V) (b : addr).
Context (Hc : m0 !! w_arr w = Some c) (Hprj : prj c = Some l) (Hw : w_off w + w_len w <= length l).
Context (Hvs : mapM (view m0) (elems w l) = Some vs) (Hb : b ∉ dom m0).

Let dst : slice A := Slice (Some (mkWindow b 0 (w_len w) (w_len w))).

(** After [length ys] iterations: the array holds the copies so far. *)
Record loop_inv (ys : list A) (m : mem) : Prop := {
  li_old : m0 ⊆ m;
  li_arr : m !! b = Some (inj (ys ++ replicate (w_len w - length ys) zero));
  li_view : mapM (view m) ys = Some (take (length ys) vs);
  li_refs : refs_list m ys ## {[b]} ∪ dom m0;
}.

Lemma length_vs : length vs = w_len w.
Proof using Hvs Hw. rewrite <- (length_mapM _ _ _ Hvs). unfold elems. rewrite length_take, length_drop. lia. Qed.

(** The element at an index below the length, and its view. *)
Lemma elem_view i : i < w_len w -> exists x v, l !! (w_off w + i) = Some x /\ vs !! i = Some v /\ view m0 x = Some v.
Proof using Hvs Hw.
  intros Hi. assert (Hlt : i < length (elems w l)) by (unfold elems; rewrite length_take, length_drop; lia).
  apply lookup_lt_is_Some in Hlt as [x Hx]. apply mapM_Some in Hvs as Hall.
  destruct (Forall2_lookup_l _ _ _ _ _ Hall Hx) as (v & Hv & Hxv). exists x, v.
  split; [|done]. unfold elems in Hx. rewrite lookup_take_lt in Hx by done. by rewrite lookup_drop in Hx.
Qed.

Lemma loop_step ys m :
  loop_inv ys m -> length ys < w_len w ->
  exists y m', (forall k, sloop f (Slice (Some w)) dst (length ys) (S k) m =
                          sloop f (Slice (Some w)) dst (length (ys ++ [y])) k m') /\ loop_inv (ys ++ [y]) m'.
Proof using Hf Hc Hprj Hw Hvs Hb.
  intros [Hold Harr Hview Hrefs] Hi. destruct (elem_view _ Hi) as (x & v & Hx & Hv & Hxv).
  destruct (view_mono _ _ _ _ Hxv Hold) as [Hxm _]. destruct (Hf _ _ _ Hxm) as (y & m1 & Hy & Hm1 & Hyv & Hyd).
  assert (Hmb : b ∈ dom m) by (apply elem_of_dom; eauto).
  assert (Hdom : dom m0 ⊆ dom m) by (by apply subseteq_dom).
  exists y, (<[b := inj (<[length ys := y]> (ys ++ replicate (w_len w - length ys) zero))]> m1). split.
  - intros k. simpl. unfold mbnd at 1, sget. simpl. rewrite decide_True by done.
    unfold mbnd at 1, mload. rewrite (lookup_weaken _ _ _ _ Hc Hold). simpl. rewrite Hprj. simpl. rewrite Hx.
    unfold mret at 1, mbnd at 1. rewrite Hy. unfold mbnd at 1, sset. simpl. rewrite decide_True by done.
    unfold mbnd, mload. rewrite (lookup_weaken _ _ _ _ Harr Hm1). simpl. rewrite prj_inj. simpl.
    by rewrite length_app, Nat.add_1_r.
  - destruct (views_mono _ _ _ _ Hview Hm1) as [Hview1 Hr1].
    assert (Hall : mapM (view m1) (ys ++ [y]) = Some (take (length (ys ++ [y])) vs)).
    { rewrite length_app, Nat.add_1_r. rewrite (take_S_r _ _ _ Hv). apply mapM_Some.
      apply Forall2_app; [by apply mapM_Some|by constructor]. }
    assert (Hr : refs_list m1 (ys ++ [y]) ## {[b]} ∪ dom m0).
    { rewrite refs_list_app, refs_list_cons, Hr1. change (refs_list m1 []) with (∅ : gset addr). set_solver. }
    set (arr := inj _). destruct (views_local m1 (<[b := arr]> m1) _ _ Hall) as [Hv2 Hr2].
    { intros a Ha. apply lookup_insert_ne. set_solver. }
    split; [|rewrite lookup_insert_eq; unfold arr|done|by rewrite Hr2].
    + apply map_subseteq_spec. intros a d Ha. destruct (decide (a = b)) as [->|Hne];
        [exfalso; by apply Hb, elem_of_dom|].
      rewrite lookup_insert_ne by done. eapply lookup_weaken; [|exact Hm1]. by eapply lookup_weaken.
    + do 2 f_equal. rewrite length_app, Nat.add_1_r. simpl.
      replace (w_len w - length ys) with (S (w_len w - S (length ys))) by lia.
      rewrite <- (Nat.add_0_r (length ys)) at 1. rewrite insert_app_r, <- app_assoc. done.
Qed.

Lemma loop_run k : forall ys m,
  loop_inv ys m -> length ys + k = w_len w ->
  exists ys' m', sloop f (Slice (Some w)) dst (length ys) k m = Some (tt, m') /\
    loop_inv ys' m' /\ length ys' = w_len w.
Proof using Hf Hc Hprj Hw Hvs Hb.
  induction k as [|k IH]; intros ys m Hinv Hlen.
  - exists ys, m. split_and!; [done|done|lia].
  - destruct (loop_step _ _ Hinv) as (y & m1 & -> & Hinv1); [lia|]. apply (IH _ _ Hinv1).
    rewrite length_app. simpl. lia.
Qed.

End Loop.

Lemma copies_slice {A V} `{!Stored cell (list A)} `{!Deep cell A V} zero (f : A -> M cell A) :
  copies f -> copies (copy_slice zero f).
Proof.
  intros Hf m0 [[w|]] v Hv; [|by apply copy_self]. cbn in Hv. destruct (m0 !! w_arr w) as [c|] eqn:Hc; [|done]. simpl in Hv.
  destruct (prj c) as [l|] eqn:Hprj; [|done]. simpl in Hv. destruct (decide _) as [Hw|]; [|done].
  destruct (mapM (view m0) (elems w l)) as [vs|] eqn:Hvs; [|done]. simpl in Hv. injection Hv as <-.
  set (b := fresh (dom m0)). assert (Hb : b ∉ dom m0) by apply is_fresh.
  assert (Hinv : loop_inv (V := V) zero m0 w vs b [] (<[b := inj (replicate (w_len w) zero)]> m0)).
  { split; [apply fresh_subseteq| |done|apply disjoint_empty_l].
    rewrite lookup_insert_eq. by rewrite Nat.sub_0_r. }
  destruct (loop_run zero f Hf m0 w c l vs b Hc Hprj Hw Hvs Hb (w_len w) [] _ Hinv) 
    as (ys & m' & Hrun & [Ho Ha Hy Hr] & Hl); [done|].
  exists (Slice (Some (mkWindow b 0 (w_len w) (w_len w)))), m'. split.
  - unfold copy_slice, smake, slen, mbnd, mnew. simpl. fold b. simpl in Hrun. by rewrite Hrun.
  - split; [done|]. cbn. rewrite Ha. simpl. rewrite prj_inj. simpl.
    replace (w_len w - length ys) with 0 by lia. simpl. rewrite app_nil_r. rewrite decide_True by lia.
    unfold elems. simpl. rewrite drop_0, (take_ge ys) by lia. rewrite Hy. split; [|set_solver].
    rewrite (take_ge vs); [done|]. rewrite (length_vs m0 w l vs Hw Hvs). lia.
Qed.

(** Maps of plain values. *)
#[export] Program Instance deep_map {K W} `{Countable K} `{!Stored cell (gmap K W)} :
    Deep cell (gomap K W) (option (gmap K W)) :=
  {| view m s := match to_map s with None => Some None | Some a => Some <$> (m !! a ≫= prj) end;
     refs m s := match to_map s with None => ∅ | Some a => {[a]} end |}.
Next Obligation.
  intros K W ??? m [[a|]] v; simpl; [|set_solver]. destruct (m !! a) as [c|] eqn:Hc; [|done]. intros _.
  apply singleton_subseteq_l, elem_of_dom. eauto.
Qed.
Next Obligation.
  intros K W ??? m m' [[a|]] v; simpl; [|done]. intros Hv Hm. by rewrite (Hm a) by set_solver.
Qed.

Lemma map_loop_run {K W} `{Countable K} `{!Stored cell (gmap K W)} b (kvs : list (K * W)) : forall m (g : gmap K W),
  m !! b = Some (inj g) ->
  map_loop b kvs m = Some (tt, <[b := inj (foldl (fun g kx => <[fst kx := snd kx]> g) g kvs)]> m).
Proof.
  induction kvs as [|[k x] kvs IH]; intros m g Hb; [unfold map_loop, mret; by rewrite insert_id|].
  cbn [map_loop]. unfold mbnd at 1, mload. rewrite Hb. simpl. rewrite prj_inj. simpl. unfold mbnd, mstore.
  rewrite (IH _ (<[k := x]> g)) by apply lookup_insert_eq. by rewrite insert_insert_eq.
Qed.

Lemma foldl_inserts {K W} `{Countable K} (kvs : list (K * W)) : forall g : gmap K W,
  NoDup kvs.*1 -> foldl (fun g kx => <[fst kx := snd kx]> g) g kvs = list_to_map kvs ∪ g.
Proof.
  induction kvs as [|[k x] kvs IH]; intros g Hnd; simpl; [by rewrite map_empty_union|].
  apply NoDup_cons in Hnd as [Hk Hnd]. rewrite (IH _ Hnd), <- insert_union_r, insert_union_l; [done|].
  by apply not_elem_of_list_to_map_1.
Qed.

Lemma copies_map {K W} `{Countable K} `{!Stored cell (gmap K W)} (order : gmap K W -> list (K * W)) :
  (forall g, order g ≡ₚ map_to_list g) -> copies (copy_map order).
Proof.
  intros Hord m [[a|]] v Hv; [|by apply copy_self]. cbn in Hv. destruct (m !! a) as [c|] eqn:Hc; [|done]. simpl in Hv.
  destruct (prj c) as [g|] eqn:Hg; [|done]. simpl in Hv. injection Hv as <-.
  set (b := fresh (dom m)). assert (Hb : b ∉ dom m) by apply is_fresh.
  assert (Hba : b <> a) by (intros <-; by apply Hb, elem_of_dom).
  exists (GoMap (Some b)), (<[b := inj g]> m). split; [|split; [apply fresh_subseteq|]].
  - unfold copy_map, mbnd, mnew, mload. simpl. fold b. rewrite lookup_insert_ne, Hc by done. simpl. rewrite Hg. simpl.
    rewrite (map_loop_run b (order g) _ ∅) by apply lookup_insert_eq. unfold mret. rewrite insert_insert_eq.
    rewrite foldl_inserts by (rewrite Hord; apply NoDup_fst_map_to_list). rewrite map_union_empty.
    rewrite (list_to_map_proper (order g) (map_to_list g)), list_to_map_to_list; [done| |done].
    rewrite Hord. apply NoDup_fst_map_to_list.
  - cbn. rewrite lookup_insert_eq. simpl. rewrite prj_inj. split; [done|]. set_solver.
Qed.

(** ** Structs: one field after the other *)

Definition copied {A V} `{!Deep cell A V} (m0 m : mem) (y : A) (v : V) : Prop :=
  view m y = Some v /\ refs m y ## dom m0.

Lemma copied_mono {A V} `{!Deep cell A V} m0 m m' (y : A) v : copied m0 m y v -> m ⊆ m' -> copied m0 m' y v.
Proof. intros [Hv Hr] Hm. destruct (view_mono _ _ _ _ Hv Hm) as [Hv' Hr']. split; [done|]. by rewrite Hr'. Qed.

Lemma copies_at {A V} `{!Deep cell A V} (f : A -> M cell A) m0 m x v :
  copies f -> view m0 x = Some v -> m0 ⊆ m ->
  exists y m', f x m = Some (y, m') /\ m0 ⊆ m' /\ m ⊆ m' /\ copied m0 m' y v.
Proof.
  intros Hf Hv Hm. destruct (view_mono _ _ _ _ Hv Hm) as [Hv' _].
  destruct (Hf _ _ _ Hv') as (y & m' & Hy & Hm' & Hyv & Hyd). exists y, m'. apply subseteq_dom in Hm as Hd.
  split; [done|]. split; [by transitivity m|]. split; [done|]. split; [done|set_solver].
Qed.

(** Pairs, and structs seen as the pair of their fields that hold references. *)
#[export] Program Instance deep_pair {A B V W} `{!Deep cell A V} `{!Deep cell B W} : Deep cell (A * B) (V * W) :=
  {| view m x := v ← view m (fst x); w ← view m (snd x); Some (v, w);
     refs m x := refs m (fst x) ∪ refs m (snd x) |}.
Next Obligation.
  intros A B V W ?? m [x y] v; simpl. destruct (view m x) eqn:Hx; [|done]. destruct (view m y) eqn:Hy; [|done].
  intros _. pose proof (view_dom _ _ _ Hx). pose proof (view_dom _ _ _ Hy). set_solver.
Qed.
Next Obligation.
  intros A B V W ?? m m' [x y] v; simpl. destruct (view m x) eqn:Hx; [|done]. destruct (view m y) eqn:Hy; [|done].
  simpl. intros Hv Hm. destruct (view_local m m' x _ Hx) as [-> ->]; [set_solver|].
  by destruct (view_local m m' y _ Hy) as [-> ->]; [set_solver|].
Qed.

Program Definition deep_via {R A V W} `{!Deep cell A V} (to : R -> A) (back : R -> V -> W) : Deep cell R W :=
  {| view m r := back r <$> view m (to r); refs m r := refs m (to r) |}.
Next Obligation.
  intros R A V W ? to back m r v; simpl. destruct (view m (to r)) eqn:Hr; [|done]. intros _. by apply view_dom in Hr.
Qed.
Next Obligation.
  intros R A V W ? to back m m' r v; simpl. destruct (view m (to r)) eqn:Hr; [|done]. intros Hv Hm.
  by destruct (view_local m m' _ _ Hr Hm) as [-> ->].
Qed.

Lemma view_pair {A B V W} `{!Deep cell A V} `{!Deep cell B W} m (x : A) (y : B) p :
  view m (x, y) = Some p -> exists v w, p = (v, w) /\ view m x = Some v /\ view m y = Some w.
Proof.
  cbn. destruct (view m x) as [v|]; [|done]. destruct (view m y) as [w|]; [|done]. simpl. intros [= <-]. eauto.
Qed.

Lemma copied_pair {A B V W} `{!Deep cell A V} `{!Deep cell B W} m0 m (x : A) (y : B) v w :
  copied m0 m x v -> copied m0 m y w -> copied m0 m (x, y) (v, w).
Proof. intros [Hx Hxr] [Hy Hyr]. split; cbn; [by rewrite Hx, Hy|set_solver]. Qed.

Lemma copied_via {R A V W} `{!Deep cell A V} (to : R -> A) (back : R -> V -> W) m0 m r v w :
  copied m0 m (to r) v -> back r v = w -> copied (Deep0 := deep_via to back) m0 m r w.
Proof. intros [Hv Hr] <-. split; cbn; [by rewrite Hv|done]. Qed.

Lemma view_via {R A V W} `{!Deep cell A V} (to : R -> A) (back : R -> V -> W) m r w :
  @view _ _ _ (deep_via to back) m r = Some w -> exists v, view m (to r) = Some v /\ w = back r v.
Proof. cbn. destruct (view m (to r)) as [v|]; [|done]. intros [= <-]. eauto. Qed.

Lemma copies_intro {A V} `{!Deep cell A V} (f : A -> M cell A) :
  (forall m x v, view m x = Some v -> exists y m', f x m = Some (y, m') /\ m ⊆ m' /\ copied m m' y v) -> copies f.
Proof. intros H m x v Hv. destruct (H _ _ _ Hv) as (y & m' & ? & ? & ? & ?). eauto 6. Qed.

End Views.

(** The copy of the next field, at the computation the goal has come to. *)
Ltac copy_field H :=
  lazymatch goal with
  | Hv : view ?m0 ?x = Some ?v, Hm : ?m0 ⊆ ?m |- exists y m', mbnd (?f ?x) _ ?m = _ /\ _ =>
      let y := fresh "y" in let m1 := fresh "m" in let E := fresh in let Hc := fresh "Hc" in
      let Hle := fresh in
      destruct (copies_at f m0 m x v H Hv Hm) as (y & m1 & E & ?Hm & Hle & Hc);
      unfold mbnd at 1; rewrite E; clear E;
      repeat match goal with Hc' : copied m0 m _ _ |- _ => apply (copied_mono _ _ m1) in Hc'; [|exact Hle] end;
      clear Hm
  end.

Arguments Plain : clear implicits.
