(* ===== verification/DeepCopy.v ===== *)
(** * DeepCopy: the generated copy functions (api/v1alpha1/zz_generated.deepcopy.go)

    The structs of the API package with their references: slices, a map, pointers to
    times.  Each struct is a record over the types of the fields that hold references,
    so that one record gives both the Go struct and its view.  A DeepCopyInto returns
    the value it leaves in *out: first *in, then the fields copied one after the other.

    The copy functions of k8s.io/apimachinery (ObjectMeta, ListMeta, Condition, Time) and
    their types are parameters, with the documented behaviour of a deep copy. *)

From Stdlib Require Import ZArith.
From stdpp Require Import base list strings gmap sets.
From S2P Require Import Prelude GoLib K8s ApiTypes Heap.

Local Open Scope heap_scope.

(** ** The structs *)

Record TypeMeta := mkTypeMeta { tm_Kind : string; tm_APIVersion : string }.

Record LosantSyncSpecOf (workflows : Type) := mkSpec {
  s_ApplicationID : string;
  s_ProvisioningSecretRef : SecretRef;
  s_ClusterName : string;
  s_Region : string;
  s_RancherURL : string;
  s_CronSchedule : string;
  s_Interval : string;
  s_GEA : GEASpec;
  s_DeviceRecipeID : string;
  s_WorkflowDeployments : workflows;
  s_Tags : ClusterTags;
  s_Suspend : bool;
}.

Record LosantSyncStatusOf (conds nodes time : Type) := mkStatus {
  t_Phase : string;
  t_Conditions : conds;
  t_ClusterDeviceID : string;
  t_NodeDevices : nodes;
  t_LastSyncTime : time;
  t_NextScheduledTime : time;
}.

Record RancherSessionStatusOf (time conds : Type) := mkRStatus {
  r_Phase : string;
  r_RancherClusterID : string;
  r_ManifestApplied : bool;
  r_ConnectedAt : time;
  r_ExpiresAt : time;
  r_Conditions : conds;
  r_LastTransitionMessage : string;
}.

(** LosantSync and RancherSession, and their lists. *)
Record ObjectOf (meta spec status : Type) := mkObj {
  o_TypeMeta : TypeMeta;
  o_ObjectMeta : meta;
  o_Spec : spec;
  o_Status : status;
}.

Record ListOf (meta items : Type) := mkList {
  l_TypeMeta : TypeMeta;
  l_ListMeta : meta;
  l_Items : items;
}.

Arguments mkSpec {_}.
Arguments s_ApplicationID {_}.
Arguments s_ProvisioningSecretRef {_}.
Arguments s_ClusterName {_}.
Arguments s_Region {_}.
Arguments s_RancherURL {_}.
Arguments s_CronSchedule {_}.
Arguments s_Interval {_}.
Arguments s_GEA {_}.
Arguments s_DeviceRecipeID {_}.
Arguments s_WorkflowDeployments {_}.
Arguments s_Tags {_}.
Arguments s_Suspend {_}.
Arguments mkStatus {_ _ _}.
Arguments t_Phase {_ _ _}.
Arguments t_Conditions {_ _ _}.
Arguments t_ClusterDeviceID {_ _ _}.
Arguments t_NodeDevices {_ _ _}.
Arguments t_LastSyncTime {_ _ _}.
Arguments t_NextScheduledTime {_ _ _}.
Arguments mkRStatus {_ _}.
Arguments r_Phase {_ _}.
Arguments r_RancherClusterID {_ _}.
Arguments r_ManifestApplied {_ _}.
Arguments r_ConnectedAt {_ _}.
Arguments r_ExpiresAt {_ _}.
Arguments r_Conditions {_ _}.
Arguments r_LastTransitionMessage {_ _}.
Arguments mkObj {_ _ _}.
Arguments o_TypeMeta {_ _ _}.
Arguments o_ObjectMeta {_ _ _}.
Arguments o_Spec {_ _ _}.
Arguments o_Status {_ _ _}.
Arguments mkList {_ _}.
Arguments l_TypeMeta {_ _}.
Arguments l_ListMeta {_ _}.
Arguments l_Items {_ _}.

(** The assignments the copy functions make to a field of *out. *)
Definition set_WorkflowDeployments {W W'} (s : LosantSyncSpecOf W) (w : W') : LosantSyncSpecOf W' :=
  mkSpec (s_ApplicationID s) (s_ProvisioningSecretRef s) (s_ClusterName s) (s_Region s) (s_RancherURL s)
    (s_CronSchedule s) (s_Interval s) (s_GEA s) (s_DeviceRecipeID s) w (s_Tags s) (s_Suspend s).
Definition set_status {C N T C' N' T'} (s : LosantSyncStatusOf C N T) (c : C') (n : N') (l t : T') :
    LosantSyncStatusOf C' N' T' :=
  mkStatus (t_Phase s) c (t_ClusterDeviceID s) n l t.
Definition set_rstatus {T C T' C'} (s : RancherSessionStatusOf T C) (a e : T') (c : C') : RancherSessionStatusOf T' C' :=
  mkRStatus (r_Phase s) (r_RancherClusterID s) (r_ManifestApplied s) a e c (r_LastTransitionMessage s).

#[export] Instance plain_tags : Plain ClusterTags := I.
#[export] Instance plain_gea : Plain GEASpec := I.
#[export] Instance plain_ref : Plain SecretRef := I.
#[export] Instance plain_wd : Plain WorkflowDeployment := I.
#[export] Instance plain_rspec : Plain RancherSessionSpec := I.
#[export] Instance plain_time : Plain Z := I.

Section DeepCopy.
(** The types of apimachinery, and what else its values keep in memory. *)
Context {Condition' Meta LMeta Extra : Type}.

Definition Spec : Type := LosantSyncSpecOf (slice WorkflowDeployment).
Definition Status : Type := LosantSyncStatusOf (slice Condition') (gomap string string) (ptr Z).
Definition RStatus : Type := RancherSessionStatusOf (ptr Z) (slice Condition').
Definition LSync : Type := ObjectOf Meta Spec Status.
Definition RSession : Type := ObjectOf Meta RancherSessionSpec RStatus.
Definition LSyncList : Type := ListOf LMeta (slice LSync).
Definition RSessionList : Type := ListOf LMeta (slice RSession).

Inductive cell :=
| CTime (t : Z)
| CNodes (g : gmap string string)
| CConds (l : list Condition')
| CWorkflows (l : list WorkflowDeployment)
| CSyncs (l : list LSync)
| CSessions (l : list RSession)
| CTags (x : ClusterTags)
| CGEA (x : GEASpec)
| CRef (x : SecretRef)
| CWorkflow (x : WorkflowDeployment)
| CSpec (x : Spec)
| CStatus (x : Status)
| CSync (x : LSync)
| CSyncList (x : LSyncList)
| CRSpec (x : RancherSessionSpec)
| CRStatus (x : RStatus)
| CSession (x : RSession)
| CSessionList (x : RSessionList)
| CExtra (x : Extra).

#[export] Instance st_Time : Stored cell Z :=
  {| inj := CTime; prj c := match c with CTime x => Some x | _ => None end; prj_inj _ := eq_refl |}.
#[export] Instance st_Nodes : Stored cell (gmap string string) :=
  {| inj := CNodes; prj c := match c with CNodes x => Some x | _ => None end; prj_inj _ := eq_refl |}.
#[export] Instance st_Conds : Stored cell (list Condition') :=
  {| inj := CConds; prj c := match c with CConds x => Some x | _ => None end; prj_inj _ := eq_refl |}.
#[export] Instance st_Workflows : Stored cell (list WorkflowDeployment) :=
  {| inj := CWorkflows; prj c := match c with CWorkflows x => Some x | _ => None end; prj_inj _ := eq_refl |}.
#[export] Instance st_Syncs : Stored cell (list LSync) :=
  {| inj := CSyncs; prj c := match c with CSyncs x => Some x | _ => None end; prj_inj _ := eq_refl |}.
#[export] Instance st_Sessions : Stored cell (list RSession) :=
  {| inj := CSessions; prj c := match c with CSessions x => Some x | _ => None end; prj_inj _ := eq_refl |}.
#[export] Instance st_Tags : Stored cell ClusterTags :=
  {| inj := CTags; prj c := match c with CTags x => Some x | _ => None end; prj_inj _ := eq_refl |}.
#[export] Instance st_GEA : Stored cell GEASpec :=
  {| inj := CGEA; prj c := match c with CGEA x => Some x | _ => None end; prj_inj _ := eq_refl |}.
#[export] Instance st_Ref : Stored cell SecretRef :=
  {| inj := CRef; prj c := match c with CRef x => Some x | _ => None end; prj_inj _ := eq_refl |}.
#[export] Instance st_Workflow : Stored cell WorkflowDeployment :=
  {| inj := CWorkflow; prj c := match c with CWorkflow x => Some x | _ => None end; prj_inj _ := eq_refl |}.
#[export] Instance st_Spec : Stored cell Spec :=
  {| inj := CSpec; prj c := match c with CSpec x => Some x | _ => None end; prj_inj _ := eq_refl |}.
#[export] Instance st_Status : Stored cell Status :=
  {| inj := CStatus; prj c := match c with CStatus x => Some x | _ => None end; prj_inj _ := eq_refl |}.
#[export] Instance st_Sync : Stored cell LSync :=
  {| inj := CSync; prj c := match c with CSync x => Some x | _ => None end; prj_inj _ := eq_refl |}.
#[export] Instance st_SyncList : Stored cell LSyncList :=
  {| inj := CSyncList; prj c := match c with CSyncList x => Some x | _ => None end; prj_inj _ := eq_refl |}.
#[export] Instance st_RSpec : Stored cell RancherSessionSpec :=
  {| inj := CRSpec; prj c := match c with CRSpec x => Some x | _ => None end; prj_inj _ := eq_refl |}.
#[export] Instance st_RStatus : Stored cell RStatus :=
  {| inj := CRStatus; prj c := match c with CRStatus x => Some x | _ => None end; prj_inj _ := eq_refl |}.
#[export] Instance st_Session : Stored cell RSession :=
  {| inj := CSession; prj c := match c with CSession x => Some x | _ => None end; prj_inj _ := eq_refl |}.
#[export] Instance st_SessionList : Stored cell RSessionList :=
  {| inj := CSessionList; prj c := match c with CSessionList x => Some x | _ => None end; prj_inj _ := eq_refl |}.
#[export] Instance st_Extra : Stored cell Extra :=
  {| inj := CExtra; prj c := match c with CExtra x => Some x | _ => None end; prj_inj _ := eq_refl |}.

(** ** Views of the structs *)

Context {ConditionV MetaV LMetaV : Type}.
Context `{!Deep cell Condition' ConditionV} `{!Deep cell Meta MetaV} `{!Deep cell LMeta LMetaV}.

#[export] Instance deep_Spec : Deep cell Spec (LosantSyncSpecOf (option (list WorkflowDeployment))) :=
  deep_via s_WorkflowDeployments set_WorkflowDeployments.
#[export] Instance deep_Status :
    Deep cell Status (LosantSyncStatusOf (option (list ConditionV)) (option (gmap string string)) (option Z)) :=
  deep_via (fun s => (t_Conditions s, (t_NodeDevices s, (t_LastSyncTime s, t_NextScheduledTime s))))
    (fun s '(c, (n, (l, t))) => set_status s c n l t).
#[export] Instance deep_RStatus : Deep cell RStatus (RancherSessionStatusOf (option Z) (option (list ConditionV))) :=
  deep_via (fun s => (r_ConnectedAt s, (r_ExpiresAt s, r_Conditions s))) (fun s '(a, (e, c)) => set_rstatus s a e c).
#[export] Instance deep_Object {S SV T TV} `{!Deep cell S SV} `{!Deep cell T TV} :
    Deep cell (ObjectOf Meta S T) (ObjectOf MetaV SV TV) :=
  deep_via (fun o => (o_ObjectMeta o, (o_Spec o, o_Status o))) (fun o '(m, (s, t)) => mkObj (o_TypeMeta o) m s t).
#[export] Instance deep_List {I IV} `{!Deep cell I IV} : Deep cell (ListOf LMeta I) (ListOf LMetaV IV) :=
  deep_via (fun l => (l_ListMeta l, l_Items l)) (fun l '(m, i) => mkList (l_TypeMeta l) m i).

(** ** The generated functions *)

Context (Condition_DeepCopyInto : Condition' -> M cell Condition').
Context (ObjectMeta_DeepCopyInto : Meta -> M cell Meta) (ListMeta_DeepCopyInto : LMeta -> M cell LMeta).
Context (Time_DeepCopy : ptr Z -> M cell (ptr Z)).
Context (zCondition : Condition') (zMeta : Meta) (zLMeta : LMeta).
Context (order : gmap string string -> list (string * string)).

(** Zero values, which new and make start from. *)
Definition zWorkflow : WorkflowDeployment := mkWD "" "".
Definition zTags : ClusterTags := mkTags "" "" "".
Definition zGEA : GEASpec := mkGEASpec "" 0 "".
Definition zRef : SecretRef := mkSecretRef "" "".
Definition zTypeMeta : TypeMeta := mkTypeMeta "" "".
Definition zSpec : Spec := mkSpec "" zRef "" "" "" "" "" zGEA "" (Slice None) zTags false.
Definition zStatus : Status := mkStatus "" (Slice None) "" (GoMap None) (Ptr None) (Ptr None).
Definition zRSpec : RancherSessionSpec := mkRSSpec zRef "" 0 false.
Definition zRStatus : RStatus := mkRStatus "" "" false (Ptr None) (Ptr None) (Slice None) "".
Definition zSync : LSync := mkObj zTypeMeta zMeta zSpec zStatus.
Definition zSession : RSession := mkObj zTypeMeta zMeta zRSpec zRStatus.
Definition zSyncList : LSyncList := mkList zTypeMeta zLMeta (Slice None).
Definition zSessionList : RSessionList := mkList zTypeMeta zLMeta (Slice None).

(** Structs of plain fields: *out = *in. *)
Definition ClusterTags_DeepCopyInto (in_ : ClusterTags) : M cell ClusterTags := mret in_.
Definition GEASpec_DeepCopyInto (in_ : GEASpec) : M cell GEASpec := mret in_.
Definition SecretRef_DeepCopyInto (in_ : SecretRef) : M cell SecretRef := mret in_.
Definition WorkflowDeployment_DeepCopyInto (in_ : WorkflowDeployment) : M cell WorkflowDeployment := mret in_.
Definition RancherSessionSpec_DeepCopyInto (in_ : RancherSessionSpec) : M cell RancherSessionSpec := mret in_.

(** copy(out, in) assigns the elements. *)
Definition LosantSyncSpec_DeepCopyInto (in_ : Spec) : M cell Spec :=
  let! w := copy_slice zWorkflow mret (s_WorkflowDeployments in_) in
  mret (set_WorkflowDeployments in_ w).

Definition copy_time (p : ptr Z) : M cell (ptr Z) :=
  match to_addr p with None => mret p | Some _ => Time_DeepCopy p end.

Definition LosantSyncStatus_DeepCopyInto (in_ : Status) : M cell Status :=
  let! c := copy_slice zCondition Condition_DeepCopyInto (t_Conditions in_) in
  let! n := copy_map order (t_NodeDevices in_) in
  let! l := copy_time (t_LastSyncTime in_) in
  let! t := copy_time (t_NextScheduledTime in_) in
  mret (set_status in_ c n l t).

Definition LosantSync_DeepCopyInto (in_ : LSync) : M cell LSync :=
  let! m := ObjectMeta_DeepCopyInto (o_ObjectMeta in_) in
  let! s := LosantSyncSpec_DeepCopyInto (o_Spec in_) in
  let! t := LosantSyncStatus_DeepCopyInto (o_Status in_) in
  mret (mkObj (o_TypeMeta in_) m s t).

Definition LosantSyncList_DeepCopyInto (in_ : LSyncList) : M cell LSyncList :=
  let! m := ListMeta_DeepCopyInto (l_ListMeta in_) in
  let! i := copy_slice zSync LosantSync_DeepCopyInto (l_Items in_) in
  mret (mkList (l_TypeMeta in_) m i).

Definition RancherSessionStatus_DeepCopyInto (in_ : RStatus) : M cell RStatus :=
  let! a := copy_time (r_ConnectedAt in_) in
  let! e := copy_time (r_ExpiresAt in_) in
  let! c := copy_slice zCondition Condition_DeepCopyInto (r_Conditions in_) in
  mret (set_rstatus in_ a e c).

(** The spec has no references and is assigned. *)
Definition RancherSession_DeepCopyInto (in_ : RSession) : M cell RSession :=
  let! m := ObjectMeta_DeepCopyInto (o_ObjectMeta in_) in
  let! t := RancherSessionStatus_DeepCopyInto (o_Status in_) in
  mret (mkObj (o_TypeMeta in_) m (o_Spec in_) t).

Definition RancherSessionList_DeepCopyInto (in_ : RSessionList) : M cell RSessionList :=
  let! m := ListMeta_DeepCopyInto (l_ListMeta in_) in
  let! i := copy_slice zSession RancherSession_DeepCopyInto (l_Items in_) in
  mret (mkList (l_TypeMeta in_) m i).

Definition ClusterTags_DeepCopy := copy_ptr zTags ClusterTags_DeepCopyInto.
Definition GEASpec_DeepCopy := copy_ptr zGEA GEASpec_DeepCopyInto.
Definition SecretRef_DeepCopy := copy_ptr zRef SecretRef_DeepCopyInto.
Definition WorkflowDeployment_DeepCopy := copy_ptr zWorkflow WorkflowDeployment_DeepCopyInto.
Definition LosantSyncSpec_DeepCopy := copy_ptr zSpec LosantSyncSpec_DeepCopyInto.
Definition LosantSyncStatus_DeepCopy := copy_ptr zStatus LosantSyncStatus_DeepCopyInto.
Definition LosantSync_DeepCopy := copy_ptr zSync LosantSync_DeepCopyInto.
Definition LosantSyncList_DeepCopy := copy_ptr zSyncList LosantSyncList_DeepCopyInto.
Definition RancherSessionSpec_DeepCopy := copy_ptr zRSpec RancherSessionSpec_DeepCopyInto.
Definition RancherSessionStatus_DeepCopy := copy_ptr zRStatus RancherSessionStatus_DeepCopyInto.
Definition RancherSession_DeepCopy := copy_ptr zSession RancherSession_DeepCopyInto.
Definition RancherSessionList_DeepCopy := copy_ptr zSessionList RancherSessionList_DeepCopyInto.

(** runtime.Object: the nil interface, or a pointer with its dynamic type. *)
Inductive Object' :=
| NilObject
| ObjSync (p : ptr LSync)
| ObjSyncList (p : ptr LSyncList)
| ObjSession (p : ptr RSession)
| ObjSessionList (p : ptr RSessionList).

(** if c := in.DeepCopy(); c != nil { return c }; return nil *)
Definition as_object {A} (wrap : ptr A -> Object') (copy : M cell (ptr A)) : M cell Object' :=
  let! c := copy in
  match to_addr c with Some _ => mret (wrap c) | None => mret NilObject end.

Definition LosantSync_DeepCopyObject (in_ : ptr LSync) := as_object ObjSync (LosantSync_DeepCopy in_).
Definition LosantSyncList_DeepCopyObject (in_ : ptr LSyncList) :=
  as_object ObjSyncList (LosantSyncList_DeepCopy in_).
Definition RancherSession_DeepCopyObject (in_ : ptr RSession) := as_object ObjSession (RancherSession_DeepCopy in_).
Definition RancherSessionList_DeepCopyObject (in_ : ptr RSessionList) :=
  as_object ObjSessionList (RancherSessionList_DeepCopy in_).

(** ** Proofs *)

Context (HCondition : copies Condition_DeepCopyInto).
Context (HMeta : copies ObjectMeta_DeepCopyInto) (HLMeta : copies ListMeta_DeepCopyInto).
Context (HTime : copies Time_DeepCopy).
Context (Horder : forall g, order g ≡ₚ map_to_list g).

Lemma copies_time : copies copy_time.
Proof using HTime. intros m [[a|]] v Hv; [by apply HTime|by apply copy_self]. Qed.

(** The views of the fields of a struct, and the struct of the copied fields. *)
Ltac open_struct f :=
  apply copies_intro; intros m0 x v Hv;
  apply view_via in Hv as (w & Hw & ->);
  repeat match goal with
  | H : view _ (_, _) = Some _ |- _ =>
      let u := fresh "u" in let w' := fresh "w" in let H1 := fresh "Hv" in let H2 := fresh "Hv" in
      apply view_pair in H as (u & w' & -> & H1 & H2)
  end;
  pose proof (reflexivity m0 : m0 ⊆ m0) as Hm; unfold f.
Ltac close_struct :=
  eexists _, _; split; [done|]; split; [done|]; eapply copied_via; [eauto using copied_pair|done].

Lemma copies_Spec : copies LosantSyncSpec_DeepCopyInto.
Proof using.
  open_struct LosantSyncSpec_DeepCopyInto.
  copy_field (copies_slice zWorkflow _ (copies_plain (A := WorkflowDeployment))). close_struct.
Qed.

Lemma copies_Status : copies LosantSyncStatus_DeepCopyInto.
Proof using HCondition HTime Horder.
  open_struct LosantSyncStatus_DeepCopyInto.
  copy_field (copies_slice zCondition _ HCondition). copy_field (copies_map order Horder).
  copy_field copies_time. copy_field copies_time. close_struct.
Qed.

Lemma copies_LosantSync : copies LosantSync_DeepCopyInto.
Proof using HMeta HCondition HTime Horder.
  open_struct LosantSync_DeepCopyInto.
  copy_field HMeta. copy_field copies_Spec. copy_field copies_Status. close_struct.
Qed.

Lemma copies_LosantSyncList : copies LosantSyncList_DeepCopyInto.
Proof using HLMeta HMeta HCondition HTime Horder.
  open_struct LosantSyncList_DeepCopyInto.
  copy_field HLMeta. copy_field (copies_slice zSync _ copies_LosantSync). close_struct.
Qed.

Lemma copies_RStatus : copies RancherSessionStatus_DeepCopyInto.
Proof using HCondition HTime.
  open_struct RancherSessionStatus_DeepCopyInto.
  copy_field copies_time. copy_field copies_time. copy_field (copies_slice zCondition _ HCondition). close_struct.
Qed.

Lemma copies_RancherSession : copies RancherSession_DeepCopyInto.
Proof using HMeta HCondition HTime.
  open_struct RancherSession_DeepCopyInto.
  copy_field HMeta. copy_field copies_RStatus.
  lazymatch goal with Hv : view m0 (o_Spec x) = Some ?u |- exists y m', mret _ ?m = _ /\ _ =>
    assert (copied m0 m (o_Spec x) u) by (split; [done|apply disjoint_empty_l]) end.
  close_struct.
Qed.

Lemma copies_RancherSessionList : copies RancherSessionList_DeepCopyInto.
Proof using HLMeta HMeta HCondition HTime.
  open_struct RancherSessionList_DeepCopyInto.
  copy_field HLMeta. copy_field (copies_slice zSession _ copies_RancherSession). close_struct.
Qed.

(** ** Independence *)

(** A copy that shares nothing with the value it was made from: same view, disjoint
    addresses, nil exactly for nil, and whatever is written through one of the two
    pointers or newly allocated, the other still shows what it showed. *)
Definition independent_copy {A V} `{!Stored cell A} `{!Deep cell A V} (f : ptr A -> M cell (ptr A)) : Prop :=
  forall m p v, view m p = Some v ->
    exists q m', f p m = Some (q, m') /\
      view m' q = Some v /\ view m' p = Some v /\ refs m' q ## refs m' p /\
      (to_addr q = None <-> to_addr p = None) /\
      (forall m2, (forall a, a ∈ dom m' -> a ∉ refs m' q -> m2 !! a = m' !! a) -> view m2 p = Some v) /\
      (forall m2, (forall a, a ∈ dom m' -> a ∉ refs m' p -> m2 !! a = m' !! a) -> view m2 q = Some v).

Lemma view_ptr_nil {A V} `{!Stored cell A} `{!Deep cell A V} m (p : ptr A) v :
  view m p = Some v -> (v = None <-> to_addr p = None).
Proof using.
  destruct p as [[a|]]; cbn; [|intros [= <-]; done]. destruct (m !! a ≫= prj) as [x|]; [|done]. simpl.
  destruct (view m x); [|done]. intros [= <-]. done.
Qed.

Lemma copies_independent {A V} `{!Stored cell A} `{!Deep cell A V} zero (f : A -> M cell A) :
  copies f -> independent_copy (copy_ptr zero f).
Proof using.
  clear HCondition HMeta HLMeta HTime Horder. intros Hf m p v Hv. destruct (copies_ptr zero f Hf m p v Hv) as (q & m' & Hq & Hm & Hqv & Hd).
  destruct (view_mono _ _ _ _ Hv Hm) as [Hv' Hr]. pose proof (view_dom _ _ _ Hv) as Hdom.
  assert (Hsep : refs m' q ## refs m' p) by (rewrite Hr; clear -Hd Hdom; set_solver).
  exists q, m'. split; [done|]. split; [done|]. split; [done|]. split; [done|].
  split; [by rewrite <- (view_ptr_nil _ _ _ Hqv), <- (view_ptr_nil _ _ _ Hv)|].
  split; intros m2 Hm2; [by eapply (view_separate m' m2 p q)|by eapply (view_separate m' m2 q p)].
Qed.

(** C31: DeepCopy of every type of the API package, lists of objects included, does not
    panic on a well-formed value and returns an equal value that shares no slice, map or
    pointer with the original: whatever is written through one of them, the other still
    reads the same.  It is nil exactly for a nil receiver, and DeepCopyObject then
    returns the nil interface and not an interface that holds a nil pointer. *)
Theorem deepcopy_equal_and_independent :
  (independent_copy ClusterTags_DeepCopy /\ independent_copy GEASpec_DeepCopy /\
   independent_copy SecretRef_DeepCopy /\ independent_copy WorkflowDeployment_DeepCopy /\
   independent_copy RancherSessionSpec_DeepCopy) /\
  (independent_copy LosantSyncSpec_DeepCopy /\ independent_copy LosantSyncStatus_DeepCopy /\
   independent_copy LosantSync_DeepCopy /\ independent_copy LosantSyncList_DeepCopy) /\
  (independent_copy RancherSessionStatus_DeepCopy /\ independent_copy RancherSession_DeepCopy /\
   independent_copy RancherSessionList_DeepCopy) /\
  (forall m, LosantSync_DeepCopyObject (Ptr None) m = Some (NilObject, m) /\
             LosantSyncList_DeepCopyObject (Ptr None) m = Some (NilObject, m) /\
             RancherSession_DeepCopyObject (Ptr None) m = Some (NilObject, m) /\
             RancherSessionList_DeepCopyObject (Ptr None) m = Some (NilObject, m)).
Proof using HCondition HMeta HLMeta HTime Horder.
  split_and!; try done; apply copies_independent;
    auto using copies_plain, copies_Spec, copies_Status, copies_LosantSync, copies_LosantSyncList,
      copies_RStatus, copies_RancherSession, copies_RancherSessionList.
Qed.

End DeepCopy.

(** ** A list with one object *)

Module Demo.

#[local] Instance plain_string : Plain string := I.
#[local] Instance plain_condition : Plain Condition := I.

(** Object metadata with a name and a deletion timestamp. *)
Definition Meta : Type := string * ptr Z.
Abbreviation SyncList := (@LSyncList Condition Meta string).
Abbreviation cell0 := (@cell Condition Meta string unit).

Definition meta_copy (x : Meta) : M cell0 Meta :=
  let! p := copy_ptr 0%Z mret (snd x) in mret (fst x, p).

Lemma meta_copies : copies meta_copy.
Proof.
  apply copies_intro. intros m [n p] v Hv. apply view_pair in Hv as (n' & t & -> & [= <-] & Ht).
  pose proof (reflexivity m : m ⊆ m) as Hm. unfold meta_copy. cbn [fst snd].
  copy_field (copies_ptr (cell := cell0) 0%Z _ (copies_plain (A := Z))).
  eexists _, _. split; [done|]. split; [done|]. apply copied_pair; [|done].
  split; [done|]. apply disjoint_empty_l.
Qed.

Definition item : @LSync Condition Meta :=
  mkObj (mkTypeMeta "LosantSync" "v1") ("sync", Ptr None : ptr Z)
    (mkSpec "app" zRef "c1" "eu" "" "" "5m" zGEA "" (Slice (Some (mkWindow 3 1 1 2))) zTags false)
    (mkStatus "Active" (Slice None) "d0" (GoMap (Some 2)) (Ptr (Some 4)) (Ptr None)).

(** The array of workflow deployments is longer than the window on it. *)
Definition demo_memory : gmap addr cell0 :=
  {[0 := CSyncList (mkList (mkTypeMeta "List" "v1") "" (Slice (Some (mkWindow 1 0 1 1))));
    1 := CSyncs [item];
    2 := CNodes {["n1" := "d1"]};
    3 := CWorkflows [mkWD "f0" "v0"; mkWD "f1" "v1"; mkWD "f2" "v2"];
    4 := CTime 17]}.

Definition copy_list : ptr SyncList -> M cell0 (ptr SyncList) :=
  LosantSyncList_DeepCopy mret meta_copy mret (copy_ptr 0%Z mret) (mkCond "" "" 0 "" "") ("", Ptr None) ""
    map_to_list.

Lemma deepcopy_equal_and_independent_witness :
  exists v, view demo_memory (Ptr (Some 0) : ptr SyncList) = Some (Some v) /\
  l_Items v = Some [mkObj (mkTypeMeta "LosantSync" "v1") ("sync", None)
    (mkSpec "app" zRef "c1" "eu" "" "" "5m" zGEA "" (Some [mkWD "f1" "v1"]) zTags false)
    (mkStatus "Active" None "d0" (Some {["n1" := "d1"]}) (Some 17%Z) None)] /\
  exists q m', copy_list (Ptr (Some 0)) demo_memory = Some (q, m') /\
    view m' q = Some (Some v) /\ refs m' q ## refs m' (Ptr (Some 0) : ptr SyncList).
Proof.
  eexists. split; [vm_compute; reflexivity|]. split; [reflexivity|].
  destruct (deepcopy_equal_and_independent (mret : Condition -> M cell0 Condition) meta_copy
    (mret : string -> M cell0 string) (copy_ptr 0%Z mret) (mkCond "" "" 0 "" "") ("", Ptr None) "" map_to_list)
    as (_ & (_ & _ & _ & Hl) & _); [apply copies_plain|apply meta_copies|apply copies_plain| |done|].
  - apply copies_ptr, copies_plain.
  - destruct (Hl demo_memory (Ptr (Some 0)) _ ltac:(vm_compute; reflexivity)) as (q & m' & Hq & Hv & _ & Hd & _).
    exists q, m'. split; [exact Hq|]. split; [exact Hv|exact Hd].
Defined.

End Demo.
