(* ===== verification/Flags.v ===== *)
(** * Flags: the command line of the manager (cmd/main.go)

    Package flag of the standard library: registration with a default, and Parse, which
    reads the arguments one flag at a time, accepts one or two dashes, a value after an
    equals sign or, for a flag that is not boolean, in the next argument, and stops at
    the first argument that is not a flag or at a double dash.  The options of the zap
    logger and of the client configuration are flags of other packages: their names,
    kinds and effects are a parameter, and so is the state they set. *)

From Stdlib Require Import ZArith Ascii String.
From stdpp Require Import base list strings.
From S2P Require Import Prelude GoLib.

(** ** The variables of main *)

Record options := mkOptions {
  metricsAddr : string;
  probeAddr : string;
  enableLeaderElection : bool;
  secureMetrics : bool;
  webhookCertPath : string;
  webhookCertName : string;
  webhookCertKey : string;
  metricsCertPath : string;
  metricsCertName : string;
  metricsCertKey : string;
  enableHTTP2 : bool;
  triggerAddr : string;
  triggerNamespace : string;
}.

(** A value for a variable of a flag: StringVar or BoolVar. *)
Inductive setting :=
| MetricsAddr (s : string)
| ProbeAddr (s : string)
| LeaderElect (b : bool)
| SecureMetrics (b : bool)
| WebhookCertPath (s : string)
| WebhookCertName (s : string)
| WebhookCertKey (s : string)
| MetricsCertPath (s : string)
| MetricsCertName (s : string)
| MetricsCertKey (s : string)
| EnableHTTP2 (b : bool)
| TriggerAddr (s : string)
| TriggerNamespace (s : string).

(** The assignment through the pointer that was registered. *)
Definition assign (o : options) (x : setting) : options :=
  let '(mkOptions ma pa le sm wp wn wk mp mn mk h2 ta tn) := o in
  match x with
  | MetricsAddr s => mkOptions s pa le sm wp wn wk mp mn mk h2 ta tn
  | ProbeAddr s => mkOptions ma s le sm wp wn wk mp mn mk h2 ta tn
  | LeaderElect b => mkOptions ma pa b sm wp wn wk mp mn mk h2 ta tn
  | SecureMetrics b => mkOptions ma pa le b wp wn wk mp mn mk h2 ta tn
  | WebhookCertPath s => mkOptions ma pa le sm s wn wk mp mn mk h2 ta tn
  | WebhookCertName s => mkOptions ma pa le sm wp s wk mp mn mk h2 ta tn
  | WebhookCertKey s => mkOptions ma pa le sm wp wn s mp mn mk h2 ta tn
  | MetricsCertPath s => mkOptions ma pa le sm wp wn wk s mn mk h2 ta tn
  | MetricsCertName s => mkOptions ma pa le sm wp wn wk mp s mk h2 ta tn
  | MetricsCertKey s => mkOptions ma pa le sm wp wn wk mp mn s h2 ta tn
  | EnableHTTP2 b => mkOptions ma pa le sm wp wn wk mp mn mk b ta tn
  | TriggerAddr s => mkOptions ma pa le sm wp wn wk mp mn mk h2 s tn
  | TriggerNamespace s => mkOptions ma pa le sm wp wn wk mp mn mk h2 ta s
  end.

Inductive var := StringVar (set : string -> setting) | BoolVar (set : bool -> setting).

(** ** Registration *)

(** The calls of main to StringVar and BoolVar, in order: name, variable, default. *)
Definition registrations : list (string * var * setting) := [
  ("metrics-bind-address", StringVar MetricsAddr, MetricsAddr "0");
  ("health-probe-bind-address", StringVar ProbeAddr, ProbeAddr ":8081");
  ("leader-elect", BoolVar LeaderElect, LeaderElect false);
  ("metrics-secure", BoolVar SecureMetrics, SecureMetrics true);
  ("webhook-cert-path", StringVar WebhookCertPath, WebhookCertPath "");
  ("webhook-cert-name", StringVar WebhookCertName, WebhookCertName "tls.crt");
  ("webhook-cert-key", StringVar WebhookCertKey, WebhookCertKey "tls.key");
  ("metrics-cert-path", StringVar MetricsCertPath, MetricsCertPath "");
  ("metrics-cert-name", StringVar MetricsCertName, MetricsCertName "tls.crt");
  ("metrics-cert-key", StringVar MetricsCertKey, MetricsCertKey "tls.key");
  ("enable-http2", BoolVar EnableHTTP2, EnableHTTP2 false);
  ("trigger-bind-address", StringVar TriggerAddr, TriggerAddr ":9090");
  ("trigger-namespace", StringVar TriggerNamespace, TriggerNamespace "losant-system")].

(** The zero values of the variables, and what registration makes of them. *)
Definition zero_options : options := mkOptions "" "" false false "" "" "" "" "" "" false "" "".
Definition defaults : options := foldl (fun o r => assign o (snd r)) zero_options registrations.

(** The flag of a name, and the name of a variable. *)
Fixpoint lookup_flag (name : string) (l : list (string * var * setting)) : option var :=
  match l with
  | [] => None
  | (n, v, _) :: l' => if decide (name = n) then Some v else lookup_flag name l'
  end.

Definition name_of (x : setting) : string :=
  match x with
  | MetricsAddr _ => "metrics-bind-address"
  | ProbeAddr _ => "health-probe-bind-address"
  | LeaderElect _ => "leader-elect"
  | SecureMetrics _ => "metrics-secure"
  | WebhookCertPath _ => "webhook-cert-path"
  | WebhookCertName _ => "webhook-cert-name"
  | WebhookCertKey _ => "webhook-cert-key"
  | MetricsCertPath _ => "metrics-cert-path"
  | MetricsCertName _ => "metrics-cert-name"
  | MetricsCertKey _ => "metrics-cert-key"
  | EnableHTTP2 _ => "enable-http2"
  | TriggerAddr _ => "trigger-bind-address"
  | TriggerNamespace _ => "trigger-namespace"
  end.

(** ** Parse *)

(** strconv.ParseBool *)
Definition ParseBool (s : string) : option bool :=
  if decide (s ∈ ["1"; "t"; "T"; "TRUE"; "true"; "True"]) then Some true
  else if decide (s ∈ ["0"; "f"; "F"; "FALSE"; "false"; "False"]) then Some false
  else None.

(** The part before the first equals sign, and the part after it. *)
Fixpoint cut_eq (s : string) : string * option string :=
  match s with
  | EmptyString => (EmptyString, None)
  | String c r =>
      if ascii_dec c "="%char then (EmptyString, Some r)
      else let '(n, v) := cut_eq r in (String c n, v)
  end.

(** The forms of an argument: none of a flag, the terminator, bad syntax, a flag. *)
Inductive arg_form :=
| NotFlag
| Terminator
| BadSyntax
| FlagArg (name : string) (value : option string).

Definition flag_body (s : string) : arg_form :=
  match s with
  | EmptyString => BadSyntax
  | String c r =>
      if ascii_dec c "-"%char then BadSyntax
      else if ascii_dec c "="%char then BadSyntax
      else let '(n, v) := cut_eq r in FlagArg (String c n) v
  end.

(** Fewer than two bytes, or no dash first: not a flag. *)
Definition classify (s : string) : arg_form :=
  match s with
  | String c1 (String c2 r) =>
      if ascii_dec c1 "-"%char then
        if ascii_dec c2 "-"%char then
          match r with EmptyString => Terminator | _ => flag_body r end
        else flag_body (String c2 r)
      else NotFlag
  | _ => NotFlag
  end.

Section Parse.
(** Flags of other packages: whether boolean, and Set on their state. *)
Context {Ext : Type} (ext : string -> option (bool * (string -> Ext -> result Ext))).

Inductive outcome :=
| Parsed (o : options) (x : Ext) (rest : list string)
| Help
| ParseError (e : error).

(** A formal flag: whether boolean, and Set. *)
Definition formal (name : string) : option (bool * (string -> options * Ext -> result (options * Ext))) :=
  match lookup_flag name registrations with
  | Some (StringVar set) => Some (false, fun v '(o, x) => Ok (assign o (set v), x))
  | Some (BoolVar set) =>
      Some (true, fun v '(o, x) =>
        match ParseBool v with Some b => Ok (assign o (set b), x) | None => Err (Errorf "parse error") end)
  | None =>
      match ext name with
      | Some (isbool, set) =>
          Some (isbool, fun v '(o, x) => match set v x with Ok x' => Ok (o, x') | Err e => Err e end)
      | None => None
      end
  end.

Definition undefined (name : string) : outcome :=
  if decide (name = "help" \/ name = "h") then Help
  else ParseError (Errorf ("flag provided but not defined: -" +:+ name)).
Definition bad_bool (v name : string) (e : error) : outcome :=
  ParseError (Errorf ("invalid boolean value " +:+ Quote v +:+ " for -" +:+ name +:+ ": " +:+ Error e)).
Definition bad_value (v name : string) (e : error) : outcome :=
  ParseError (Errorf ("invalid value " +:+ Quote v +:+ " for flag -" +:+ name +:+ ": " +:+ Error e)).

(** FlagSet.Parse: parseOne until it is done or fails. *)
Fixpoint parse (st : options * Ext) (args : list string) {struct args} : outcome :=
  match args with
  | [] => Parsed (fst st) (snd st) []
  | s :: rest =>
      match classify s with
      | NotFlag => Parsed (fst st) (snd st) args
      | Terminator => Parsed (fst st) (snd st) rest
      | BadSyntax => ParseError (Errorf ("bad flag syntax: " +:+ s))
      | FlagArg name value =>
          match formal name with
          | None => undefined name
          | Some (true, set) =>
              let v := default "true" value in
              match set v st with Ok st' => parse st' rest | Err e => bad_bool v name e end
          | Some (false, set) =>
              match value, rest with
              | Some v, _ => match set v st with Ok st' => parse st' rest | Err e => bad_value v name e end
              | None, v :: rest' =>
                  match set v st with Ok st' => parse st' rest' | Err e => bad_value v name e end
              | None, [] => ParseError (Errorf ("flag needs an argument: -" +:+ name))
              end
          end
      end
  end.

(** flag.Parse on the defaults; [x0] is the state of the other packages' flags. *)
Definition flag_Parse (x0 : Ext) (args : list string) : outcome := parse (defaults, x0) args.

End Parse.

Arguments Parsed {_} _ _ _.
Arguments Help {_}.
Arguments ParseError {_} _.

(** ** Printing *)

Definition value_of (x : setting) : string + bool :=
  match x with
  | LeaderElect b | SecureMetrics b | EnableHTTP2 b => inr b
  | MetricsAddr s | ProbeAddr s | WebhookCertPath s | WebhookCertName s | WebhookCertKey s
  | MetricsCertPath s | MetricsCertName s | MetricsCertKey s | TriggerAddr s | TriggerNamespace s => inl s
  end.

(** The ways to write a setting: one dash or two; a string after an equals sign or in the next
    argument; a boolean as any word that ParseBool takes for it, after an equals sign, or as the bare
    flag when it is true. *)
Definition dashes : list string := ["-"; "--"].

Inductive spelled (x : setting) : list string -> Prop :=
| sp_joined d s : d ∈ dashes -> value_of x = inl s -> spelled x [d +:+ name_of x +:+ "=" +:+ s]
| sp_next d s : d ∈ dashes -> value_of x = inl s -> spelled x [d +:+ name_of x; s]
| sp_bare d : d ∈ dashes -> value_of x = inr true -> spelled x [d +:+ name_of x]
| sp_word d b w : d ∈ dashes -> value_of x = inr b -> ParseBool w = Some b ->
    spelled x [d +:+ name_of x +:+ "=" +:+ w].

(** The settings of a configuration, one for each flag. *)
Definition settings (o : options) : list setting := [
  MetricsAddr (metricsAddr o); ProbeAddr (probeAddr o); LeaderElect (enableLeaderElection o);
  SecureMetrics (secureMetrics o); WebhookCertPath (webhookCertPath o); WebhookCertName (webhookCertName o);
  WebhookCertKey (webhookCertKey o); MetricsCertPath (metricsCertPath o); MetricsCertName (metricsCertName o);
  MetricsCertKey (metricsCertKey o); EnableHTTP2 (enableHTTP2 o); TriggerAddr (triggerAddr o);
  TriggerNamespace (triggerNamespace o)].

(** A command line for settings: the arguments of each, in their order. *)
Definition command_line (l : list setting) (args : list string) : Prop :=
  exists parts, Forall2 spelled l parts /\ args = concat parts.

(** ** Proofs *)

(** Registration is in step with [name_of]: every name once, each with its variable. *)
Lemma registrations_distinct : NoDup (map (fun r => fst (fst r)) registrations).
Proof. by apply (bool_decide_unpack _). Qed.

Lemma registrations_names : map (fun r => (fst (fst r), snd r)) registrations = map (fun x => (name_of x, x)) (settings defaults).
Proof. reflexivity. Qed.

Section ParsePrint.
Context {Ext : Type} (ext : string -> option (bool * (string -> Ext -> result Ext))).

Lemma classify_value d x v : d ∈ dashes -> classify (d +:+ name_of x +:+ "=" +:+ v) = FlagArg (name_of x) (Some v).
Proof. intros [->|[->|[]%not_elem_of_nil]%elem_of_cons]%elem_of_cons; by destruct x. Qed.

Lemma classify_bare d x : d ∈ dashes -> classify (d +:+ name_of x) = FlagArg (name_of x) None.
Proof. intros [->|[->|[]%not_elem_of_nil]%elem_of_cons]%elem_of_cons; by destruct x. Qed.

(** The flag registered under the name of a setting is that of its variable. *)
Lemma lookup_name x :
  match value_of x with
  | inl s => exists set, lookup_flag (name_of x) registrations = Some (StringVar set) /\ set s = x
  | inr b => exists set, lookup_flag (name_of x) registrations = Some (BoolVar set) /\ set b = x
  end.
Proof. destruct x; simpl; by eexists. Qed.

(** A spelled setting is read as the assignment to its variable. *)
Lemma parse_spelled x part o z rest :
  spelled x part -> parse ext (o, z) (part ++ rest) = parse ext (assign o x, z) rest.
Proof.
  intros Hp. pose proof (lookup_name x) as Hl.
  destruct Hp as [d s Hd Hv|d s Hd Hv|d Hd Hv|d b w Hd Hv Hw]; rewrite Hv in Hl; destruct Hl as (set & Hl & Hx);
    cbn [app parse]; rewrite ?classify_value, ?classify_bare by done; unfold formal; rewrite Hl; unfold default, from_option, id;
    rewrite ?Hw, <- Hx; reflexivity.
Qed.

Lemma parse_command_line l : forall args o z rest,
  command_line l args -> parse ext (o, z) (args ++ rest) = parse ext (foldl assign o l, z) rest.
Proof.
  induction l as [|x l IH]; intros args o z rest (parts & Hf & ->); inversion Hf as [|? part ? parts' Hp Hf']; subst; [done|].
  simpl. rewrite <- app_assoc, (parse_spelled x part) by done. apply IH. by exists parts'.
Qed.

(** Different variables can be assigned in either order. *)
Lemma assign_comm o x y : name_of x <> name_of y -> assign (assign o x) y = assign (assign o y) x.
Proof. destruct o, x, y; simpl; try reflexivity; intros []; reflexivity. Qed.

Lemma assign_perm l l' : l ≡ₚ l' -> NoDup (name_of <$> l) -> forall o, foldl assign o l = foldl assign o l'.
Proof.
  induction 1 as [|x l l' Hp IH|x y l|l1 l2 l3 Hp1 IH1 Hp2 IH2]; intros Hd o; simpl; [done| | |].
  - apply list.NoDup_cons in Hd as [_ Hd]. by apply IH.
  - apply list.NoDup_cons in Hd as [Hd _]. rewrite assign_comm; [done|]. intros Heq. apply Hd. rewrite Heq. left.
  - rewrite IH1 by done. apply IH2. by rewrite <- Hp1.
Qed.

(** Assigning every variable forgets what was there. *)
Lemma assign_settings o o' : foldl assign o (settings o') = o'.
Proof. by destruct o, o'. Qed.

Lemma settings_distinct o : NoDup (name_of <$> settings o).
Proof. exact registrations_distinct. Qed.

(** C34: The command line round-trips: write every setting of a configuration as a flag, in any order
    and each in any of the ways the package documents (one or two dashes; a string after an equals
    sign or in the next argument; a boolean after an equals sign as any word ParseBool accepts, or as
    the bare flag when true), whatever the strings contain, and flag.Parse reads back exactly that
    configuration, leaves the flags of the other packages alone and hands on the arguments after a
    double dash. *)
Theorem flags_roundtrip (l : list setting) o args z rest :
  l ≡ₚ settings o -> command_line l args ->
  flag_Parse ext z args = Parsed o z [] /\ flag_Parse ext z (args ++ "--" :: rest) = Parsed o z rest.
Proof.
  intros Hl Hc. unfold flag_Parse.
  assert (foldl assign defaults l = o) as Ho.
  { rewrite (assign_perm l (settings o)) by (done || rewrite Hl; apply settings_distinct). apply assign_settings. }
  split.
  - rewrite <- (app_nil_r args), (parse_command_line l) by done. by rewrite Ho.
  - rewrite (parse_command_line l) by done. by rewrite Ho.
Qed.

(** Later occurrences of a flag win, and flags that are not given keep their defaults. *)
Lemma flags_last_wins l args z :
  command_line l args -> flag_Parse ext z args = Parsed (foldl assign defaults l) z [].
Proof. intros Hc. unfold flag_Parse. by rewrite <- (app_nil_r args), (parse_command_line l). Qed.

End ParsePrint.

(** ** The shipped manifest *)

(** The arguments of config/manager/manager.yaml. *)
Definition no_ext (name : string) : option (bool * (string -> unit -> result unit)) := None.

Example manifest_args :
  flag_Parse no_ext tt ["--leader-elect"; "--health-probe-bind-address=:8081"]
  = Parsed (mkOptions "0" ":8081" true true "" "tls.crt" "tls.key" "" "tls.crt" "tls.key" false ":9090" "losant-system") tt [].
Proof. reflexivity. Qed.

Example bad_args :
  flag_Parse no_ext tt ["-metrics-secure=maybe"]
    = ParseError (Errorf ("invalid boolean value " +:+ Quote "maybe" +:+ " for -metrics-secure: parse error"))
  /\ flag_Parse no_ext tt ["--trigger-namespace"] = ParseError (Errorf "flag needs an argument: -trigger-namespace")
  /\ flag_Parse no_ext tt ["---x"] = ParseError (Errorf "bad flag syntax: ---x")
  /\ flag_Parse no_ext tt ["-h"] = Help.
Proof. split_and!; reflexivity. Qed.

Definition odd_options : options :=
  mkOptions "a=b" "--" false true "" "-x" "" "" "" "" true "--enable-http2" "ns".

(** Some of its flags, in another order, with odd words for the booleans. *)
Definition odd_args : list string :=
  ["-leader-elect=F"; "--metrics-bind-address=a=b"; "--health-probe-bind-address"; "--"; "-metrics-secure=1";
   "--webhook-cert-path="; "-webhook-cert-name"; "-x"; "--webhook-cert-key="; "--metrics-cert-path="; "--metrics-cert-name=";
   "--metrics-cert-key="; "--enable-http2"; "--trigger-bind-address"; "--enable-http2"; "-trigger-namespace=ns"].

Definition odd_order : list setting :=
  [LeaderElect false; MetricsAddr "a=b"; ProbeAddr "--"; SecureMetrics true; WebhookCertPath ""; WebhookCertName "-x";
   WebhookCertKey ""; MetricsCertPath ""; MetricsCertName ""; MetricsCertKey ""; EnableHTTP2 true;
   TriggerAddr "--enable-http2"; TriggerNamespace "ns"].

Lemma odd_command_line : command_line odd_order odd_args.
Proof.
  exists [["-leader-elect=F"]; ["--metrics-bind-address=a=b"]; ["--health-probe-bind-address"; "--"]; ["-metrics-secure=1"];
    ["--webhook-cert-path="]; ["-webhook-cert-name"; "-x"]; ["--webhook-cert-key="]; ["--metrics-cert-path="];
    ["--metrics-cert-name="]; ["--metrics-cert-key="]; ["--enable-http2"]; ["--trigger-bind-address"; "--enable-http2"];
    ["-trigger-namespace=ns"]].
  assert ("-" ∈ dashes) by left. assert ("--" ∈ dashes) by (right; left).
  split; [|reflexivity]. repeat apply Forall2_cons_2; try apply Forall2_nil_2.
  - by apply (sp_word (LeaderElect false) "-" false "F").
  - by apply (sp_joined (MetricsAddr "a=b") "--" "a=b").
  - by apply (sp_next (ProbeAddr "--") "--" "--").
  - by apply (sp_word (SecureMetrics true) "-" true "1").
  - by apply (sp_joined (WebhookCertPath "") "--" "").
  - by apply (sp_next (WebhookCertName "-x") "-" "-x").
  - by apply (sp_joined (WebhookCertKey "") "--" "").
  - by apply (sp_joined (MetricsCertPath "") "--" "").
  - by apply (sp_joined (MetricsCertName "") "--" "").
  - by apply (sp_joined (MetricsCertKey "") "--" "").
  - by apply (sp_bare (EnableHTTP2 true) "--").
  - by apply (sp_next (TriggerAddr "--enable-http2") "--" "--enable-http2").
  - by apply (sp_joined (TriggerNamespace "ns") "-" "ns").
Qed.

Lemma flags_roundtrip_witness :
  odd_order ≡ₚ settings odd_options /\ flag_Parse no_ext tt odd_args = Parsed odd_options tt [].
Proof.
  assert (odd_order ≡ₚ settings odd_options) as Hp.
  { change (settings odd_options) with (drop 1 (take 3 odd_order) ++ LeaderElect false :: drop 3 odd_order).
    apply (Permutation_middle [MetricsAddr "a=b"; ProbeAddr "--"]). }
  split; [exact Hp|]. apply (flags_roundtrip no_ext odd_order odd_options odd_args tt [] Hp odd_command_line).
Defined.
