(* ===== verification/Main.v ===== *)
(** * Main: the process (cmd/main.go) and the registration of its controllers

    After the flags are read, main builds the TLS options of two servers, creates the
    manager and registers three controllers, the trigger server, certificate watchers
    and probes with it, and starts it; the first call that fails ends the process with
    status 1.  The calls to controller-runtime are the signature; their failures are
    answers of the environment.

    The TLS options are slices that share an array as long as it has room, so [append]
    is modelled on memory; [grow n] is the capacity of the array that append allocates
    for a slice of [n] elements that is full.  The language leaves that capacity to the
    implementation, so nothing is assumed about it. *)

From Stdlib Require Import ZArith Lia Ascii String.
From stdpp Require Import base list strings gmap.
From S2P Require Import Prelude Effects GoLib Heap Flags LosantSyncController RancherSession.

Local Open Scope prog_scope.

(** ** TLS options *)

(** The two certificate watchers of main. *)
Inductive watcher := WebhookWatcher | MetricsWatcher.

(** The closures of main: disableHTTP2, and those that install a watcher. *)
Inductive tls_opt := DisableHTTP2 | GetCertificateOf (w : watcher).

Record tls_config := mkTLS { NextProtos : list string; GetCertificate : option watcher }.

Definition apply_opt (c : tls_config) (o : tls_opt) : tls_config :=
  match o with
  | DisableHTTP2 => mkTLS ["http/1.1"] (GetCertificate c)
  | GetCertificateOf w => mkTLS (NextProtos c) (Some w)
  end.

(** Arrays of options; an array is as long as its capacity, and nil where unused. *)
Abbreviation arrays := (gmap addr (list (option tls_opt))).

Definition array (m : arrays) (w : window) : list (option tls_opt) := default [] (m !! w_arr w).

(** What a server reads through a slice. *)
Definition contents (m : arrays) (s : slice tls_opt) : list tls_opt :=
  match to_window s with
  | None => []
  | Some w => omap id (take (w_len w) (drop (w_off w) (array m w)))
  end.

(** append(s, x): in place while there is room, else in a new array. *)
Definition append (grow : nat -> nat) (m : arrays) (s : slice tls_opt) (x : tls_opt) : slice tls_opt * arrays :=
  let realloc old n :=
    let a := fresh (dom m) in
    let cap := Nat.max (S n) (grow n) in
    (Slice (Some (mkWindow a 0 (S n) cap)),
     <[a := old ++ Some x :: replicate (cap - S n) None]> m) in
  match to_window s with
  | None => realloc [] 0
  | Some w =>
      if decide (w_len w < w_cap w) then
        (Slice (Some (mkWindow (w_arr w) (w_off w) (S (w_len w)) (w_cap w))),
         <[w_arr w := <[w_off w + w_len w := Some x]> (array m w)]> m)
      else realloc (take (w_len w) (drop (w_off w) (array m w))) (w_len w)
  end.

(** ** Package path/filepath *)

(** The components of a path. *)
Fixpoint split_slash (s : string) : list string :=
  match s with
  | EmptyString => [EmptyString]
  | String c r =>
      if ascii_dec c "/"%char then EmptyString :: split_slash r
      else match split_slash r with
           | [] => [String c EmptyString]
           | x :: l => String c x :: l
           end
  end.

(** Lexical elimination of empty, dot and dot-dot components; the stack is reversed. *)
Definition clean_step (rooted : bool) (stack : list string) (x : string) : list string :=
  if decide (x = "" \/ x = ".") then stack
  else if decide (x = "..") then
    match stack with
    | y :: rest => if decide (y = "..") then x :: stack else rest
    | [] => if rooted then [] else [x]
    end
  else x :: stack.

Definition join_slash (l : list string) : string :=
  match l with [] => "" | x :: l' => foldl (fun acc y => acc +:+ "/" +:+ y) x l' end.

(** filepath.Clean *)
Definition Clean (path : string) : string :=
  let rooted := match path with String c _ => bool_decide (c = "/"%char) | _ => false end in
  let body := join_slash (reverse (foldl (clean_step rooted) [] (split_slash path))) in
  if rooted then "/" +:+ body
  else match body with EmptyString => "." | _ => body end.

(** filepath.Join of two elements: empty ones are left out. *)
Definition Join (a b : string) : string :=
  match a, b with
  | EmptyString, EmptyString => ""
  | EmptyString, _ => Clean b
  | _, EmptyString => Clean a
  | _, _ => Clean (a +:+ "/" +:+ b)
  end.

Example Join_examples :
  Join "/etc/certs/" "tls.crt" = "/etc/certs/tls.crt" /\ Join "certs" "../tls.key" = "tls.key" /\
  Join "/" "../a" = "/a" /\ Join "a//b" "./c" = "a/b/c" /\ Join ".." "x" = "../x" /\ Join "." "" = ".".
Proof. split_and!; reflexivity. Qed.

(** ** The calls of the process *)

Inductive kind := KNode | KPod | KPVC | KEvent | KDeployment | KLosantSync | KRancherSession.
Inductive predicate := GenerationChangedPredicate.
Inductive map_func := AllNodesMapper.

(** ctrl.NewControllerManagedBy(mgr) with its For, WithPredicates, Watches and Named. *)
Record builder := mkBuilder {
  b_For : kind;
  b_Predicates : list predicate;
  b_Watches : list (kind * map_func);
  b_Named : option string;
}.

(** The reconcilers with their fields; a health store is the pointer to it. *)
Inductive reconciler :=
| RLosantSync (r : LosantSyncReconciler) (store : option addr)
| RHealthWatcher (store : option addr)
| RRancherSession (r : RancherSessionReconciler).

Record MetricsOptions := mkMetricsOptions {
  BindAddress : string;
  SecureServing : bool;
  mo_TLSOpts : list tls_opt;
  FilterProvider : bool;
}.

Record ManagerOptions := mkManagerOptions {
  Metrics : MetricsOptions;
  WebhookServer : list tls_opt;
  HealthProbeBindAddress : string;
  LeaderElection : bool;
  LeaderElectionID : string;
}.

Inductive scheme_part := ClientGoScheme | LosantScheme.

(** The calls that may fail, and the one that does not. *)
Inductive main_call :=
| AddToScheme (p : scheme_part)
| NewCertWatcher (w : watcher) (cert key : string)
| GetConfigOrDie
| NewManager (o : ManagerOptions)
| Complete (b : builder) (r : reconciler)
| AddTriggerServer (addr namespace : string)
| AddCertWatcher (w : watcher)
| AddHealthzCheck (name : string)
| AddReadyzCheck (name : string)
| Start.

Inductive main_op := Do (c : main_call) | NewHealthStore.

Definition main_ans (c : main_op) : Type :=
  match c with Do _ => option error | NewHealthStore => addr end.

Definition MainΣ : sig := Sig main_op main_ans.

Abbreviation mprog := (prog MainΣ Z).

(** A call whose failure ends the process: a panic in init, os.Exit(1) in main. *)
Definition exit_code (c : main_call) : Z := match c with AddToScheme _ => 2 | _ => 1 end.

Definition or_exit (c : main_call) (k : mprog) : mprog :=
  Call (Do c : MainΣ) (fun r : option error => match r with Some _ => Ret (exit_code c) | None => k end).

Notation "'try*' c 'in' k" := (or_exit c k) (at level 10, c at level 100, k at level 200) : prog_scope.

(** ** SetupWithManager *)

Definition LosantSync_Setup : builder := mkBuilder KLosantSync [GenerationChangedPredicate] [] None.

Definition HealthWatcher_Setup : builder :=
  mkBuilder KNode [] [(KPod, AllNodesMapper); (KPVC, AllNodesMapper); (KEvent, AllNodesMapper);
                      (KDeployment, AllNodesMapper)] None.

Definition RancherSession_Setup : builder := mkBuilder KRancherSession [] [] (Some "ranchersession").

(** ** The process *)

Section Main.
Context {Ext : Type} (ext : string -> option (bool * (string -> Ext -> result Ext))) (x0 : Ext).
Context (grow : nat -> nat).

(** A watcher for a server whose certificate path is set, and its option appended. *)
Definition with_cert (w : watcher) (path name key : string) (m : arrays) (opts : slice tls_opt)
    (k : arrays -> slice tls_opt -> bool -> mprog) : mprog :=
  if decide (path = "") then k m opts false
  else try* (NewCertWatcher w (Join path name) (Join path key)) in
       let '(opts', m') := append grow m opts (GetCertificateOf w) in
       k m' opts' true.

(** From the creation of the manager on; the servers read their options there. *)
Definition setup_manager (o : options) (m : arrays) (webhookTLSOpts metricsTLSOpts : slice tls_opt)
    (webhookCertWatcher metricsCertWatcher : bool) : mprog :=
  let metrics := mkMetricsOptions (metricsAddr o) (secureMetrics o) (contents m metricsTLSOpts) (secureMetrics o) in
  try* GetConfigOrDie in
  try* (NewManager (mkManagerOptions metrics (contents m webhookTLSOpts) (probeAddr o) (enableLeaderElection o)
                      "4b724877.losant.io")) in
  let* healthStore := (call (NewHealthStore : MainΣ) : prog MainΣ addr) in
  try* (Complete LosantSync_Setup (RLosantSync (mkLSR None None true) (Some healthStore))) in
  try* (Complete HealthWatcher_Setup (RHealthWatcher (Some healthStore))) in
  try* (Complete RancherSession_Setup (RRancherSession (mkRSR false))) in
  try* (AddTriggerServer (triggerAddr o) (triggerNamespace o)) in
  let add (b : bool) w k := if b then try* (AddCertWatcher w) in k else k in
  add metricsCertWatcher MetricsWatcher
    (add webhookCertWatcher WebhookWatcher
      (try* (AddHealthzCheck "healthz") in
       try* (AddReadyzCheck "readyz") in
       try* Start in
       Ret 0%Z)).

Definition run_manager (o : options) : mprog :=
  let '(tlsOpts, m) :=
    if enableHTTP2 o then (Slice None, ∅) else append grow ∅ (Slice None) DisableHTTP2 in
  with_cert WebhookWatcher (webhookCertPath o) (webhookCertName o) (webhookCertKey o) m tlsOpts
    (fun m webhookTLSOpts webhookCertWatcher =>
       with_cert MetricsWatcher (metricsCertPath o) (metricsCertName o) (metricsCertKey o) m tlsOpts
         (fun m metricsTLSOpts metricsCertWatcher =>
            setup_manager o m webhookTLSOpts metricsTLSOpts webhookCertWatcher metricsCertWatcher)).

(** init panics, flag.Parse exits with 0 for help and 2 for an error. *)
Definition main (args : list string) : mprog :=
  try* (AddToScheme ClientGoScheme) in
  try* (AddToScheme LosantScheme) in
  match flag_Parse ext x0 args with
  | Help => Ret 0%Z
  | ParseError _ => Ret 2%Z
  | Parsed o _ _ => run_manager o
  end.

End Main.

(** ** What the process should do *)

Definition cert_path (o : options) (w : watcher) : string :=
  match w with WebhookWatcher => webhookCertPath o | MetricsWatcher => metricsCertPath o end.
Definition cert_files (o : options) (w : watcher) : string * string :=
  match w with
  | WebhookWatcher => (Join (webhookCertPath o) (webhookCertName o), Join (webhookCertPath o) (webhookCertKey o))
  | MetricsWatcher => (Join (metricsCertPath o) (metricsCertName o), Join (metricsCertPath o) (metricsCertKey o))
  end.

Definition when {A} (b : bool) (l : list A) : list A := if b then l else [].
Definition has_cert (o : options) (w : watcher) : bool := bool_decide (cert_path o w <> "").

(** The options one server should have: those of the other play no part. *)
Definition intended (o : options) (w : watcher) : list tls_opt :=
  when (negb (enableHTTP2 o)) [DisableHTTP2] ++ when (has_cert o w) [GetCertificateOf w].

(** The options the webhook server gets: the intended ones, unless HTTP/2 is off, both servers have a
    certificate and append makes the array of the first option longer than needed.  Then the option
    appended for the metrics server overwrites the webhook server's in the array they share. *)
Definition overwritten (grow : nat -> nat) (o : options) : bool :=
  negb (enableHTTP2 o) && has_cert o WebhookWatcher && has_cert o MetricsWatcher && bool_decide (2 <= grow 0).

Definition webhook_options (grow : nat -> nat) (o : options) : list tls_opt :=
  if overwritten grow o then [DisableHTTP2; GetCertificateOf MetricsWatcher] else intended o WebhookWatcher.

Definition new_watcher (o : options) (w : watcher) : list main_op :=
  when (has_cert o w) [Do (NewCertWatcher w (fst (cert_files o w)) (snd (cert_files o w)))].

(** The calls from the creation of the manager on; both controllers that use the health
    store are given the same one. *)
Definition manager_plan (grow : nat -> nat) (o : options) (store : addr) : list main_op :=
  [Do GetConfigOrDie;
   Do (NewManager (mkManagerOptions
     (mkMetricsOptions (metricsAddr o) (secureMetrics o) (intended o MetricsWatcher) (secureMetrics o))
     (webhook_options grow o) (probeAddr o) (enableLeaderElection o) "4b724877.losant.io"));
   NewHealthStore;
   Do (Complete LosantSync_Setup (RLosantSync (mkLSR None None true) (Some store)));
   Do (Complete HealthWatcher_Setup (RHealthWatcher (Some store)));
   Do (Complete RancherSession_Setup (RRancherSession (mkRSR false)));
   Do (AddTriggerServer (triggerAddr o) (triggerNamespace o))] ++
  when (has_cert o MetricsWatcher) [Do (AddCertWatcher MetricsWatcher)] ++
  when (has_cert o WebhookWatcher) [Do (AddCertWatcher WebhookWatcher)] ++
  [Do (AddHealthzCheck "healthz"); Do (AddReadyzCheck "readyz"); Do Start].

(** All the calls of a process that starts, in order. *)
Definition plan (grow : nat -> nat) (o : options) (store : addr) : list main_op :=
  [Do (AddToScheme ClientGoScheme); Do (AddToScheme LosantScheme)] ++
  new_watcher o WebhookWatcher ++ new_watcher o MetricsWatcher ++ manager_plan grow o store.

(** A call that succeeded, with the address of the health store. *)
Definition ok_event (store : addr) (e : event MainΣ) : bool :=
  match e with
  | Ev (Do _) None => true
  | Ev (Do _) (Some _) => false
  | Ev NewHealthStore a => bool_decide (a = store)
  end.

(** A process follows a list of calls: it makes all of them and returns, or it stops at
    the first that fails with the code of that failure. *)
Definition follows (store : addr) (l : list main_op) (tr : list (event MainΣ)) (code : Z) : Prop :=
  (map ev_op tr = l /\ forallb (ok_event store) tr = true /\ code = 0%Z) \/
  (exists t c e, tr = t ++ [Ev (Do c : MainΣ) (Some e)] /\ forallb (ok_event store) t = true /\
     map ev_op tr `prefix_of` l /\ code = exit_code c).

(** ** Proofs *)

Lemma follows_ok store x l tr code (r : ans x) :
  ok_event store (Ev x r) = true -> follows store l tr code -> follows store (x :: l) (Ev x r :: tr) code.
Proof.
  intros Hx [(<- & Hok & Hc)|(t & c & e & -> & Hok & Hp & Hc)]; [left; cbn [forallb]; by rewrite Hx|].
  right. exists (Ev x r :: t), c, e. cbn [forallb]. rewrite Hx.
  split; [done|]. split; [done|]. split; [by apply prefix_cons|done].
Qed.

Lemma follows_fail store c e l : follows store (Do c :: l) [Ev (Do c : MainΣ) (Some e)] (exit_code c).
Proof. right. exists [], c, e. split_and!; [done|done|by eexists|done]. Qed.

Lemma follows_try store c k l tr code :
  exec (or_exit c k) tr code -> (forall tr', exec k tr' code -> follows store l tr' code) ->
  follows store (Do c :: l) tr code.
Proof.
  intros He Hk. apply exec_inv in He as ([e|] & tr' & -> & He); [|by apply follows_ok, Hk].
  apply exec_inv in He as [-> ->]. apply follows_fail.
Qed.

Lemma follows_add store (b : bool) c k l tr code :
  exec (if b then or_exit c k else k) tr code -> (forall tr', exec k tr' code -> follows store l tr' code) ->
  follows store (when b [Do c] ++ l) tr code.
Proof. intros He Hk. destruct b; [by apply (follows_try _ _ _ _ _ _ He)|by apply Hk]. Qed.

(** Before the store exists, the rest of the process determines it. *)
Lemma follows_try_ex c k l tr code :
  exec (or_exit c k) tr code -> (forall tr', exec k tr' code -> exists store, follows store (l store) tr' code) ->
  exists store, follows store (Do c :: l store) tr code.
Proof.
  intros He Hk. apply exec_inv in He as ([e|] & tr' & -> & He).
  - apply exec_inv in He as [-> ->]. exists 0. apply follows_fail.
  - destruct (Hk _ He) as [store Hf]. exists store. by apply follows_ok.
Qed.

Section Runs.
Context {Ext : Type} (ext : string -> option (bool * (string -> Ext -> result Ext))) (x0 : Ext).
Context (grow : nat -> nat).

(** The options of the servers as main computes them, with the arrays. *)
Definition base_opts (o : options) : slice tls_opt * arrays :=
  if enableHTTP2 o then (Slice None, ∅) else append grow ∅ (Slice None) DisableHTTP2.
Definition add_cert (o : options) (w : watcher) (m : arrays) (s : slice tls_opt) : slice tls_opt * arrays :=
  if has_cert o w then append grow m s (GetCertificateOf w) else (s, m).

(** What the servers read after both appends, whatever the capacity of the first array. *)
Lemma tls_opts_exact o :
  let '(base, m0) := base_opts o in
  let '(webhook, m1) := add_cert o WebhookWatcher m0 base in
  let '(metrics, m2) := add_cert o MetricsWatcher m1 base in
  contents m2 webhook = webhook_options grow o /\ contents m2 metrics = intended o MetricsWatcher.
Proof.
  unfold webhook_options, overwritten, base_opts, add_cert, intended, append, when.
  destruct (enableHTTP2 o), (has_cert o WebhookWatcher), (has_cert o MetricsWatcher), (grow 0) as [|[|n]];
    vm_compute; done.
Qed.

(** The part of a plan that creates a watcher. *)
Lemma follows_cert o w name key m s k l tr code :
  exec (with_cert grow w (cert_path o w) name key m s k) tr code ->
  cert_files o w = (Join (cert_path o w) name, Join (cert_path o w) key) ->
  (forall tr', let '(s', m') := add_cert o w m s in
     exec (k m' s' (has_cert o w)) tr' code -> exists store, follows store (l store) tr' code) ->
  exists store, follows store (new_watcher o w ++ l store) tr code.
Proof.
  unfold with_cert, new_watcher, add_cert, has_cert. intros He -> Hk.
  destruct (decide (cert_path o w = "")) as [Hp|Hp].
  - rewrite bool_decide_eq_false_2 in Hk |- * by (by intros ?). by apply Hk.
  - rewrite bool_decide_eq_true_2 in Hk |- * by done. destruct (append _ _ _ _) as [s' m'].
    by apply (follows_try_ex _ _ _ _ _ He).
Qed.

(** The next call of the process is the next of the plan. *)
Ltac follow He :=
  lazymatch goal with
  | |- ex _ => refine (follows_try_ex _ _ _ _ _ He _)
  | |- follows _ (when _ _ ++ _) _ _ => refine (follows_add _ _ _ _ _ _ _ He _)
  | |- follows _ _ _ _ => refine (follows_try _ _ _ _ _ _ He _)
  end; clear He; intros ? He.

Lemma follows_manager o m webhook metrics tr code :
  contents m webhook = webhook_options grow o -> contents m metrics = intended o MetricsWatcher ->
  exec (setup_manager o m webhook metrics (has_cert o WebhookWatcher) (has_cert o MetricsWatcher)) tr code ->
  exists store, follows store (manager_plan grow o store) tr code.
Proof.
  intros Hw Hm He. unfold setup_manager in He. rewrite Hw, Hm in He. unfold manager_plan. cbn [app].
  follow He. follow He. apply exec_inv in He as (hs & tr2 & -> & He). cbn [bind] in He.
  exists hs. apply follows_ok; [by apply bool_decide_eq_true|].
  do 9 follow He. apply exec_inv in He as [-> ->]. by left.
Qed.

(** C30: The process follows its plan.  With flags that parse, main makes the calls of
    the plan in order, stops at the first that fails (status 2 in init, 1 in main) and
    returns only when the manager it started has ended without error.  In the plan the
    metrics server has HTTP/1.1 only unless enable-http2 is set, then its own certificate
    watcher, and so has the webhook server, with one exception ([overwritten]): where append
    allocates room for two options when it is given one, with HTTP/2 off and both certificate paths
    set, the webhook server gets the certificate of the metrics server.  The metrics endpoint is filtered
    by authentication exactly when it is served securely; and the controller that writes the
    health store and the one that reads it hold the same store. *)
Theorem main_follows_plan args o z rest tr code :
  flag_Parse ext x0 args = Parsed o z rest ->
  exec (main ext x0 grow args) tr code ->
  exists store, follows store (plan grow o store) tr code.
Proof.
  intros Hflags He. unfold main in He. rewrite Hflags in He.
  unfold plan. cbn [app].
  follow He. follow He. unfold run_manager in He. fold (base_opts o) in He.
  pose proof (tls_opts_exact o) as Hsep. destruct (base_opts o) as [base m0].
  refine (follows_cert o WebhookWatcher _ _ _ _ _ _ _ _ He eq_refl _).
  destruct (add_cert o WebhookWatcher m0 base) as [webhook m1]. intros tr1 He1.
  refine (follows_cert o MetricsWatcher _ _ _ _ _ _ _ _ He1 eq_refl _).
  destruct (add_cert o MetricsWatcher m1 base) as [metrics m2]. destruct Hsep as [Hw Hm]. intros tr2 He2.
  by apply (follows_manager o m2 webhook metrics).
Qed.

End Runs.

(** ** Consequences of the plan *)

Definition tls_of (l : list tls_opt) (c : tls_config) : tls_config := foldl apply_opt c l.

(** What the options of the plan make of a TLS configuration. *)
Lemma intended_tls o w c :
  NextProtos (tls_of (intended o w) c) = (if enableHTTP2 o then NextProtos c else ["http/1.1"]) /\
  GetCertificate (tls_of (intended o w) c) = (if has_cert o w then Some w else GetCertificate c).
Proof. unfold intended, when. by destruct (enableHTTP2 o), (has_cert o w). Qed.

(** The webhook server serves its own certificate where append allocates no more than it needs;
    were the capacity of a one-element slice 2, it would serve the metrics certificate. *)
Example capacity_decides :
  let o := mkOptions "0" "" false true "/w" "c" "k" "/m" "c" "k" false "" "" in
  GetCertificate (tls_of (webhook_options (fun _ => 1) o) (mkTLS [] None)) = Some WebhookWatcher
  /\ GetCertificate (tls_of (webhook_options (fun _ => 2) o) (mkTLS [] None)) = Some MetricsWatcher.
Proof. split; reflexivity. Qed.

(** ** A process that starts *)

Definition demo_grow (n : nat) : nat := Nat.max 1 (2 * n).
Definition demo_args : list string := ["--metrics-cert-path=/certs/"; "--webhook-cert-path"; "/hooks"].
Definition demo_env (c : MainΣ) (n : addr) : ans c * addr :=
  match c with Do _ => (None, n) | NewHealthStore => (n, S n) end.
Definition demo_main : Z * list (event MainΣ) * addr := run demo_env (main no_ext tt demo_grow demo_args) 7.

Lemma main_follows_plan_witness :
  demo_main.1.1 = 0%Z /\ Ev (Do Start : MainΣ) None ∈ demo_main.1.2 /\
  Ev (Do (NewCertWatcher MetricsWatcher "/certs/tls.crt" "/certs/tls.key") : MainΣ) None ∈ demo_main.1.2 /\
  exists o store, follows store (plan demo_grow o store) demo_main.1.2 0%Z.
Proof.
  split; [reflexivity|]. split; [by repeat constructor|]. split; [by repeat constructor|].
  destruct (flag_Parse no_ext tt demo_args) as [o z rest| |] eqn:Hf; [|discriminate Hf|discriminate Hf].
  exists o. apply (main_follows_plan no_ext tt demo_grow demo_args o z rest demo_main.1.2 0%Z Hf).
  exact (run_exec demo_env (main no_ext tt demo_grow demo_args) 7).
Defined.
